(* ===== verification/_CoqProject ===== *)
-Q . S2P
Prelude.v
Decimal.v
Util.v
Glob.v
Endianconv.v
Intset.v
Sds.v
SdsString.v
SdsArgs.v
SdsFmt.v
Object.v
Networking.v
Requests.v
Dict.v
DictMap.v
DictScan.v
Ziplist.v
ZipRep.v
ZipUpdate.v
ZipInsert.v
ZipDelete.v
ZipList.v
ZipRefine.v
Zskiplist.v
ZslSpec.v
ZslInsert.v
ZslDelete.v
ZslRange.v
ZslRank.v
ZslRefine.v
Lzf.v
Crc.v
KeySlot.v
Cluster.v
