(* ===== verification/Prelude.v ===== *)
(** * Redis 4.0.0: a verification of its core routines

    The repository holds the sources of Redis 1.3.6, 2.8.0 and 4.0.0 with their
    vendored dependencies.  This library models the 4.0.0 server, file names
    below being those of src/redis-4.0.0/src.

    ** How the program is put together, and where each part is

    A client's bytes are read into a query buffer, an sds (networking.c over
    sds.c); complete requests are cut from its front, inline ones by
    sdssplitargs, and become vectors of string objects (object.c), on which the
    handler of the command is called.  Handlers work on dictionaries (dict.c)
    from keys to values, which are strings or structures: integer sets
    (intset.c), ziplists (ziplist.c), skiplists (t_zset.c).  Persistence
    compresses strings (lzf_c.c, lzf_d.c) and sums what it writes (crc64.c).  In
    cluster mode a key belongs to a slot (keyHashSlot over crc16.c), and nodes
    agree on the owner of each slot by epochs, votes and failure reports
    (cluster.c).

    - Prelude: machine integers, buffers with checked accesses, bytes,
      automation.
    - Decimal: decimal notation as a specification.  Util: util.c, digits10,
      ll2string, string2ll, string2l.  Glob: util.c, stringmatchlen.
    - Endianconv: endianconv.c.  Intset: intset.c.
    - Sds: sds.h and sds.c, headers, allocation, growth, copies.  SdsString:
      numbers, trimming, ranges, comparison, splitting and joining, printf,
      quoted representation.  SdsArgs: sdssplitargs.  SdsFmt: sdscatfmt.
    - Object: the string objects of object.c.
    - Networking: networking.c from readQueryFromClient to the call of
      processCommand.  Requests: its behaviour on streams of RESP requests.
    - Dict: dict.c, tables and operations.  DictMap: they are finite maps.
      DictScan: dictScan.
    - Ziplist: ziplist.c.  ZipRep: what its bytes stand for.  ZipUpdate: the
      cascade of updates.  ZipInsert, ZipDelete, ZipList: what its operations do
      to a list of strings.  ZipRefine: sequences of calls, and merging.
    - Zskiplist: t_zset.c, the skiplist.  ZslSpec: what it stands for, and its
      searches.  ZslInsert, ZslDelete, ZslRange, ZslRank: its operations.
      ZslRefine: it is an ordered list.
    - Lzf: lzf_c.c and lzf_d.c.  Crc: crc16.c and crc64.c.
    - KeySlot: cluster.c, keyHashSlot.  Cluster: the state one cluster node
      keeps (slot table, nodes, epochs, failure reports, manual failover) and
      the operations on it.

    Definitions keep the names of the C functions and of the struct fields.

    ** Conventions

    A C integer is a Z with its wrap-around written out (u8 to u64, i8 to i64
    below).  An object in memory is a list of bytes; an access outside it has
    no behaviour in C, so every operation that touches memory returns an
    option, and None is such an access, a failed serverAssert, a NULL
    dereference, or a loop that has run out of fuel.  A theorem that an
    operation returns Some therefore states memory safety and termination as
    well; no theorem has success as a premise where the code is meant to
    succeed, and where a theorem says that the code goes wrong it gives the
    value returned, or None for every fuel that suffices elsewhere.  What
    allocation leaves in fresh memory is an arbitrary function.  zmalloc ends
    the process when memory is exhausted, so it never returns NULL.  The host
    is amd64: little-endian, char signed, long of 64 bits.

    Overflow of a signed integer has no behaviour in C either.  It is modelled
    as the wrap-around of the machine in the places where the code can meet it
    (sdsll2str on LLONG_MIN, sdsrange up to INT_MAX), which are listed as
    findings; elsewhere the theorems bound the operands.

    Each call that reads a clock has its own argument, so that two reads may
    give different times.  Code outside src/ and the parts of the server
    behind an interface are parameters: the class Server (Networking) is what
    the request parser needs of the rest of the server, with the laws
    ServerLaws (Requests), which an instance satisfies; the class Score
    (Zskiplist) is the order of the doubles; the hash function of a
    dictionary, its key comparison and the number of keys in a slot are
    arguments.

    Fuel is a bound computed from the arguments, never a premise: the length of
    the buffer that a loop walks, the number of buckets that a table has, 64
    for the doublings of a size, the length of the pattern and the string for
    the recursion of the glob matcher, the length of a skiplist.  Each
    specification shows that it is enough.

    ** What the theorems show

    - Refinement of an abstract data type by every sequence of calls: an intset
      is a finite set of integers, a ziplist is a list of strings, whatever the
      encodings of its entries and the cascades of updates, a dictionary at any
      stage of rehashing is a finite map, an sds is a byte string whose header
      type is large enough, a skiplist is a list of members in strictly
      increasing order whose levels, spans and backward pointers are determined
      by the heights of its nodes.
    - dictScan returns every element that stays in the dictionary although the
      tables grow or shrink between two calls, unless a call meets a dictionary
      that is being rehashed to a smaller table; for that case a scan that
      misses an element is exhibited.  Scanning and rehashing terminate.
    - Requests: a stream of well-formed RESP requests that arrives in pieces of
      any sizes makes the server run exactly its commands, in order.
    - Round trips: integers and their notation, quoted strings and
      sdssplitargs, split and join, LZF, byte order.
    - Equivalence with reference definitions: the glob matcher against the
      matching relation of patterns, table driven checksums against polynomial
      division bit by bit, the printers against the decimal notation, sdscatfmt
      against the pieces of a format, string operations against lists of bytes.
    - Errors: truncated or malicious LZF input, unbalanced quotes, numbers that
      are not canonical or do not fit.
    - Cluster: one vote per epoch, the exact conditions of a vote, rebinding of
      slots by updates with the slot table and the bitmaps in agreement,
      resolution of configEpoch collisions.  Over any history of gossip, a node
      is flagged FAIL exactly when the reports kept, each of a different node
      that reported it while it was a master and not long ago, and this node, if
      it is a master, reach the quorum.
    - Defects that modelling showed are stated about the code as it is: a
      character class against an empty string, a replica without a master, a
      scan during a shrink, the 64k limit applied to a whole buffer, a ziplist
      merged with an empty one, the result of clusterDelNodeSlots.

    ** What is not modelled

    - The commands and the key space (db.c, t_*.c, multi.c), replication.c,
      sentinel.c, the main loop and server.c, scripts and modules.
    - System calls, timers, threads and processes: ae.c, anet.c, bio.c, aof.c,
      rio.c, rdb.c.
    - Floating point: ld2string and string2ld, INCRBYFLOAT, hyperloglog.c, geo.c.
      Scores are doubles other than NaN, of which the model keeps only the
      order.
    - Of cluster.c: messages as bytes, clusterCron, the failover of a replica,
      getNodeByQuery, nodes.conf and the CLUSTER command.  Of the gossip
      section: what it does to addresses, pong times and unknown nodes.
    - Of util.c: memtoll, the conversions of long double, random identifiers,
      paths.  Of dict.c: iterators, random keys, fingerprints, statistics.
    - quicklist.c, zipmap.c, rax.c, adlist.c, and Redis 1.3.6 and 2.8.0, earlier
      releases of the same program, and the vendored libraries in deps.

    ** This file

    Shared vocabulary: the machine integers of the C code, raw memory buffers
    with checked accesses, little-endian byte encodings, and the automation the
    component files use. *)

From Stdlib Require Import Ascii String.
From Stdlib Require Export ZArith Lia.
From stdpp Require Export base numbers list option sets sorting.
Export Stdlib.Strings.String.StringSyntax.

Declare Scope redis_scope.
Delimit Scope redis_scope with redis.
Open Scope Z_scope.

(** ** Automation *)

Create HintDb redis.

(** Splits every boolean integer test of the goal or of a hypothesis. *)
Ltac ztest_step :=
  match goal with
  | |- context [Z.ltb ?a ?b] => destruct (Z.ltb_spec a b)
  | |- context [Z.leb ?a ?b] => destruct (Z.leb_spec a b)
  | |- context [Z.eqb ?a ?b] => destruct (Z.eqb_spec a b)
  | |- context [Z.gtb ?a ?b] => rewrite (Z.gtb_ltb a b)
  | |- context [Z.geb ?a ?b] => rewrite (Z.geb_leb a b)
  | H : context [Z.ltb ?a ?b] |- _ => destruct (Z.ltb_spec a b)
  | H : context [Z.leb ?a ?b] |- _ => destruct (Z.leb_spec a b)
  | H : context [Z.eqb ?a ?b] |- _ => destruct (Z.eqb_spec a b)
  | H : context [Z.gtb ?a ?b] |- _ => rewrite (Z.gtb_ltb a b) in H
  | H : context [Z.geb ?a ?b] |- _ => rewrite (Z.geb_leb a b) in H
  end.
Ltac ztests := repeat (ztest_step; simpl; try lia).

(** Linear arithmetic with the quotients and remainders of constants. *)
Ltac dlia := Z.div_mod_to_equations; nia.

(** Evaluates the powers of two whose exponent is a closed term. *)
Ltac pow_consts :=
  repeat match goal with
    | |- context [2 ^ ?x] => let y := eval vm_compute in (2 ^ x) in
        lazymatch y with Z.pos _ => change (2 ^ x) with y end
    | H : context [2 ^ ?x] |- _ => let y := eval vm_compute in (2 ^ x) in
        lazymatch y with Z.pos _ => change (2 ^ x) with y in H end
    end.

(** Equality of results: componentwise, the integers by linear arithmetic. *)
Ltac fpair :=
  repeat match goal with
    | |- Some _ = Some _ => f_equal
    | |- (_, _) = (_, _) => f_equal
    end; try done; try lia.

(** Runs the option monad, evaluates the tests on concrete numbers. *)
Ltac mstep := cbn [mbind option_bind Z.eqb Pos.eqb Z.leb Z.ltb Z.compare Pos.compare Pos.compare_cont andb orb negb].

(** ** Machine integers

    An unsigned [w]-bit integer is its value in [0, 2^w); conversion wraps
    around.  A signed one is its two's complement value. *)

Definition wrapu (w : Z) (z : Z) : Z := z mod 2 ^ w.
Definition wraps (w : Z) (z : Z) : Z := (z + 2 ^ (w - 1)) mod 2 ^ w - 2 ^ (w - 1).

Definition u8 (z : Z) : Z := z mod 256.
Definition u16 (z : Z) : Z := z mod 65536.
Definition u32 (z : Z) : Z := z mod 4294967296.
Definition u64 (z : Z) : Z := z mod 18446744073709551616.
Definition i8 (z : Z) : Z := (z + 128) mod 256 - 128.
Definition i16 (z : Z) : Z := (z + 32768) mod 65536 - 32768.
Definition i32 (z : Z) : Z := (z + 2147483648) mod 4294967296 - 2147483648.
Definition i64 (z : Z) : Z :=
  (z + 9223372036854775808) mod 18446744073709551616 - 9223372036854775808.

Definition in_u32 (z : Z) : Prop := 0 <= z < 4294967296.
Definition in_u64 (z : Z) : Prop := 0 <= z < 18446744073709551616.
Definition in_i64 (z : Z) : Prop := -9223372036854775808 <= z < 9223372036854775808.

Definition LLONG_MAX : Z := 9223372036854775807.
Definition LLONG_MIN : Z := -9223372036854775808.
Definition ULLONG_MAX : Z := 18446744073709551615.

(** Unfolds the machine integers and decides the linear goal. *)
Ltac mlia :=
  unfold u8, u16, u32, u64, i8, i16, i32, i64, in_u32, in_u64, in_i64,
    LLONG_MAX, LLONG_MIN, ULLONG_MAX in *;
  Z.div_mod_to_equations; lia.

(** Rewrites a boolean integer test with the value linear arithmetic gives it. *)
Ltac ztrue t :=
  replace t with true
    by (symmetry; first [apply Z.ltb_lt | apply Z.leb_le | apply Z.eqb_eq]; first [lia | simpl; lia | mlia]).
Ltac zfalse t :=
  replace t with false
    by (symmetry; first [apply Z.ltb_ge | apply Z.leb_gt | apply Z.eqb_neq]; first [lia | simpl; lia | mlia]).

Lemma u8_small z : 0 <= z < 256 -> u8 z = z.
Proof. apply Z.mod_small. Qed.
Lemma u16_small z : 0 <= z < 65536 -> u16 z = z.
Proof. apply Z.mod_small. Qed.
Lemma u32_small z : 0 <= z < 4294967296 -> u32 z = z.
Proof. apply Z.mod_small. Qed.
Lemma u64_small z : 0 <= z < 18446744073709551616 -> u64 z = z.
Proof. apply Z.mod_small. Qed.
Lemma i32_small z : -2147483648 <= z < 2147483648 -> i32 z = z.
Proof. mlia. Qed.
Lemma i64_small z : in_i64 z -> i64 z = z.
Proof. mlia. Qed.

(** The error codes of server.h. *)
Definition C_OK : Z := 0.
Definition C_ERR : Z := -1.

(** ** Lengths and memory buffers *)

Abbreviation zlen l := (Z.of_nat (length l)) (only parsing).

Definition byte_ok (b : Z) : Prop := 0 <= b < 256.
Definition bytes_ok (l : list Z) : Prop := Forall byte_ok l.

(** [b[i]], [b[i] = v], and the block accesses memcpy, memmove and memset make. *)
Definition bget (b : list Z) (i : Z) : option Z :=
  if 0 <=? i then b !! Z.to_nat i else None.

Definition bread (b : list Z) (off n : Z) : option (list Z) :=
  if (0 <=? off) && (0 <=? n) && (off + n <=? zlen b)
  then Some (take (Z.to_nat n) (drop (Z.to_nat off) b)) else None.

Definition bwrite (b : list Z) (off : Z) (bs : list Z) : option (list Z) :=
  if (0 <=? off) && (off + zlen bs <=? zlen b)
  then Some (take (Z.to_nat off) b ++ bs ++ drop (Z.to_nat off + length bs) b)
  else None.

Definition bset (b : list Z) (i v : Z) : option (list Z) := bwrite b i [v].

(** memmove(b+dst, b+src, n) *)
Definition bmove (b : list Z) (dst src n : Z) : option (list Z) :=
  t ← bread b src n; bwrite b dst t.

(** memset(b+off, c, n) *)
Definition bfill (b : list Z) (off c n : Z) : option (list Z) :=
  if 0 <=? n then bwrite b off (replicate (Z.to_nat n) c) else None.

Lemma bget_app_mid pre x post i :
  i = zlen pre -> bget (pre ++ x :: post) i = Some x.
Proof.
  intros ->. unfold bget. rewrite (proj2 (Z.leb_le _ _)) by lia.
  rewrite Nat2Z.id. by apply list_lookup_middle.
Qed.

Lemma bget_mid pre x post : bget (pre ++ x :: post) (zlen pre) = Some x.
Proof. by apply bget_app_mid. Qed.
Lemma bget_app_mid1 pre x y post : bget (pre ++ x :: y :: post) (zlen pre + 1) = Some y.
Proof.
  rewrite cons_middle, app_assoc. apply bget_app_mid. rewrite length_app. simpl. lia.
Qed.
Lemma bget_app_mid2 pre x y z post : bget (pre ++ x :: y :: z :: post) (zlen pre + 2) = Some z.
Proof.
  rewrite (cons_middle x), app_assoc, (cons_middle y), app_assoc.
  apply bget_app_mid. rewrite !length_app. simpl. lia.
Qed.

Lemma bget_0 x l : bget (x :: l) 0 = Some x.
Proof. done. Qed.
Lemma bget_1 x y l : bget (x :: y :: l) 1 = Some y.
Proof. done. Qed.

Lemma bget_2 x y z l : bget (x :: y :: z :: l) 2 = Some z.
Proof. done. Qed.
Lemma bget_3 x y z u l : bget (x :: y :: z :: u :: l) 3 = Some u.
Proof. done. Qed.

(** Reading behind a prefix. *)
Lemma bget_pre pre l i : 0 <= i -> bget (pre ++ l) (zlen pre + i) = bget l i.
Proof.
  intros Hi. unfold bget. rewrite !(proj2 (Z.leb_le _ _)) by lia.
  rewrite lookup_app_r by lia. f_equal. lia.
Qed.

Lemma bget_lookup b i : 0 <= i -> bget b i = b !! Z.to_nat i.
Proof. intros. unfold bget. by rewrite (proj2 (Z.leb_le _ _)). Qed.

Lemma bget_Some b i x : bget b i = Some x -> 0 <= i < zlen b.
Proof.
  unfold bget. destruct (Z.leb_spec 0 i); [|done].
  intros ?%lookup_lt_Some. lia.
Qed.

Lemma bget_is_Some b i : 0 <= i < zlen b -> is_Some (bget b i).
Proof.
  intros. rewrite bget_lookup by lia. apply lookup_lt_is_Some. lia.
Qed.

Lemma bread_eq b off n :
  0 <= off -> 0 <= n -> off + n <= zlen b ->
  bread b off n = Some (take (Z.to_nat n) (drop (Z.to_nat off) b)).
Proof.
  intros. unfold bread.
  by rewrite !(proj2 (Z.leb_le _ _)) by lia.
Qed.

Lemma bread_app pre mid post off n :
  off = zlen pre -> n = zlen mid ->
  bread (pre ++ mid ++ post) off n = Some mid.
Proof.
  intros -> ->. rewrite bread_eq by (rewrite ?length_app; lia).
  by rewrite !Nat2Z.id, drop_app_length, take_app_length.
Qed.

Lemma bread_0 mid post off n : off = 0 -> n = zlen mid -> bread (mid ++ post) off n = Some mid.
Proof. intros -> ->. by apply (bread_app []). Qed.

Lemma bread_all b : bread b 0 (zlen b) = Some b.
Proof. rewrite <-(app_nil_r b) at 1. by apply bread_0. Qed.

Lemma bread_length b off n bs : bread b off n = Some bs -> zlen bs = n.
Proof.
  unfold bread. destruct (Z.leb_spec 0 off), (Z.leb_spec 0 n); simpl; try done.
  destruct (Z.leb_spec (off + n) (zlen b)); [|done]. intros [= <-].
  rewrite length_take, length_drop. lia.
Qed.

Lemma bwrite_eq b off bs :
  0 <= off -> off + zlen bs <= zlen b ->
  bwrite b off bs =
    Some (take (Z.to_nat off) b ++ bs ++ drop (Z.to_nat off + length bs) b).
Proof.
  intros. unfold bwrite. by rewrite !(proj2 (Z.leb_le _ _)) by lia.
Qed.

Lemma bset_insert b i v : 0 <= i < zlen b -> bset b i v = Some (<[Z.to_nat i := v]> b).
Proof.
  intros Hi. unfold bset. rewrite bwrite_eq by (cbn [length]; lia). f_equal.
  by rewrite insert_take_drop, Nat.add_1_r by lia.
Qed.

Lemma bwrite_app pre mid post off bs :
  off = zlen pre -> length bs = length mid ->
  bwrite (pre ++ mid ++ post) off bs = Some (pre ++ bs ++ post).
Proof.
  intros -> Hl. rewrite bwrite_eq by (rewrite ?length_app; lia).
  rewrite Nat2Z.id, take_app_length, Hl.
  by rewrite drop_app_add, drop_app_length.
Qed.

Lemma bwrite_0 mid post off bs :
  off = 0 -> length bs = length mid -> bwrite (mid ++ post) off bs = Some (bs ++ post).
Proof. intros ->. by apply (bwrite_app []). Qed.

Lemma bset_app pre x post off v :
  off = zlen pre -> bset (pre ++ x :: post) off v = Some (pre ++ v :: post).
Proof. intros. by apply (bwrite_app pre [x] post off [v]). Qed.

Lemma bwrite_length b off bs b' :
  bwrite b off bs = Some b' -> length b' = length b.
Proof.
  unfold bwrite. destruct (Z.leb_spec 0 off); simpl; [|done].
  destruct (Z.leb_spec (off + zlen bs) (zlen b)); [|done]. intros [= <-].
  rewrite !length_app, length_take, length_drop. lia.
Qed.

Lemma bytes_ok_app a b : bytes_ok (a ++ b) <-> bytes_ok a /\ bytes_ok b.
Proof. apply Forall_app. Qed.

Lemma bytes_ok_take n l : bytes_ok l -> bytes_ok (take n l).
Proof. apply Forall_take. Qed.
Lemma bytes_ok_drop n l : bytes_ok l -> bytes_ok (drop n l).
Proof. apply Forall_drop. Qed.
#[export] Hint Resolve bytes_ok_take bytes_ok_drop : redis.

Lemma bytes_ok_bwrite b off bs b' :
  bytes_ok b -> bytes_ok bs -> bwrite b off bs = Some b' -> bytes_ok b'.
Proof.
  intros Hb Hbs. unfold bwrite. case_match; [|done]. intros [= <-].
  rewrite !bytes_ok_app. eauto with redis.
Qed.

(** ** Little-endian integers *)

Fixpoint le_encode (n : nat) (z : Z) : list Z :=
  match n with
  | O => []
  | S n' => z mod 256 :: le_encode n' (z / 256)
  end.

Fixpoint le_decode (bs : list Z) : Z :=
  match bs with
  | [] => 0
  | b :: bs' => b + 256 * le_decode bs'
  end.

Lemma length_le_encode n z : length (le_encode n z) = n.
Proof. revert z. induction n; intros; simpl; auto. Qed.

Lemma le_encode_ok n z : bytes_ok (le_encode n z).
Proof.
  revert z. induction n as [|n IH]; intros z; simpl; constructor.
  - apply Z.mod_pos_bound. lia.
  - apply IH.
Qed.
#[export] Hint Resolve le_encode_ok : redis.

Lemma pow256_S n : 2 ^ (8 * Z.of_nat (S n)) = 256 * 2 ^ (8 * Z.of_nat n).
Proof.
  replace (8 * Z.of_nat (S n)) with (8 + 8 * Z.of_nat n) by lia.
  by rewrite Z.pow_add_r by lia.
Qed.

Lemma le_decode_encode n z : le_decode (le_encode n z) = z mod 2 ^ (8 * Z.of_nat n).
Proof.
  revert z. induction n as [|n IH]; intros z.
  - simpl. by rewrite Z.mod_1_r.
  - rewrite pow256_S. cbn [le_encode le_decode]. rewrite IH.
    rewrite Z.rem_mul_r by lia. lia.
Qed.

Lemma le_decode_bound bs : bytes_ok bs -> 0 <= le_decode bs < 2 ^ (8 * zlen bs).
Proof.
  induction 1 as [|b bs Hb Hbs IH]; [simpl; lia|].
  cbn [length le_decode]. rewrite pow256_S. unfold byte_ok in Hb. lia.
Qed.

Lemma le_encode_decode bs : bytes_ok bs -> le_encode (length bs) (le_decode bs) = bs.
Proof.
  induction 1 as [|b bs Hb Hbs IH]; [done|]. simpl. unfold byte_ok in Hb.
  f_equal; [dlia|]. etrans; [|exact IH]. f_equal. dlia.
Qed.

Lemma le_encode_mod n z : le_encode n (z mod 2 ^ (8 * Z.of_nat n)) = le_encode n z.
Proof.
  rewrite <-le_decode_encode. rewrite <-(length_le_encode n z) at 1.
  apply le_encode_decode, le_encode_ok.
Qed.

(** ** Lists *)

Lemma list_filter_all {A} (P : A -> Prop) `{!forall x, Decision (P x)} (l : list A) :
  Forall P l -> filter P l = l.
Proof.
  induction 1 as [|x l Hx Hl IH]; [done|]. by rewrite filter_cons_True, IH.
Qed.

(** A test that holds below [n], checked by evaluation. *)
Lemma forall_below n (f : Z -> bool) :
  forallb f (seqZ 0 n) = true -> forall i, 0 <= i < n -> f i = true.
Proof.
  intros H i Hi. rewrite forallb_forall in H. apply H, list_elem_of_In, elem_of_seqZ. lia.
Qed.

(** Splitting a list at a length. *)
Lemma length_split_tail {A} (l : list A) n :
  (n <= length l)%nat -> exists a b, l = a ++ b /\ length a = n /\ length b = (length l - n)%nat.
Proof.
  intros. exists (take n l), (drop n l).
  rewrite take_drop, length_take, length_drop. repeat split; lia.
Qed.

(** ** Characters and strings

    A [char] is the byte it is stored as; [i8] of it is its value as an [int]
    where the source promotes it. *)

Definition str (s : string) : list Z :=
  map (fun c => Z.of_N (N_of_ascii c)) (list_ascii_of_string s).
Arguments str _%_string_scope.

Abbreviation ch_nul := 0.
Abbreviation ch_bang := 33.
Abbreviation ch_dquote := 34.
Abbreviation ch_squote := 39.
Abbreviation ch_star := 42.
Abbreviation ch_minus := 45.
Abbreviation ch_0 := 48.
Abbreviation ch_1 := 49.
Abbreviation ch_9 := 57.
Abbreviation ch_qmark := 63.
Abbreviation ch_lbrack := 91.
Abbreviation ch_bslash := 92.
Abbreviation ch_rbrack := 93.
Abbreviation ch_caret := 94.

(** <ctype.h> in the "C" locale, on [int] arguments. *)
Definition tolower (c : Z) : Z := if (65 <=? c) && (c <=? 90) then c + 32 else c.
Definition toupper (c : Z) : Z := if (97 <=? c) && (c <=? 122) then c - 32 else c.
Definition isdigit (c : Z) : bool := (48 <=? c) && (c <=? 57).
Definition isspace (c : Z) : bool := (c =? 32) || ((9 <=? c) && (c <=? 13)).
Definition isprint (c : Z) : bool := (32 <=? c) && (c <=? 126).

(** strlen of the string that starts at offset [off] of a buffer; [None] when
    the buffer holds no terminator from there on. *)
Fixpoint strlen_list (l : list Z) : option Z :=
  match l with
  | [] => None
  | c :: l' => if c =? 0 then Some 0 else n ← strlen_list l'; Some (1 + n)
  end.
Definition strlen (b : list Z) (off : Z) : option Z :=
  if 0 <=? off then strlen_list (drop (Z.to_nat off) b) else None.

Lemma strlen_list_app s post :
  Forall (fun c => c <> 0) s -> strlen_list (s ++ 0 :: post) = Some (zlen s).
Proof.
  induction 1 as [|c s Hc Hs IH]; [done|]. cbn [app strlen_list].
  destruct (Z.eqb_spec c 0); [done|]. rewrite IH. cbn [mbind option_bind length]. f_equal. lia.
Qed.

Lemma strlen_app pre s post off :
  off = zlen pre -> Forall (fun c => c <> 0) s ->
  strlen (pre ++ s ++ 0 :: post) off = Some (zlen s).
Proof.
  intros -> Hs. unfold strlen. rewrite (proj2 (Z.leb_le _ _)) by lia.
  rewrite Nat2Z.id, drop_app_length. by apply strlen_list_app.
Qed.
(** The characters before the first NUL, and whether strcasecmp gives 0. *)
Fixpoint c_string (l : list Z) : list Z :=
  match l with [] => [] | c :: l => if c =? 0 then [] else c :: c_string l end.
Definition strcase_eq (a b : list Z) : bool := bool_decide (map tolower (c_string a) = map tolower (c_string b)).

(** ** Heap blocks

    zmalloc and zrealloc hand out bytes of unspecified value, here those of a
    function [junk] from offsets to bytes. *)

Definition zrealloc (junk : Z -> Z) (b : list Z) (n : Z) : list Z :=
  take (Z.to_nat n) b ++ map junk (seqZ (zlen b) (n - zlen b)).

Lemma zrealloc_grow junk b n :
  zlen b <= n -> exists fresh, zrealloc junk b n = b ++ fresh /\ zlen fresh = n - zlen b.
Proof.
  intros. eexists. unfold zrealloc. rewrite take_ge by lia. split; [done|].
  rewrite length_map, length_seqZ. lia.
Qed.

Lemma zrealloc_shrink junk a b n : n = zlen a -> zrealloc junk (a ++ b) n = a.
Proof.
  intros ->. unfold zrealloc. rewrite Nat2Z.id, take_app_length, length_app, seqZ_nil by lia.
  apply app_nil_r.
Qed.

(** ** Bits *)

Lemma lor_add a b k : 0 <= k -> 0 <= a < 2 ^ k -> Z.lor a (Z.shiftl b k) = a + b * 2 ^ k.
Proof.
  intros Hk Ha. rewrite Z.shiftl_mul_pow2 by done. rewrite <-Z.lxor_lor, <-Z.add_nocarry_lxor; [done|..].
  all: apply Z.bits_inj'; intros i Hi; rewrite Z.land_spec, Z.bits_0; destruct (Z.lt_ge_cases i k);
    [rewrite Z.mul_pow2_bits_low by lia; apply andb_false_r|].
  all: rewrite <-(Z.mod_small a (2 ^ k)), Z.mod_pow2_bits_high by lia; done.
Qed.

(** ** Arrays of fixed-width integers *)

Definition enc_all (n : nat) (l : list Z) : list Z := concat (map (le_encode n) l).

Lemma length_enc_all n l : length (enc_all n l) = (length l * n)%nat.
Proof.
  unfold enc_all. induction l as [|v l IH]; [done|].
  simpl. by rewrite length_app, length_le_encode, IH.
Qed.

Lemma enc_all_app n l1 l2 : enc_all n (l1 ++ l2) = enc_all n l1 ++ enc_all n l2.
Proof. unfold enc_all. by rewrite map_app, concat_app. Qed.

Lemma enc_all_cons n v l : enc_all n (v :: l) = le_encode n v ++ enc_all n l.
Proof. done. Qed.

(** Element [pos] of an array of [n]-byte integers is at offset [pos] times [n]. *)
Lemma bread_enc_all n l1 v l2 post off :
  off = zlen l1 * Z.of_nat n ->
  bread (enc_all n (l1 ++ v :: l2) ++ post) off (Z.of_nat n) = Some (le_encode n v).
Proof.
  intros ->. rewrite enc_all_app, enc_all_cons, <-!app_assoc.
  apply bread_app; rewrite ?length_enc_all, ?length_le_encode; lia.
Qed.
