(* ===== verification/Decimal.v ===== *)
(** The decimal notation of integers as a specification, independent of the
    routines that print and parse it (util.c, sds.c): the value of a digit
    string by Horner's rule, canonical notations, and their uniqueness. *)

From S2P Require Import Prelude.

(** Value of the digits [s] read after the number [acc]. *)
Fixpoint horner (acc : Z) (s : list Z) : Z :=
  match s with
  | [] => acc
  | c :: s' => horner (10 * acc + (c - ch_0)) s'
  end.

Definition digit (c : Z) : Prop := ch_0 <= c <= ch_9.

#[export] Instance digit_dec c : Decision (digit c).
Proof. unfold digit. apply _. Defined.

(** [s] is the canonical notation of the natural number [v]: digits only and no
    leading zero, except in "0" itself. *)
Record is_dec (s : list Z) (v : Z) : Prop := {
  dec_digits : Forall digit s;
  dec_lead : (exists c s', s = c :: s' /\ c <> ch_0) \/ s = [ch_0];
  dec_value : horner 0 s = v
}.

(** The same for integers: a minus sign precedes the notation of a positive
    number. *)
Definition is_sdec (s : list Z) (v : Z) : Prop :=
  (0 <= v /\ is_dec s v) \/
  (v < 0 /\ exists t, s = ch_minus :: t /\ is_dec t (- v)).

(** ** Horner values *)

Lemma horner_app acc s t : horner acc (s ++ t) = horner (horner acc s) t.
Proof. revert acc. induction s as [|c s IH]; intros; simpl; auto. Qed.

Lemma horner_acc acc s : horner acc s = acc * 10 ^ zlen s + horner 0 s.
Proof.
  revert acc. induction s as [|c s IH]; intros acc; [simpl; lia|].
  cbn [horner length]. rewrite (IH (10 * acc + _)), (IH (10 * 0 + _)).
  rewrite Nat2Z.inj_succ, Z.pow_succ_r by lia. lia.
Qed.

Lemma horner_bound s : Forall digit s -> 0 <= horner 0 s < 10 ^ zlen s.
Proof.
  induction s as [|c s IH] using rev_ind; [simpl; lia|].
  intros [Hs Hc]%Forall_app. apply Forall_cons_1 in Hc as [Hc _].
  specialize (IH Hs). rewrite horner_app. cbn [horner].
  rewrite length_app, Nat2Z.inj_add. simpl (length [c]). unfold digit in Hc.
  rewrite Z.pow_add_r by lia. lia.
Qed.

Lemma horner_mono acc s : 0 <= acc -> Forall digit s -> acc <= horner acc s.
Proof.
  intros Ha Hs. rewrite horner_acc. pose proof (horner_bound s Hs).
  pose proof (Z.pow_pos_nonneg 10 (zlen s)). nia.
Qed.

Lemma horner_snoc acc s c : horner acc (s ++ [c]) = 10 * horner acc s + (c - ch_0).
Proof. by rewrite horner_app. Qed.

(** ** Canonical notations are unique *)

Lemma horner_inj s t :
  Forall digit s -> Forall digit t -> length s = length t ->
  horner 0 s = horner 0 t -> s = t.
Proof.
  revert t. induction s as [|c s IH] using rev_ind; intros t Hs Ht Hl Hv.
  - destruct t; [done|]. simpl in Hl. lia.
  - destruct t as [|d t _] using rev_ind.
    { rewrite length_app in Hl. simpl in Hl. lia. }
    apply Forall_app in Hs as [Hs Hc], Ht as [Ht Hd].
    apply Forall_cons_1 in Hc as [Hc _], Hd as [Hd _].
    rewrite !length_app in Hl. simpl in Hl.
    rewrite !horner_snoc in Hv. unfold digit in *.
    assert (horner 0 s = horner 0 t /\ c = d) as [Hv' ->] by lia.
    f_equal. apply IH; auto. lia.
Qed.

Lemma is_dec_nonempty s v : is_dec s v -> 1 <= zlen s.
Proof. intros [_ [(c&s'&->&_)| ->] _]; simpl; lia. Qed.

Lemma is_dec_nonneg s v : is_dec s v -> 0 <= v.
Proof. intros [H _ <-]. pose proof (horner_bound s H). lia. Qed.

(** The length of a canonical notation brackets its value. *)
Lemma is_dec_lower s v : is_dec s v -> v = 0 \/ 10 ^ (zlen s - 1) <= v.
Proof.
  intros [Hd [(c&s'&->&Hc)| ->] <-]; [right|by left].
  apply Forall_cons_1 in Hd as [Hd Hs]. cbn [horner length].
  rewrite horner_acc. pose proof (horner_bound s' Hs). unfold digit in Hd.
  replace (Z.of_nat (S (length s')) - 1) with (zlen s') by lia.
  pose proof (Z.pow_pos_nonneg 10 (zlen s')). nia.
Qed.

Lemma is_dec_upper s v : is_dec s v -> v < 10 ^ zlen s.
Proof. intros [Hd _ <-]. by apply horner_bound. Qed.

Lemma is_dec_zero s : is_dec s 0 -> s = [ch_0].
Proof.
  intros [Hd [(c&s'&->&Hc)| ->] Hv]; [exfalso|done].
  apply Forall_cons_1 in Hd as [Hd Hs]. cbn [horner] in Hv. unfold digit in Hd.
  pose proof (horner_mono (10 * 0 + (c - ch_0)) s' ltac:(lia) Hs). lia.
Qed.

Lemma pow10_bracket a b v :
  0 <= a -> 0 <= b -> 10 ^ (a - 1) <= v -> 10 ^ (b - 1) <= v ->
  v < 10 ^ a -> v < 10 ^ b -> a = b.
Proof.
  intros Ha Hb Ha1 Hb1 Ha2 Hb2.
  destruct (Z.lt_total a b) as [H|[H|H]]; [|done|].
  - assert (10 ^ a <= 10 ^ (b - 1)) by (apply Z.pow_le_mono_r; lia). lia.
  - assert (10 ^ b <= 10 ^ (a - 1)) by (apply Z.pow_le_mono_r; lia). lia.
Qed.

Lemma is_dec_inj s t v : is_dec s v -> is_dec t v -> s = t.
Proof.
  intros Hs Ht. destruct (Z.eq_dec v 0) as [->|Hv].
  { by rewrite (is_dec_zero s), (is_dec_zero t). }
  apply horner_inj; [apply Hs|apply Ht| |by rewrite (dec_value _ _ Hs), (dec_value _ _ Ht)].
  pose proof (is_dec_lower _ _ Hs). pose proof (is_dec_lower _ _ Ht).
  pose proof (is_dec_upper _ _ Hs). pose proof (is_dec_upper _ _ Ht).
  apply Nat2Z.inj, (pow10_bracket _ _ v); lia.
Qed.

Lemma is_sdec_inj s t v : is_sdec s v -> is_sdec t v -> s = t.
Proof.
  intros [[Hv Hs]|(Hv&s'&->&Hs)] [[Hv' Ht]|(Hv'&t'&->&Ht)]; try lia.
  - by eapply is_dec_inj.
  - f_equal. by eapply is_dec_inj.
Qed.

Lemma is_sdec_value s v w : is_sdec s v -> is_sdec s w -> v = w.
Proof.
  assert (Hm : forall t x, is_dec (ch_minus :: t) x -> False).
  { intros t x [H _ _]. apply Forall_cons_1 in H as [H _]. unfold digit in H. lia. }
  intros [[Hv Hs]|(Hv&s'&->&Hs)] [[Hv' Ht]|(Hv'&t'&Ht'&Ht)]; subst.
  - by rewrite <-(dec_value _ _ Hs), <-(dec_value _ _ Ht).
  - by apply Hm in Hs.
  - by apply Hm in Ht.
  - injection Ht' as ->. pose proof (dec_value _ _ Hs). pose proof (dec_value _ _ Ht). lia.
Qed.

Lemma is_sdec_nonempty s v : is_sdec s v -> 1 <= zlen s.
Proof.
  intros [[_ H]|(_&t&->&H)]; apply is_dec_nonempty in H; simpl; lia.
Qed.

(** Appending a digit to the notation of a positive number. *)
Lemma is_dec_snoc s v d :
  is_dec s v -> 0 < v -> 0 <= d < 10 -> is_dec (s ++ [ch_0 + d]) (10 * v + d).
Proof.
  intros [Hs Hl Hv] Hpos Hd. split.
  - apply Forall_app. split; [done|]. constructor; [|constructor]. unfold digit. lia.
  - left. destruct Hl as [(c&s'&->&Hc)| ->]; [by exists c, (s' ++ [ch_0 + d])|].
    simpl in Hv. lia.
  - rewrite horner_snoc, Hv. lia.
Qed.

Lemma is_dec_digit d : 0 <= d < 10 -> is_dec [ch_0 + d] d.
Proof.
  intros Hd. split.
  - constructor; [|constructor]. unfold digit. lia.
  - destruct (Z.eq_dec d 0) as [->|]; [by right|left]. exists (ch_0 + d), []. split; [done|lia].
  - simpl. lia.
Qed.
#[export] Hint Resolve is_dec_digit is_dec_snoc : redis.


Lemma is_dec_unsnoc s v :
  is_dec s v -> 10 <= v -> exists t, s = t ++ [ch_0 + v mod 10] /\ is_dec t (v / 10).
Proof.
  intros [Hs Hl Hv] H10. destruct s as [|c t _] using rev_ind; [simpl in Hv; lia|].
  apply Forall_app in Hs as [Ht Hc]. apply Forall_cons_1 in Hc as [Hc _].
  rewrite horner_snoc in Hv. unfold digit in Hc.
  assert (c = ch_0 + v mod 10 /\ horner 0 t = v / 10) as [-> Hq] by dlia.
  exists t. split; [done|]. split; [done| |done].
  left. destruct t as [|d t']; [simpl in Hv; lia|].
  destruct Hl as [(c'&s'&Heq&Hc')|Heq]; injection Heq; [intros; subst; eauto|].
  intros Hbad. by destruct t'.
Qed.

(** Every number has a notation. *)
Lemma is_dec_exists v : 0 <= v -> exists s, is_dec s v.
Proof.
  induction (Z.lt_wf 0 v) as [v _ IH]. intros Hv.
  destruct (Z.lt_ge_cases v 10) as [Hs|Hs]; [eauto using is_dec_digit|].
  destruct (IH (v / 10)) as [s Hd]; [dlia..|].
  exists (s ++ [ch_0 + v mod 10]). rewrite (Z.div_mod v 10) at 2 by lia.
  apply is_dec_snoc; [done|dlia..].
Qed.

Lemma is_sdec_exists v : exists s, is_sdec s v.
Proof.
  destruct (is_dec_exists (Z.abs v)) as [s Hs]; [lia|].
  destruct (Z.lt_ge_cases v 0).
  - exists (ch_minus :: s). right. split; [done|]. exists s. by rewrite Z.abs_neq in Hs by lia.
  - exists s. left. by rewrite Z.abs_eq in Hs.
Qed.

Lemma is_dec_u64_length s v : is_dec s v -> in_u64 v -> zlen s <= 20.
Proof.
  intros Hs Hv. destruct (is_dec_lower _ _ Hs) as [->|Hl].
  { by rewrite (is_dec_zero s). }
  destruct (Z.le_gt_cases (zlen s) 20); [done|].
  assert (10 ^ 20 <= 10 ^ (zlen s - 1)) by (apply Z.pow_le_mono_r; lia). mlia.
Qed.

Lemma is_dec_u64_len20 s v : is_dec s v -> in_u64 v -> (length s <= 20)%nat.
Proof. intros Hd Hv. pose proof (is_dec_u64_length s v Hd Hv). lia. Qed.

Lemma sdec_length s v : in_i64 v -> is_sdec s v -> (length s <= 20)%nat.
Proof.
  intros Hv [[H0 Hd]|(H0 & ds & -> & Hd)].
  - eapply is_dec_u64_len20; [done|mlia].
  - destruct (is_dec_lower _ _ Hd) as [?|Hl]; [lia|]. cbn [length].
    destruct (Z.lt_ge_cases 19 (zlen ds)); [|lia].
    assert (10 ^ 19 <= 10 ^ (zlen ds - 1)) by (apply Z.pow_le_mono_r; lia).
    unfold in_i64 in Hv. pow_consts. lia.
Qed.

Lemma sdec_chars s v : is_sdec s v -> Forall (fun x => x = ch_minus \/ digit x) s.
Proof.
  assert (Hdig : forall t w, is_dec t w -> Forall (fun x => x = ch_minus \/ digit x) t) by (intros t w [Hd _ _]; eapply Forall_impl; [exact Hd|]; auto).
  intros [[_ Hs]|(_ & t & -> & Hs)]; [by eapply Hdig|]. constructor; [by left|by eapply Hdig].
Qed.

Lemma sdec_nonzero s v : is_sdec s v -> Forall (fun x => x <> 0) s.
Proof. intros Hs%sdec_chars. eapply Forall_impl; [exact Hs|]. unfold digit. intros; lia. Qed.

Lemma sdec_bytes s v : is_sdec s v -> bytes_ok s.
Proof. intros Hs%sdec_chars. eapply Forall_impl; [exact Hs|]. unfold digit, byte_ok. intros; lia. Qed.
