(* ===== verification/Util.v ===== *)
(** util.c: printing and parsing of 64 bit integers ([digits10], [ll2string],
    [string2ll], [string2l]).

    [ll2string] writes into a caller's buffer, so it takes and returns the
    buffer's bytes; [string2ll] reads [slen] bytes of a buffer.  The outer
    option of a result is memory safety (see Prelude); the inner one is the
    success flag the C function returns together with the parsed value. *)

From S2P Require Import Prelude Decimal.

(** ** Definitions *)

(** digits10 recurses once on v / 10^12; the fuel covers two recursions. *)
Fixpoint digits10_fuel (fuel : nat) (v : Z) : option Z :=
  if v <? 10 then Some 1
  else if v <? 100 then Some 2
  else if v <? 1000 then Some 3
  else if v <? 1000000000000 then
    if v <? 100000000 then
      if v <? 1000000 then
        if v <? 10000 then Some 4
        else Some (5 + (if v >=? 100000 then 1 else 0))
      else Some (7 + (if v >=? 10000000 then 1 else 0))
    else if v <? 10000000000 then
      Some (9 + (if v >=? 1000000000 then 1 else 0))
    else Some (11 + (if v >=? 100000000000 then 1 else 0))
  else match fuel with
       | O => None
       | S fuel' => r ← digits10_fuel fuel' (v / 1000000000000); Some (12 + r)
       end.

Definition digits10 (v : Z) : option Z := digits10_fuel 2 v.

Definition sdigits10 (v : Z) : option Z :=
  if v <? 0 then
    let uv := if negb (v =? LLONG_MIN) then u64 (- v) else u64 LLONG_MAX + 1 in
    r ← digits10 uv; Some (r + 1)
  else digits10 v.

Definition digits_table : list Z := Eval compute in
  (str "0001020304050607080910111213141516171819" ++
   str "2021222324252627282930313233343536373839" ++
   str "4041424344454647484950515253545556575859" ++
   str "6061626364656667686970717273747576777879" ++
   str "8081828384858687888990919293949596979899")%list.

(** while (value >= 100) { ... }, two digits per turn. *)
Fixpoint ll2string_loop (fuel : nat) (dst : list Z) (next value : Z) : option (list Z * Z * Z) :=
  if 100 <=? value then
    match fuel with
    | O => None
    | S fuel' =>
        let i := (value mod 100) * 2 in
        c1 ← bget digits_table (i + 1);
        dst ← bset dst next c1;
        c0 ← bget digits_table i;
        dst ← bset dst (u32 (next - 1)) c0;
        ll2string_loop fuel' dst (u32 (next - 2)) (value / 100)
    end
  else Some (dst, next, value).

(** Returns the number of characters and the new contents of [dst]. *)
Definition ll2string (dst : list Z) (dstlen svalue : Z) : option (Z * list Z) :=
  let value := if svalue <? 0 then
                 if negb (svalue =? LLONG_MIN) then u64 (- svalue) else u64 LLONG_MAX + 1
               else u64 svalue in
  let negative := if svalue <? 0 then 1 else 0 in
  d ← digits10 value;
  let length := u32 (d + negative) in
  if dstlen <=? length then Some (0, dst) else
  let next := length in
  dst ← bset dst next ch_nul;
  let next := u32 (next - 1) in
  '(dst, next, value) ← ll2string_loop 10 dst next value;
  dst ← (if value <? 10 then bset dst next (ch_0 + value)
         else let i := value * 2 in
              c1 ← bget digits_table (i + 1);
              dst ← bset dst next c1;
              c0 ← bget digits_table i;
              bset dst (u32 (next - 1)) c0);
  dst ← (if negative =? 1 then bset dst 0 ch_minus else Some dst);
  Some (length, dst).

(** The digits of string2ll: the inner [None] is the "Overflow" return, the
    pair the value and the position of the first byte that is not a digit. *)
Fixpoint string2ll_loop (fuel : nat) (s : list Z) (slen plen v : Z) : option (option (Z * Z)) :=
  match fuel with
  | O => None
  | S fuel' =>
      if plen <? slen then
        c ← bget s plen;
        if (ch_0 <=? c) && (c <=? ch_9) then
          if ULLONG_MAX / 10 <? v then Some None else
          let v := u64 (v * 10) in
          if u64 (ULLONG_MAX - (c - ch_0)) <? v then Some None else
          string2ll_loop fuel' s slen (plen + 1) (u64 (v + (c - ch_0)))
        else Some (Some (v, plen))
      else Some (Some (v, plen))
  end.

Definition string2ll (s : list Z) (slen : Z) : option (option Z) :=
  if 0 =? slen then Some None else
  c ← bget s 0;
  if (slen =? 1) && (c =? ch_0) then Some (Some 0) else
  let negative := c =? ch_minus in
  let plen := if negative then 1 else 0 in
  if negative && (plen =? slen) then Some None else
  c ← bget s plen;
  if (ch_1 <=? c) && (c <=? ch_9) then
    r ← string2ll_loop (S (Z.to_nat slen)) s slen (plen + 1) (c - ch_0);
    match r with
    | None => Some None
    | Some (v, plen) =>
        if plen <? slen then Some None
        else if negative then
          if u64 (- (LLONG_MIN + 1)) + 1 <? v then Some None
          else Some (Some (i64 (u64 (- v))))
        else if LLONG_MAX <? v then Some None
        else Some (Some (i64 v))
    end
  else if (c =? ch_0) && (slen =? 1) then Some (Some 0)
  else Some None.

(** [long] is 64 bits wide, as on the platforms the server targets. *)
Definition LONG_MIN : Z := LLONG_MIN.
Definition LONG_MAX : Z := LLONG_MAX.

Definition string2l (s : list Z) (slen : Z) : option (option Z) :=
  r ← string2ll s slen;
  match r with
  | None => Some None
  | Some llval => if (llval <? LONG_MIN) || (LONG_MAX <? llval) then Some None else Some (Some llval)
  end.

Example ll2string_ex1 : ll2string (replicate 8 7) 8 (-1205) = Some (5, str "-1205" ++ [0; 7; 7]).
Proof. reflexivity. Qed.
Example ll2string_ex2 : ll2string (replicate 21 7) 21 LLONG_MIN = Some (20, str "-9223372036854775808" ++ [0]).
Proof. reflexivity. Qed.
Example string2ll_ex1 : string2ll (str "-9223372036854775808") 20 = Some (Some LLONG_MIN).
Proof. reflexivity. Qed.
Example string2ll_ex2 : string2ll (str "9223372036854775808") 19 = Some None.
Proof. reflexivity. Qed.

(** ** digits10 *)

(** [n] is the number of decimal digits of [v]. *)
Definition ndigits (v n : Z) : Prop :=
  1 <= n /\ (v = 0 /\ n = 1 \/ 10 ^ (n - 1) <= v < 10 ^ n).

Lemma digits10_fuel_small f v :
  0 <= v < 1000000000000 -> exists n, digits10_fuel f v = Some n /\ ndigits v n.
Proof.
  intros Hv. unfold ndigits.
  destruct f; cbn [digits10_fuel]; rewrite ?Z.geb_leb;
    repeat match goal with
      | |- context [if Z.ltb ?a ?b then _ else _] => destruct (Z.ltb_spec a b)
      | |- context [if Z.leb ?a ?b then _ else _] => destruct (Z.leb_spec a b)
      end; try lia; eexists; (split; [reflexivity|]); split; try lia; simpl; lia.
Qed.

Lemma digits10_fuel_large f v :
  1000000000000 <= v ->
  digits10_fuel (S f) v = r ← digits10_fuel f (v / 1000000000000); Some (12 + r).
Proof.
  intros. cbn [digits10_fuel].
  zfalse (v <? 10). zfalse (v <? 100). zfalse (v <? 1000). by zfalse (v <? 1000000000000).
Qed.

Lemma digits10_spec v : in_u64 v -> exists n, digits10 v = Some n /\ ndigits v n.
Proof.
  intros Hv. unfold digits10.
  destruct (Z.lt_ge_cases v 1000000000000) as [Hs|Hl].
  { apply digits10_fuel_small. unfold in_u64 in Hv. lia. }
  destruct (digits10_fuel_small 1 (v / 1000000000000)) as (n & Hn & Hb).
  { mlia. }
  exists (12 + n). split.
  - rewrite digits10_fuel_large by lia. by rewrite Hn.
  - destruct Hb as [Hn1 Hb]. split; [lia|right].
    assert (1 <= v / 1000000000000) by dlia.
    destruct Hb as [[??]|[H1 H2]]; [lia|].
    replace (12 + n - 1) with (12 + (n - 1)) by lia.
    rewrite !Z.pow_add_r by lia. change (10 ^ 12) with 1000000000000. dlia.
Qed.

Lemma ndigits_is_dec v n s : ndigits v n -> is_dec s v -> zlen s = n.
Proof.
  intros [H1 Hn] Hs. destruct (Z.eq_dec v 0) as [->|Hv].
  { destruct Hn as [[_ ->]|[? _]]; [by rewrite (is_dec_zero s)|].
    pose proof (Z.pow_pos_nonneg 10 (n - 1)). lia. }
  pose proof (is_dec_lower _ _ Hs). pose proof (is_dec_upper _ _ Hs).
  apply (pow10_bracket _ _ v); lia.
Qed.

(** ** ll2string *)

Lemma digits_table_spec k :
  0 <= k < 100 ->
  bget digits_table (k * 2) = Some (ch_0 + k / 10) /\
  bget digits_table (k * 2 + 1) = Some (ch_0 + k mod 10).
Proof.
  intros Hk.
  assert (H : Forall (fun k => bget digits_table (k * 2) = Some (ch_0 + k / 10) /\
    bget digits_table (k * 2 + 1) = Some (ch_0 + k mod 10)) (seqZ 0 100)).
  { repeat (constructor; [split; reflexivity|]). constructor. }
  rewrite Forall_seqZ in H. apply H. lia.
Qed.

(** Two digits of a notation are those of the table entry of [v mod 100]. *)
Lemma is_dec_unsnoc2 s v :
  is_dec s v -> 100 <= v ->
  exists t, s = t ++ [ch_0 + v mod 100 / 10; ch_0 + (v mod 100) mod 10] /\ is_dec t (v / 100).
Proof.
  intros Hs Hv. destruct (is_dec_unsnoc s v) as (t & -> & Ht); [done|lia|].
  destruct (is_dec_unsnoc t (v / 10)) as (t' & -> & Ht'); [done|dlia|].
  exists t'. rewrite Z.div_div in Ht' by lia. split; [|done].
  rewrite <-app_assoc. simpl. do 2 f_equal; [dlia|]. do 2 f_equal. dlia.
Qed.

(** Writing a list right after a prefix of known length. *)
Lemma bset_two front m1 m2 tail next a b :
  next = zlen front + 1 ->
  (dst ← bset (front ++ [m1; m2] ++ tail) next b; bset dst (next - 1) a)
  = Some (front ++ [a; b] ++ tail).
Proof.
  intros ->.
  change (front ++ [m1; m2] ++ tail) with (front ++ ([m1] ++ m2 :: tail)).
  rewrite app_assoc, bset_app by (rewrite length_app; simpl; lia).
  cbn [mbind option_bind]. rewrite <-app_assoc. cbn [app].
  by rewrite bset_app by lia.
Qed.

Lemma ll2string_loop_spec fuel : forall front mid tail s v next,
  is_dec s v -> v < 100 ^ (Z.of_nat fuel + 1) -> length mid = length s ->
  next = zlen front + zlen s - 1 -> next < 4294967296 ->
  exists s1 s2 mid' v', s = s1 ++ s2 /\ is_dec s1 v' /\ v' < 100 /\ length mid' = length s1 /\
    ll2string_loop fuel (front ++ mid ++ tail) next v =
      Some (front ++ mid' ++ s2 ++ tail, zlen front + zlen s1 - 1, v').
Proof.
  induction fuel as [|fuel IH]; intros front mid tail s v next Hs Hv Hm Hn Hn32;
    cbn [ll2string_loop]; destruct (Z.leb_spec 100 v) as [H100|H100].
  - simpl in Hv. lia.
  - exists s, [], mid, v. rewrite app_nil_r. by subst.
  - destruct (is_dec_unsnoc2 s v) as (t & -> & Ht); [done..|].
    pose proof (is_dec_nonempty _ _ Ht).
    rewrite length_app in *. cbn [length] in *. rewrite Nat2Z.inj_add in *. simpl (Z.of_nat 2) in *.
    destruct (length_split_tail mid (length t)) as (m1 & m2 & -> & Hm1 & Hm2); [lia|].
    rewrite Hm in Hm2. destruct m2 as [|x [|y [|]]]; simpl in Hm2; try lia.
    assert (Hk : 0 <= v mod 100 < 100) by dlia.
    destruct (digits_table_spec (v mod 100) Hk) as [-> ->].
    cbn [mbind option_bind].
    rewrite (u32_small (next - 1)), (u32_small (next - 2)) by lia.
    rewrite <-app_assoc, app_assoc.
    assert (Hw := bset_two (front ++ m1) x y tail next
      (ch_0 + v mod 100 / 10) (ch_0 + (v mod 100) mod 10)).
    rewrite length_app, Nat2Z.inj_add in Hw. specialize (Hw ltac:(lia)).
    destruct (bset _ next _) as [d1|]; cbn [mbind option_bind] in *; [|done].
    rewrite Hw. cbn [mbind option_bind]. rewrite <-app_assoc.
    destruct (IH front m1 ([ch_0 + v mod 100 / 10; ch_0 + (v mod 100) mod 10] ++ tail) t
      (v / 100) (next - 2)) as (s1 & s2 & mid' & v' & -> & Hs1 & Hv' & Hmid' & Hrun);
      [done| |done|lia|lia|].
    { rewrite Nat2Z.inj_succ, <-Z.add_1_l, <-Z.add_assoc, Z.pow_add_r in Hv by lia.
      change (100 ^ 1) with 100 in Hv. apply Z.div_lt_upper_bound; lia. }
    exists s1, (s2 ++ [ch_0 + v mod 100 / 10; ch_0 + (v mod 100) mod 10]), mid', v'.
    rewrite Hrun, <-!app_assoc. done.
  - exists s, [], mid, v. rewrite app_nil_r. by subst.
Qed.

(** The two ways the last one or two digits are written. *)
Lemma ll2string_last front mid tail s v next :
  is_dec s v -> v < 100 -> length mid = length s -> next = zlen front + zlen s - 1 ->
  next < 4294967296 ->
  (if v <? 10 then bset (front ++ mid ++ tail) next (ch_0 + v)
   else let i := v * 2 in
        c1 ← bget digits_table (i + 1);
        dst ← bset (front ++ mid ++ tail) next c1;
        c0 ← bget digits_table i;
        bset dst (u32 (next - 1)) c0) = Some (front ++ s ++ tail).
Proof.
  intros Hs Hv Hm Hn Hn32. pose proof (is_dec_nonneg _ _ Hs).
  destruct (Z.ltb_spec v 10) as [H10|H10].
  - assert (s = [ch_0 + v]) as -> by (eapply is_dec_inj; eauto using is_dec_digit).
    destruct mid as [|x [|]]; simpl in Hm, Hn; try lia. by apply bset_app; lia.
  - cbv zeta. destruct (digits_table_spec v) as [-> ->]; [lia|]. cbn [mbind option_bind].
    destruct (is_dec_unsnoc s v) as (t & -> & Ht); [done|lia|].
    assert (t = [ch_0 + v / 10]) as -> by (eapply is_dec_inj; eauto using is_dec_digit with lia;
      apply is_dec_digit; dlia).
    destruct mid as [|x [|y [|]]]; simpl in Hm; try lia.
    rewrite u32_small by (simpl in Hn; lia).
    rewrite (bset_two front x y tail); [done|]. simpl in Hn. lia.
Qed.

(** The absolute value the function prints, computed without overflow. *)
Lemma ll2string_abs sv :
  in_i64 sv ->
  (if sv <? 0 then if negb (sv =? LLONG_MIN) then u64 (- sv) else u64 LLONG_MAX + 1
   else u64 sv) = Z.abs sv.
Proof.
  intros Hs. destruct (Z.ltb_spec sv 0); [destruct (Z.eqb_spec sv LLONG_MIN)|]; simpl.
  - subst. reflexivity.
  - rewrite u64_small by mlia. lia.
  - rewrite u64_small by mlia. lia.
Qed.

(** A notation is a sign, if the number is negative, and the digits of its
    absolute value. *)
Lemma is_sdec_split s sv :
  is_sdec s sv -> exists front t, s = front ++ t /\ is_dec t (Z.abs sv) /\
    front = (if sv <? 0 then [ch_minus] else []) /\
    zlen front = (if sv <? 0 then 1 else 0).
Proof.
  intros [[Hp Hd]|(Hp&t&->&Hd)].
  - zfalse (sv <? 0). exists [], s. rewrite Z.abs_eq by lia. done.
  - ztrue (sv <? 0). exists [ch_minus], t. rewrite Z.abs_neq by lia. done.
Qed.

Lemma ll2string_short dst dstlen sv s :
  in_i64 sv -> is_sdec s sv -> dstlen <= zlen s -> ll2string dst dstlen sv = Some (0, dst).
Proof.
  intros Hsv Hs Hlen. unfold ll2string. rewrite ll2string_abs by done.
  destruct (digits10_spec (Z.abs sv)) as (n & -> & Hn); [mlia|].
  destruct (is_sdec_split s sv Hs) as (front & t & -> & Ht & _ & Hfl).
  cbn [mbind option_bind]. rewrite <-Hfl, <-(ndigits_is_dec _ _ _ Hn Ht).
  pose proof (is_dec_u64_length _ _ Ht ltac:(mlia)).
  rewrite length_app, Nat2Z.inj_add in Hlen.
  rewrite u32_small by (destruct (sv <? 0); lia).
  by ztrue (dstlen <=? zlen t + zlen front).
Qed.

Lemma ll2string_full dst dstlen sv s :
  in_i64 sv -> is_sdec s sv -> dstlen <= zlen dst -> zlen s < dstlen ->
  ll2string dst dstlen sv = Some (zlen s, s ++ [ch_nul] ++ drop (S (length s)) dst).
Proof.
  intros Hsv Hs Hdl Hlen. unfold ll2string. rewrite ll2string_abs by done.
  destruct (digits10_spec (Z.abs sv)) as (n & -> & Hn); [mlia|].
  destruct (is_sdec_split s sv Hs) as (front & t & -> & Ht & Hf & Hfl).
  cbn [mbind option_bind]. rewrite <-Hfl, <-(ndigits_is_dec _ _ _ Hn Ht).
  pose proof (is_dec_u64_length _ _ Ht ltac:(mlia)). pose proof (is_dec_nonempty _ _ Ht).
  rewrite length_app, Nat2Z.inj_add in Hlen.
  assert (0 <= zlen front <= 1) by (destruct (sv <? 0); lia).
  rewrite (u32_small (zlen t + zlen front)), u32_small by lia.
  zfalse (dstlen <=? zlen t + zlen front).
  destruct (length_split_tail dst (length front + length t)) as (a & b & -> & Ha & Hb); [lia|].
  destruct (length_split_tail a (length front)) as (a1 & a2 & -> & Ha1 & Ha2); [lia|].
  rewrite !length_app in Hdl. destruct b as [|x b]; [simpl in Hdl; lia|].
  rewrite bset_app by (rewrite length_app; lia). cbn [mbind option_bind].
  rewrite <-app_assoc.
  destruct (ll2string_loop_spec 10 a1 a2 (0 :: b) t (Z.abs sv) (zlen t + zlen front - 1))
    as (s1 & s2 & mid' & v' & -> & Hs1 & Hv' & Hmid' & Hrun); [done|mlia|lia|lia|lia|].
  rewrite Hrun. cbn [mbind option_bind].
  assert (Hlast := ll2string_last a1 mid' (s2 ++ 0 :: b) s1 v' (zlen a1 + zlen s1 - 1)).
  rewrite ?length_app in *. cbv zeta in Hlast. rewrite Hlast; [|done|done|lia|done|lia]. clear Hlast Hrun.
  cbn [mbind option_bind].
  assert (Hsgn : (if (zlen front =? 1) then bset (a1 ++ s1 ++ s2 ++ 0 :: b) 0 ch_minus
                  else Some (a1 ++ s1 ++ s2 ++ 0 :: b)) = Some (front ++ s1 ++ s2 ++ 0 :: b)).
  { subst front. destruct (sv <? 0); simpl in Ha1; destruct a1 as [|y [|]]; simpl in Ha1; try lia; [|done].
    by apply (bset_app [] y). }
  rewrite Hsgn. cbn [mbind option_bind]. rewrite <-!app_assoc. cbn [app].
  f_equal. f_equal; [rewrite ?length_app; lia|]. do 4 f_equal.
  rewrite app_assoc, (cons_middle x), app_assoc.
  symmetry. apply drop_app_length'. rewrite !length_app. simpl. lia.
Qed.

(** ** string2ll *)

Lemma string2ll_loop_spec fuel : forall pre rest post v,
  (length rest < fuel)%nat -> in_u64 v ->
  let run := string2ll_loop fuel (pre ++ rest ++ post) (zlen pre + zlen rest) (zlen pre) v in
  (Forall digit rest /\ run = Some (if horner v rest <=? ULLONG_MAX
                                   then Some (horner v rest, zlen pre + zlen rest) else None)) \/
  (~ Forall digit rest /\ (run = Some None \/
     exists w p, run = Some (Some (w, p)) /\ p < zlen pre + zlen rest)).
Proof.
  induction fuel as [|fuel IH]; intros pre rest post v Hf Hv; [lia|].
  cbn [string2ll_loop]. destruct rest as [|c rest].
  { left. split; [constructor|]. cbn [length app horner].
    rewrite Z.add_0_r, Z.ltb_irrefl. by ztrue (v <=? ULLONG_MAX). }
  cbn [length app] in *. ztrue (zlen pre <? zlen pre + Z.of_nat (S (length rest))).
  rewrite bget_app_mid by done. cbn [mbind option_bind].
  destruct (decide (digit c)) as [Hc|Hc].
  2: { right. split; [by intros [??]%Forall_cons_1|]. right.
       replace ((ch_0 <=? c) && (c <=? ch_9)) with false; [eexists _, _; split; [done|lia]|].
       symmetry. apply andb_false_iff. unfold digit in Hc. rewrite !Z.leb_gt. lia. }
  assert (Hc' := Hc). unfold digit in Hc'. ztrue (ch_0 <=? c). ztrue (c <=? ch_9). cbn [andb].
  assert (Hover : ULLONG_MAX < 10 * v + (c - ch_0) ->
    (Forall digit (c :: rest) /\ (if horner v (c :: rest) <=? ULLONG_MAX
       then Some (horner v (c :: rest), zlen pre + Z.of_nat (S (length rest))) else None) = None) \/
    ~ Forall digit (c :: rest)).
  { intros Ho. destruct (decide (Forall digit (c :: rest))) as [Hr|Hr]; [left|by right].
    split; [done|]. apply Forall_cons_1 in Hr as [_ Hr]. cbn [horner].
    assert (Hm := horner_mono (10 * v + (c - ch_0)) rest ltac:(mlia) Hr).
    by zfalse (horner (10 * v + (c - ch_0)) rest <=? ULLONG_MAX). }
  destruct (Z.ltb_spec (ULLONG_MAX / 10) v).
  { destruct (Hover ltac:(mlia)) as [[? Hn]|Hn]; [left|right]; rewrite ?Hn; auto. }
  rewrite (u64_small (v * 10)) by mlia. rewrite (u64_small (ULLONG_MAX - (c - ch_0))) by mlia.
  destruct (Z.ltb_spec (ULLONG_MAX - (c - ch_0)) (v * 10)).
  { destruct (Hover ltac:(mlia)) as [[? Hn]|Hn]; [left|right]; rewrite ?Hn; auto. }
  rewrite u64_small by mlia.
  specialize (IH (pre ++ [c]) rest post (v * 10 + (c - ch_0)) ltac:(lia) ltac:(mlia)).
  cbv zeta in IH. rewrite <-app_assoc in IH. cbn [app] in IH.
  rewrite length_app in IH. cbn [length] in IH.
  replace (Z.of_nat (length pre + 1)) with (zlen pre + 1) in IH by lia.
  replace (zlen pre + 1 + zlen rest) with (zlen pre + Z.of_nat (S (length rest))) in IH by lia.
  cbn [horner]. rewrite (Z.mul_comm v 10) in *.
  rewrite Forall_cons_iff. tauto.
Qed.

(** The whole function, by the shape of the [slen] bytes it reads: a digit
    string without leading zero, with or without sign, and the rest. *)
Lemma string2ll_digits c rest post :
  digit c -> c <> ch_0 ->
  string2ll (c :: rest ++ post) (Z.of_nat (S (length rest))) =
    Some (if decide (Forall digit rest)
          then if horner (c - ch_0) rest <=? LLONG_MAX then Some (horner (c - ch_0) rest) else None
          else None).
Proof.
  intros Hc Hc0. unfold string2ll. assert (Hc' := Hc). unfold digit in Hc'.
  zfalse (0 =? Z.of_nat (S (length rest))).
  rewrite bget_0. cbn [mbind option_bind].
  zfalse (c =? ch_0). rewrite andb_false_r. zfalse (c =? ch_minus). cbn [andb].
  rewrite bget_0. cbn [mbind option_bind].
  ztrue (ch_1 <=? c). ztrue (c <=? ch_9). cbn [andb].
  change (0 + 1) with (zlen [c]).
  replace (Z.of_nat (S (length rest))) with (zlen [c] + zlen rest) by (simpl; lia).
  destruct (string2ll_loop_spec (S (Z.to_nat (zlen [c] + zlen rest))) [c] rest post (c - ch_0))
    as [[Hr Hrun]|[Hr Hrun]]; [lia|mlia| |]; cbn [app] in Hrun.
  - rewrite Hrun, decide_True by done. cbn [mbind option_bind].
    pose proof (horner_mono (c - ch_0) rest ltac:(lia) Hr).
    destruct (Z.leb_spec (horner (c - ch_0) rest) ULLONG_MAX).
    + rewrite Z.ltb_irrefl. rewrite (Z.ltb_antisym _ LLONG_MAX).
      destruct (Z.leb_spec (horner (c - ch_0) rest) LLONG_MAX); simpl; [|done].
      by rewrite i64_small by mlia.
    + by zfalse (horner (c - ch_0) rest <=? LLONG_MAX).
  - rewrite decide_False by done. destruct Hrun as [->|(w & p & -> & Hp)]; [done|].
    cbn [mbind option_bind]. by ztrue (p <? zlen [c] + zlen rest).
Qed.

Lemma string2ll_negative c rest post :
  digit c -> c <> ch_0 ->
  string2ll (ch_minus :: c :: rest ++ post) (Z.of_nat (S (S (length rest)))) =
    Some (if decide (Forall digit rest)
          then if horner (c - ch_0) rest <=? - LLONG_MIN then Some (- horner (c - ch_0) rest) else None
          else None).
Proof.
  intros Hc Hc0. unfold string2ll. assert (Hc' := Hc). unfold digit in Hc'.
  zfalse (0 =? Z.of_nat (S (S (length rest)))).
  rewrite bget_0. cbn [mbind option_bind].
  rewrite andb_false_r. change (ch_minus =? ch_minus) with true. cbn [andb].
  zfalse (1 =? Z.of_nat (S (S (length rest)))).
  rewrite bget_1. cbn [mbind option_bind].
  ztrue (ch_1 <=? c). ztrue (c <=? ch_9). cbn [andb].
  change (1 + 1) with (zlen [ch_minus; c]).
  replace (Z.of_nat (S (S (length rest)))) with (zlen [ch_minus; c] + zlen rest) by (simpl; lia).
  change (u64 (- (LLONG_MIN + 1)) + 1) with (- LLONG_MIN).
  destruct (string2ll_loop_spec (S (Z.to_nat (zlen [ch_minus; c] + zlen rest))) [ch_minus; c] rest post (c - ch_0))
    as [[Hr Hrun]|[Hr Hrun]]; [lia|mlia| |]; cbn [app] in Hrun.
  - rewrite Hrun, decide_True by done. cbn [mbind option_bind].
    pose proof (horner_mono (c - ch_0) rest ltac:(lia) Hr).
    destruct (Z.leb_spec (horner (c - ch_0) rest) ULLONG_MAX).
    + rewrite Z.ltb_irrefl. rewrite (Z.ltb_antisym _ (- LLONG_MIN)).
      destruct (Z.leb_spec (horner (c - ch_0) rest) (- LLONG_MIN)); simpl; [|done].
      do 2 f_equal. mlia.
    + by zfalse (horner (c - ch_0) rest <=? - LLONG_MIN).
  - rewrite decide_False by done. destruct Hrun as [->|(w & p & -> & Hp)]; [done|].
    cbn [mbind option_bind]. by ztrue (p <? zlen [ch_minus; c] + zlen rest).
Qed.

(** What string2ll is to return for the bytes [s]: the number [s] is the
    notation of, if there is one and it fits 64 bits. *)
Definition ll_notation (s : list Z) (r : option Z) : Prop :=
  forall v, r = Some v <-> is_sdec s v /\ in_i64 v.

Lemma ll_notation_none s : (forall v, ~ is_sdec s v) -> ll_notation s None.
Proof. intros H v. split; [done|]. intros [Hs _]. by apply H in Hs. Qed.

Lemma is_dec_cons c s v :
  c <> ch_0 -> is_dec (c :: s) v <-> digit c /\ Forall digit s /\ v = horner (c - ch_0) s.
Proof.
  intros Hc. split.
  - intros [[? ?]%Forall_cons_1 _ <-]. cbn [horner]. auto.
  - intros (Hd & Hs & ->). split; [by constructor|left; eauto|done].
Qed.

Lemma is_dec_cons_0 s v : is_dec (ch_0 :: s) v <-> s = [] /\ v = 0.
Proof.
  split; [|intros [-> ->]; by apply (is_dec_digit 0)].
  intros [_ [(c&s'&[= <- <-]&Hc)|[= ->]] <-]; done.
Qed.

Lemma is_dec_nil v : ~ is_dec [] v.
Proof. intros H%is_dec_nonempty. simpl in H. lia. Qed.

Lemma is_sdec_pos c s v : c <> ch_minus -> is_sdec (c :: s) v <-> is_dec (c :: s) v.
Proof.
  intros Hc. split.
  - by intros [[_ H]|(_&t&[= -> ->]&H)].
  - intros H. left. eauto using is_dec_nonneg.
Qed.

Lemma is_sdec_neg s v : is_sdec (ch_minus :: s) v <-> v < 0 /\ is_dec s (- v).
Proof.
  split.
  - intros [[_ [H _ _]]|(Hv&t&[= ->]&H)]; [|done].
    apply Forall_cons_1 in H as [H _]. unfold digit in H. lia.
  - intros [Hv H]. right. eauto.
Qed.

Lemma ll_notation_pos c rest :
  digit c -> c <> ch_0 ->
  ll_notation (c :: rest)
    (if decide (Forall digit rest)
     then if horner (c - ch_0) rest <=? LLONG_MAX then Some (horner (c - ch_0) rest) else None
     else None).
Proof.
  intros Hc Hc0 v. assert (Hc' := Hc). unfold digit in Hc'.
  rewrite is_sdec_pos, is_dec_cons by lia.
  destruct (decide (Forall digit rest)) as [Hr|Hr].
  - pose proof (horner_mono (c - ch_0) rest ltac:(lia) Hr).
    destruct (Z.leb_spec (horner (c - ch_0) rest) LLONG_MAX); split; try done.
    + intros [= <-]. split; [done|mlia].
    + by intros [(_&_&->) _].
    + intros [(_&_&->) ?]. mlia.
  - split; [done|]. by intros [(_&?&_) _].
Qed.

Lemma ll_notation_neg c rest :
  digit c -> c <> ch_0 ->
  ll_notation (ch_minus :: c :: rest)
    (if decide (Forall digit rest)
     then if horner (c - ch_0) rest <=? - LLONG_MIN then Some (- horner (c - ch_0) rest) else None
     else None).
Proof.
  intros Hc Hc0 v. assert (Hc' := Hc). unfold digit in Hc'.
  rewrite is_sdec_neg, is_dec_cons by lia.
  destruct (decide (Forall digit rest)) as [Hr|Hr].
  - pose proof (horner_mono (c - ch_0) rest ltac:(lia) Hr).
    destruct (Z.leb_spec (horner (c - ch_0) rest) (- LLONG_MIN)); split; try done.
    + intros [= <-]. split; [|mlia]. split; [lia|]. by rewrite Z.opp_involutive.
    + intros [(?&_&_&?) _]. f_equal. lia.
    + intros [(?&_&_&?) ?]. mlia.
  - split; [done|]. by intros [(_&_&?&_) _].
Qed.

(** The bytes that string2ll rejects at their first or second byte. *)
Lemma first_digit_test c :
  ~ (digit c /\ c <> ch_0) -> (ch_1 <=? c) && (c <=? ch_9) = false.
Proof. unfold digit. intros H. apply andb_false_iff. rewrite !Z.leb_gt. lia. Qed.

Lemma not_digit_no_notation c s v :
  ~ (digit c /\ c <> ch_0) -> c :: s <> [ch_0] -> ~ is_dec (c :: s) v.
Proof.
  intros Hc Hs. destruct (decide (c = ch_0)) as [->|H0].
  - rewrite is_dec_cons_0. intros [-> _]. done.
  - rewrite is_dec_cons by done. tauto.
Qed.

Lemma string2ll_reject1 c s post :
  c <> ch_minus -> ~ (digit c /\ c <> ch_0) -> c :: s <> [ch_0] ->
  string2ll (c :: s ++ post) (zlen (c :: s)) = Some None /\ ll_notation (c :: s) None.
Proof.
  intros Hm Hc Hs. split.
  - unfold string2ll. cbn [length]. zfalse (0 =? Z.of_nat (S (length s))).
    rewrite bget_0. cbn [mbind option_bind].
    replace ((Z.of_nat (S (length s)) =? 1) && (c =? ch_0)) with false.
    2: { symmetry. apply andb_false_iff. rewrite !Z.eqb_neq.
         destruct s; [right; congruence|left; simpl; lia]. }
    zfalse (c =? ch_minus). cbn [andb]. rewrite bget_0. cbn [mbind option_bind].
    rewrite first_digit_test by done.
    replace ((c =? ch_0) && (Z.of_nat (S (length s)) =? 1)) with false; [done|].
    symmetry. apply andb_false_iff. rewrite !Z.eqb_neq.
    destruct s; [left; congruence|right; simpl; lia].
  - apply ll_notation_none. intros v. rewrite is_sdec_pos by done.
    by apply not_digit_no_notation.
Qed.

Lemma string2ll_reject2 c s post :
  ~ (digit c /\ c <> ch_0) ->
  string2ll (ch_minus :: c :: s ++ post) (zlen (ch_minus :: c :: s)) = Some None /\
  ll_notation (ch_minus :: c :: s) None.
Proof.
  intros Hc. split.
  - unfold string2ll. cbn [length]. zfalse (0 =? Z.of_nat (S (S (length s)))).
    rewrite bget_0. cbn [mbind option_bind]. rewrite andb_false_r.
    change (ch_minus =? ch_minus) with true. cbn [andb].
    zfalse (1 =? Z.of_nat (S (S (length s)))). rewrite bget_1. cbn [mbind option_bind].
    rewrite first_digit_test by done. zfalse (Z.of_nat (S (S (length s))) =? 1).
    by rewrite andb_false_r.
  - apply ll_notation_none. intros v. rewrite is_sdec_neg. intros [Hv Hd].
    destruct (decide (c :: s = [ch_0])) as [Heq|Hne].
    + rewrite Heq, is_dec_cons_0 in Hd. lia.
    + by apply not_digit_no_notation in Hd.
Qed.

(** string2ll reads the [slen] bytes [s] inside their buffer, and succeeds
    exactly on the canonical notations of the 64 bit integers, with the value
    of the notation. *)
Lemma string2ll_spec s post :
  exists r, string2ll (s ++ post) (zlen s) = Some r /\
    forall v, r = Some v <-> is_sdec s v /\ in_i64 v.
Proof.
  destruct s as [|c s].
  { exists None. split; [done|]. apply ll_notation_none.
    intros v H%is_sdec_nonempty. simpl in H. lia. }
  destruct (decide (c = ch_minus)) as [->|Hm].
  - destruct s as [|c s].
    { exists None. split; [done|]. apply ll_notation_none.
      intros v. rewrite is_sdec_neg. by intros [_ ?%is_dec_nil]. }
    destruct (decide (digit c /\ c <> ch_0)) as [[Hc H0]|Hc].
    + eexists. split; [by apply string2ll_negative|by apply ll_notation_neg].
    + exists None. by apply string2ll_reject2.
  - destruct (decide (digit c /\ c <> ch_0)) as [[Hc H0]|Hc].
    + eexists. split; [by apply string2ll_digits|by apply ll_notation_pos].
    + destruct (decide (c :: s = [ch_0])) as [[= -> ->]|Hz].
      * exists (Some 0). split; [done|]. intros v. rewrite is_sdec_pos, is_dec_cons_0 by done.
        split; [intros [= <-]; split; [done|mlia]|]. by intros [[_ ->] _].
      * exists None. by apply string2ll_reject1.
Qed.

(** ll2string writes the canonical notation of every 64 bit integer, followed
    by a terminator, and returns its length; with a [dstlen] that has no room
    for both it returns 0 and leaves the buffer alone. *)
Lemma ll2string_spec dst dstlen sv :
  in_i64 sv -> dstlen <= zlen dst ->
  exists s, is_sdec s sv /\
    ll2string dst dstlen sv =
      Some (if zlen s <? dstlen then (zlen s, s ++ [ch_nul] ++ drop (S (length s)) dst)
            else (0, dst)).
Proof.
  intros Hsv Hdl. destruct (is_sdec_exists sv) as [s Hs]. exists s. split; [done|].
  destruct (Z.ltb_spec (zlen s) dstlen); [by apply ll2string_full|].
  by apply (ll2string_short _ _ _ s).
Qed.

(** string2l accepts what string2ll accepts where [long] is 64 bits wide. *)
Lemma string2l_string2ll s post :
  string2l (s ++ post) (zlen s) = string2ll (s ++ post) (zlen s).
Proof.
  unfold string2l. destruct (string2ll_spec s post) as ([v|] & -> & Hr); [|done].
  cbn [mbind option_bind]. destruct (proj1 (Hr v) eq_refl) as [_ Hv].
  unfold LONG_MIN, LONG_MAX. zfalse (v <? LLONG_MIN). by zfalse (LLONG_MAX <? v).
Qed.

(** sdigits10 is the length of the notation that ll2string prints. *)
Lemma sdigits10_spec v s :
  in_i64 v -> is_sdec s v -> sdigits10 v = Some (zlen s).
Proof.
  intros Hv Hs. destruct (is_sdec_split s v Hs) as (front & t & -> & Ht & _ & Hfl).
  assert (Habs := ll2string_abs v Hv). unfold sdigits10.
  destruct (digits10_spec (Z.abs v)) as (n & Hd & Hn); [mlia|].
  rewrite length_app, Nat2Z.inj_add, Hfl, (ndigits_is_dec _ _ _ Hn Ht).
  destruct (Z.ltb_spec v 0).
  - rewrite Habs, Hd. cbn. f_equal. lia.
  - rewrite Z.abs_eq in Hd by lia. by rewrite Hd.
Qed.


(** ** Properties *)

(** C9. string2ll, and string2l where long is 64 bits wide, read the [slen]
    bytes [s] inside their buffer, and succeed exactly on the canonical
    notations of the 64 bit integers, with the value of the notation. *)
Theorem string2ll_correct s post :
  exists r, string2ll (s ++ post) (zlen s) = Some r /\ string2l (s ++ post) (zlen s) = Some r /\
    forall v, r = Some v <-> is_sdec s v /\ in_i64 v.
Proof.
  destruct (string2ll_spec s post) as (r & Hr & Hspec). exists r.
  by rewrite string2l_string2ll.
Qed.

(** C10. ll2string writes the canonical notation of every 64 bit integer, which
    has sdigits10 and at most 20 characters, followed by a terminator, and
    returns its length; with a [dstlen] that has no room for both it returns 0
    and leaves the buffer alone.  string2ll reads what was written back. *)
Theorem ll2string_correct dst dstlen v :
  in_i64 v -> dstlen <= zlen dst ->
  exists s, is_sdec s v /\ sdigits10 v = Some (zlen s) /\ zlen s <= 20 /\
    ll2string dst dstlen v =
      Some (if zlen s <? dstlen then (zlen s, s ++ [ch_nul] ++ drop (S (length s)) dst)
            else (0, dst)) /\
    string2ll (s ++ [ch_nul] ++ drop (S (length s)) dst) (zlen s) = Some (Some v).
Proof.
  intros Hv Hdl. destruct (ll2string_spec dst dstlen v Hv Hdl) as (s & Hs & Hrun).
  exists s. split_and!; [done|by apply sdigits10_spec| |done|].
  { pose proof (sdec_length s v Hv Hs). lia. }
  destruct (string2ll_spec s ([ch_nul] ++ drop (S (length s)) dst)) as (r & Hr & Hspec).
  rewrite Hr. f_equal. by apply Hspec.
Qed.

Lemma ll2string_correct_witness :
  in_i64 (-7) /\ 3 <= zlen [0; 0; 0] /\
  exists s, is_sdec s (-7) /\ sdigits10 (-7) = Some (zlen s) /\ zlen s <= 20 /\
    ll2string [0; 0; 0] 3 (-7) =
      Some (if zlen s <? 3 then (zlen s, s ++ [ch_nul] ++ drop (S (length s)) [0; 0; 0])
            else (0, [0; 0; 0])) /\
    string2ll (s ++ [ch_nul] ++ drop (S (length s)) [0; 0; 0]) (zlen s) = Some (Some (-7)).
Proof.
  assert (H1 : in_i64 (-7)) by mlia. assert (H2 : 3 <= zlen [0; 0; 0]) by (simpl; lia).
  split; [exact H1|]. split; [exact H2|]. exact (ll2string_correct [0; 0; 0] 3 (-7) H1 H2).
Defined.
