(* ===== verification/Glob.v ===== *)
(** util.c: [stringmatchlen], the glob matcher behind KEYS, SCAN, PSUBSCRIBE
    and CONFIG GET.

    The pattern and the string are offsets into the memory that holds them, as
    the C pointers are: the matcher reads one byte past both lengths (the
    terminator of an sds string) and, on some patterns, further. *)

From S2P Require Import Prelude.

(** ** Definitions *)

(** [while(pattern[d] == '*') { pattern++; patternLen--; }] *)
Fixpoint skip_stars (fuel : nat) (d : Z) (pat : list Z) (p plen : Z) : option (Z * Z) :=
  match fuel with
  | O => None
  | S f => c ← bget pat (p + d);
           if c =? ch_star then skip_stars f d pat (p + 1) (plen - 1) else Some (p, plen)
  end.

(** [a == b], or the same after tolower() when the case is ignored. *)
Definition char_eq (nocase : bool) (a b : Z) : bool :=
  if nocase then tolower (i8 a) =? tolower (i8 b) else a =? b.

(** The range test of a character class: bounds are swapped, then lowered. *)
Definition in_range (nocase : bool) (a b c : Z) : bool :=
  let '(lo, hi) := if i8 b <? i8 a then (i8 b, i8 a) else (i8 a, i8 b) in
  let low x := if nocase then tolower x else x in
  (low lo <=? low (i8 c)) && (low (i8 c) <=? low hi).

(** The [while(1)] of a character class; the string character is read where
    the source reads it. *)
Fixpoint class_loop (fuel : nat) (pat : list Z) (p plen : Z) (str : list Z) (s : Z)
    (nocase mtch : bool) : option (Z * Z * bool) :=
  match fuel with
  | O => None
  | S f =>
      c ← bget pat p;
      if c =? ch_bslash then
        let p := p + 1 in let plen := plen - 1 in
        c ← bget pat p; x ← bget str s;
        class_loop f pat (p + 1) (plen - 1) str s nocase (if c =? x then true else mtch)
      else if c =? ch_rbrack then Some (p, plen, mtch)
      else if plen =? 0 then Some (p - 1, plen + 1, mtch)
      else
        n ← bget pat (p + 1);
        if (n =? ch_minus) && (3 <=? plen) then
          e ← bget pat (p + 2); x ← bget str s;
          let p := p + 2 in let plen := plen - 2 in
          class_loop f pat (p + 1) (plen - 1) str s nocase
            (if in_range nocase c e x then true else mtch)
        else
          x ← bget str s;
          class_loop f pat (p + 1) (plen - 1) str s nocase
            (if char_eq nocase c x then true else mtch)
  end.

(** The [switch] on a character other than '*'.  The inner [None] is a
    [return 0]. *)
Definition match_one (pat : list Z) (p plen : Z) (str : list Z) (s slen : Z)
    (nocase : bool) : option (option (Z * Z * Z * Z)) :=
  c ← bget pat p;
  if c =? ch_qmark then
    if slen =? 0 then Some None else Some (Some (p, plen, s + 1, slen - 1))
  else if c =? ch_lbrack then
    let p := p + 1 in let plen := plen - 1 in
    c ← bget pat p;
    let not := c =? ch_caret in
    let p := if not then p + 1 else p in
    let plen := if not then plen - 1 else plen in
    '(p, plen, mtch) ← class_loop (S (length pat)) pat p plen str s nocase false;
    let mtch := if not then negb mtch else mtch in
    if negb mtch then Some None else Some (Some (p, plen, s + 1, slen - 1))
  else
    let esc := (c =? ch_bslash) && (2 <=? plen) in
    let p := if esc then p + 1 else p in
    let plen := if esc then plen - 1 else plen in
    c ← bget pat p; x ← bget str s;
    if negb (char_eq nocase c x) then Some None
    else Some (Some (p, plen, s + 1, slen - 1)).

(** [while(stringLen) { if (rec(string)) return 1; string++; stringLen--; } return 0] *)
Fixpoint star_loop (fuel : nat) (rec : Z -> Z -> option bool) (s slen : Z) : option bool :=
  if slen =? 0 then Some false else
  match fuel with
  | O => None
  | S f => b ← rec s slen; if (b : bool) then Some true else star_loop f rec (s + 1) (slen - 1)
  end.

Fixpoint stringmatchlen_loop (fuel : nat) (pat : list Z) (p plen : Z) (str : list Z) (s slen : Z)
    (nocase : bool) : option bool :=
  match fuel with
  | O => None
  | S f =>
      if plen =? 0 then Some (slen =? 0) else
      c ← bget pat p;
      if c =? ch_star then
        '(p, plen) ← skip_stars (S (length pat)) 1 pat p plen;
        if plen =? 1 then Some true else
        star_loop (S (Z.to_nat slen + length str))
          (fun s slen => stringmatchlen_loop f pat (p + 1) (plen - 1) str s slen nocase) s slen
      else
        r ← match_one pat p plen str s slen nocase;
        match r with
        | None => Some false
        | Some (p, plen, s, slen) =>
            let p := p + 1 in let plen := plen - 1 in
            if slen =? 0 then
              '(p, plen) ← skip_stars (S (length pat)) 0 pat p plen;
              Some ((plen =? 0) && (slen =? 0))
            else stringmatchlen_loop f pat p plen str s slen nocase
        end
  end.

Definition stringmatchlen (pat : list Z) (plen : Z) (str : list Z) (slen : Z) (nocase : bool) : option bool :=
  stringmatchlen_loop (S (length pat)) pat 0 plen str 0 slen nocase.

(** Both arguments are C strings, whose lengths, of type size_t, become ints. *)
Definition stringmatch (pat str : list Z) (nocase : bool) : option bool :=
  plen ← strlen pat 0; slen ← strlen str 0;
  stringmatchlen pat (i32 plen) str (i32 slen) nocase.

Definition cstr (s : String.string) : list Z := str s ++ [ch_nul].
Arguments cstr _%_string_scope.

Example stringmatch_ex1 : stringmatch (cstr "h[a-e]l*o?") (cstr "hello!") false = Some true.
Proof. reflexivity. Qed.
Example stringmatch_ex2 : stringmatch (cstr "H[a-e]*o?") (cstr "hello!") true = Some true.
Proof. reflexivity. Qed.
Example stringmatch_ex3 : stringmatch (cstr "[^a]*") (cstr "") false = Some true.
Proof. reflexivity. Qed.
Example stringmatch_ex4 : stringmatch (cstr "[^a]*b") (cstr "") false = None.
Proof. reflexivity. Qed.
Example stringmatch_ex5 : stringmatch (cstr "[\") (cstr "x") false = None.
Proof. reflexivity. Qed.

(** ** Glob patterns, abstractly *)

Inductive citem :=
  | CEsc (c : Z)
  | CRange (a b : Z)
  | CChar (c : Z).

Inductive token :=
  | TStar
  | TAny
  | TLit (c : Z)
  | TEsc (c : Z)
  | TClass (neg : bool) (items : list citem).

#[export] Instance citem_eq_dec : EqDecision citem.
Proof. solve_decision. Defined.
#[export] Instance token_eq_dec : EqDecision token.
Proof. solve_decision. Defined.

(** What the comparison of characters looks at. *)
Definition fold_case (nocase : bool) (c : Z) : Z := if nocase then tolower c else c.
Definition same_char (nocase : bool) (a b : Z) : bool :=
  if nocase then bool_decide (fold_case nocase (i8 a) = fold_case nocase (i8 b)) else bool_decide (a = b).

(** A range holds the signed characters between its two bounds, in either
    order; when the case is ignored the bounds are ordered first and lowered
    after. *)
Definition between (nocase : bool) (a b x : Z) : bool :=
  bool_decide (fold_case nocase (i8 a `min` i8 b) <= fold_case nocase (i8 x) <= fold_case nocase (i8 a `max` i8 b)).

Definition citem_match (nocase : bool) (x : Z) (it : citem) : bool :=
  match it with
  | CEsc c => c =? x
  | CRange a b => between nocase a b x
  | CChar c => same_char nocase c x
  end.

(** The tokens that stand for exactly one character. *)
Definition token_match (nocase : bool) (t : token) (x : Z) : bool :=
  match t with
  | TStar => false
  | TAny => true
  | TLit c | TEsc c => same_char nocase c x
  | TClass neg items => xorb neg (existsb (citem_match nocase x) items)
  end.

Inductive glob (nocase : bool) : list token -> list Z -> Prop :=
  | glob_nil : glob nocase [] []
  | glob_star ts s1 s2 : glob nocase ts s2 -> glob nocase (TStar :: ts) (s1 ++ s2)
  | glob_one t ts x s :
      token_match nocase t x = true -> glob nocase ts s -> glob nocase (t :: ts) (x :: s).

(** The concrete syntax of a pattern. *)
Definition render_item (it : citem) : list Z :=
  match it with
  | CEsc c => [ch_bslash; c]
  | CRange a b => [a; ch_minus; b]
  | CChar c => [c]
  end.

Definition render_token (t : token) : list Z :=
  match t with
  | TStar => [ch_star]
  | TAny => [ch_qmark]
  | TLit c => [c]
  | TEsc c => [ch_bslash; c]
  | TClass neg items =>
      [ch_lbrack] ++ (if neg then [ch_caret] else []) ++ concat (map render_item items) ++ [ch_rbrack]
  end.

Definition render (ts : list token) : list Z := concat (map render_token ts).

(** Tokens whose rendering reads back unambiguously. *)
Definition plain (c : Z) : Prop := c <> ch_bslash /\ c <> ch_rbrack /\ c <> ch_minus /\ c <> ch_caret.

Definition item_ok (it : citem) : Prop :=
  match it with
  | CEsc c => True
  | CRange a b => plain a
  | CChar c => plain c
  end.

Definition token_ok (t : token) : Prop :=
  match t with
  | TLit c => c <> ch_star /\ c <> ch_qmark /\ c <> ch_lbrack /\ c <> ch_bslash
  | TClass neg items => Forall item_ok items
  | _ => True
  end.

(** A non-empty string, or a pattern that does not begin by consuming the
    terminator of an empty one. *)
Definition head_ok (ts : list token) (s : list Z) : Prop :=
  s <> [] \/
  match ts with
  | TClass _ _ :: _ => False
  | (TLit c | TEsc c) :: _ => 0 < c < 256
  | _ => True
  end.

(** ** Proofs *)

Lemma char_eq_same nocase a b : char_eq nocase a b = same_char nocase a b.
Proof. unfold char_eq, same_char, fold_case. destruct nocase; case_bool_decide; by apply Z.eqb_eq || apply Z.eqb_neq. Qed.

Lemma in_range_between nocase a b x : in_range nocase a b x = between nocase a b x.
Proof.
  unfold in_range, between, fold_case. destruct (Z.ltb_spec (i8 b) (i8 a)).
  - rewrite Z.min_r, Z.max_l by lia. destruct nocase; case_bool_decide; ztests; lia.
  - rewrite Z.min_l, Z.max_r by lia. destruct nocase; case_bool_decide; ztests; lia.
Qed.

(** After a class item comes a character that is not a minus. *)
Lemma items_head items rest :
  Forall item_ok items ->
  exists c l, concat (map render_item items) ++ ch_rbrack :: rest = c :: l /\ c <> ch_minus /\ c <> ch_caret.
Proof.
  intros Hok. destruct items as [|it items]; [by exists ch_rbrack, rest|].
  apply Forall_cons_1 in Hok as [Hit _].
  destruct it; cbn [map concat render_item app]; eexists _, _; (split; [done|]);
    unfold item_ok, plain in *; lia.
Qed.

Lemma class_loop_spec fuel : forall pre items rest spre x spost m nocase mtch,
  Forall item_ok items -> (length items < fuel)%nat -> 0 <= m ->
  class_loop fuel (pre ++ concat (map render_item items) ++ ch_rbrack :: rest)
    (zlen pre) (zlen (concat (map render_item items)) + 1 + m)
    (spre ++ x :: spost) (zlen spre) nocase mtch =
  Some (zlen pre + zlen (concat (map render_item items)), 1 + m,
        mtch || existsb (citem_match nocase x) items).
Proof.
  induction fuel as [|fuel IH]; intros pre items rest spre x spost m nocase mtch Hok Hf Hm; [lia|].
  cbn [class_loop]. rewrite !(bget_mid spre). destruct items as [|it items].
  { cbn [map concat app length]. rewrite (bget_mid pre). mstep.
    cbn [existsb]. rewrite orb_false_r. fpair. }
  apply Forall_cons_1 in Hok as [Hit Hok]. cbn [length] in Hf.
  destruct (items_head items rest Hok) as (nc & l & Hnc & Hnm & _).
  cbn [map concat existsb]. rewrite <-app_assoc, length_app, Nat2Z.inj_add.
  set (L := zlen (concat (map render_item items))) in *.
  assert (HL : 0 <= L) by lia.
  assert (Hnext : forall front mtch', 
    class_loop fuel ((pre ++ front) ++ concat (map render_item items) ++ ch_rbrack :: rest)
      (zlen pre + zlen front) (L + 1 + m) (spre ++ x :: spost) (zlen spre) nocase mtch' =
    Some (zlen pre + zlen front + L, 1 + m, mtch' || existsb (citem_match nocase x) items)).
  { intros front mtch'. assert (H := IH (pre ++ front) items rest spre x spost m nocase mtch' Hok).
    rewrite length_app, Nat2Z.inj_add in H. apply H; lia. }
  assert (Hstep : forall front mtch' p plen q, p = zlen pre + zlen front -> plen = L + 1 + m ->
    q = zlen pre + zlen front + L ->
    class_loop fuel (pre ++ front ++ concat (map render_item items) ++ ch_rbrack :: rest)
      p plen (spre ++ x :: spost) (zlen spre) nocase mtch' =
    Some (q, 1 + m, mtch' || existsb (citem_match nocase x) items)).
  { intros front mtch' p plen q -> -> ->. by rewrite app_assoc. }
  assert (Hor : forall (b : bool) r, (if b then true else mtch) || r = mtch || (b || r)).
  { intros [] r; [by rewrite orb_true_r|done]. }
  destruct it as [c|a b|c]; cbn [render_item app citem_match length] in *.
  - rewrite bget_mid. mstep.
    rewrite bget_app_mid1. mstep.
    rewrite <-Hor. apply (Hstep [ch_bslash; c]); simpl; lia.
  - unfold item_ok, plain in Hit. rewrite bget_mid. mstep.
    zfalse (a =? ch_bslash). zfalse (a =? ch_rbrack). zfalse (Z.of_nat 3 + L + 1 + m =? 0).
    rewrite bget_app_mid1. mstep. ztrue (3 <=? Z.of_nat 3 + L + 1 + m). mstep.
    rewrite bget_app_mid2. mstep.
    rewrite in_range_between, <-Hor. apply (Hstep [a; ch_minus; b]); simpl; lia.
  - unfold item_ok, plain in Hit. rewrite bget_mid. mstep.
    zfalse (c =? ch_bslash). zfalse (c =? ch_rbrack). zfalse (Z.of_nat 1 + L + 1 + m =? 0).
    rewrite Hnc, bget_app_mid1. mstep. zfalse (nc =? ch_minus). mstep. rewrite <-Hnc.
    rewrite char_eq_same, <-Hor. apply (Hstep [c]); simpl; lia.
Qed.

Lemma length_items items : (length items <= length (concat (map render_item items)))%nat.
Proof.
  induction items as [|it items IH]; simpl; [lia|].
  rewrite length_app. destruct it; simpl; lia.
Qed.

(** The class of a pattern, from the character after its bracket. *)
Lemma class_loop_class pre items rest spre x spost m nocase fuel p plen :
  Forall item_ok items -> (length items < fuel)%nat -> 0 <= m ->
  p = zlen pre -> plen = zlen (concat (map render_item items)) + 1 + m ->
  class_loop fuel (pre ++ concat (map render_item items) ++ ch_rbrack :: rest)
    p plen (spre ++ x :: spost) (zlen spre) nocase false =
  Some (p + zlen (concat (map render_item items)), 1 + m,
        existsb (citem_match nocase x) items).
Proof. intros ??? -> ->. by rewrite class_loop_spec. Qed.

Lemma match_one_spec t pre rest spre x spost m slen nocase :
  token_ok t -> t <> TStar -> 0 <= m -> (t = TAny -> slen <> 0) ->
  match_one (pre ++ render_token t ++ rest) (zlen pre) (zlen (render_token t) + m)
    (spre ++ x :: spost) (zlen spre) slen nocase =
  Some (if token_match nocase t x
        then Some (zlen pre + zlen (render_token t) - 1, 1 + m, zlen spre + 1, slen - 1)
        else None).
Proof.
  intros Hok Hns Hm Hsl. unfold match_one. rewrite !(bget_mid spre).
  destruct t as [| |c|c|neg items]; [done|..]; cbn [render_token app length token_match].
  - specialize (Hsl eq_refl). rewrite (bget_mid pre). mstep. zfalse (slen =? 0). fpair.
  - destruct Hok as (H1 & H2 & H3 & H4). rewrite (bget_mid pre). mstep.
    zfalse (c =? ch_qmark). zfalse (c =? ch_lbrack). zfalse (c =? ch_bslash). mstep.
    rewrite (bget_mid pre). mstep. rewrite char_eq_same. destruct (same_char nocase c x); simpl; fpair.
  - rewrite (bget_mid pre). mstep. ztrue (2 <=? Z.of_nat 2 + m). mstep.
    rewrite bget_app_mid1. mstep.
    rewrite char_eq_same. destruct (same_char nocase c x); simpl; fpair.
  - rewrite (bget_mid pre). mstep. destruct neg.
    + cbn [app length]. rewrite <-app_assoc. cbn [app]. rewrite bget_app_mid1. mstep.
      rewrite (cons_middle ch_lbrack), app_assoc, (cons_middle ch_caret), app_assoc.
      rewrite (class_loop_class _ _ _ _ _ _ m);
        [|done| |done|rewrite !length_app; simpl; lia|simpl; rewrite ?length_app; simpl; lia].
      2: { rewrite !length_app. pose proof (length_items items). lia. }
      mstep. destruct (existsb _ _); simpl; rewrite ?length_app; simpl; fpair.
    + cbn [app length]. rewrite <-app_assoc. cbn [app].
      destruct (items_head items rest Hok) as (nc & l & Hnc & _ & Hnm).
      rewrite Hnc, bget_app_mid1, <-Hnc. mstep. zfalse (nc =? ch_caret).
      rewrite cons_middle, app_assoc.
      rewrite (class_loop_class _ _ _ _ _ _ m);
        [|done| |done|rewrite !length_app; simpl; lia|simpl; rewrite ?length_app; simpl; lia].
      2: { rewrite !length_app. pose proof (length_items items). lia. }
      mstep. destruct (existsb _ _); simpl; rewrite ?length_app; simpl; fpair.
Qed.

Lemma skip_stars_spec k : forall fuel d pre c rest p plen,
  (k < fuel)%nat -> c <> ch_star -> p + d = zlen pre ->
  skip_stars fuel d (pre ++ replicate k ch_star ++ c :: rest) p plen =
  Some (p + Z.of_nat k, plen - Z.of_nat k).
Proof.
  induction k as [|k IH]; intros fuel d pre c rest p plen Hf Hc Hp;
    (destruct fuel as [|fuel]; [lia|]); cbn [skip_stars replicate app];
    rewrite Hp, bget_mid; mstep.
  - zfalse (c =? ch_star). fpair.
  - rewrite cons_middle, app_assoc. rewrite IH; [fpair|lia|done|].
    rewrite length_app. simpl. lia.
Qed.

Lemma split_stars ts :
  exists k ts', ts = replicate k TStar ++ ts' /\
    match ts' with TStar :: _ => False | _ => True end.
Proof.
  induction ts as [|t ts (k & ts' & -> & Hts)]; [by exists 0%nat, []|].
  destruct t; [by exists (S k), ts'|..]; by eexists 0%nat, _.
Qed.

Lemma render_app ts ts' : render (ts ++ ts') = render ts ++ render ts'.
Proof. unfold render. by rewrite map_app, concat_app. Qed.

Lemma render_stars k : render (replicate k TStar) = replicate k ch_star.
Proof. induction k as [|k IH]; [done|]. unfold render in *. simpl. by rewrite IH. Qed.

Lemma render_cons t ts : render (t :: ts) = render_token t ++ render ts.
Proof. done. Qed.

(** What follows the stars of a pattern is not a star. *)
Lemma render_head ts post :
  Forall token_ok ts -> match ts with TStar :: _ => False | _ => True end ->
  exists c l, render ts ++ ch_nul :: post = c :: l /\ c <> ch_star.
Proof.
  intros Hok Hts. destruct ts as [|t ts]; [by eexists _, _|].
  apply Forall_cons_1 in Hok as [Ht _]. rewrite render_cons, <-app_assoc.
  destruct t; cbn [render_token app]; try done;
    (eexists _, _; split; [reflexivity|]; first [done|by destruct Ht]).
Qed.

Lemma glob_star_inv nocase ts s :
  glob nocase (TStar :: ts) s <-> exists s1 s2, s = s1 ++ s2 /\ glob nocase ts s2.
Proof.
  split; [|intros (s1 & s2 & -> & H); by constructor].
  intros H. inversion H; subst; [eauto|done].
Qed.

Lemma glob_stars nocase k ts s :
  glob nocase (TStar :: replicate k TStar ++ ts) s <-> exists s1 s2, s = s1 ++ s2 /\ glob nocase ts s2.
Proof.
  revert s. induction k as [|k IH]; intros s; [apply glob_star_inv|].
  cbn [replicate app]. rewrite glob_star_inv. setoid_rewrite IH. split.
  - intros (s1 & s2 & -> & s3 & s4 & -> & H). exists (s1 ++ s3), s4. by rewrite app_assoc.
  - intros (s1 & s2 & -> & H). exists s1, s2. split; [done|]. by exists [], s2.
Qed.

Lemma glob_cons_inv nocase t ts s :
  t <> TStar ->
  glob nocase (t :: ts) s <-> exists x s', s = x :: s' /\ token_match nocase t x = true /\ glob nocase ts s'.
Proof.
  intros Ht. split; [|intros (x & s' & -> & ? & ?); by constructor].
  intros H. inversion H; subst; [done|eauto].
Qed.

Lemma glob_nil_r nocase k ts :
  match ts with TStar :: _ => False | _ => True end ->
  glob nocase (replicate k TStar ++ ts) [] <-> ts = [].
Proof.
  intros Hts. assert (H : glob nocase ts [] <-> ts = []).
  { destruct ts as [|t ts]; [split; [done|constructor]|]. split; [|done].
    rewrite glob_cons_inv by (by destruct t). by intros (?&?&?&_). }
  destruct k as [|k]; [done|]. cbn [replicate app]. rewrite glob_stars, <-H. split.
  - intros (s1 & s2 & Heq & Hg). symmetry in Heq. by apply app_eq_nil in Heq as [_ ->].
  - intros Hg. by exists [], [].
Qed.

(** The suffix search of a star, given the matcher on non-empty suffixes. *)
Lemma star_loop_spec (P : list Z -> Prop) fuel : forall (rec : Z -> Z -> option bool) (spre s : list Z),
  (length s < fuel)%nat ->
  (forall s1 s2, s = s1 ++ s2 -> s2 <> [] ->
    exists b, rec (zlen spre + zlen s1) (zlen s2) = Some b /\ (b = true <-> P s2)) ->
  exists b, star_loop fuel rec (zlen spre) (zlen s) = Some b /\
    (b = true <-> exists s1 s2, s = s1 ++ s2 /\ s2 <> [] /\ P s2).
Proof.
  induction fuel as [|fuel IH]; intros rec spre s Hf Hrec; [lia|].
  cbn [star_loop]. destruct s as [|x s].
  { exists false. split; [done|]. split; [done|].
    intros (s1 & s2 & Heq & Hne & _). symmetry in Heq. by apply app_eq_nil in Heq as [_ ->]. }
  zfalse (Z.of_nat (length (x :: s)) =? 0).
  destruct (Hrec [] (x :: s)) as (b & Hb & Hbs); [done..|].
  cbn [length] in Hb. rewrite Z.add_0_r in Hb. cbn [length]. rewrite Hb. mstep.
  destruct b.
  - exists true. split; [done|]. split; [|done]. intros _. exists [], (x :: s).
    split; [done|]. split; [done|]. by apply Hbs.
  - destruct (IH rec (spre ++ [x]) s) as (b & Hrun & Hiff).
    { simpl in Hf. lia. }
    { intros s1 s2 -> Hne. destruct (Hrec (x :: s1) s2) as (b & Hb' & ?); [done..|].
      exists b. split; [|done]. rewrite <-Hb'. f_equal. rewrite length_app. simpl. lia. }
    exists b. split.
    + rewrite <-Hrun. rewrite length_app. f_equal; simpl; lia.
    + rewrite Hiff. split.
      * intros (s1 & s2 & -> & H). by exists (x :: s1), s2.
      * intros (s1 & s2 & Heq & Hne & HP). destruct s1 as [|y s1].
        { cbn [app] in Heq. subst s2. by apply Hbs in HP. }
        injection Heq as <- ->. by exists s1, s2.
Qed.

(** An empty string: the first token that is not a star decides. *)
Lemma match_one_empty t pre rest spre spost m nocase :
  token_ok t -> t <> TStar -> 0 <= m ->
  head_ok [t] [] ->
  match_one (pre ++ render_token t ++ rest) (zlen pre) (zlen (render_token t) + m)
    (spre ++ ch_nul :: spost) (zlen spre) 0 nocase = Some None.
Proof.
  intros Hok Hns Hm Hhd. unfold match_one. rewrite !(bget_mid spre).
  assert (Hne : forall c, 0 < c < 256 -> char_eq nocase c ch_nul = false).
  { intros c Hc. unfold char_eq, tolower, i8. destruct nocase; [|by zfalse (c =? ch_nul)].
    apply Z.eqb_neq. repeat case_match; simpl in *; try done; dlia. }
  destruct t as [| |c|c|neg items]; [done|..]; cbn [render_token app length];
    rewrite (bget_mid pre); mstep; [done|..].
  - destruct Hok as (H1 & H2 & H3 & H4). destruct Hhd as [?|Hhd]; [done|].
    zfalse (c =? ch_qmark). zfalse (c =? ch_lbrack). zfalse (c =? ch_bslash). mstep.
    rewrite bget_mid. mstep. by rewrite Hne.
  - destruct Hhd as [?|Hhd]; [done|]. ztrue (2 <=? Z.of_nat 2 + m). mstep.
    rewrite bget_app_mid1. mstep. by rewrite Hne.
  - by destruct Hhd.
Qed.

Lemma length_render_token t : token_ok t -> 1 <= zlen (render_token t).
Proof. destruct t; simpl; lia. Qed.

(** The matcher with [fuel] decides the tokens [ts], wherever pattern and
    string lie in memory. *)
Definition matcher_ok (fuel : nat) (nocase : bool) (ts : list token) (s : list Z) : Prop :=
  forall pre post spre spost p plen i slen,
    p = zlen pre -> plen = zlen (render ts) -> i = zlen spre -> slen = zlen s ->
    exists b, stringmatchlen_loop fuel (pre ++ render ts ++ ch_nul :: post) p plen
        (spre ++ s ++ ch_nul :: spost) i slen nocase = Some b /\
      (b = true <-> glob nocase ts s).

Lemma matcher_ok_star fuel nocase ts s :
  Forall token_ok ts ->
  (forall k ts' s2, ts = replicate k TStar ++ ts' -> s2 <> [] -> matcher_ok fuel nocase ts' s2) ->
  matcher_ok (S fuel) nocase (TStar :: ts) s.
Proof.
  intros Hok IH pre post spre spost p plen i slen -> -> -> ->. cbn [stringmatchlen_loop].
  destruct (split_stars ts) as (k & ts' & -> & Hhd).
  apply Forall_app in Hok as [_ Hok].
  rewrite render_cons, render_app, render_stars. cbn [render_token app length].
  zfalse (Z.of_nat (S (length (replicate k ch_star ++ render ts'))) =? 0).
  rewrite (bget_mid pre). mstep.
  destruct (render_head ts' post Hok Hhd) as (c & l & Hc & Hns).
  rewrite <-(app_assoc (replicate k ch_star)).
  rewrite (cons_middle ch_star pre), (app_assoc pre).
  rewrite Hc, skip_stars_spec; [|rewrite !length_app, length_replicate; lia|done|rewrite length_app; simpl; lia].
  rewrite <-Hc. mstep. rewrite length_app, length_replicate.
  destruct (decide (ts' = [])) as [->|Hne].
  { ztrue (Z.of_nat (S (k + length (render []))) - Z.of_nat k =? 1).
    exists true. split; [done|]. split; [|done]. intros _. rewrite glob_stars.
    exists s, []. rewrite app_nil_r. split; [done|constructor]. }
  assert (Hpos : 1 <= zlen (render ts')).
  { destruct ts' as [|t ts']; [done|]. apply Forall_cons_1 in Hok as [Ht _].
    pose proof (length_render_token t Ht). rewrite render_cons, length_app. lia. }
  zfalse (Z.of_nat (S (k + length (render ts'))) - Z.of_nat k =? 1).
  destruct (star_loop_spec (glob nocase ts')
    (S (Z.to_nat (zlen s) + length (spre ++ s ++ ch_nul :: spost)))
    (fun s0 slen0 => stringmatchlen_loop fuel
      ((pre ++ [ch_star]) ++ replicate k ch_star ++ render ts' ++ ch_nul :: post)
      (zlen pre + Z.of_nat k + 1) (Z.of_nat (S (k + length (render ts'))) - Z.of_nat k - 1)
      (spre ++ s ++ ch_nul :: spost) s0 slen0 nocase) spre s) as (b & Hb & Hiff).
  { rewrite !length_app. lia. }
  { intros s1 s2 -> Hs2. rewrite (app_assoc (pre ++ _)), <-(app_assoc s1), (app_assoc spre).
    apply (IH k ts' s2); [done|done|..]; rewrite ?length_app, ?length_replicate; simpl; lia. }
  exists b. split; [exact Hb|]. rewrite Hiff, glob_stars. split.
  - intros (s1 & s2 & -> & _ & H). eauto.
  - intros (s1 & s2 & -> & H). exists s1, s2. split; [done|]. split; [|done].
    intros ->. by apply (glob_nil_r nocase 0) in H.
Qed.

Lemma matcher_ok_one fuel nocase t ts s :
  Forall token_ok (t :: ts) -> t <> TStar -> head_ok (t :: ts) s ->
  (forall s', s' <> [] -> matcher_ok fuel nocase ts s') ->
  matcher_ok (S fuel) nocase (t :: ts) s.
Proof.
  intros [Ht Hok]%Forall_cons_1 Hns Hhd IH pre post spre spost p plen i slen -> -> -> ->.
  cbn [stringmatchlen_loop]. pose proof (length_render_token t Ht).
  rewrite render_cons, <-app_assoc, length_app, Nat2Z.inj_add.
  zfalse (zlen (render_token t) + zlen (render ts) =? 0).
  assert (exists c l, render_token t = c :: l /\ c <> ch_star) as (c & l & Hc & Hcs).
  { destruct t; [done|..]; (eexists _, _; split; [reflexivity|]); first [done|by destruct Ht]. }
  assert (bget (pre ++ render_token t ++ render ts ++ ch_nul :: post) (zlen pre) = Some c) as ->.
  { rewrite Hc. apply bget_mid. }
  mstep. zfalse (c =? ch_star).
  destruct s as [|x s].
  { cbn [app length]. change (Z.of_nat 0) with 0. rewrite match_one_empty; [|done..|lia|by destruct t]. mstep.
    exists false. split; [done|]. rewrite glob_cons_inv by done. by split; [|intros (?&?&?&_)]. }
  cbn [app length]. rewrite match_one_spec; [|done..|lia|intros _; lia]. mstep.
  setoid_rewrite (glob_cons_inv nocase t ts (x :: s) Hns).
  destruct (token_match nocase t x) eqn:Hm.
  2: { exists false. split; [done|]. split; [done|]. intros (y & s' & [= -> ->] & Hm' & _). congruence. }
  assert (Hiff : (exists y s', x :: s = y :: s' /\ token_match nocase t y = true /\ glob nocase ts s')
    <-> glob nocase ts s).
  { split; [by intros (y & s' & [= -> ->] & _ & ?)|eauto]. }
  setoid_rewrite Hiff. clear Hiff. destruct (decide (s = [])) as [->|Hs].
  - ztrue (Z.of_nat 1 - 1 =? 0).
    destruct (split_stars ts) as (k & ts' & -> & Hhd').
    apply Forall_app in Hok as [_ Hok].
    destruct (render_head ts' post Hok Hhd') as (c' & l' & Hc' & Hns').
    rewrite render_app, render_stars, <-(app_assoc (replicate k ch_star)), Hc', app_assoc.
    cbn [length]. ztrue (Z.of_nat 1 - 1 =? 0).
    rewrite skip_stars_spec; [|rewrite !length_app, length_replicate; lia|done|rewrite length_app; lia].
    mstep. eexists. split; [done|]. rewrite andb_true_r, Z.eqb_eq, glob_nil_r by done.
    rewrite length_app, length_replicate. split.
    + intros Hz. destruct ts' as [|t' ts']; [done|]. apply Forall_cons_1 in Hok as [Ht' _].
      pose proof (length_render_token t' Ht'). rewrite render_cons, length_app in Hz. lia.
    + intros ->. simpl. lia.
  - assert (length s <> 0%nat) by (by destruct s).
    zfalse (Z.of_nat (S (length s)) - 1 =? 0).
    rewrite app_assoc, (cons_middle x), (app_assoc spre).
    apply IH; [done|rewrite ?length_app; simpl; lia..].
Qed.

Lemma stringmatchlen_loop_spec fuel : forall ts s nocase,
  Forall token_ok ts -> head_ok ts s -> (length (render ts) < fuel)%nat ->
  matcher_ok fuel nocase ts s.
Proof.
  induction fuel as [|fuel IH]; intros ts s nocase Hok Hhd Hf; [lia|].
  destruct ts as [|t ts].
  { intros pre post spre spost p plen i slen -> -> -> ->.
    exists (zlen s =? 0). split; [done|]. rewrite Z.eqb_eq. split.
    - intros. destruct s; [constructor|simpl in *; lia].
    - intros H. by inversion H. }
  assert (Hok' := Hok). apply Forall_cons_1 in Hok' as [Ht Hts].
  pose proof (length_render_token t Ht). rewrite render_cons, length_app in Hf.
  destruct (decide (t = TStar)) as [->|Hns].
  - apply matcher_ok_star; [done|]. intros k ts' s2 -> Hs2. apply IH.
    + by apply Forall_app in Hts as [_ ?].
    + by left.
    + rewrite render_app, length_app in Hf. lia.
  - apply matcher_ok_one; [done..|]. intros s' Hs'. apply IH; [done|by left|lia].
Qed.

(** C8. When the string is not empty, or the pattern does not begin with a
    character class or a NUL ([head_ok]), stringmatchlen returns on every
    well-formed glob pattern, stays inside the terminated pattern and string,
    and its answer is whether the pattern matches, with or without case folding. *)
Theorem stringmatchlen_correct ts s post spost nocase :
  Forall token_ok ts -> head_ok ts s ->
  exists b, stringmatchlen (render ts ++ ch_nul :: post) (zlen (render ts))
      (s ++ ch_nul :: spost) (zlen s) nocase = Some b /\
    (b = true <-> glob nocase ts s).
Proof.
  intros Hok Hhd.
  destruct (stringmatchlen_loop_spec (S (length (render ts ++ ch_nul :: post))) ts s nocase Hok Hhd)
    with (pre := @nil Z) (post := post) (spre := @nil Z) (spost := spost)
         (p := 0) (plen := zlen (render ts)) (i := 0) (slen := zlen s) as (b & Hb & Hiff); try done.
  { rewrite length_app. lia. }
  exists b. split; [exact Hb|done].
Qed.

Lemma length_tokens us : Forall token_ok us -> zlen us <= zlen (render us).
Proof.
  induction 1 as [|u us Hu _ IH]; [done|]. rewrite render_cons, length_app. cbn [length].
  pose proof (length_render_token u Hu). lia.
Qed.

(** Do the tokens, each for one character, match these characters? *)
Fixpoint tokens_match (nocase : bool) (ts : list token) (xs : list Z) : bool :=
  match ts, xs with
  | t :: ts, x :: xs => token_match nocase t x && tokens_match nocase ts xs
  | _, _ => true
  end.

(** When the count of characters left has become negative, the matcher goes on
    with the bytes it finds. *)
Lemma runs_over us : forall fuel pre post spre xs spost slen nocase,
  Forall token_ok us -> Forall (fun u => u <> TStar) us -> length xs = length us -> slen < 0 ->
  (length us < fuel)%nat ->
  stringmatchlen_loop fuel (pre ++ render us ++ ch_star :: ch_nul :: post) (zlen pre) (zlen (render us) + 1)
    (spre ++ xs ++ spost) (zlen spre) slen nocase = Some (tokens_match nocase us xs).
Proof.
  induction us as [|u us IH]; intros fuel pre post spre xs spost slen nocase Hok Hns Hl Hs Hf;
    (destruct fuel as [|fuel]; [lia|]); cbn [stringmatchlen_loop].
  - cbn [render map concat app length]. zfalse (Z.of_nat 0 + 1 =? 0). rewrite (bget_mid pre). mstep.
    rewrite (cons_middle ch_star), (app_assoc pre).
    rewrite (skip_stars_spec 0 _ 1 (pre ++ [ch_star]) ch_nul post (zlen pre)); [|lia|done|rewrite length_app; simpl; lia].
    mstep. done.
  - destruct xs as [|x xs]; [done|]. apply Forall_cons_1 in Hok as [Hu Hok]. apply Forall_cons_1 in Hns as [Hnu Hns].
    pose proof (length_render_token u Hu). rewrite render_cons, <-app_assoc, length_app, Nat2Z.inj_add.
    zfalse (zlen (render_token u) + zlen (render us) + 1 =? 0).
    assert (exists c l, render_token u = c :: l /\ c <> ch_star) as (c & l & Hc & Hcs).
    { destruct u; [done|..]; (eexists _, _; split; [reflexivity|]); first [done|by destruct Hu]. }
    assert (bget (pre ++ render_token u ++ render us ++ ch_star :: ch_nul :: post) (zlen pre) = Some c) as ->.
    { rewrite Hc. apply bget_mid. }
    mstep. zfalse (c =? ch_star). cbn [app].
    rewrite <-Z.add_assoc, match_one_spec; [|done..|lia|intros _; lia]. mstep. cbn [tokens_match].
    destruct (token_match nocase u x); [|done]. cbn [andb]. zfalse (slen - 1 =? 0).
    rewrite (app_assoc pre), (cons_middle x), (app_assoc spre).
    replace (zlen pre + zlen (render_token u) - 1 + 1) with (zlen (pre ++ render_token u)) by (rewrite length_app; lia).
    replace (1 + (zlen (render us) + 1) - 1) with (zlen (render us) + 1) by lia.
    replace (zlen spre + 1) with (zlen (spre ++ [x])) by (rewrite length_app; simpl; lia).
    apply IH; try done; simpl in *; lia.
Qed.

(** C26. A class that accepts the NUL character, at the head of a pattern that ends
    with a star, consumes the terminator of an empty string: the answer is then
    whether the tokens in between match the bytes that follow the string in
    memory, although the pattern does not match the empty string. *)
Theorem stringmatchlen_class_escapes neg items us xs post spost nocase :
  Forall token_ok (TClass neg items :: us) -> Forall (fun u => u <> TStar) us ->
  token_match nocase (TClass neg items) ch_nul = true -> length xs = length us ->
  let ts := TClass neg items :: us ++ [TStar] in
  stringmatchlen (render ts ++ ch_nul :: post) (zlen (render ts)) (ch_nul :: xs ++ spost) 0 nocase =
    Some (tokens_match nocase us xs) /\
  ~ glob nocase ts [].
Proof.
  intros [Ht Hok]%Forall_cons_1 Hns Hm Hl ts.
  split; [|unfold ts; rewrite glob_cons_inv by done; by intros (? & ? & ? & _)].
  pose proof (length_render_token _ Ht) as Hlt. set (t := TClass neg items) in *.
  unfold stringmatchlen, ts. rewrite render_cons, render_app. change (render [TStar]) with [ch_star].
  rewrite <-!app_assoc. cbn [app]. rewrite !length_app, !Nat2Z.inj_add. change (zlen [ch_star]) with 1.
  cbn [stringmatchlen_loop]. zfalse (zlen (render_token t) + (zlen (render us) + 1) =? 0).
  assert (bget (render_token t ++ render us ++ ch_star :: ch_nul :: post) 0 = Some ch_lbrack) as ->.
  { unfold t. cbn [render_token]. rewrite <-app_assoc. apply (bget_mid []). }
  mstep. assert (Hone := match_one_spec t [] (render us ++ ch_star :: ch_nul :: post) [] ch_nul (xs ++ spost) (zlen (render us) + 1) 0 nocase).
  cbn [app length] in Hone. change (Z.of_nat 0) with 0 in Hone. rewrite Hone, Hm by (done || lia). mstep.
  change (0 - 1 =? 0) with false. cbv iota.
  replace (0 + zlen (render_token t) - 1 + 1) with (zlen (render_token t)) by lia.
  replace (1 + (zlen (render us) + 1) - 1) with (zlen (render us) + 1) by lia.
  apply (runs_over us _ (render_token t) post [ch_nul] xs spost); try done.
  assert (Hlr := length_tokens us Hok). simpl. lia.
Qed.

(** "[^a]b*" against an empty string that "b" follows in memory. *)
Lemma stringmatchlen_class_escapes_witness :
  stringmatchlen (render [TClass true [CChar 97]; TLit 98; TStar] ++ [ch_nul]) 6 [ch_nul; 98] 0 false = Some true /\
  ~ glob false [TClass true [CChar 97]; TLit 98; TStar] [].
Proof.
  apply (stringmatchlen_class_escapes true [CChar 97] [TLit 98] [98] [] [] false); [|by repeat constructor|done|done].
  repeat constructor; unfold plain; split_and?; done.
Defined.

(** "h[^x]ll*" and "hello". *)
Lemma stringmatchlen_correct_witness :
  let ts := [TLit 104; TClass true [CChar 120]; TLit 108; TLit 108; TStar] in
  let s := [104; 101; 108; 108; 111] in
  exists b, stringmatchlen (render ts ++ ch_nul :: []) (zlen (render ts)) (s ++ ch_nul :: []) (zlen s) false = Some b /\
    (b = true <-> glob false ts s).
Proof.
  intros ts s. apply (stringmatchlen_correct ts s [] [] false); [|by left].
  repeat constructor; unfold plain; split_and?; done.
Defined.
