(* ===== verification/Endianconv.v ===== *)
(** endianconv.c: in-place reversal of 2, 4 and 8 byte integers. *)

From S2P Require Import Prelude.

(** x[i] and x[j] exchanged through a temporary, as memrev16/32/64 do. *)
Definition swap_bytes (p : list Z) (i j : Z) : option (list Z) :=
  t ← bget p i; u ← bget p j; p ← bset p i u; bset p j t.

Definition memrev16 (p : list Z) : option (list Z) := swap_bytes p 0 1.

Definition memrev32 (p : list Z) : option (list Z) :=
  p ← swap_bytes p 0 3; swap_bytes p 1 2.

Definition memrev64 (p : list Z) : option (list Z) :=
  p ← swap_bytes p 0 7; p ← swap_bytes p 1 6; p ← swap_bytes p 2 5; swap_bytes p 3 4.

(** The value functions reverse the integer's own storage. *)
Definition intrev16 (v : Z) : option Z := p ← memrev16 (le_encode 2 v); Some (le_decode p).
Definition intrev32 (v : Z) : option Z := p ← memrev32 (le_encode 4 v); Some (le_decode p).
Definition intrev64 (v : Z) : option Z := p ← memrev64 (le_encode 8 v); Some (le_decode p).

Lemma memrev16_reverse a : length a = 2%nat -> memrev16 a = Some (reverse a).
Proof.
  destruct a as [|a0 [|a1 [|]]]; intros Ha; try discriminate. reflexivity.
Qed.
Lemma memrev32_reverse a : length a = 4%nat -> memrev32 a = Some (reverse a).
Proof.
  destruct a as [|a0 [|a1 [|a2 [|a3 [|]]]]]; intros Ha; try discriminate. reflexivity.
Qed.
Lemma memrev64_reverse a : length a = 8%nat -> memrev64 a = Some (reverse a).
Proof.
  destruct a as [|a0 [|a1 [|a2 [|a3 [|a4 [|a5 [|a6 [|a7 [|]]]]]]]]]; intros Ha; try discriminate.
  reflexivity.
Qed.
#[export] Hint Rewrite memrev16_reverse memrev32_reverse memrev64_reverse
  using (rewrite ?length_reverse, ?length_le_encode; done) : redis.

Lemma bytes_ok_reverse l : bytes_ok l -> bytes_ok (reverse l).
Proof. apply Forall_reverse. Qed.
#[export] Hint Resolve bytes_ok_reverse : redis.

Lemma intrev_bytes n z p :
  p = reverse (le_encode n z) -> le_encode n (le_decode p) = reverse (le_encode n z).
Proof.
  intros ->. rewrite <-(length_le_encode n z) at 1. rewrite <-(length_reverse (le_encode n z)).
  apply le_encode_decode. auto with redis.
Qed.

(** Byte [i] of an integer, 0 being the least significant one. *)
Definition byte_at (v i : Z) : Z := (v / 2 ^ (8 * i)) mod 256.

(** [r] is an integer of [n] bytes: those of [v], the last one first. *)
Definition byte_reversed (n v r : Z) : Prop :=
  0 <= r < 2 ^ (8 * n) /\ forall i, 0 <= i < n -> byte_at r i = byte_at v (n - 1 - i).

Lemma le_encode_lookup n : forall v i, (i < n)%nat -> le_encode n v !! i = Some (byte_at v (Z.of_nat i)).
Proof.
  unfold byte_at. induction n as [|n IH]; intros v i Hi; [lia|]. cbn [le_encode]. destruct i as [|i]; cbn [lookup list_lookup].
  - change (2 ^ (8 * Z.of_nat 0)) with 1. by rewrite Z.div_1_r.
  - rewrite IH by lia. rewrite Zdiv.Zdiv_Zdiv by (try apply Z.pow_nonneg; lia).
    replace (8 * Z.of_nat (S i)) with (8 + 8 * Z.of_nat i) by lia. rewrite Z.pow_add_r by lia. done.
Qed.

(** What is read back after the bytes of [v] were reversed. *)
Lemma reversed_decode n v : byte_reversed (Z.of_nat n) v (le_decode (reverse (le_encode n v))).
Proof.
  set (r := le_decode (reverse (le_encode n v))).
  assert (Hr : le_encode n r = reverse (le_encode n v)) by by apply intrev_bytes.
  split.
  - assert (Hb := le_decode_bound (reverse (le_encode n v)) (bytes_ok_reverse _ (le_encode_ok n v))).
    by rewrite length_reverse, length_le_encode in Hb.
  - intros i Hi. assert (H := le_encode_lookup n r (Z.to_nat i) ltac:(lia)).
    rewrite Hr, reverse_lookup, length_le_encode, le_encode_lookup in H by (rewrite ?length_le_encode; lia).
    rewrite Z2Nat.id in H by lia. injection H as H. rewrite <-H. f_equal. lia.
Qed.

Lemma reversed_twice n v : 0 <= v < 2 ^ (8 * Z.of_nat n) ->
  le_decode (reverse (le_encode n (le_decode (reverse (le_encode n v))))) = v.
Proof.
  intros Hv. rewrite (intrev_bytes n v) by done. rewrite reverse_involutive, le_decode_encode. by apply Z.mod_small.
Qed.

(** C31. intrev16, intrev32 and intrev64 reverse the bytes of their argument, so
    that what a host of either endianness stores with them it reads back. *)
Theorem intrev_correct v :
  (0 <= v < 2 ^ 16 -> exists r, intrev16 v = Some r /\ byte_reversed 2 v r /\ intrev16 r = Some v) /\
  (0 <= v < 2 ^ 32 -> exists r, intrev32 v = Some r /\ byte_reversed 4 v r /\ intrev32 r = Some v) /\
  (0 <= v < 2 ^ 64 -> exists r, intrev64 v = Some r /\ byte_reversed 8 v r /\ intrev64 r = Some v).
Proof.
  unfold intrev16, intrev32, intrev64.
  split_and!; intros Hv; autorewrite with redis; cbn [mbind option_bind];
    (eexists; split; [done|]; split; [apply reversed_decode|]);
    autorewrite with redis; cbn [mbind option_bind]; by rewrite reversed_twice.
Qed.

Lemma intrev_correct_witness :
  (exists r, intrev16 258 = Some r /\ byte_reversed 2 258 r /\ intrev16 r = Some 258) /\
  (exists r, intrev32 258 = Some r /\ byte_reversed 4 258 r /\ intrev32 r = Some 258) /\
  exists r, intrev64 258 = Some r /\ byte_reversed 8 258 r /\ intrev64 r = Some 258.
Proof. destruct (intrev_correct 258) as (H1 & H2 & H3). split_and!; [apply H1|apply H2|apply H3]; lia. Defined.
