(* ===== verification/Intset.v ===== *)
(** intset.c: sorted sets of integers in one memory block, the encoding of
    small integer sets.

    The block is the header (encoding, length) and [contents], an array of
    [length] integers of [encoding] bytes each; an insertion may widen all of
    them.  The host is little-endian, so the intrev32ifbe and memrevNifbe
    macros are the identity. *)

From S2P Require Import Prelude.
From stdpp Require Import gmap.
#[local] Open Scope Z_scope.

Record intset := {
  is_encoding : Z;
  is_length : Z;
  is_contents : list Z
}.

Definition INTSET_ENC_INT16 : Z := 2.
Definition INTSET_ENC_INT32 : Z := 4.
Definition INTSET_ENC_INT64 : Z := 8.

Definition with_contents (iset : intset) (c : list Z) : intset :=
  {| is_encoding := is_encoding iset; is_length := is_length iset; is_contents := c |}.
Arguments with_contents _ _ /.

Section Intset.
  (** The value of fresh heap memory. *)
  Context (junk : Z -> Z).

(** ** Definitions *)

Definition _intsetValueEncoding (v : Z) : Z :=
  if (v <? -2147483648) || (2147483647 <? v) then INTSET_ENC_INT64
  else if (v <? -32768) || (32767 <? v) then INTSET_ENC_INT32
  else INTSET_ENC_INT16.

Definition _intsetGetEncoded (iset : intset) (pos enc : Z) : option Z :=
  if enc =? INTSET_ENC_INT64 then
    bs ← bread (is_contents iset) (pos * 8) 8; Some (i64 (le_decode bs))
  else if enc =? INTSET_ENC_INT32 then
    bs ← bread (is_contents iset) (pos * 4) 4; Some (i32 (le_decode bs))
  else
    bs ← bread (is_contents iset) (pos * 2) 2; Some (i16 (le_decode bs)).

Definition _intsetGet (iset : intset) (pos : Z) : option Z :=
  _intsetGetEncoded iset pos (is_encoding iset).

Definition _intsetSet (iset : intset) (pos value : Z) : option intset :=
  let encoding := is_encoding iset in
  c ← (if encoding =? INTSET_ENC_INT64 then bwrite (is_contents iset) (pos * 8) (le_encode 8 value)
       else if encoding =? INTSET_ENC_INT32 then bwrite (is_contents iset) (pos * 4) (le_encode 4 value)
       else bwrite (is_contents iset) (pos * 2) (le_encode 2 value));
  Some (with_contents iset c).

Definition intsetNew : intset :=
  {| is_encoding := INTSET_ENC_INT16; is_length := 0; is_contents := [] |}.

Definition intsetResize (iset : intset) (len : Z) : intset :=
  let size := u32 (len * is_encoding iset) in
  with_contents iset (zrealloc junk (is_contents iset) size).

(** The bisection loop: returns [min], [mid] and [cur] as they are at exit. *)
Fixpoint intsetSearch_loop (fuel : nat) (iset : intset) (value min max mid cur : Z) : option (Z * Z * Z) :=
  if max >=? min then
    match fuel with
    | O => None
    | S fuel' =>
        let mid := Z.shiftr (u32 (u32 min + u32 max)) 1 in
        cur ← _intsetGet iset mid;
        if value >? cur then intsetSearch_loop fuel' iset value (i32 (mid + 1)) max mid cur
        else if value <? cur then intsetSearch_loop fuel' iset value min (i32 (mid - 1)) mid cur
        else Some (min, mid, cur)
    end
  else Some (min, mid, cur).

(** Whether the value was found, and [*pos]. *)
Definition intsetSearch (iset : intset) (value : Z) : option (bool * Z) :=
  let max := i32 (is_length iset - 1) in
  if is_length iset =? 0 then Some (false, 0) else
  last ← _intsetGet iset (i32 (u32 (is_length iset - 1)));
  if value >? last then Some (false, is_length iset) else
  first ← _intsetGet iset 0;
  if value <? first then Some (false, 0) else
  '(min, mid, cur) ← intsetSearch_loop (S (Z.to_nat (is_length iset))) iset value 0 max (-1) (-1);
  if value =? cur then Some (true, mid) else Some (false, u32 min).

(** while(length--) ... *)
Fixpoint intsetUpgrade_loop (length : nat) (iset : intset) (prepend curenc : Z) : option intset :=
  match length with
  | O => Some iset
  | S length' =>
      v ← _intsetGetEncoded iset (Z.of_nat length') curenc;
      iset ← _intsetSet iset (Z.of_nat length' + prepend) v;
      intsetUpgrade_loop length' iset prepend curenc
  end.

Definition intsetUpgradeAndAdd (iset : intset) (value : Z) : option intset :=
  let curenc := is_encoding iset in
  let newenc := _intsetValueEncoding value in
  let length := i32 (is_length iset) in
  let prepend := if value <? 0 then 1 else 0 in
  let iset := {| is_encoding := newenc; is_length := is_length iset; is_contents := is_contents iset |} in
  let iset := intsetResize iset (u32 (is_length iset + 1)) in
  iset ← intsetUpgrade_loop (Z.to_nat length) iset prepend curenc;
  iset ← (if prepend =? 1 then _intsetSet iset 0 value
        else _intsetSet iset (i32 (is_length iset)) value);
  Some {| is_encoding := is_encoding iset; is_length := u32 (is_length iset + 1);
          is_contents := is_contents iset |}.

Definition intsetMoveTail (iset : intset) (from to : Z) : option intset :=
  let bytes := u32 (is_length iset - from) in
  let w := if is_encoding iset =? INTSET_ENC_INT64 then 8
           else if is_encoding iset =? INTSET_ENC_INT32 then 4 else 2 in
  let bytes := u32 (bytes * w) in
  c ← bmove (is_contents iset) (to * w) (from * w) bytes;
  Some (with_contents iset c).

(** The new set and [*success]. *)
Definition intsetAdd (iset : intset) (value : Z) : option (intset * bool) :=
  let valenc := _intsetValueEncoding value in
  if valenc >? is_encoding iset then
    iset ← intsetUpgradeAndAdd iset value; Some (iset, true)
  else
    '(found, pos) ← intsetSearch iset value;
    if (found : bool) then Some (iset, false) else
    let iset := intsetResize iset (u32 (is_length iset + 1)) in
    iset ← (if pos <? is_length iset then intsetMoveTail iset pos (u32 (pos + 1)) else Some iset);
    iset ← _intsetSet iset (i32 pos) value;
    Some ({| is_encoding := is_encoding iset; is_length := u32 (is_length iset + 1);
             is_contents := is_contents iset |}, true).

Definition intsetRemove (iset : intset) (value : Z) : option (intset * bool) :=
  let valenc := _intsetValueEncoding value in
  if valenc <=? is_encoding iset then
    '(found, pos) ← intsetSearch iset value;
    if (found : bool) then
      let len := is_length iset in
      iset ← (if pos <? u32 (len - 1) then intsetMoveTail iset (u32 (pos + 1)) pos else Some iset);
      let iset := intsetResize iset (u32 (len - 1)) in
      Some ({| is_encoding := is_encoding iset; is_length := u32 (len - 1);
               is_contents := is_contents iset |}, true)
    else Some (iset, false)
  else Some (iset, false).

Definition intsetFind (iset : intset) (value : Z) : option bool :=
  let valenc := _intsetValueEncoding value in
  if valenc <=? is_encoding iset then
    '(found, _) ← intsetSearch iset value; Some found
  else Some false.

(** [rand] is the value rand() returns. *)
Definition intsetRandom (iset : intset) (rand : Z) : option Z :=
  if is_length iset =? 0 then None (* remainder by zero *)
  else _intsetGet iset (u32 rand mod is_length iset).

(** [None] inside: the position is out of range and 0 is returned. *)
Definition intsetGet (iset : intset) (pos : Z) : option (option Z) :=
  if pos <? is_length iset then v ← _intsetGet iset (i32 pos); Some (Some v) else Some None.

Definition intsetLen (iset : intset) : Z := is_length iset.

(** sizeof(intset) is 8: the flexible array adds nothing. *)
Definition intsetBlobLen (iset : intset) : Z := u64 (8 + u32 (is_length iset * is_encoding iset)).

End Intset.

Example intset_ex :
  (iset ← (r ← intsetAdd (fun _ => 170) intsetNew 5; Some r.1);
   iset ← (r ← intsetAdd (fun _ => 170) iset (-3); Some r.1);
   iset ← (r ← intsetAdd (fun _ => 170) iset 70000; Some r.1);
   iset ← (r ← intsetAdd (fun _ => 170) iset (-70000); Some r.1);
   iset ← (r ← intsetRemove (fun _ => 170) iset 5; Some r.1);
   Some (is_length iset, is_contents iset)) = Some (3, enc_all 4 [-70000; -3; 70000]).
Proof. reflexivity. Qed.

(** ** The abstract set and its representation *)

(** Values of [e] bytes, two's complement. *)
Definition fits (e v : Z) : Prop := - 2 ^ (8 * e - 1) <= v < 2 ^ (8 * e - 1).

Definition enc_ok (e : Z) : Prop := e = 2 \/ e = 4 \/ e = 8.

(** [iset] holds the increasing sequence [l]: each element is stored with the
    block's width, which is large enough for all of them. *)
Record intset_rep (iset : intset) (l : list Z) : Prop := {
  rep_enc : enc_ok (is_encoding iset);
  rep_length : is_length iset = zlen l;
  rep_bound : zlen l < 536870912;
  rep_contents : is_contents iset = enc_all (Z.to_nat (is_encoding iset)) l;
  rep_fits : Forall (fits (is_encoding iset)) l;
  rep_sorted : StronglySorted Z.lt l
}.

(** Sorted insertion, the reference for [intsetAdd]. *)
Fixpoint insert_sorted (v : Z) (l : list Z) : list Z :=
  match l with
  | [] => [v]
  | x :: l' => if v <? x then v :: l else if v =? x then l else x :: insert_sorted v l'
  end.

Lemma elem_of_insert_sorted v w l : w ∈ insert_sorted v l <-> w = v \/ w ∈ l.
Proof.
  induction l as [|x l IH]; cbn [insert_sorted].
  { rewrite list_elem_of_singleton, elem_of_nil. tauto. }
  destruct (Z.ltb_spec v x); [by rewrite elem_of_cons|].
  destruct (Z.eqb_spec v x) as [->|]; rewrite !elem_of_cons; tauto.
Qed.

Lemma insert_sorted_middle v l1 l2 :
  Forall (fun x => x < v) l1 -> Forall (fun x => v < x) l2 ->
  insert_sorted v (l1 ++ l2) = l1 ++ v :: l2.
Proof.
  intros H1 H2. induction H1 as [|x l1 Hx H1 IH]; cbn [app insert_sorted].
  - destruct H2 as [|y l2 Hy _]; cbn [insert_sorted]; [done|]. by ztrue (v <? y).
  - zfalse (v <? x). zfalse (v =? x). by rewrite IH.
Qed.

Lemma insert_sorted_present v l1 l2 :
  Forall (fun x => x < v) l1 -> insert_sorted v (l1 ++ v :: l2) = l1 ++ v :: l2.
Proof.
  induction 1 as [|x l1 Hx H1 IH]; cbn [app insert_sorted].
  - by rewrite Z.ltb_irrefl, Z.eqb_refl.
  - zfalse (v <? x). zfalse (v =? x). by rewrite IH.
Qed.

Lemma StronglySorted_middle l1 v l2 :
  StronglySorted Z.lt (l1 ++ v :: l2) <->
  StronglySorted Z.lt (l1 ++ l2) /\ Forall (fun x => x < v) l1 /\ Forall (fun x => v < x) l2.
Proof.
  induction l1 as [|x l1 IH]; cbn [app].
  - split; [by intros [? ?]%StronglySorted_inv|]. intros (? & _ & ?). by constructor.
  - split.
    + intros [Hs Hx]%StronglySorted_inv. apply IH in Hs as (Hs & H1 & H2).
      apply Forall_app in Hx as [Hx1 Hx2]. apply Forall_cons_1 in Hx2 as [Hxv Hx2].
      split; [constructor; [done|by apply Forall_app]|]. by split; [constructor|].
    + intros ([Hs Hx]%StronglySorted_inv & [Hxv H1]%Forall_cons_1 & H2).
      apply Forall_app in Hx as [Hx1 Hx2]. constructor; [by apply IH|].
      apply Forall_app. split; [done|]. by constructor.
Qed.

(** ** Reading and writing elements *)

Lemma _intsetValueEncoding_spec v :
  in_i64 v -> enc_ok (_intsetValueEncoding v) /\
    forall e, enc_ok e -> fits e v <-> _intsetValueEncoding v <= e.
Proof.
  intros Hv. unfold _intsetValueEncoding, enc_ok, fits, INTSET_ENC_INT64, INTSET_ENC_INT32,
    INTSET_ENC_INT16, in_i64 in *.
  split; [repeat case_match; auto|].
  intros e [->|[-> | ->]]; simpl (2 ^ _); ztests.
Qed.

Lemma fits_mono e e' v : enc_ok e -> enc_ok e' -> e <= e' -> fits e v -> fits e' v.
Proof.
  unfold fits. intros [->|[-> | ->]] [->|[-> | ->]]; simpl (2 ^ _); lia.
Qed.

Lemma getEncoded_at iset pre v post pos e :
  enc_ok e -> fits e v -> zlen pre = pos * e ->
  is_contents iset = pre ++ le_encode (Z.to_nat e) v ++ post ->
  _intsetGetEncoded iset pos e = Some v.
Proof.
  intros He Hv Hpre Hc. unfold _intsetGetEncoded, fits in *. rewrite Hc.
  destruct He as [->|[-> | ->]]; cbn [Z.eqb Pos.eqb INTSET_ENC_INT64 INTSET_ENC_INT32];
    unfold INTSET_ENC_INT64, INTSET_ENC_INT32; cbn [Z.eqb Pos.eqb];
    rewrite bread_app by (rewrite ?length_le_encode; lia); cbn [mbind option_bind];
    rewrite le_decode_encode; f_equal; pow_consts; mlia.
Qed.

Lemma set_at iset pre mid post pos v :
  enc_ok (is_encoding iset) -> zlen mid = is_encoding iset -> zlen pre = pos * is_encoding iset ->
  is_contents iset = pre ++ mid ++ post ->
  _intsetSet iset pos v =
    Some (with_contents iset (pre ++ le_encode (Z.to_nat (is_encoding iset)) v ++ post)).
Proof.
  intros He Hmid Hpre Hc. unfold _intsetSet. rewrite Hc.
  destruct He as [He|[He|He]]; rewrite He in *;
    unfold INTSET_ENC_INT64, INTSET_ENC_INT32; cbn [Z.eqb Pos.eqb];
    by rewrite bwrite_app by (rewrite ?length_le_encode; lia).
Qed.

Lemma intsetGet_rep iset l n v :
  intset_rep iset l -> l !! n = Some v -> _intsetGet iset (Z.of_nat n) = Some v.
Proof.
  intros [He Hlen Hb Hc Hf Hs] Hn. apply list_elem_of_split_length in Hn as (l1 & l2 & -> & ->).
  apply Forall_app in Hf as [_ [Hv _]%Forall_cons_1].
  eapply getEncoded_at; [done|done| |].
  2: { rewrite Hc, enc_all_app, enc_all_cons. done. }
  rewrite length_enc_all. destruct He as [->|[-> | ->]]; lia.
Qed.

Lemma intsetGet_middle iset l1 v l2 pos :
  intset_rep iset (l1 ++ v :: l2) -> pos = zlen l1 -> _intsetGet iset pos = Some v.
Proof. intros Hr ->. eapply intsetGet_rep; [done|]. by apply list_lookup_middle. Qed.

(** ** Searching *)

(** Indices and order in an increasing sequence. *)
Lemma sorted_lookup_lt l i j x y :
  StronglySorted Z.lt l -> l !! i = Some x -> l !! j = Some y -> (i < j)%nat -> x < y.
Proof.
  intros Hs Hi Hj Hij. apply list_elem_of_split_length in Hi as (l1 & l2 & -> & ->).
  apply StronglySorted_middle in Hs as (_ & _ & H2).
  rewrite lookup_app_r in Hj by lia.
  destruct (j - length l1)%nat as [|k] eqn:Hk; [lia|]. cbn in Hj.
  eapply Forall_lookup_1 in H2; [|exact Hj]. done.
Qed.

(** Where a search for [v] in [l] ends. *)
Definition search_at (l : list Z) (v : Z) (found : bool) (pos : Z) : Prop :=
  exists l1 l2, zlen l1 = pos /\ Forall (fun x => x < v) l1 /\ Forall (fun x => v < x) l2 /\
    l = if found then l1 ++ v :: l2 else l1 ++ l2.

Lemma search_at_found l v n : StronglySorted Z.lt l -> l !! n = Some v -> search_at l v true (Z.of_nat n).
Proof.
  intros Hs (l1 & l2 & -> & ->)%list_elem_of_split_length.
  apply StronglySorted_middle in Hs as (_ & H1 & H2). by exists l1, l2.
Qed.

Lemma search_at_absent l v n :
  (n <= length l)%nat ->
  (forall i x, l !! i = Some x -> (i < n)%nat -> x < v) ->
  (forall i x, l !! i = Some x -> (n <= i)%nat -> v < x) ->
  search_at l v false (Z.of_nat n).
Proof.
  intros Hn Hlo Hhi. exists (take n l), (drop n l).
  split; [by rewrite length_take_le|]. split_and!; [| |by rewrite take_drop].
  - apply Forall_lookup. intros i x [? ?]%lookup_take_Some. eauto.
  - apply Forall_lookup. intros i x. rewrite lookup_drop. intros. eapply Hhi; [done|lia].
Qed.

Lemma shiftr1_mid a b : 0 <= a -> 0 <= b -> a + b < 4294967296 ->
  Z.shiftr (u32 (u32 a + u32 b)) 1 = (a + b) / 2.
Proof.
  intros. rewrite Z.shiftr_div_pow2 by lia. change (2 ^ 1) with 2.
  by rewrite (u32_small a), (u32_small b), u32_small by lia.
Qed.

Lemma intsetSearch_loop_spec fuel : forall iset l v min max mid cur,
  intset_rep iset l -> 0 <= min -> min <= max + 1 -> max < zlen l ->
  max - min + 1 < Z.of_nat fuel -> (min <= max \/ cur <> v) ->
  (forall i x, l !! i = Some x -> Z.of_nat i < min -> x < v) ->
  (forall i x, l !! i = Some x -> max < Z.of_nat i -> v < x) ->
  exists min' mid' cur', intsetSearch_loop fuel iset v min max mid cur = Some (min', mid', cur') /\
    if v =? cur' then search_at l v true mid' else search_at l v false min' /\ 0 <= min' <= zlen l.
Proof.
  induction fuel as [|fuel IH]; intros iset l v min max mid cur Hr Hmin Hmm Hmax Hf Hcur Hlo Hhi;
    [lia|].
  pose proof (rep_bound _ _ Hr). cbn [intsetSearch_loop]. rewrite Z.geb_leb.
  destruct (Z.leb_spec min max) as [Hle|Hgt].
  - rewrite shiftr1_mid by lia. set (m := (min + max) / 2).
    assert (Hm : min <= m <= max) by (unfold m; dlia).
    destruct (lookup_lt_is_Some_2 l (Z.to_nat m)) as [x Hx]; [lia|].
    assert (Hg := intsetGet_rep _ _ _ _ Hr Hx). rewrite Z2Nat.id in Hg by lia.
    rewrite Hg. cbn [mbind option_bind]. rewrite Z.gtb_ltb.
    pose proof (rep_sorted _ _ Hr) as Hs.
    destruct (Z.ltb_spec x v) as [Hxv|Hxv]; [|destruct (Z.ltb_spec v x) as [Hvx|Hvx]].
    + rewrite i32_small by lia. apply IH; try done; try lia.
      intros i y Hy Hi. destruct (decide (i = Z.to_nat m)) as [->|]; [congruence|].
      trans x; [|done]. apply (sorted_lookup_lt l i (Z.to_nat m)); [done..|lia].
    + rewrite i32_small by lia. apply IH; try done; try lia.
      intros i y Hy Hi. destruct (decide (i = Z.to_nat m)) as [->|]; [congruence|].
      trans x; [done|]. apply (sorted_lookup_lt l (Z.to_nat m) i); [done..|lia].
    + assert (x = v) as -> by lia. eexists _, _, _. split; [done|]. rewrite Z.eqb_refl.
      rewrite <-(Z2Nat.id m) by lia. by apply search_at_found.
  - eexists _, _, _. split; [done|]. destruct Hcur as [?|Hcur]; [lia|].
    zfalse (v =? cur). split; [|lia]. rewrite <-(Z2Nat.id min) by lia.
    apply search_at_absent; [lia|intros; eapply Hlo; [done|lia]|intros; eapply Hhi; [done|lia]].
Qed.

(** intsetSearch terminates inside the block; it finds exactly the members,
    and otherwise the position where the value belongs. *)
Lemma intsetSearch_spec iset l v :
  intset_rep iset l ->
  exists found pos, intsetSearch iset v = Some (found, pos) /\ search_at l v found pos /\ 0 <= pos <= zlen l.
Proof.
  intros Hr. pose proof (rep_bound _ _ Hr). pose proof (rep_length _ _ Hr) as Hlen.
  pose proof (rep_sorted _ _ Hr) as Hs. unfold intsetSearch. rewrite Hlen.
  destruct l as [|x0 l'] eqn:Hl.
  { exists false, 0. split; [done|]. split; [by exists [], []|simpl; lia]. }
  rewrite <-Hl in *. assert (Hpos : 0 < zlen l) by (subst; simpl; lia).
  zfalse (zlen l =? 0).
  rewrite (u32_small (zlen l - 1)), !(i32_small (zlen l - 1)) by lia.
  destruct (lookup_lt_is_Some_2 l (Z.to_nat (zlen l - 1))) as [y Hy]; [lia|].
  assert (Hg := intsetGet_rep _ _ _ _ Hr Hy). rewrite Z2Nat.id in Hg by lia.
  rewrite Hg. cbn [mbind option_bind]. rewrite Z.gtb_ltb.
  assert (Hx0 : l !! 0%nat = Some x0) by (by subst).
  assert (Hmaxv : forall i x, l !! i = Some x -> x <= y).
  { intros i x Hi. assert (Hb := lookup_lt_Some _ _ _ Hi).
    destruct (decide (i = Z.to_nat (zlen l - 1))) as [->|]; [assert (x = y) by congruence; lia|].
    assert (x < y); [|lia]. apply (sorted_lookup_lt l i (Z.to_nat (zlen l - 1))); [done..|lia]. }
  destruct (Z.ltb_spec y v).
  { exists false, (zlen l). split; [done|]. split; [|lia]. apply search_at_absent; [lia| |].
    - intros i x Hi _. specialize (Hmaxv i x Hi). lia.
    - intros i x Hi Hge. apply lookup_lt_Some in Hi. lia. }
  change (Z.of_nat 0) with 0 in *.
  assert (Hg0 := intsetGet_rep _ _ _ _ Hr Hx0). change (Z.of_nat 0) with 0 in Hg0.
  rewrite Hg0. cbn [mbind option_bind].
  destruct (Z.ltb_spec v x0).
  { exists false, 0. split; [done|]. split; [|lia]. apply (search_at_absent l v 0); [lia|lia|].
    intros i x Hi _. destruct i as [|i]; [assert (x = x0) by congruence; lia|].
    trans x0; [done|]. apply (sorted_lookup_lt l 0 (S i)); [done..|lia]. }
  destruct (intsetSearch_loop_spec (S (Z.to_nat (zlen l))) iset l v 0 (zlen l - 1) (-1) (-1))
    as (min' & mid' & cur' & -> & Hres); [done|lia..|by left; lia|lia| |].
  { intros i x Hi ?. apply lookup_lt_Some in Hi. lia. }
  cbn [mbind option_bind]. destruct (v =? cur').
  - exists true, mid'. split; [done|]. split; [done|]. destruct Hres as (l1 & l2 & <- & _ & _ & ->).
    rewrite length_app. lia.
  - destruct Hres as [Hres ?]. exists false, min'. rewrite u32_small by lia. done.
Qed.

(** ** Insertion and removal *)

Section Ops.
  Context (junk : Z -> Z).

Lemma enc_ok_nat e : enc_ok e -> 0 < e <= 8 /\ Z.of_nat (Z.to_nat e) = e.
Proof. intros [->|[-> | ->]]; lia. Qed.

(** The widening loop: [la] is still in the old width [e], [gap] the bytes the
    new elements will take, [tail] what is already written. *)
Lemma intsetUpgrade_loop_spec la : forall iset prepend e gap tail,
  enc_ok e -> enc_ok (is_encoding iset) -> e <= is_encoding iset -> 0 <= prepend ->
  Forall (fits e) la ->
  is_contents iset = enc_all (Z.to_nat e) la ++ gap ++ tail ->
  zlen gap = (zlen la + prepend) * is_encoding iset - zlen la * e ->
  exists gap', zlen gap' = prepend * is_encoding iset /\
    intsetUpgrade_loop (length la) iset prepend e =
      Some (with_contents iset (gap' ++ enc_all (Z.to_nat (is_encoding iset)) la ++ tail)).
Proof.
  induction la as [|v la IH] using rev_ind; intros iset prepend e gap tail He He' Hle Hp Hf Hc Hg.
  - exists gap. split; [simpl in Hg; lia|]. cbn [length intsetUpgrade_loop enc_all map concat app].
    cbn in Hc. rewrite <-Hc. by destruct iset.
  - destruct (enc_ok_nat _ He) as [? He2], (enc_ok_nat _ He') as [? He2'].
    apply Forall_app in Hf as [Hf [Hv _]%Forall_cons_1].
    rewrite length_app in *. cbn [length] in *. rewrite Nat.add_1_r in *. cbn [intsetUpgrade_loop].
    rewrite enc_all_app, enc_all_cons in Hc. cbn [enc_all map concat] in Hc.
    rewrite app_nil_r, <-app_assoc in Hc.
    erewrite getEncoded_at; [|done|exact Hv| |exact Hc].
    2: { rewrite length_enc_all. lia. }
    cbn [mbind option_bind].
    (* the last [is_encoding iset] bytes before [tail] take the element *)
    set (X := le_encode (Z.to_nat e) v ++ gap).
    assert (HX : zlen X = (zlen la + prepend + 1) * is_encoding iset - zlen la * e).
    { unfold X. rewrite length_app, length_le_encode. lia. }
    set (cut := Z.to_nat ((zlen la + prepend) * is_encoding iset - zlen la * e)).
    assert (Hcut : 0 <= (zlen la + prepend) * is_encoding iset - zlen la * e) by nia.
    assert (Hc2 : is_contents iset = (enc_all (Z.to_nat e) la ++ take cut X) ++ drop cut X ++ tail).
    { rewrite Hc. rewrite <-app_assoc, (app_assoc (take cut X)), take_drop. unfold X.
      by rewrite <-app_assoc. }
    rewrite (set_at iset (enc_all (Z.to_nat e) la ++ take cut X) (drop cut X) tail);
      [|done|rewrite length_drop; lia| |done].
    2: { rewrite length_app, length_enc_all, length_take. lia. }
    cbn [mbind option_bind].
    edestruct (IH (with_contents iset ((enc_all (Z.to_nat e) la ++ take cut X) ++
        le_encode (Z.to_nat (is_encoding iset)) v ++ tail)) prepend e (take cut X)
        (le_encode (Z.to_nat (is_encoding iset)) v ++ tail)) as (gap' & Hgap' & Hrun);
      cbn [with_contents is_encoding is_contents]; try done.
    { by rewrite <-app_assoc. }
    { rewrite length_take. lia. }
    exists gap'. split; [done|]. etrans; [exact Hrun|]. simpl.
    rewrite enc_all_app, enc_all_cons. cbn [enc_all map concat]. by rewrite app_nil_r, <-app_assoc.
Qed.

Lemma intset_rep_size iset l :
  intset_rep iset l -> zlen (is_contents iset) = zlen l * is_encoding iset.
Proof.
  intros [He _ _ -> _ _]. rewrite length_enc_all. destruct (enc_ok_nat _ He). lia.
Qed.

(** A value that does not fit the block's width is outside its range. *)
Lemma not_fits_extreme e v l :
  enc_ok e -> ~ fits e v -> Forall (fits e) l ->
  if v <? 0 then Forall (fun x => v < x) l else Forall (fun x => x < v) l.
Proof.
  intros He Hv Hl. unfold fits in *.
  assert (0 < 2 ^ (8 * e - 1)) by (apply Z.pow_pos_nonneg; destruct (enc_ok_nat _ He); lia).
  destruct (Z.ltb_spec v 0); eapply Forall_impl; try exact Hl; intros x Hx; simpl in Hx; lia.
Qed.

Lemma insert_sorted_sorted v l : StronglySorted Z.lt l -> StronglySorted Z.lt (insert_sorted v l).
Proof.
  induction 1 as [|x l Hs IH Hx]; cbn [insert_sorted].
  { constructor; constructor. }
  destruct (Z.ltb_spec v x).
  - constructor; [by constructor|]. constructor; [done|].
    eapply Forall_impl; [exact Hx|]. simpl. lia.
  - destruct (Z.eqb_spec v x); [by constructor|]. constructor; [done|].
    rewrite list.Forall_forall in Hx |- *. intros y [->|Hy]%elem_of_insert_sorted; [lia|auto].
Qed.

Lemma intsetUpgradeAndAdd_spec iset l v :
  intset_rep iset l -> in_i64 v -> ~ fits (is_encoding iset) v -> zlen l + 1 < 536870912 ->
  exists iset', intsetUpgradeAndAdd junk iset v = Some iset' /\
    intset_rep iset' (insert_sorted v l) /\ is_encoding iset' = _intsetValueEncoding v.
Proof.
  intros Hr Hv Hnf Hb. pose proof (not_fits_extreme _ v l (rep_enc _ _ Hr) Hnf (rep_fits _ _ Hr)) as Hext.
  destruct (_intsetValueEncoding_spec v Hv) as [He' Hfit].
  assert (Hlt : is_encoding iset < _intsetValueEncoding v).
  { destruct (Z.lt_ge_cases (is_encoding iset) (_intsetValueEncoding v)); [done|].
    destruct Hnf. apply Hfit; [apply Hr|done]. }
  destruct (enc_ok_nat _ (rep_enc _ _ Hr)), (enc_ok_nat _ He').
  unfold intsetUpgradeAndAdd, intsetResize, with_contents. cbn [is_encoding is_contents is_length with_contents].
  rewrite (rep_length _ _ Hr). set (e' := _intsetValueEncoding v) in *.
  assert (0 <= (zlen l + 1) * e' <= (zlen l + 1) * 8) by nia.
  rewrite (u32_small (zlen l + 1)), (u32_small ((zlen l + 1) * e')), !(i32_small (zlen l)) by lia.
  rewrite Nat2Z.id.
  destruct (zrealloc_grow junk (is_contents iset) ((zlen l + 1) * e')) as (fresh & -> & Hfresh).
  { rewrite (intset_rep_size _ _ Hr). nia. }
  rewrite (intset_rep_size _ _ Hr) in Hfresh.
  assert (Hsorted := insert_sorted_sorted v l (rep_sorted _ _ Hr)).
  assert (Hfits : Forall (fits e') (insert_sorted v l)).
  { apply list.Forall_forall. intros x [->|Hx]%elem_of_insert_sorted; [by apply Hfit|].
    eapply fits_mono; [| | |eapply (proj1 (list.Forall_forall _ _) (rep_fits _ _ Hr)); done];
      [apply Hr|done|lia]. }
  destruct (Z.ltb_spec v 0) as [Hneg|Hpos].
  - cbv iota in *. edestruct (intsetUpgrade_loop_spec l {| is_encoding := e'; is_length := zlen l;
      is_contents := is_contents iset ++ fresh |} 1 (is_encoding iset) fresh [])
      as (gap' & Hgap' & ->); cbn [is_encoding is_contents]; try done; try lia; try apply Hr.
    { rewrite app_nil_r. by rewrite (rep_contents _ _ Hr). }
    cbn [mbind option_bind with_contents is_encoding is_contents is_length]. rewrite Z.eqb_refl.
    cbn [is_encoding] in Hgap'.
    rewrite (set_at _ [] gap' (enc_all (Z.to_nat e') l ++ [])); cbn [is_encoding is_contents app];
      [|done| |done|done]. 2: { lia. }
    cbn [mbind option_bind with_contents is_encoding is_contents is_length] in *.
    rewrite (u32_small (zlen l + 1)) by lia.
    eexists. split; [done|]. split; [|done].
    assert (Hins : insert_sorted v l = v :: l).
    { apply (insert_sorted_middle v [] l); [constructor|done]. }
    rewrite Hins in *.
    split; cbn [is_encoding is_contents is_length app length] in *; try done; try lia.
    rewrite app_nil_r. done.
  - cbv iota in *. assert (exists f1 f2, fresh = f1 ++ f2 /\ zlen f2 = e' /\
      zlen f1 = zlen l * e' - zlen l * is_encoding iset) as (f1 & f2 & -> & Hf2 & Hf1).
    { exists (take (Z.to_nat (zlen l * e' - zlen l * is_encoding iset)) fresh),
        (drop (Z.to_nat (zlen l * e' - zlen l * is_encoding iset)) fresh).
      rewrite take_drop, length_take, length_drop. split; [done|]. nia. }
    edestruct (intsetUpgrade_loop_spec l {| is_encoding := e'; is_length := zlen l;
      is_contents := is_contents iset ++ f1 ++ f2 |} 0 (is_encoding iset) f1 f2)
      as (gap' & Hgap' & ->); cbn [is_encoding is_contents]; try done; try lia; try apply Hr.
    { by rewrite (rep_contents _ _ Hr). }
    cbn [mbind option_bind with_contents is_encoding is_contents is_length].
    destruct gap' as [|]; [|simpl in Hgap'; lia]. cbn [app Z.eqb]. rewrite (i32_small (zlen l)) by lia.
    rewrite (set_at _ (enc_all (Z.to_nat e') l) f2 []); cbn [is_encoding is_contents app];
      [|done|done|rewrite length_enc_all; lia|by rewrite app_nil_r].
    cbn [mbind option_bind with_contents is_encoding is_contents is_length] in *.
    rewrite (u32_small (zlen l + 1)) by lia.
    eexists. split; [done|]. split; [|done].
    assert (Hins : insert_sorted v l = l ++ [v]).
    { rewrite <-(app_nil_r l) at 1. apply (insert_sorted_middle v l []); [|constructor].
      eapply Forall_impl; [exact Hext|done]. }
    rewrite Hins in *.
    split; cbn [is_encoding is_contents is_length] in *; try done;
      rewrite ?length_app; simpl; try lia.
    by rewrite enc_all_app.
Qed.

(** memmove by one element, in both directions. *)
Lemma moveTail_width iset from to :
  enc_ok (is_encoding iset) -> 0 <= from <= is_length iset -> is_length iset < 536870912 ->
  intsetMoveTail iset from to =
    c ← bmove (is_contents iset) (to * is_encoding iset) (from * is_encoding iset)
          ((is_length iset - from) * is_encoding iset);
    Some (with_contents iset c).
Proof.
  intros He Hf Hl. unfold intsetMoveTail.
  rewrite (u32_small (is_length iset - from)) by lia.
  destruct He as [He|[He|He]]; rewrite He; unfold INTSET_ENC_INT64, INTSET_ENC_INT32;
    cbn [Z.eqb Pos.eqb]; by rewrite u32_small by lia.
Qed.

Lemma bmove_right A B C w :
  zlen C = w ->
  exists X, zlen X = w /\ bmove (A ++ B ++ C) (zlen A + w) (zlen A) (zlen B) = Some (A ++ X ++ B).
Proof.
  intros HC. unfold bmove. rewrite bread_app by done. cbn [mbind option_bind].
  exists (take (length C) (B ++ C)).
  rewrite length_take, length_app. split; [lia|].
  rewrite <-(take_drop (length C) (B ++ C)) at 1. rewrite app_assoc.
  rewrite <-(app_nil_r (drop (length C) (B ++ C))).
  rewrite bwrite_app; [by rewrite app_nil_r, <-app_assoc| |].
  - rewrite length_app, length_take, length_app. lia.
  - rewrite length_drop, length_app. lia.
Qed.

Lemma bmove_left A x B :
  exists Y, length Y = length x /\
    bmove (A ++ x ++ B) (zlen A) (zlen A + zlen x) (zlen B) = Some (A ++ B ++ Y).
Proof.
  assert (Hrd := bread_app (A ++ x) B [] (zlen A + zlen x) (zlen B)).
  rewrite app_nil_r, <-app_assoc in Hrd.
  unfold bmove. rewrite Hrd by (rewrite ?length_app; lia). cbn [mbind option_bind].
  exists (drop (length B) (x ++ B)). rewrite length_drop, length_app. split; [lia|].
  rewrite <-(take_drop (length B) (x ++ B)) at 1.
  apply bwrite_app; [done|]. rewrite length_take, length_app. lia.
Qed.

(** Opening a slot between [l1] and [l2] in the reallocated block. *)
Lemma intsetAdd_shift iset l1 l2 fresh :
  let e := is_encoding iset in let n := Z.to_nat e in
  let block := with_contents iset (enc_all n l1 ++ enc_all n l2 ++ fresh) in
  enc_ok e -> zlen fresh = e -> is_length iset = zlen l1 + zlen l2 -> is_length iset < 536870912 ->
  exists X, zlen X = e /\
    (if zlen l1 <? is_length iset then intsetMoveTail block (zlen l1) (u32 (zlen l1 + 1)) else Some block)
    = Some (with_contents iset (enc_all n l1 ++ X ++ enc_all n l2)).
Proof.
  cbv zeta. intros He Hfresh Hlen Hb. destruct (enc_ok_nat _ He) as [Heb Hen].
  set (e := is_encoding iset) in *. rewrite Hlen.
  destruct (Z.ltb_spec (zlen l1) (zlen l1 + zlen l2)).
  - rewrite moveTail_width; cbn [is_encoding is_length is_contents with_contents]; [|done|lia|lia].
    fold e. rewrite Hlen, u32_small by lia.
    destruct (bmove_right (enc_all (Z.to_nat e) l1) (enc_all (Z.to_nat e) l2) fresh e)
      as (X & HX & Hm); [lia|]. exists X. split; [done|].
    rewrite !length_enc_all in Hm.
    replace ((zlen l1 + 1) * e) with (Z.of_nat (length l1 * Z.to_nat e) + e) by lia.
    replace (zlen l1 * e) with (Z.of_nat (length l1 * Z.to_nat e)) by lia.
    replace ((zlen l1 + zlen l2 - zlen l1) * e) with (Z.of_nat (length l2 * Z.to_nat e)) by lia.
    by rewrite Hm.
  - destruct l2; [|simpl in *; lia]. exists fresh. split; [done|].
    cbn [enc_all map concat app]. by rewrite app_nil_r.
Qed.

(** A search result tells membership. *)
Lemma search_at_elem_of l v found pos :
  search_at l v found pos -> found = bool_decide (v ∈ l).
Proof.
  intros (l1 & l2 & _ & H1 & H2 & ->). symmetry. destruct found.
  - apply bool_decide_true, elem_of_app. right. left.
  - apply bool_decide_false. rewrite list.Forall_forall in H1, H2.
    intros [Hin|Hin]%elem_of_app; [specialize (H1 _ Hin)|specialize (H2 _ Hin)]; lia.
Qed.

(** A value wider than the block is not a member. *)
Lemma not_elem_of_wide iset l v :
  intset_rep iset l -> in_i64 v -> is_encoding iset < _intsetValueEncoding v ->
  ~ fits (is_encoding iset) v /\ bool_decide (v ∈ l) = false.
Proof.
  intros Hr Hv Hlt. destruct (_intsetValueEncoding_spec v Hv) as [He' Hfit].
  assert (Hnf : ~ fits (is_encoding iset) v) by (rewrite Hfit by apply Hr; lia).
  split; [done|]. apply bool_decide_false. intros Hin. apply Hnf.
  by eapply (proj1 (list.Forall_forall _ _) (rep_fits _ _ Hr)).
Qed.

(** intsetAdd stays inside the block, inserts the value at its place in the
    order unless it is a member, widens the block exactly when the value needs
    it, and reports whether the set changed. *)
Lemma intsetAdd_rep iset l v :
  intset_rep iset l -> in_i64 v -> zlen l + 1 < 536870912 ->
  exists iset', intsetAdd junk iset v = Some (iset', negb (bool_decide (v ∈ l))) /\
    intset_rep iset' (insert_sorted v l) /\
    is_encoding iset' = Z.max (is_encoding iset) (_intsetValueEncoding v).
Proof.
  intros Hr Hv Hb. destruct (_intsetValueEncoding_spec v Hv) as [He' Hfit].
  unfold intsetAdd. rewrite Z.gtb_ltb.
  destruct (Z.ltb_spec (is_encoding iset) (_intsetValueEncoding v)) as [Hlt|Hle].
  { destruct (not_elem_of_wide iset l v Hr Hv Hlt) as [Hnf ->].
    destruct (intsetUpgradeAndAdd_spec iset l v Hr Hv Hnf Hb) as (iset' & -> & Hr' & He).
    exists iset'. split; [done|]. split; [done|lia]. }
  destruct (intsetSearch_spec iset l v Hr) as (found & pos & -> & Hat & Hpos).
  rewrite <-(search_at_elem_of _ _ _ _ Hat). cbn [mbind option_bind].
  destruct Hat as (l1 & l2 & <- & H1 & H2 & Hl). destruct found; subst l; cbn [negb].
  { exists iset. rewrite insert_sorted_present by done. split; [done|]. split; [done|lia]. }
  pose proof (rep_enc _ _ Hr) as He. destruct (enc_ok_nat _ He) as [Heb Hen].
  pose proof (rep_length _ _ Hr) as Hlen. pose proof (intset_rep_size _ _ Hr) as Hsize.
  pose proof (rep_contents _ _ Hr) as Hc. rewrite length_app, Nat2Z.inj_add in *.
  unfold intsetResize. rewrite Hlen.
  assert (0 <= (zlen l1 + zlen l2 + 1) * is_encoding iset <= (zlen l1 + zlen l2 + 1) * 8) by nia.
  rewrite (u32_small (zlen l1 + zlen l2 + 1)), (u32_small (_ * is_encoding iset)) by lia.
  destruct (zrealloc_grow junk (is_contents iset) ((zlen l1 + zlen l2 + 1) * is_encoding iset))
    as (fresh & -> & Hfresh); [lia|].
  rewrite Hc, enc_all_app, <-app_assoc.
  destruct (intsetAdd_shift iset l1 l2 fresh) as (X & HX & Hsh); [done|lia|done|lia|].
  cbn [is_length with_contents] in *. rewrite Hlen in *. rewrite Hsh. cbn [mbind option_bind].
  erewrite (set_at _ _ X); cbn [is_encoding is_contents with_contents]; [|done|done| |done].
  2: { rewrite length_enc_all, i32_small by lia. lia. }
  cbn [mbind option_bind is_encoding is_length is_contents with_contents].
  rewrite (u32_small (zlen l1 + zlen l2 + 1)) by lia.
  eexists. split; [done|]. split; [|cbn [is_encoding]; lia].
  assert (Hins := insert_sorted_sorted v _ (rep_sorted _ _ Hr)).
  rewrite insert_sorted_middle in * by done.
  split; cbn [is_encoding is_contents is_length]; try done; rewrite ?length_app; simpl; try lia.
  - by rewrite enc_all_app, enc_all_cons.
  - pose proof (rep_fits _ _ Hr) as [Hf1 Hf2]%Forall_app. apply Forall_app. split; [done|].
    constructor; [|done]. apply Hfit; [done|lia].
Qed.

(** Removing the element between [l1] and [l2]. *)
Lemma intsetRemove_shift iset l1 v l2 :
  intset_rep iset (l1 ++ v :: l2) ->
  exists Y, (if zlen l1 <? u32 (is_length iset - 1)
     then intsetMoveTail iset (u32 (zlen l1 + 1)) (zlen l1) else Some iset)
    = Some (with_contents iset (enc_all (Z.to_nat (is_encoding iset)) (l1 ++ l2) ++ Y)).
Proof.
  intros Hr. pose proof (rep_enc _ _ Hr) as He. destruct (enc_ok_nat _ He) as [Heb Hen].
  pose proof (rep_length _ _ Hr) as Hlen. pose proof (rep_contents _ _ Hr) as Hc.
  pose proof (rep_bound _ _ Hr) as Hb. rewrite length_app in Hlen, Hb. cbn [length] in Hlen, Hb.
  rewrite !u32_small by lia. rewrite enc_all_app, enc_all_cons in Hc.
  destruct (Z.ltb_spec (zlen l1) (is_length iset - 1)).
  - rewrite moveTail_width by (done || lia). rewrite Hc.
    destruct (bmove_left (enc_all (Z.to_nat (is_encoding iset)) l1)
      (le_encode (Z.to_nat (is_encoding iset)) v) (enc_all (Z.to_nat (is_encoding iset)) l2))
      as (Y & _ & Hm).
    rewrite length_le_encode, !length_enc_all in Hm. exists Y.
    replace ((zlen l1 + 1) * is_encoding iset) with
      (Z.of_nat (length l1 * Z.to_nat (is_encoding iset)) + Z.of_nat (Z.to_nat (is_encoding iset))) by lia.
    replace (zlen l1 * is_encoding iset) with (Z.of_nat (length l1 * Z.to_nat (is_encoding iset))) by lia.
    replace ((is_length iset - (zlen l1 + 1)) * is_encoding iset)
      with (Z.of_nat (length l2 * Z.to_nat (is_encoding iset))) by (rewrite Hlen; lia).
    rewrite Hm. cbn [mbind option_bind]. by rewrite enc_all_app, app_assoc.
  - destruct l2; [|simpl in *; lia]. exists (le_encode (Z.to_nat (is_encoding iset)) v).
    rewrite app_nil_r in *. rewrite <-Hc. by destruct iset.
Qed.

(** intsetRemove deletes exactly the value, keeps the block's width, and
    reports whether the set changed. *)
Lemma intsetRemove_rep iset l v :
  intset_rep iset l -> in_i64 v ->
  exists iset', intsetRemove junk iset v = Some (iset', bool_decide (v ∈ l)) /\
    intset_rep iset' (filter (fun x => x <> v) l) /\
    is_encoding iset' = is_encoding iset.
Proof.
  intros Hr Hv. unfold intsetRemove.
  assert (Hnone : bool_decide (v ∈ l) = false -> filter (fun x => x <> v) l = l).
  { intros Hni%bool_decide_eq_false. apply list_filter_all.
    apply list.Forall_forall. intros x Hx ->. done. }
  destruct (Z.leb_spec (_intsetValueEncoding v) (is_encoding iset)) as [Hle|Hlt].
  2: { destruct (not_elem_of_wide iset l v Hr Hv Hlt) as [_ Hni].
       exists iset. by rewrite Hnone, Hni. }
  destruct (intsetSearch_spec iset l v Hr) as (found & pos & -> & Hat & Hpos).
  rewrite <-(search_at_elem_of _ _ _ _ Hat) in *. cbn [mbind option_bind].
  destruct Hat as (l1 & l2 & <- & H1 & H2 & Hl). destruct found.
  2: { exists iset. by rewrite Hnone. }
  clear Hnone. subst l.
  destruct (intsetRemove_shift iset l1 v l2 Hr) as (Y & ->). cbn [mbind option_bind].
  pose proof (rep_length _ _ Hr) as Hlen. pose proof (rep_bound _ _ Hr) as Hb.
  pose proof (rep_enc _ _ Hr) as He. destruct (enc_ok_nat _ He) as [Heb Hen].
  rewrite length_app in *. cbn [length] in *.
  unfold intsetResize. cbn [is_encoding is_length is_contents with_contents].
  rewrite Hlen, (u32_small (Z.of_nat _ - 1)) by lia.
  rewrite u32_small by nia.
  rewrite zrealloc_shrink by (rewrite length_enc_all, length_app; lia).
  eexists. split; [done|]. split; [|done].
  pose proof (rep_fits _ _ Hr) as [Hf1 [_ Hf2]%Forall_cons_1]%Forall_app.
  pose proof (proj1 (StronglySorted_middle _ _ _) (rep_sorted _ _ Hr)) as (Hs & _ & _).
  assert (filter (fun x => x <> v) (l1 ++ v :: l2) = l1 ++ l2) as ->.
  { rewrite filter_app, filter_cons_False by naive_solver.
    f_equal; apply list_filter_all; [eapply Forall_impl; [exact H1|]|eapply Forall_impl; [exact H2|]];
      simpl; lia. }
  split; cbn [is_encoding is_contents is_length]; try done; rewrite ?length_app; simpl; try lia.
  by apply Forall_app.
Qed.

(** intsetFind is membership. *)
Lemma intsetFind_rep iset l v :
  intset_rep iset l -> in_i64 v -> intsetFind iset v = Some (bool_decide (v ∈ l)).
Proof.
  intros Hr Hv. unfold intsetFind.
  destruct (Z.leb_spec (_intsetValueEncoding v) (is_encoding iset)) as [Hle|Hlt].
  2: { by destruct (not_elem_of_wide iset l v Hr Hv Hlt) as [_ ->]. }
  destruct (intsetSearch_spec iset l v Hr) as (found & pos & -> & Hat & _).
  by rewrite <-(search_at_elem_of _ _ _ _ Hat).
Qed.

Lemma intsetNew_rep : intset_rep intsetNew [].
Proof. split; try done; first [by left|constructor]. Qed.

(** intsetGet returns the element of that rank, and refuses ranks past the
    end; intsetRandom returns a member; the block's size is the header and the
    elements. *)
Lemma intsetGet_ranks iset l pos :
  intset_rep iset l -> in_u32 pos -> intsetGet iset pos = Some (l !! Z.to_nat pos).
Proof.
  intros Hr Hpos. unfold intsetGet. rewrite (rep_length _ _ Hr). pose proof (rep_bound _ _ Hr).
  unfold in_u32 in Hpos. destruct (Z.ltb_spec pos (zlen l)).
  - destruct (lookup_lt_is_Some_2 l (Z.to_nat pos)) as [x Hx]; [lia|].
    assert (Hg := intsetGet_rep _ _ _ _ Hr Hx). rewrite Z2Nat.id in Hg by lia.
    rewrite i32_small by lia. by rewrite Hg, Hx.
  - by rewrite lookup_ge_None_2 by lia.
Qed.

Lemma intsetRandom_member iset l rand :
  intset_rep iset l -> l <> [] -> exists v, intsetRandom iset rand = Some v /\ v ∈ l.
Proof.
  intros Hr Hne. unfold intsetRandom. rewrite (rep_length _ _ Hr).
  assert (0 < zlen l) by (destruct l; [done|simpl; lia]).
  zfalse (zlen l =? 0). pose proof (Z.mod_pos_bound (u32 rand) (zlen l)).
  destruct (lookup_lt_is_Some_2 l (Z.to_nat (u32 rand mod zlen l))) as [x Hx]; [lia|].
  assert (Hg := intsetGet_rep _ _ _ _ Hr Hx). rewrite Z2Nat.id in Hg by lia.
  exists x. split; [done|]. by eapply list_elem_of_lookup_2.
Qed.

Lemma intsetBlobLen_size iset l :
  intset_rep iset l -> intsetBlobLen iset = 8 + zlen (is_contents iset).
Proof.
  intros Hr. unfold intsetBlobLen. rewrite (intset_rep_size _ _ Hr), (rep_length _ _ Hr).
  pose proof (rep_bound _ _ Hr). destruct (enc_ok_nat _ (rep_enc _ _ Hr)).
  rewrite u32_small by nia. rewrite u64_small by nia. done.
Qed.

(** ** The set an intset implements

    Clients (t_set.c) use an intset as a set of integers: sequences of calls
    and their answers, on the block and on a finite set. *)
Inductive set_call :=
  | CallAdd (v : Z)
  | CallRemove (v : Z)
  | CallFind (v : Z)
  | CallLen.

Definition intset_call (iset : intset) (c : set_call) : option (intset * Z) :=
  match c with
  | CallAdd v => '(iset, b) ← intsetAdd junk iset v; Some (iset, if (b : bool) then 1 else 0)
  | CallRemove v => '(iset, b) ← intsetRemove junk iset v; Some (iset, if (b : bool) then 1 else 0)
  | CallFind v => b ← intsetFind iset v; Some (iset, if (b : bool) then 1 else 0)
  | CallLen => Some (iset, intsetLen iset)
  end.

Fixpoint intset_calls (iset : intset) (cs : list set_call) : option (list Z) :=
  match cs with
  | [] => Some []
  | c :: cs => '(iset, r) ← intset_call iset c; rs ← intset_calls iset cs; Some (r :: rs)
  end.

Definition set_call_spec (X : gset Z) (c : set_call) : gset Z * Z :=
  match c with
  | CallAdd v => ({[v]} ∪ X, if decide (v ∈ X) then 0 else 1)
  | CallRemove v => (X ∖ {[v]}, if decide (v ∈ X) then 1 else 0)
  | CallFind v => (X, if decide (v ∈ X) then 1 else 0)
  | CallLen => (X, Z.of_nat (size X))
  end.

Fixpoint set_calls_spec (X : gset Z) (cs : list set_call) : list Z :=
  match cs with
  | [] => []
  | c :: cs => let '(X, r) := set_call_spec X c in r :: set_calls_spec X cs
  end.

Definition call_value_ok (c : set_call) : Prop :=
  match c with CallAdd v | CallRemove v | CallFind v => in_i64 v | CallLen => True end.

(** [iset] implements the set [X]. *)
Definition implements (iset : intset) (X : gset Z) : Prop :=
  exists l, intset_rep iset l /\ X = list_to_set l.

Lemma sorted_NoDup l : StronglySorted Z.lt l -> NoDup l.
Proof.
  induction 1 as [|x l Hs IH Hx]; constructor; [|done].
  intros Hin. rewrite list.Forall_forall in Hx. specialize (Hx _ Hin). lia.
Qed.

Lemma implements_size iset X : implements iset X -> intsetLen iset = Z.of_nat (size X).
Proof.
  intros (l & Hr & ->). unfold intsetLen. rewrite (rep_length _ _ Hr).
  by rewrite size_list_to_set by (apply sorted_NoDup, Hr).
Qed.

Lemma size_insert_le (X : gset Z) v : (size ({[v]} ∪ X) <= S (size X))%nat.
Proof.
  pose proof (size_union_alt {[v]} X). rewrite size_singleton in *.
  pose proof (subseteq_size (X ∖ {[v]}) X ltac:(set_solver)). lia.
Qed.

Lemma intset_call_refines iset X c :
  implements iset X -> call_value_ok c -> Z.of_nat (size X) + 1 < 536870912 ->
  exists iset', intset_call iset c = Some (iset', (set_call_spec X c).2) /\
    implements iset' (set_call_spec X c).1.
Proof.
  intros Himp Hv Hb. pose proof (implements_size _ _ Himp) as Hsz.
  destruct Himp as (l & Hr & ->). unfold intsetLen in Hsz. rewrite (rep_length _ _ Hr) in Hsz.
  assert (Hdec : forall v, (if decide (v ∈ (list_to_set l : gset Z)) then true else false) = bool_decide (v ∈ l)).
  { intros v. unfold bool_decide. repeat case_decide; set_solver. }
  destruct c as [v|v|v|]; cbn [call_value_ok] in Hv; cbn [intset_call set_call_spec fst snd].
  - destruct (intsetAdd_rep iset l v Hr Hv) as (iset' & -> & Hr' & _); [lia|].
    exists iset'. cbn [mbind option_bind]. split.
    + do 2 f_equal. specialize (Hdec v). rewrite <-Hdec. by case_decide.
    + eexists. split; [exact Hr'|]. apply set_eq. intros x.
      rewrite elem_of_union, elem_of_singleton, !elem_of_list_to_set, elem_of_insert_sorted. done.
  - destruct (intsetRemove_rep iset l v Hr Hv) as (iset' & -> & Hr' & _).
    exists iset'. cbn [mbind option_bind]. split.
    + do 2 f_equal. specialize (Hdec v). rewrite <-Hdec. by case_decide.
    + eexists. split; [exact Hr'|]. apply set_eq. intros x.
      rewrite elem_of_difference, elem_of_singleton, !elem_of_list_to_set, list_elem_of_filter. tauto.
  - rewrite (intsetFind_rep iset l v Hr Hv). exists iset. cbn [mbind option_bind]. split.
    + do 2 f_equal. specialize (Hdec v). rewrite <-Hdec. by case_decide.
    + by exists l.
  - exists iset. unfold intsetLen. rewrite (rep_length _ _ Hr), Hsz. split; [done|by exists l].
Qed.

Lemma set_call_spec_size X c : (size (set_call_spec X c).1 <= S (size X))%nat.
Proof.
  destruct c; cbn [set_call_spec fst]; [apply size_insert_le| |lia..].
  pose proof (subseteq_size (X ∖ {[v]}) X ltac:(set_solver)). lia.
Qed.

Lemma intset_calls_refine cs : forall iset X,
  implements iset X -> Forall call_value_ok cs -> Z.of_nat (size X) + zlen cs < 536870912 ->
  intset_calls iset cs = Some (set_calls_spec X cs).
Proof.
  induction cs as [|c cs IH]; intros iset X Himp Hok Hb; [done|].
  apply Forall_cons_1 in Hok as [Hc Hok]. cbn [length] in Hb.
  destruct (intset_call_refines iset X c Himp Hc) as (iset' & Hrun & Himp'); [lia|].
  cbn [intset_calls set_calls_spec]. rewrite Hrun. cbn [mbind option_bind].
  pose proof (set_call_spec_size X c). destruct (set_call_spec X c) as [X' r]. cbn [fst snd] in *.
  rewrite (IH iset' X'); [done|done|done|lia].
Qed.

End Ops.

(** ** Properties *)

Section Theorems.
  Context (junk : Z -> Z).

(** C4. Every sequence of calls on a new intset returns, never leaves its block,
    and answers as a finite set of integers does. *)
Theorem intset_refines_set cs :
  Forall call_value_ok cs -> zlen cs < 536870912 ->
  intset_calls junk intsetNew cs = Some (set_calls_spec ∅ cs).
Proof.
  intros Hok Hb. apply intset_calls_refine; [|done|rewrite size_empty; lia].
  exists []. split; [apply intsetNew_rep|done].
Qed.

(** C18. intsetAdd stays inside the block, inserts the value at its place in the
    order unless it is a member, widens the block exactly when the value needs
    it, and reports whether the set changed; intsetRemove deletes exactly the
    value and never narrows the block. *)
Theorem intsetAdd_correct iset l v :
  intset_rep iset l -> in_i64 v -> zlen l + 1 < 536870912 ->
  exists iset' iset'', intsetAdd junk iset v = Some (iset', negb (bool_decide (v ∈ l))) /\
    intset_rep iset' (insert_sorted v l) /\
    is_encoding iset' = Z.max (is_encoding iset) (_intsetValueEncoding v) /\
    intsetRemove junk iset v = Some (iset'', bool_decide (v ∈ l)) /\
    intset_rep iset'' (filter (fun x => x <> v) l) /\ is_encoding iset'' = is_encoding iset.
Proof.
  intros Hr Hv Hb. destruct (intsetAdd_rep junk iset l v Hr Hv Hb) as (i1 & ? & ? & ?).
  destruct (intsetRemove_rep junk iset l v Hr Hv) as (i2 & ? & ? & ?). by exists i1, i2.
Qed.

(** C28. intsetGet returns the element of that rank and refuses ranks past the
    end, intsetRandom returns a member of a set that is not empty, and
    intsetBlobLen is the size of the header and the elements. *)
Theorem intsetGet_correct iset l pos rand :
  intset_rep iset l -> in_u32 pos ->
  intsetGet iset pos = Some (l !! Z.to_nat pos) /\
  (l <> [] -> exists v, intsetRandom iset rand = Some v /\ v ∈ l) /\
  intsetBlobLen iset = 8 + zlen (is_contents iset).
Proof.
  intros Hr Hp. split; [by apply intsetGet_ranks|].
  split; [by apply intsetRandom_member|by eapply intsetBlobLen_size].
Qed.
End Theorems.

(** A set of two encodings on its way: {-1, 7} in 16 bit integers. *)
Definition small_iset : intset :=
  {| is_encoding := 2; is_length := 2; is_contents := [255; 255; 7; 0] |}.

Lemma small_iset_rep : intset_rep small_iset [-1; 7].
Proof. split; [by left|done|simpl; lia|done|repeat constructor; cbv; done|repeat constructor; done]. Qed.

Lemma intset_refines_set_witness :
  intset_calls (fun _ => 0) intsetNew [CallAdd 7; CallAdd (-1); CallAdd 70000; CallRemove 7; CallFind 70000; CallLen] =
  Some (set_calls_spec ∅ [CallAdd 7; CallAdd (-1); CallAdd 70000; CallRemove 7; CallFind 70000; CallLen]).
Proof. apply intset_refines_set; [repeat constructor; cbn; mlia|simpl; lia]. Defined.

Lemma intsetAdd_correct_witness :
  exists iset' iset'', intsetAdd (fun _ => 0) small_iset 70000 = Some (iset', negb (bool_decide (70000 ∈ [-1; 7]))) /\
    intset_rep iset' (insert_sorted 70000 [-1; 7]) /\
    is_encoding iset' = Z.max (is_encoding small_iset) (_intsetValueEncoding 70000) /\
    intsetRemove (fun _ => 0) small_iset 70000 = Some (iset'', bool_decide (70000 ∈ [-1; 7])) /\
    intset_rep iset'' (filter (fun x => x <> 70000) [-1; 7]) /\ is_encoding iset'' = is_encoding small_iset.
Proof. apply intsetAdd_correct; [apply small_iset_rep|mlia|simpl; lia]. Defined.

Lemma intsetGet_correct_witness :
  intsetGet small_iset 1 = Some ([-1; 7] !! Z.to_nat 1) /\
  ([-1; 7] <> [] -> exists v, intsetRandom small_iset 12345 = Some v /\ v ∈ [-1; 7]) /\
  intsetBlobLen small_iset = 8 + zlen (is_contents small_iset).
Proof. apply intsetGet_correct; [apply small_iset_rep|mlia]. Defined.
