(* ===== verification/Sds.v ===== *)
(** sds.h and sds.c, the memory side of dynamic strings: headers of five
    widths, growing, shrinking, concatenation and copy.

    An [sds] is the offset of the first character inside its heap block; the
    header lies before it, its last byte holding the type in the low three
    bits.  zmalloc aborts when memory is exhausted, so the NULL returns of the
    source, which guard another allocator, do not occur. *)

From S2P Require Import Prelude.

Record sds := { blk : list Z; ptr : Z }.

Definition SDS_TYPE_5 : Z := 0.
Definition SDS_TYPE_8 : Z := 1.
Definition SDS_TYPE_16 : Z := 2.
Definition SDS_TYPE_32 : Z := 3.
Definition SDS_TYPE_64 : Z := 4.
Definition SDS_TYPE_MASK : Z := 7.
Definition SDS_TYPE_BITS : Z := 3.
Definition SDS_MAX_PREALLOC : Z := 1048576.

Definition SDS_TYPE_5_LEN (f : Z) : Z := Z.shiftr f SDS_TYPE_BITS.

(** ** Headers (sds.h) *)

(** [s[i]] and [s[i] = c], block reads and writes relative to [s]. *)
Definition sget (s : sds) (i : Z) : option Z := bget (blk s) (ptr s + i).
Definition sread (s : sds) (i n : Z) : option (list Z) := bread (blk s) (ptr s + i) n.
Definition swrite (s : sds) (i : Z) (bs : list Z) : option sds :=
  b ← bwrite (blk s) (ptr s + i) bs; Some {| blk := b; ptr := ptr s |}.
Definition sset (s : sds) (i c : Z) : option sds := swrite s i [u8 c].

(** The fields of struct sdshdrN, packed, where N is 8 times [w]. *)
Definition hdr_len (w : Z) (s : sds) : option Z := bs ← sread s (- (2 * w + 1)) w; Some (le_decode bs).
Definition hdr_alloc (w : Z) (s : sds) : option Z := bs ← sread s (- (w + 1)) w; Some (le_decode bs).
Definition hdr_set_len (w : Z) (s : sds) (n : Z) : option sds :=
  swrite s (- (2 * w + 1)) (le_encode (Z.to_nat w) n).
Definition hdr_set_alloc (w : Z) (s : sds) (n : Z) : option sds :=
  swrite s (- (w + 1)) (le_encode (Z.to_nat w) n).

Definition sdslen (s : sds) : option Z :=
  flags ← sget s (-1);
  let t := Z.land flags SDS_TYPE_MASK in
  if t =? SDS_TYPE_5 then Some (SDS_TYPE_5_LEN flags)
  else if t =? SDS_TYPE_8 then hdr_len 1 s
  else if t =? SDS_TYPE_16 then hdr_len 2 s
  else if t =? SDS_TYPE_32 then hdr_len 4 s
  else if t =? SDS_TYPE_64 then hdr_len 8 s
  else Some 0.

(** [sh->alloc - sh->len] is computed in the field's width promoted to int,
    then converted to size_t. *)
Definition hdr_avail (w : Z) (s : sds) : option Z :=
  a ← hdr_alloc w s; l ← hdr_len w s;
  Some (if w =? 4 then u32 (a - l) else u64 (a - l)).

Definition sdsavail (s : sds) : option Z :=
  flags ← sget s (-1);
  let t := Z.land flags SDS_TYPE_MASK in
  if t =? SDS_TYPE_5 then Some 0
  else if t =? SDS_TYPE_8 then hdr_avail 1 s
  else if t =? SDS_TYPE_16 then hdr_avail 2 s
  else if t =? SDS_TYPE_32 then hdr_avail 4 s
  else if t =? SDS_TYPE_64 then hdr_avail 8 s
  else Some 0.

Definition sdssetlen (s : sds) (newlen : Z) : option sds :=
  flags ← sget s (-1);
  let t := Z.land flags SDS_TYPE_MASK in
  if t =? SDS_TYPE_5 then sset s (-1) (Z.lor SDS_TYPE_5 (u64 (Z.shiftl newlen SDS_TYPE_BITS)))
  else if t =? SDS_TYPE_8 then hdr_set_len 1 s newlen
  else if t =? SDS_TYPE_16 then hdr_set_len 2 s newlen
  else if t =? SDS_TYPE_32 then hdr_set_len 4 s newlen
  else if t =? SDS_TYPE_64 then hdr_set_len 8 s newlen
  else Some s.

Definition hdr_inc_len (w : Z) (s : sds) (inc : Z) : option sds :=
  l ← hdr_len w s; hdr_set_len w s (l + inc).

Definition sdsinclen (s : sds) (inc : Z) : option sds :=
  flags ← sget s (-1);
  let t := Z.land flags SDS_TYPE_MASK in
  if t =? SDS_TYPE_5 then
    let newlen := u8 (SDS_TYPE_5_LEN flags + inc) in
    sset s (-1) (Z.lor SDS_TYPE_5 (Z.shiftl newlen SDS_TYPE_BITS))
  else if t =? SDS_TYPE_8 then hdr_inc_len 1 s inc
  else if t =? SDS_TYPE_16 then hdr_inc_len 2 s inc
  else if t =? SDS_TYPE_32 then hdr_inc_len 4 s inc
  else if t =? SDS_TYPE_64 then hdr_inc_len 8 s inc
  else Some s.

Definition sdsalloc (s : sds) : option Z :=
  flags ← sget s (-1);
  let t := Z.land flags SDS_TYPE_MASK in
  if t =? SDS_TYPE_5 then Some (SDS_TYPE_5_LEN flags)
  else if t =? SDS_TYPE_8 then hdr_alloc 1 s
  else if t =? SDS_TYPE_16 then hdr_alloc 2 s
  else if t =? SDS_TYPE_32 then hdr_alloc 4 s
  else if t =? SDS_TYPE_64 then hdr_alloc 8 s
  else Some 0.

Definition sdssetalloc (s : sds) (newlen : Z) : option sds :=
  flags ← sget s (-1);
  let t := Z.land flags SDS_TYPE_MASK in
  if t =? SDS_TYPE_5 then Some s
  else if t =? SDS_TYPE_8 then hdr_set_alloc 1 s newlen
  else if t =? SDS_TYPE_16 then hdr_set_alloc 2 s newlen
  else if t =? SDS_TYPE_32 then hdr_set_alloc 4 s newlen
  else if t =? SDS_TYPE_64 then hdr_set_alloc 8 s newlen
  else Some s.

(** ** Allocation (sds.c) *)

Definition sdsHdrSize (type : Z) : Z :=
  let t := Z.land type SDS_TYPE_MASK in
  if t =? SDS_TYPE_5 then 1
  else if t =? SDS_TYPE_8 then 3
  else if t =? SDS_TYPE_16 then 5
  else if t =? SDS_TYPE_32 then 9
  else if t =? SDS_TYPE_64 then 17
  else 0.

Definition sdsReqType (string_size : Z) : Z :=
  if string_size <? 2 ^ 5 then SDS_TYPE_5
  else if string_size <? 2 ^ 8 then SDS_TYPE_8
  else if string_size <? 2 ^ 16 then SDS_TYPE_16
  else if string_size <? 2 ^ 32 then SDS_TYPE_32
  else SDS_TYPE_64.

Section Sds.
  (** The value of fresh heap memory. *)
  Context (junk : Z -> Z).

Definition s_malloc (n : Z) : list Z := zrealloc junk [] n.
Definition s_realloc (b : list Z) (n : Z) : list Z := zrealloc junk b n.

(** Writing both fields of a header, and the type. *)
Definition hdr_init (w : Z) (s : sds) (initlen type : Z) : option sds :=
  s ← hdr_set_len w s initlen; s ← hdr_set_alloc w s initlen; sset s (-1) type.

(** The switch of sdsnewlen that fills the header. *)
Definition sdsnewlen_header (s : sds) (type initlen : Z) : option sds :=
  if type =? SDS_TYPE_5 then sset s (-1) (Z.lor type (u64 (Z.shiftl initlen SDS_TYPE_BITS)))
  else if type =? SDS_TYPE_8 then hdr_init 1 s initlen type
  else if type =? SDS_TYPE_16 then hdr_init 2 s initlen type
  else if type =? SDS_TYPE_32 then hdr_init 4 s initlen type
  else if type =? SDS_TYPE_64 then hdr_init 8 s initlen type
  else Some s.

(** [init] is [None] for a NULL pointer, which asks for zero bytes. *)
Definition sdsnewlen (init : option (list Z)) (initlen : Z) : option sds :=
  let type := sdsReqType initlen in
  let type := if (type =? SDS_TYPE_5) && (initlen =? 0) then SDS_TYPE_8 else type in
  let hdrlen := sdsHdrSize type in
  let size := u64 (hdrlen + initlen + 1) in
  let sh := s_malloc size in
  sh ← (match init with None => bfill sh 0 0 size | Some _ => Some sh end);
  let s := {| blk := sh; ptr := hdrlen |} in
  s ← sdsnewlen_header s type initlen;
  s ← (match init with
       | Some b => if negb (initlen =? 0) then bs ← bread b 0 initlen; swrite s 0 bs else Some s
       | None => Some s
       end);
  sset s initlen ch_nul.

Definition sdsempty : option sds := sdsnewlen (Some []) 0.

(** The bytes of [s] from its first character on, as a [const char *] to it
    sees them. *)
Definition schars (s : sds) : list Z := drop (Z.to_nat (ptr s)) (blk s).

Definition sdsdup (s : sds) : option sds := len ← sdslen s; sdsnewlen (Some (schars s)) len.

Definition sdsupdatelen (s : sds) : option sds :=
  reallen ← strlen (schars s) 0; sdssetlen s (u64 (i32 reallen)).

Definition sdsclear (s : sds) : option sds := s ← sdssetlen s 0; sset s 0 ch_nul.

Definition sdsMakeRoomFor (s : sds) (addlen : Z) : option sds :=
  avail ← sdsavail s;
  flags ← sget s (-1);
  let oldtype := Z.land flags SDS_TYPE_MASK in
  if avail >=? addlen then Some s else
  len ← sdslen s;
  let newlen := u64 (len + addlen) in
  let newlen := if newlen <? SDS_MAX_PREALLOC then u64 (newlen * 2) else u64 (newlen + SDS_MAX_PREALLOC) in
  let type := sdsReqType newlen in
  let type := if type =? SDS_TYPE_5 then SDS_TYPE_8 else type in
  let hdrlen := sdsHdrSize type in
  s ← (if oldtype =? type then
         Some {| blk := s_realloc (blk s) (u64 (hdrlen + newlen + 1)); ptr := hdrlen |}
       else
         let newsh := s_malloc (u64 (hdrlen + newlen + 1)) in
         bs ← sread s 0 (u64 (len + 1));
         newsh ← bwrite newsh hdrlen bs;
         let s := {| blk := newsh; ptr := hdrlen |} in
         s ← sset s (-1) type;
         sdssetlen s len);
  sdssetalloc s newlen.

Definition sdsRemoveFreeSpace (s : sds) : option sds :=
  flags ← sget s (-1);
  let oldtype := Z.land flags SDS_TYPE_MASK in
  len ← sdslen s;
  let type := sdsReqType len in
  let hdrlen := sdsHdrSize type in
  s ← (if oldtype =? type then
         Some {| blk := s_realloc (blk s) (u64 (hdrlen + len + 1)); ptr := hdrlen |}
       else
         let newsh := s_malloc (u64 (hdrlen + len + 1)) in
         bs ← sread s 0 (u64 (len + 1));
         newsh ← bwrite newsh hdrlen bs;
         let s := {| blk := newsh; ptr := hdrlen |} in
         s ← sset s (-1) type;
         sdssetlen s len);
  sdssetalloc s len.

Definition sdsAllocSize (s : sds) : option Z :=
  alloc ← sdsalloc s; flags ← sget s (-1); Some (u64 (sdsHdrSize flags + alloc + 1)).

Definition sdsgrowzero (s : sds) (len : Z) : option sds :=
  curlen ← sdslen s;
  if len <=? curlen then Some s else
  s ← sdsMakeRoomFor s (u64 (len - curlen));
  s ← swrite s curlen (replicate (Z.to_nat (u64 (len - curlen + 1))) 0);
  sdssetlen s len.

(** [t] is the memory the pointer argument addresses. *)
Definition sdscatlen (s : sds) (t : list Z) (len : Z) : option sds :=
  curlen ← sdslen s;
  s ← sdsMakeRoomFor s len;
  bs ← bread t 0 len;
  s ← swrite s curlen bs;
  s ← sdssetlen s (u64 (curlen + len));
  sset s (u64 (curlen + len)) ch_nul.

Definition sdscat (s : sds) (t : list Z) : option sds := n ← strlen t 0; sdscatlen s t n.

Definition sdscatsds (s t : sds) : option sds := n ← sdslen t; sdscatlen s (schars t) n.

Definition sdscpylen (s : sds) (t : list Z) (len : Z) : option sds :=
  alloc ← sdsalloc s;
  s ← (if alloc <? len then l ← sdslen s; sdsMakeRoomFor s (u64 (len - l)) else Some s);
  bs ← bread t 0 len;
  s ← swrite s 0 bs;
  s ← sset s len ch_nul;
  sdssetlen s len.

Definition sdscpy (s : sds) (t : list Z) : option sds := n ← strlen t 0; sdscpylen s t n.

(** The asserts of sdsIncrLen abort the server: [None].  The subtraction and
    the comparisons are in the promoted type of the fields. *)
Definition hdr_incr_len (w : Z) (s : sds) (incr : Z) : option (sds * Z) :=
  a ← hdr_alloc w s; l ← hdr_len w s;
  let room := if w =? 4 then u32 (a - l) else if w =? 8 then u64 (a - l) else a - l in
  let neg := if w =? 8 then u64 (i32 (- incr)) else u32 (i32 (- incr)) in
  if ((incr >=? 0) && (room >=? incr)) || ((incr <? 0) && (l >=? neg))
  then s ← hdr_set_len w s (l + incr); Some (s, (l + incr) mod 2 ^ (8 * w))
  else None.

Definition sdsIncrLen (s : sds) (incr : Z) : option sds :=
  flags ← sget s (-1);
  let t := Z.land flags SDS_TYPE_MASK in
  '(s, len) ←
    (if t =? SDS_TYPE_5 then
       let oldlen := SDS_TYPE_5_LEN flags in
       if ((incr >? 0) && (oldlen + incr <? 32)) || ((incr <? 0) && (oldlen >=? u32 (i32 (- incr))))
       then s ← sset s (-1) (Z.lor SDS_TYPE_5 (Z.shiftl (oldlen + incr) SDS_TYPE_BITS));
            Some (s, u64 (oldlen + incr))
       else None
     else if t =? SDS_TYPE_8 then hdr_incr_len 1 s incr
     else if t =? SDS_TYPE_16 then hdr_incr_len 2 s incr
     else if t =? SDS_TYPE_32 then hdr_incr_len 4 s incr
     else if t =? SDS_TYPE_64 then hdr_incr_len 8 s incr
     else Some (s, 0));
  sset s len ch_nul.

End Sds.

(** ** Blocks by header and buffer *)

Definition type_ok (t : Z) : Prop := 0 <= t <= 4.

(** Width in bytes of the fields of a header, and the bound on the lengths it
    can hold. *)
Definition type_width (t : Z) : Z := if t =? 1 then 1 else if t =? 2 then 2 else if t =? 3 then 4 else 8.
Definition type_max (t : Z) : Z := if t =? 0 then 32 else 2 ^ (8 * type_width t).

Definition header (t len alloc : Z) : list Z :=
  if t =? SDS_TYPE_5 then [8 * len]
  else le_encode (Z.to_nat (type_width t)) len ++ le_encode (Z.to_nat (type_width t)) alloc ++ [t].

Definition raw (t len alloc : Z) (buf : list Z) : sds :=
  {| blk := header t len alloc ++ buf; ptr := sdsHdrSize t |}.

Ltac type_cases H :=
  let t := fresh "t" in
  match type of H with type_ok ?x =>
    assert (x = 0 \/ x = 1 \/ x = 2 \/ x = 3 \/ x = 4) as [-> | [-> | [-> | [-> | ->]]]]
      by (unfold type_ok in H; lia)
  end.

Lemma header_length t len alloc : type_ok t -> zlen (header t len alloc) = sdsHdrSize t.
Proof. intros H. type_cases H; reflexivity. Qed.

Lemma sget_flags t len alloc buf :
  type_ok t -> 0 <= len < type_max t ->
  sget (raw t len alloc buf) (-1) = Some (if t =? 0 then 8 * len else t).
Proof. intros H Hl. type_cases H; reflexivity. Qed.

Lemma flags_type t len :
  type_ok t -> 0 <= len < type_max t ->
  Z.land (if t =? 0 then 8 * len else t) SDS_TYPE_MASK = t /\
  (t = 0 -> SDS_TYPE_5_LEN (if t =? 0 then 8 * len else t) = len).
Proof.
  intros H Hl. type_cases H; (split; [|intros Ht; try discriminate]); try reflexivity;
    change (if 0 =? 0 then 8 * len else 0) with (8 * len).
  - change SDS_TYPE_MASK with (Z.ones 3). rewrite Z.land_ones by lia.
    change (2 ^ 3) with 8. rewrite Z.mul_comm. by apply Z.mod_mul.
  - unfold SDS_TYPE_5_LEN, SDS_TYPE_BITS. rewrite Z.shiftr_div_pow2 by lia.
    change (2 ^ 3) with 8. rewrite Z.mul_comm. by apply Z.div_mul.
Qed.

(** Access to the buffer does not see the header. *)
Lemma sread_raw t len alloc buf i n :
  type_ok t -> 0 <= i -> sread (raw t len alloc buf) i n = bread buf i n.
Proof.
  intros Ht Hi. unfold sread, raw, bread. cbn [blk ptr].
  rewrite <-(header_length t len alloc) by done. rewrite length_app, Nat2Z.inj_add.
  replace (zlen (header t len alloc) + i + n <=? zlen (header t len alloc) + zlen buf)
    with (i + n <=? zlen buf) by (apply eq_true_iff_eq; rewrite !Z.leb_le; lia).
  ztrue (0 <=? zlen (header t len alloc) + i). ztrue (0 <=? i).
  destruct (_ && _); [|done]. do 2 f_equal.
  rewrite Z2Nat.inj_add, Nat2Z.id by lia. apply drop_app_add.
Qed.

Lemma swrite_raw t len alloc buf i bs :
  type_ok t -> 0 <= i ->
  swrite (raw t len alloc buf) i bs = b ← bwrite buf i bs; Some (raw t len alloc b).
Proof.
  intros Ht Hi. unfold swrite, raw, bwrite. cbn [blk ptr].
  rewrite <-(header_length t len alloc) by done. rewrite length_app, Nat2Z.inj_add.
  replace (zlen (header t len alloc) + i + zlen bs <=? zlen (header t len alloc) + zlen buf)
    with (i + zlen bs <=? zlen buf) by (apply eq_true_iff_eq; rewrite !Z.leb_le; lia).
  ztrue (0 <=? zlen (header t len alloc) + i). ztrue (0 <=? i).
  destruct (_ && _); [|done]. cbn [mbind option_bind]. do 2 f_equal.
  rewrite Z2Nat.inj_add, Nat2Z.id by lia.
  by rewrite take_app_add, <-app_assoc, <-Nat.add_assoc, drop_app_add.
Qed.

Lemma sset_raw t len alloc buf i c :
  type_ok t -> 0 <= i ->
  sset (raw t len alloc buf) i c = b ← bset buf i (u8 c); Some (raw t len alloc b).
Proof. apply swrite_raw. Qed.

(** The header fields of a block. *)
Lemma hdr_read t len alloc buf :
  type_ok t -> t <> 0 -> 0 <= len < type_max t -> 0 <= alloc < type_max t ->
  hdr_len (type_width t) (raw t len alloc buf) = Some len /\
  hdr_alloc (type_width t) (raw t len alloc buf) = Some alloc.
Proof.
  intros Ht H0 Hl Ha. unfold hdr_len, hdr_alloc, sread, raw. cbn [blk ptr].
  unfold header. change SDS_TYPE_5 with 0. zfalse (t =? 0). rewrite <-!app_assoc.
  assert (Hw : Z.of_nat (Z.to_nat (type_width t)) = type_width t) by (type_cases Ht; done).
  assert (Hdec : forall z, 0 <= z < type_max t ->
    le_decode (le_encode (Z.to_nat (type_width t)) z) = z).
  { intros z Hz. rewrite le_decode_encode, Hw. apply Z.mod_small.
    unfold type_max in Hz. by rewrite (proj2 (Z.eqb_neq _ _) H0) in Hz. }
  split.
  - rewrite bread_0; [|type_cases Ht; done|by rewrite length_le_encode].
    cbn [mbind option_bind]. by rewrite Hdec.
  - rewrite bread_app; [|rewrite length_le_encode; type_cases Ht; done|by rewrite length_le_encode].
    cbn [mbind option_bind]. by rewrite Hdec.
Qed.

Lemma hdr_write t len alloc buf n :
  type_ok t -> t <> 0 ->
  hdr_set_len (type_width t) (raw t len alloc buf) n = Some (raw t n alloc buf) /\
  hdr_set_alloc (type_width t) (raw t len alloc buf) n = Some (raw t len n buf).
Proof.
  intros Ht H0. unfold hdr_set_len, hdr_set_alloc, swrite, raw. cbn [blk ptr].
  unfold header. change SDS_TYPE_5 with 0. zfalse (t =? 0). rewrite <-!app_assoc. split.
  - rewrite bwrite_0; [done|type_cases Ht; done|by rewrite !length_le_encode].
  - rewrite bwrite_app; [done|rewrite length_le_encode; type_cases Ht; done|by rewrite !length_le_encode].
Qed.

(** ** Header operations on a block *)

Ltac by_type Ht :=
  type_cases Ht; unfold SDS_TYPE_5, SDS_TYPE_8, SDS_TYPE_16, SDS_TYPE_32, SDS_TYPE_64 in *;
  cbn [Z.eqb Pos.eqb].

(** Reads of a field dispatch on the type. *)
Lemma sdslen_raw t len alloc buf :
  type_ok t -> 0 <= len < type_max t -> 0 <= alloc < type_max t ->
  sdslen (raw t len alloc buf) = Some len.
Proof.
  intros Ht Hl Ha. unfold sdslen. rewrite sget_flags by done. cbn [mbind option_bind].
  destruct (flags_type t len Ht Hl) as [-> Hlen].
  destruct (decide (t = 0)) as [->|H0]; [by rewrite Hlen|].
  destruct (hdr_read t len alloc buf Ht H0 Hl Ha) as [Hr _].
  by_type Ht; done.
Qed.

Lemma sdsalloc_raw t len alloc buf :
  type_ok t -> 0 <= len < type_max t -> 0 <= alloc < type_max t ->
  sdsalloc (raw t len alloc buf) = Some (if t =? 0 then len else alloc).
Proof.
  intros Ht Hl Ha. unfold sdsalloc. rewrite sget_flags by done. cbn [mbind option_bind].
  destruct (flags_type t len Ht Hl) as [-> Hlen].
  destruct (decide (t = 0)) as [->|H0]; [by rewrite Hlen|].
  destruct (hdr_read t len alloc buf Ht H0 Hl Ha) as [_ Hr].
  by_type Ht; done.
Qed.

Lemma sdsavail_raw t len alloc buf :
  type_ok t -> 0 <= len <= alloc -> alloc < type_max t ->
  sdsavail (raw t len alloc buf) = Some (if t =? 0 then 0 else alloc - len).
Proof.
  intros Ht Hl Ha. assert (Hl' : 0 <= len < type_max t) by lia. assert (Ha' : 0 <= alloc < type_max t) by lia.
  unfold sdsavail. rewrite sget_flags by done. cbn [mbind option_bind].
  destruct (flags_type t len Ht Hl') as [-> _].
  destruct (decide (t = 0)) as [->|H0]; [done|].
  destruct (hdr_read t len alloc buf Ht H0 Hl' Ha') as [Hr1 Hr2]. unfold hdr_avail.
  by_type Ht; try done; unfold type_width in Hr1, Hr2; cbn [Z.eqb Pos.eqb] in Hr1, Hr2; rewrite Hr1, Hr2; cbn [mbind option_bind];
    unfold type_max, type_width in Ha; cbn [Z.eqb Pos.eqb] in Ha; f_equal; pow_consts;
    first [apply u64_small|apply u32_small]; lia.
Qed.

Lemma sdssetlen_raw t len alloc buf n :
  type_ok t -> 0 <= len < type_max t -> 0 <= n < type_max t ->
  sdssetlen (raw t len alloc buf) n = Some (raw t n alloc buf).
Proof.
  intros Ht Hl Hn. unfold sdssetlen. rewrite sget_flags by done. cbn [mbind option_bind].
  destruct (flags_type t len Ht Hl) as [-> _].
  destruct (decide (t = 0)) as [->|H0].
  - change (0 =? SDS_TYPE_5) with true. cbv iota. unfold sset, swrite, raw. cbn [blk ptr].
    unfold header. change (0 =? SDS_TYPE_5) with true. cbv iota.
    change [8 * len] with ([] ++ [8 * len]). rewrite bwrite_0 by done. cbn [mbind option_bind].
    do 4 f_equal. change (type_max 0) with 32 in Hn. unfold SDS_TYPE_5, SDS_TYPE_BITS.
    rewrite Z.lor_0_l, Z.shiftl_mul_pow2 by lia. change (2 ^ 3) with 8.
    rewrite u64_small by lia. rewrite u8_small by lia. lia.
  - destruct (hdr_write t len alloc buf n Ht H0) as [Hw _]. by_type Ht; done.
Qed.

Lemma sdsinclen_raw t len alloc buf n :
  type_ok t -> 0 <= len < type_max t -> 0 <= alloc < type_max t -> 0 <= len + n < type_max t ->
  sdsinclen (raw t len alloc buf) n = Some (raw t (len + n) alloc buf).
Proof.
  intros Ht Hl Ha Hn. unfold sdsinclen. rewrite sget_flags by done. cbn [mbind option_bind].
  destruct (flags_type t len Ht Hl) as [-> Hlen].
  destruct (decide (t = 0)) as [->|H0].
  - change (0 =? SDS_TYPE_5) with true. cbv iota zeta. rewrite Hlen by done.
    unfold sset, swrite, raw. cbn [blk ptr].
    unfold header. change (0 =? SDS_TYPE_5) with true. cbv iota.
    change [8 * len] with ([] ++ [8 * len]). rewrite bwrite_0 by done. cbn [mbind option_bind].
    do 4 f_equal. change (type_max 0) with 32 in Hn. unfold SDS_TYPE_5, SDS_TYPE_BITS.
    rewrite Z.lor_0_l, Z.shiftl_mul_pow2 by lia. change (2 ^ 3) with 8.
    rewrite !u8_small by (rewrite ?u8_small; lia). lia.
  - destruct (hdr_read t len alloc buf Ht H0 Hl Ha) as [Hr _].
    destruct (hdr_write t len alloc buf (len + n) Ht H0) as [Hw _]. unfold hdr_inc_len.
    by_type Ht; try done; unfold type_width in *; cbn [Z.eqb Pos.eqb] in *; by rewrite Hr.
Qed.

Lemma sdssetalloc_raw t len alloc buf n :
  type_ok t -> 0 <= len < type_max t ->
  sdssetalloc (raw t len alloc buf) n = Some (raw t len (if t =? 0 then alloc else n) buf).
Proof.
  intros Ht Hl. unfold sdssetalloc. rewrite sget_flags by done. cbn [mbind option_bind].
  destruct (flags_type t len Ht Hl) as [-> _].
  destruct (decide (t = 0)) as [->|H0]; [done|].
  destruct (hdr_write t len alloc buf n Ht H0) as [_ Hw]. by_type Ht; done.
Qed.

Lemma sdsReqType_spec n :
  0 <= n < 2 ^ 64 -> type_ok (sdsReqType n) /\ n < type_max (sdsReqType n).
Proof.
  intros Hn. unfold sdsReqType, type_ok, type_max, type_width, SDS_TYPE_5, SDS_TYPE_8, SDS_TYPE_16,
    SDS_TYPE_32, SDS_TYPE_64.
  repeat match goal with |- context [if ?a <? ?b then _ else _] => destruct (Z.ltb_spec a b) end;
    cbn [Z.eqb Pos.eqb]; pow_consts; lia.
Qed.

(** ** Strings

    [sds_mk t c f] is the block of a string with characters [c], followed by
    its terminator and the spare bytes [f]. *)
Definition sds_mk (t : Z) (c f : list Z) : sds := raw t (zlen c) (zlen c + zlen f) (c ++ ch_nul :: f).

(** The same with any byte [x] at the place of the terminator, as it is while
    a routine writes characters one at a time. *)
Definition sds_open (t : Z) (c : list Z) (x : Z) (f : list Z) : sds :=
  raw t (zlen c) (zlen c + zlen f) (c ++ x :: f).

Definition sds_ok (t : Z) (c f : list Z) : Prop :=
  type_ok t /\ zlen c + zlen f < type_max t.

Lemma sds_ok_len t c f : sds_ok t c f -> type_ok t /\ 0 <= zlen c < type_max t /\ 0 <= zlen c + zlen f < type_max t.
Proof. intros [? ?]. split; [done|lia]. Qed.

Lemma sdslen_open t c x f : sds_ok t c f -> sdslen (sds_open t c x f) = Some (zlen c).
Proof. intros (?&?&?)%sds_ok_len. by apply sdslen_raw. Qed.

Lemma sdsavail_open t c x f :
  sds_ok t c f -> sdsavail (sds_open t c x f) = Some (if t =? 0 then 0 else zlen f).
Proof.
  intros (?&?&?)%sds_ok_len. unfold sds_open. rewrite sdsavail_raw by (done || lia).
  destruct (t =? 0); f_equal. lia.
Qed.

Lemma sget_flags_open t c x f :
  sds_ok t c f -> sget (sds_open t c x f) (-1) = Some (if t =? 0 then 8 * zlen c else t).
Proof. intros (?&?&?)%sds_ok_len. by apply sget_flags. Qed.

Lemma sread_open t c x f : sds_ok t c f -> sread (sds_open t c x f) 0 (zlen c + 1) = Some (c ++ [x]).
Proof.
  intros [Ht _]. unfold sds_open. rewrite sread_raw by (done || lia).
  rewrite cons_middle, app_assoc. apply bread_0; [done|]. rewrite length_app. simpl. lia.
Qed.

Lemma sdslen_mk t c f : sds_ok t c f -> sdslen (sds_mk t c f) = Some (zlen c).
Proof. apply sdslen_open. Qed.

Lemma sget_flags_mk t c f :
  sds_ok t c f -> sget (sds_mk t c f) (-1) = Some (if t =? 0 then 8 * zlen c else t).
Proof. apply sget_flags_open. Qed.

Lemma sdsalloc_mk t c f :
  sds_ok t c f -> sdsalloc (sds_mk t c f) = Some (if t =? 0 then zlen c else zlen c + zlen f).
Proof. intros (?&?&?)%sds_ok_len. by apply sdsalloc_raw. Qed.

Lemma schars_mk t c f : sds_ok t c f -> schars (sds_mk t c f) = c ++ ch_nul :: f.
Proof.
  intros [Ht _]. unfold schars, sds_mk, raw. cbn [blk ptr].
  rewrite <-(header_length t (zlen c) (zlen c + zlen f)) by done.
  by rewrite Nat2Z.id, drop_app_length.
Qed.

(** ** Fresh blocks *)

(** A header not yet written: fields and type byte. *)
Lemma fresh_header_split t (H : list Z) :
  type_ok t -> t <> 0 -> zlen H = sdsHdrSize t ->
  exists L A x, H = L ++ A ++ [x] /\ length L = Z.to_nat (type_width t) /\
    length A = Z.to_nat (type_width t).
Proof.
  intros Ht H0 HH. set (w := Z.to_nat (type_width t)).
  assert (Hl : length H = (w + (w + 1))%nat).
  { unfold w. by_type Ht; try done; change (sdsHdrSize _) with 3 in HH || idtac;
      vm_compute (sdsHdrSize _) in HH; simpl; lia. }
  destruct (length_split_tail H w) as (L & R & -> & HL & HR); [lia|].
  destruct (length_split_tail R w) as (A & X & -> & HA & HX); [lia|].
  rewrite Hl in HR. destruct X as [|x [|]]; simpl in HX; try lia. by exists L, A, x.
Qed.

Lemma hdrsize_width t : type_ok t -> t <> 0 -> sdsHdrSize t = 2 * type_width t + 1 /\ 0 < type_width t.
Proof. intros Ht H0. by_type Ht; done. Qed.

(** hdr_set_len and friends on raw pieces. *)
Lemma set_len_pieces t (L A : list Z) x buf n :
  type_ok t -> t <> 0 -> length L = Z.to_nat (type_width t) -> length A = Z.to_nat (type_width t) ->
  hdr_set_len (type_width t) {| blk := (L ++ A ++ [x]) ++ buf; ptr := sdsHdrSize t |} n =
    Some {| blk := (le_encode (Z.to_nat (type_width t)) n ++ A ++ [x]) ++ buf; ptr := sdsHdrSize t |}.
Proof.
  intros Ht H0 HL HA. destruct (hdrsize_width t Ht H0) as [Hs Hw].
  unfold hdr_set_len, swrite. cbn [blk ptr]. rewrite <-!app_assoc.
  by rewrite bwrite_0 by (rewrite ?length_le_encode; lia).
Qed.

Lemma set_alloc_pieces t (L A : list Z) x buf n :
  type_ok t -> t <> 0 -> length L = Z.to_nat (type_width t) -> length A = Z.to_nat (type_width t) ->
  hdr_set_alloc (type_width t) {| blk := (L ++ A ++ [x]) ++ buf; ptr := sdsHdrSize t |} n =
    Some {| blk := (L ++ le_encode (Z.to_nat (type_width t)) n ++ [x]) ++ buf; ptr := sdsHdrSize t |}.
Proof.
  intros Ht H0 HL HA. destruct (hdrsize_width t Ht H0) as [Hs Hw].
  unfold hdr_set_alloc, swrite. cbn [blk ptr]. rewrite <-!app_assoc.
  by rewrite bwrite_app by (rewrite ?length_le_encode; lia).
Qed.

Lemma set_type_pieces t (L A : list Z) x buf c :
  type_ok t -> t <> 0 -> length L = Z.to_nat (type_width t) -> length A = Z.to_nat (type_width t) ->
  0 <= c < 256 ->
  sset {| blk := (L ++ A ++ [x]) ++ buf; ptr := sdsHdrSize t |} (-1) c =
    Some {| blk := (L ++ A ++ [c]) ++ buf; ptr := sdsHdrSize t |}.
Proof.
  intros Ht H0 HL HA Hc. destruct (hdrsize_width t Ht H0) as [Hs Hw].
  unfold sset, swrite. cbn [blk ptr]. rewrite u8_small by lia. rewrite <-!app_assoc, !(app_assoc L).
  by rewrite bwrite_app by (rewrite ?length_app; simpl; lia).
Qed.

Lemma get_type_pieces t (L A : list Z) buf :
  type_ok t -> t <> 0 -> length L = Z.to_nat (type_width t) -> length A = Z.to_nat (type_width t) ->
  sget {| blk := (L ++ A ++ [t]) ++ buf; ptr := sdsHdrSize t |} (-1) = Some t.
Proof.
  intros Ht H0 HL HA. destruct (hdrsize_width t Ht H0) as [Hs Hw].
  unfold sget. cbn [blk ptr]. rewrite app_assoc, <-app_assoc. apply bget_app_mid.
  rewrite length_app. lia.
Qed.

Lemma raw_pieces t len alloc buf :
  t <> 0 -> raw t len alloc buf =
    {| blk := (le_encode (Z.to_nat (type_width t)) len ++ le_encode (Z.to_nat (type_width t)) alloc ++ [t]) ++ buf;
       ptr := sdsHdrSize t |}.
Proof. intros H0. unfold raw, header. change SDS_TYPE_5 with 0. by zfalse (t =? 0). Qed.

(** A type 5 header is its flags byte. *)
Lemma sset_type5 x buf c :
  sset {| blk := x :: buf; ptr := 1 |} (-1) c = Some {| blk := u8 c :: buf; ptr := 1 |}.
Proof.
  unfold sset, swrite. cbn [blk ptr]. change (x :: buf) with ([x] ++ buf).
  by rewrite bwrite_0.
Qed.

Lemma flags_type5 len : 0 <= len < 32 -> u8 (Z.lor SDS_TYPE_5 (u64 (Z.shiftl len SDS_TYPE_BITS))) = 8 * len.
Proof.
  intros Hl. unfold SDS_TYPE_5, SDS_TYPE_BITS. rewrite Z.lor_0_l, Z.shiftl_mul_pow2 by lia.
  change (2 ^ 3) with 8. rewrite u64_small by lia. rewrite u8_small; lia.
Qed.

(** sdsnewlen: header fields, then the type. *)
Lemma hdr_init_fresh t (H : list Z) buf n :
  type_ok t -> t <> 0 -> zlen H = sdsHdrSize t ->
  hdr_init (type_width t) {| blk := H ++ buf; ptr := sdsHdrSize t |} n t = Some (raw t n n buf).
Proof.
  intros Ht H0 HH. destruct (fresh_header_split t H Ht H0 HH) as (L & A & x & -> & HL & HA).
  unfold hdr_init. rewrite set_len_pieces by done. cbn [mbind option_bind].
  rewrite set_alloc_pieces by (rewrite ?length_le_encode; done). cbn [mbind option_bind].
  rewrite set_type_pieces; [by rewrite raw_pieces|done|done|by rewrite length_le_encode..|].
  unfold type_ok in Ht. lia.
Qed.

(** sdsMakeRoomFor and sdsRemoveFreeSpace: the type, then the fields. *)
Lemma retype_fresh t (H : list Z) buf len alloc :
  type_ok t -> zlen H = sdsHdrSize t -> 0 <= len < type_max t ->
  (s ← (s ← sset {| blk := H ++ buf; ptr := sdsHdrSize t |} (-1) t; sdssetlen s len);
   sdssetalloc s alloc) = Some (raw t len alloc buf).
Proof.
  intros Ht HH Hl. destruct (decide (t = 0)) as [->|H0].
  - change (sdsHdrSize 0) with 1 in *. destruct H as [|x [|]]; cbn [length] in HH; try lia. cbn [app].
    rewrite sset_type5. cbn [mbind option_bind].
    change ({| blk := u8 0 :: buf; ptr := 1 |}) with (raw 0 0 0 buf).
    rewrite sdssetlen_raw by (done || lia). cbn [mbind option_bind].
    rewrite sdssetalloc_raw by done. done.
  - destruct (fresh_header_split t H Ht H0 HH) as (L & A & x & -> & HL & HA).
    rewrite set_type_pieces; [|done..|unfold type_ok in Ht; lia]. cbn [mbind option_bind].
    assert (Hland : Z.land t SDS_TYPE_MASK = t) by (by_type Ht; done).
    unfold sdssetlen. rewrite get_type_pieces by done. cbn [mbind option_bind]. rewrite Hland.
    assert (Hset := set_len_pieces t L A t buf len Ht H0 HL HA).
    assert (Hset2 := set_alloc_pieces t (le_encode (Z.to_nat (type_width t)) len) A t buf alloc Ht H0
      ltac:(by rewrite length_le_encode) HA).
    assert (Hget := get_type_pieces t (le_encode (Z.to_nat (type_width t)) len) A buf Ht H0
      ltac:(by rewrite length_le_encode) HA).
    rewrite raw_pieces by done.
    by_type Ht; try done; unfold type_width in *; cbn [Z.eqb Pos.eqb] in *;
      rewrite Hset; cbn [mbind option_bind]; unfold sdssetalloc; rewrite Hget;
      cbn [mbind option_bind]; rewrite Hland; exact Hset2.
Qed.

(** ** Functional specifications *)

Definition newtype (n : Z) : Z := if n =? 0 then 1 else sdsReqType n.

Lemma newtype_spec n : 0 <= n < 2 ^ 64 -> type_ok (newtype n) /\ n < type_max (newtype n).
Proof.
  intros Hn. unfold newtype. destruct (Z.eqb_spec n 0) as [->|]; [done|]. by apply sdsReqType_spec.
Qed.

Lemma hdrsize_bound t : type_ok t -> 1 <= sdsHdrSize t <= 17.
Proof. intros Ht. by_type Ht; vm_compute; split; discriminate. Qed.

Section Specs.
  Context (junk : Z -> Z).

Lemma s_malloc_split h n m :
  0 <= h -> 0 <= n -> 0 <= m -> exists H M R : list Z, s_malloc junk (h + n + m) = H ++ M ++ R /\
    zlen H = h /\ zlen M = n /\ zlen R = m.
Proof.
  intros Hh Hn Hm. unfold s_malloc.
  destruct (zrealloc_grow junk [] (h + n + m)) as (l & -> & Hl); [simpl; lia|]. cbn [app].
  change (zlen []) with 0 in Hl.
  destruct (length_split_tail l (Z.to_nat h)) as (H & R & -> & HH & HR); [lia|].
  destruct (length_split_tail R (Z.to_nat n)) as (M & R' & -> & HM & HR'); [lia|].
  exists H, M, R'. repeat split; lia.
Qed.

(** A copy of the characters into a fresh block, its header written last. *)
Lemma copy_retype t c x R h :
  type_ok t -> zlen c < type_max t -> h = sdsHdrSize t -> forall H M alloc, zlen H = h ->
  zlen M = zlen c + 1 ->
  (s ← (newsh ← bwrite (H ++ M ++ R) h (c ++ [x]);
        s ← sset {| blk := newsh; ptr := h |} (-1) t; sdssetlen s (zlen c));
   sdssetalloc s alloc) = Some (raw t (zlen c) alloc (c ++ x :: R)).
Proof.
  intros Ht Hc -> H M alloc HH HM.
  rewrite bwrite_app by (rewrite ?length_app; cbn [length]; lia). cbn [mbind option_bind].
  rewrite <-(app_assoc c). apply retype_fresh; [done|done|lia].
Qed.

(** Writes inside the buffer of a block. *)
Lemma write_terminated t len alloc pre mid post new x :
  type_ok t -> zlen new = zlen mid ->
  (s ← swrite (raw t len alloc (pre ++ mid ++ x :: post)) (zlen pre) new;
   sset s (zlen pre + zlen new) ch_nul) = Some (raw t len alloc (pre ++ new ++ ch_nul :: post)).
Proof.
  intros Ht Hn. rewrite swrite_raw by (done || lia). rewrite bwrite_app by lia. cbn [mbind option_bind].
  rewrite sset_raw by (done || lia). rewrite app_assoc, bset_app by (rewrite length_app; lia).
  cbn [mbind option_bind]. by rewrite <-app_assoc.
Qed.

Lemma sdsnewlen_header_fresh t (H : list Z) buf n :
  type_ok t -> zlen H = sdsHdrSize t -> 0 <= n < type_max t ->
  sdsnewlen_header {| blk := H ++ buf; ptr := sdsHdrSize t |} t n = Some (raw t n n buf).
Proof.
  intros Ht HH Hn. unfold sdsnewlen_header. destruct (decide (t = 0)) as [->|H0].
  - change (sdsHdrSize 0) with 1 in *. destruct H as [|x [|]]; cbn [length] in HH; try lia. cbn [app].
    change (0 =? SDS_TYPE_5) with true. cbv iota. change (type_max 0) with 32 in Hn.
    rewrite sset_type5. change (Z.lor 0) with (Z.lor SDS_TYPE_5). by rewrite (flags_type5 n Hn).
  - assert (Hi := hdr_init_fresh t H buf n Ht H0 HH). by_type Ht; done.
Qed.

Lemma sdsnewlen_type n :
  (if (sdsReqType n =? SDS_TYPE_5) && (n =? 0) then SDS_TYPE_8 else sdsReqType n) = newtype n.
Proof.
  unfold newtype. destruct (Z.eqb_spec n 0) as [->|]; [done|]. by rewrite andb_false_r.
Qed.

Lemma sdsnewlen_copy t0 n c :
  0 <= n -> n + 18 < 2 ^ 64 -> bread t0 0 n = Some c ->
  sdsnewlen junk (Some t0) n = Some (sds_mk (newtype n) c []).
Proof.
  intros Hn Hb Hr. assert (Hc := bread_length _ _ _ _ Hr).
  destruct (newtype_spec n) as [Ht Hm]; [lia|]. assert (Hh := hdrsize_bound _ Ht).
  unfold sdsnewlen. cbv zeta. rewrite sdsnewlen_type. set (t := newtype n) in *.
  rewrite u64_small by lia.
  destruct (s_malloc_split (sdsHdrSize t) n 1) as (H & M & R & -> & HH & HM & HR); [lia..|].
  destruct R as [|x [|]]; cbn [length] in HR; try lia. cbn [mbind option_bind].
  rewrite sdsnewlen_header_fresh by done. cbn [mbind option_bind].
  assert (HW := write_terminated t n n [] M [] c x Ht ltac:(lia)). cbn [app] in HW.
  rewrite Hc in HW. unfold sds_mk. rewrite Z.add_0_r, Hc. rewrite <-HW.
  destruct (Z.eqb_spec n 0) as [->|Hn0]; cbn [negb].
  - assert (c = [] /\ M = []) as [-> ->] by (split; apply length_zero_iff_nil; lia).
    rewrite swrite_raw by done. done.
  - rewrite Hr. done.
Qed.

Lemma sdsnewlen_null n :
  0 <= n -> n + 18 < 2 ^ 64 ->
  sdsnewlen junk None n = Some (sds_mk (newtype n) (replicate (Z.to_nat n) 0) []).
Proof.
  intros Hn Hb.
  destruct (newtype_spec n) as [Ht Hm]; [lia|]. assert (Hh := hdrsize_bound _ Ht).
  unfold sdsnewlen. cbv zeta. rewrite sdsnewlen_type. set (t := newtype n) in *.
  rewrite u64_small by lia. unfold bfill. ztrue (0 <=? sdsHdrSize t + n + 1).
  destruct (s_malloc_split (sdsHdrSize t) n 1) as (H & M & R & -> & HH & HM & HR); [lia..|].
  rewrite <-(app_nil_r (H ++ M ++ R)).
  rewrite bwrite_0 by (rewrite ?length_replicate, ?length_app; lia). rewrite app_nil_r.
  cbn [mbind option_bind].
  replace (Z.to_nat (sdsHdrSize t + n + 1)) with (Z.to_nat (sdsHdrSize t) + (Z.to_nat n + 1))%nat by lia.
  rewrite !replicate_add.
  rewrite sdsnewlen_header_fresh by (done || rewrite ?length_replicate; lia). cbn [mbind option_bind].
  rewrite sset_raw by done. change (replicate 1 0) with [0]. rewrite bset_app by (rewrite length_replicate; lia).
  cbn [mbind option_bind]. unfold sds_mk. rewrite length_replicate, Z2Nat.id, Z.add_0_r by done. done.
Qed.

(** The length a growing string is given room for. *)
Definition room_for (n : Z) : Z := if n <? SDS_MAX_PREALLOC then n * 2 else n + SDS_MAX_PREALLOC.
Definition room_type (n : Z) : Z := if sdsReqType n =? SDS_TYPE_5 then SDS_TYPE_8 else sdsReqType n.

Lemma room_type_spec n : 0 <= n < 2 ^ 64 -> type_ok (room_type n) /\ room_type n <> 0 /\ n < type_max (room_type n).
Proof.
  intros Hn. destruct (sdsReqType_spec n Hn) as [Ht Hm]. unfold room_type.
  destruct (Z.eqb_spec (sdsReqType n) SDS_TYPE_5) as [E|]; [|done].
  rewrite E in Hm. change (type_max SDS_TYPE_5) with 32 in Hm. split; [done|]. split; [done|].
  change (type_max SDS_TYPE_8) with 256. lia.
Qed.

Lemma raw_fold t len alloc buf :
  {| blk := header t len alloc ++ buf; ptr := sdsHdrSize t |} = raw t len alloc buf.
Proof. done. Qed.

(** Reallocation of a block for more room, the header type kept. *)
Lemma realloc_open t c x f n :
  sds_ok t c f -> t <> 0 -> zlen c + zlen f <= n ->
  exists f', zlen c + zlen f' = n /\
  (s ← Some {| blk := s_realloc junk (blk (sds_open t c x f)) (sdsHdrSize t + n + 1); ptr := sdsHdrSize t |};
   sdssetalloc s n) = Some (sds_open t c x f').
Proof.
  intros Hok H0 Hn. destruct (sds_ok_len _ _ _ Hok) as (Ht & Hc & _).
  unfold sds_open, raw. cbn [blk]. unfold s_realloc.
  assert (Hlen : zlen (header t (zlen c) (zlen c + zlen f) ++ c ++ x :: f) =
    sdsHdrSize t + zlen c + 1 + zlen f).
  { rewrite !length_app. rewrite !Nat2Z.inj_add, header_length by done. cbn [length]. lia. }
  destruct (zrealloc_grow junk (header t (zlen c) (zlen c + zlen f) ++ c ++ x :: f)
    (sdsHdrSize t + n + 1)) as (fresh & -> & Hf); [lia|].
  exists (f ++ fresh). rewrite length_app. split; [lia|]. cbn [mbind option_bind].
  rewrite <-app_assoc, <-app_assoc. cbn [app].
  rewrite raw_fold.
  rewrite sdssetalloc_raw by done. zfalse (t =? 0). unfold raw. do 4 f_equal. lia.
Qed.

(** Moving the characters to a block of another type. *)
Lemma retype_open t c x f t' n :
  sds_ok t c f -> type_ok t' -> zlen c <= n -> zlen c < type_max t' -> n + 18 < 2 ^ 64 ->
  exists f', zlen c + zlen f' = n /\
  (s ← (bs ← sread (sds_open t c x f) 0 (u64 (zlen c + 1));
        newsh ← bwrite (s_malloc junk (sdsHdrSize t' + n + 1)) (sdsHdrSize t') bs;
        s ← sset {| blk := newsh; ptr := sdsHdrSize t' |} (-1) t'; sdssetlen s (zlen c));
   sdssetalloc s n) = Some (sds_open t' c x f').
Proof.
  intros Hok Ht' Hn Hc Hb. assert (Hh := hdrsize_bound _ Ht').
  destruct (s_malloc_split (sdsHdrSize t') (zlen c + 1) (n - zlen c)) as (H & M & R & E & HH & HM & HR); [lia..|].
  exists R. split; [lia|]. rewrite u64_small by lia. rewrite sread_open by done. cbn [mbind option_bind].
  replace (sdsHdrSize t' + n + 1) with (sdsHdrSize t' + (zlen c + 1) + (n - zlen c)) by lia. rewrite E.
  unfold sds_open. replace (zlen c + zlen R) with n by lia. by apply copy_retype.
Qed.

Lemma sdsMakeRoomFor_open t c x f n :
  sds_ok t c f -> 0 <= n -> 2 * (zlen c + n) + 2 ^ 20 + 18 < 2 ^ 64 ->
  exists t' f', sdsMakeRoomFor junk (sds_open t c x f) n = Some (sds_open t' c x f') /\ sds_ok t' c f' /\ n <= zlen f' /\
    (if (if t =? 0 then 0 else zlen f) >=? n then t' = t /\ f' = f
     else t' = room_type (room_for (zlen c + n)) /\ zlen c + zlen f' = room_for (zlen c + n)).
Proof.
  intros Hok Hn Hb. destruct (sds_ok_len _ _ _ Hok) as (Ht & Hc & Hf).
  unfold sdsMakeRoomFor. rewrite sdsavail_open by done. cbn [mbind option_bind].
  rewrite sget_flags_open by done. cbn [mbind option_bind].
  destruct (flags_type t (zlen c) Ht Hc) as [-> _].
  set (avail := if t =? 0 then 0 else zlen f). rewrite Z.geb_leb.
  destruct (Z.leb_spec n avail) as [Ha|Ha].
  { exists t, f. split_and!; [done..| |done|done].
    unfold avail in Ha. destruct (t =? 0) in Ha; lia. }
  rewrite sdslen_open by done. cbn [mbind option_bind]. rewrite (u64_small (zlen c + n)) by lia.
  assert (Hroom : (if zlen c + n <? SDS_MAX_PREALLOC then u64 ((zlen c + n) * 2)
    else u64 (zlen c + n + SDS_MAX_PREALLOC)) = room_for (zlen c + n)).
  { unfold room_for, SDS_MAX_PREALLOC in *. destruct (Z.ltb_spec (zlen c + n) 1048576); apply u64_small; lia. }
  rewrite Hroom. set (m := room_for (zlen c + n)).
  assert (Hm : zlen c + n <= m /\ m + 18 < 2 ^ 64).
  { unfold m, room_for, SDS_MAX_PREALLOC. destruct (Z.ltb_spec (zlen c + n) 1048576); lia. }
  destruct (room_type_spec m) as (Ht' & H0 & Hmax); [lia|].
  change (if sdsReqType m =? SDS_TYPE_5 then SDS_TYPE_8 else sdsReqType m) with (room_type m).
  assert (Hh := hdrsize_bound _ Ht'). rewrite (u64_small (sdsHdrSize (room_type m) + m + 1)) by lia.
  destruct (Z.eqb_spec t (room_type m)) as [E|E].
  - destruct (realloc_open t c x f m Hok) as (f' & Hf' & Hs); [lia| |].
    { unfold avail in Ha. rewrite (proj2 (Z.eqb_neq t 0)) in Ha by lia. lia. }
    exists (room_type m), f'. rewrite <-E. split; [exact Hs|]. unfold sds_ok. rewrite E, Hf'.
    split_and!; try done; lia.
  - destruct (retype_open t c x f (room_type m) m Hok Ht') as (f' & Hf' & Hs); [lia..|].
    exists (room_type m), f'. split; [exact Hs|]. unfold sds_ok. rewrite Hf'. split_and!; try done; lia.
Qed.

Lemma sdsMakeRoomFor_mk t c f n :
  sds_ok t c f -> 0 <= n -> 2 * (zlen c + n) + 2 ^ 20 + 18 < 2 ^ 64 ->
  exists t' f', sdsMakeRoomFor junk (sds_mk t c f) n = Some (sds_mk t' c f') /\ sds_ok t' c f' /\ n <= zlen f' /\
    (if (if t =? 0 then 0 else zlen f) >=? n then t' = t /\ f' = f
     else t' = room_type (room_for (zlen c + n)) /\ zlen c + zlen f' = room_for (zlen c + n)).
Proof. apply (sdsMakeRoomFor_open t c ch_nul). Qed.

Lemma sdsRemoveFreeSpace_mk t c f :
  sds_ok t c f -> zlen c + 18 < 2 ^ 64 ->
  sdsRemoveFreeSpace junk (sds_mk t c f) = Some (sds_mk (sdsReqType (zlen c)) c []).
Proof.
  intros Hok Hb. destruct (sds_ok_len _ _ _ Hok) as (Ht & Hc & Hf).
  unfold sdsRemoveFreeSpace. rewrite sget_flags_mk by done. cbn [mbind option_bind].
  destruct (flags_type t (zlen c) Ht Hc) as [-> _].
  rewrite sdslen_mk by done. cbn [mbind option_bind].
  destruct (sdsReqType_spec (zlen c)) as (Ht' & Hmax); [lia|]. set (t' := sdsReqType (zlen c)) in *.
  assert (Hh := hdrsize_bound _ Ht'). rewrite (u64_small (sdsHdrSize t' + zlen c + 1)) by lia.
  destruct (Z.eqb_spec t t') as [E|E].
  - rewrite <-E. unfold sds_mk, raw. cbn [blk]. unfold s_realloc.
    rewrite cons_middle, !app_assoc. rewrite zrealloc_shrink.
    2:{ rewrite !length_app, !Nat2Z.inj_add, header_length by done. cbn [length]. lia. }
    cbn [mbind option_bind]. rewrite <-!app_assoc.
    rewrite raw_fold.
    rewrite sdssetalloc_raw by done. cbn [length]. rewrite Z.add_0_r. unfold raw, header.
    by destruct (Z.eqb_spec t 0) as [->|].
  - destruct (retype_open t c ch_nul f t' (zlen c) Hok Ht') as (f' & Hf' & Hs); [lia..|].
    etrans; [exact Hs|]. destruct f' as [|x f']; [done|]. cbn [length] in Hf'. lia.
Qed.

(** [s] is a well-formed string holding the bytes [c]. *)
Definition sds_rep (s : sds) (c : list Z) : Prop := exists t f, sds_ok t c f /\ s = sds_mk t c f.

(** Room for a string of [n] bytes is computed without overflow of size_t. *)
Definition fits (n : Z) : Prop := 2 * n + 2 ^ 20 + 18 < 2 ^ 64.

(** Overwriting the end of a string and its spare bytes: [a] is kept, [d] is
    written after it and terminated, and the length set, in any order. *)
Lemma overwrite_mk t a b f d :
  sds_ok t (a ++ b) f -> zlen d <= zlen b + zlen f ->
  exists f', sds_ok t (a ++ d) f' /\
  (s ← swrite (sds_mk t (a ++ b) f) (zlen a) d; s ← sset s (zlen a + zlen d) ch_nul;
   sdssetlen s (zlen a + zlen d)) = Some (sds_mk t (a ++ d) f') /\
  (s ← swrite (sds_mk t (a ++ b) f) (zlen a) d; s ← sdssetlen s (zlen a + zlen d);
   sset s (zlen a + zlen d) ch_nul) = Some (sds_mk t (a ++ d) f') /\
  (s ← swrite (sds_mk t (a ++ b) f) (zlen a) (d ++ [ch_nul]); sdssetlen s (zlen a + zlen d)) =
    Some (sds_mk t (a ++ d) f').
Proof.
  intros Hok Hd. destruct (sds_ok_len _ _ _ Hok) as (Ht & Hc & Hf).
  destruct (length_split_tail (b ++ ch_nul :: f) (length d)) as (u & v & E & Hu & Hv).
  { rewrite length_app. cbn [length]. lia. }
  assert (Hlen := f_equal (@length Z) E). rewrite !length_app in Hlen. cbn [length] in Hlen.
  destruct v as [|x f']; cbn [length] in Hlen; [lia|]. rewrite !length_app in Hc, Hf.
  assert (Hsum : zlen a + zlen d + zlen f' = zlen a + zlen b + zlen f) by lia.
  exists f'. unfold sds_ok. rewrite !length_app, !Nat2Z.inj_add. split; [split; [done|lia]|].
  unfold sds_mk. rewrite !length_app, !Nat2Z.inj_add, Hsum, <-!app_assoc, E.
  assert (HB : bset (a ++ d ++ x :: f') (zlen a + zlen d) (u8 ch_nul) = Some (a ++ d ++ ch_nul :: f')).
  { rewrite !app_assoc, bset_app by (rewrite length_app; lia). done. }
  rewrite !swrite_raw by (done || lia). rewrite bwrite_app by lia. cbn [mbind option_bind].
  split_and!.
  - rewrite sset_raw, HB by (done || lia). cbn [mbind option_bind]. apply sdssetlen_raw; [done|lia..].
  - rewrite sdssetlen_raw by (done || lia). cbn [mbind option_bind].
    by rewrite sset_raw, HB by (done || lia).
  - rewrite cons_middle, (app_assoc u), bwrite_app by (rewrite ?length_app; cbn [length]; lia). cbn [mbind option_bind].
    rewrite <-(app_assoc d). apply sdssetlen_raw; [done|lia..].
Qed.

Lemma append_mk t c f d :
  sds_ok t c f -> zlen d <= zlen f ->
  exists f', sds_ok t (c ++ d) f' /\
  (s ← swrite (sds_mk t c f) (zlen c) d; s ← sdssetlen s (zlen c + zlen d);
   sset s (zlen c + zlen d) ch_nul) = Some (sds_mk t (c ++ d) f') /\
  (s ← swrite (sds_mk t c f) (zlen c) (d ++ [ch_nul]); sdssetlen s (zlen c + zlen d)) =
    Some (sds_mk t (c ++ d) f').
Proof.
  rewrite <-(app_nil_r c) at 1. intros Hok Hd.
  destruct (overwrite_mk t c [] f d Hok) as (f' & Hok' & _ & H1 & H2); [simpl; lia|].
  rewrite (app_nil_r c) in H1, H2. by exists f'.
Qed.

Lemma sdscatlen_mk s c t0 n d :
  sds_rep s c -> bread t0 0 n = Some d -> fits (zlen c + n) ->
  exists s', sdscatlen junk s t0 n = Some s' /\ sds_rep s' (c ++ d).
Proof.
  intros (t & f & Hok & ->) Hr Hb. assert (Hd := bread_length _ _ _ _ Hr). unfold fits in Hb.
  unfold sdscatlen. rewrite sdslen_mk by done. cbn [mbind option_bind].
  destruct (sdsMakeRoomFor_mk t c f n Hok) as (t' & f' & -> & Hok' & Hf' & _); [lia..|].
  cbn [mbind option_bind]. rewrite Hr. cbn [mbind option_bind]. rewrite u64_small by lia.
  destruct (append_mk t' c f' d Hok') as (f'' & Hok'' & Hs & _); [lia|]. rewrite Hd in Hs.
  exists (sds_mk t' (c ++ d) f''). split; [exact Hs|by exists t', f''].
Qed.

Lemma sdscpylen_mk s c t0 n d :
  sds_rep s c -> bread t0 0 n = Some d -> fits (zlen c + n) ->
  exists s', sdscpylen junk s t0 n = Some s' /\ sds_rep s' d.
Proof.
  intros (t & f & Hok & ->) Hr Hb. assert (Hd := bread_length _ _ _ _ Hr). unfold fits in Hb.
  unfold sdscpylen. rewrite sdsalloc_mk by done. cbn [mbind option_bind].
  set (alloc := if t =? 0 then zlen c else zlen c + zlen f).
  assert (Hroom : exists t' f', (if alloc <? n then
       l ← sdslen (sds_mk t c f); sdsMakeRoomFor junk (sds_mk t c f) (u64 (n - l))
     else Some (sds_mk t c f)) = Some (sds_mk t' c f') /\ sds_ok t' c f' /\ n <= zlen c + zlen f').
  { destruct (Z.ltb_spec alloc n) as [Ha|Ha].
    - rewrite sdslen_mk by done. cbn [mbind option_bind].
      assert (zlen c <= alloc) by (unfold alloc; destruct (t =? 0); lia). rewrite u64_small by lia.
      destruct (sdsMakeRoomFor_mk t c f (n - zlen c) Hok) as (t' & f' & -> & ? & ? & _); [lia..|].
      exists t', f'. split_and!; [done..|lia].
    - exists t, f. split_and!; [done..|]. unfold alloc in Ha. destruct (t =? 0) in Ha; lia. }
  destruct Hroom as (t' & f' & -> & Hok' & Hn). cbn [mbind option_bind]. rewrite Hr. cbn [mbind option_bind].
  destruct (overwrite_mk t' [] c f' d Hok') as (f'' & Hok'' & Hs & _ & _); [lia|]. cbn [app length] in Hs.
  rewrite <-Hd. exists (sds_mk t' d f''). split; [exact Hs|by exists t', f''].
Qed.

Lemma sdsgrowzero_mk s c n :
  sds_rep s c -> 0 <= n -> fits n ->
  exists s', sdsgrowzero junk s n = Some s' /\ sds_rep s' (c ++ replicate (Z.to_nat (n - zlen c)) 0).
Proof.
  intros (t & f & Hok & ->) Hn Hb. unfold fits in Hb. unfold sdsgrowzero. rewrite sdslen_mk by done.
  cbn [mbind option_bind]. destruct (Z.leb_spec n (zlen c)) as [Hl|Hl].
  { replace (Z.to_nat (n - zlen c)) with O by lia. rewrite app_nil_r. eexists. split; [done|by exists t, f]. }
  rewrite !u64_small by lia.
  destruct (sdsMakeRoomFor_mk t c f (n - zlen c) Hok) as (t' & f' & -> & Hok' & Hf' & _); [lia..|].
  cbn [mbind option_bind].
  replace (Z.to_nat (n - zlen c + 1)) with (Z.to_nat (n - zlen c) + 1)%nat by lia. rewrite replicate_add.
  set (d := replicate (Z.to_nat (n - zlen c)) 0). assert (Hd : zlen d = n - zlen c) by (unfold d; rewrite length_replicate; lia).
  destruct (append_mk t' c f' d Hok') as (f'' & Hok'' & _ & Hs); [lia|].
  exists (sds_mk t' (c ++ d) f''). split; [|by exists t', f''].
  rewrite <-Hs. by replace (zlen c + zlen d) with n by lia.
Qed.

Lemma sdsclear_mk s c : sds_rep s c -> exists s', sdsclear s = Some s' /\ sds_rep s' [].
Proof.
  intros (t & f & Hok & ->). destruct (overwrite_mk t [] c f [] Hok) as (f' & Hok' & _ & Hs & _); [simpl; lia|].
  exists (sds_mk t [] f'). split; [|by exists t, f'].
  assert (Hw : swrite (sds_mk t c f) 0 [] = Some (sds_mk t c f)).
  { destruct Hok. unfold sds_mk. by rewrite swrite_raw, (bwrite_0 [] (c ++ ch_nul :: f)). }
  cbn [length app] in Hs. change (Z.of_nat 0) with 0 in Hs. rewrite Hw in Hs. exact Hs.
Qed.

Lemma sdsdup_mk s c :
  sds_rep s c -> fits (zlen c) -> exists s', sdsdup junk s = Some s' /\ sds_rep s' c.
Proof.
  intros (t & f & Hok & ->) Hb. unfold fits in Hb. unfold sdsdup. rewrite sdslen_mk, schars_mk by done. cbn [mbind option_bind].
  rewrite (sdsnewlen_copy _ _ c); [|lia|lia|by apply bread_0].
  eexists. split; [done|]. exists (newtype (zlen c)), []. split; [|done].
  destruct (newtype_spec (zlen c)); [lia|]. split; [done|]. simpl. lia.
Qed.

Lemma hdr_incr_len_raw t len alloc buf incr :
  type_ok t -> t <> 0 -> 0 <= len <= alloc -> alloc < type_max t -> -2 ^ 31 < incr < 2 ^ 31 ->
  0 <= len + incr <= alloc ->
  hdr_incr_len (type_width t) (raw t len alloc buf) incr = Some (raw t (len + incr) alloc buf, len + incr).
Proof.
  intros Ht H0 Hl Ha Hi Hs.
  destruct (hdr_read t len alloc buf Ht H0) as [Hr1 Hr2]; [lia..|].
  destruct (hdr_write t len alloc buf (len + incr) Ht H0) as [Hw _].
  unfold hdr_incr_len. rewrite Hr2. cbn [mbind option_bind]. rewrite Hr1. cbn [mbind option_bind].
  rewrite Hw. cbn [mbind option_bind].
  assert (Hmod : (len + incr) mod 2 ^ (8 * type_width t) = len + incr).
  { apply Z.mod_small. unfold type_max in Ha. rewrite (proj2 (Z.eqb_neq _ _) H0) in Ha. lia. }
  rewrite Hmod.
  assert (HT : (incr >=? 0) && ((if type_width t =? 4 then u32 (alloc - len)
      else if type_width t =? 8 then u64 (alloc - len) else alloc - len) >=? incr)
    || (incr <? 0) && (len >=? (if type_width t =? 8 then u64 (i32 (- incr)) else u32 (i32 (- incr)))) = true).
  { rewrite !Z.geb_leb. destruct (Z.leb_spec 0 incr) as [Hp|Hn].
    - replace (if type_width t =? 4 then _ else _) with (alloc - len); [by ztrue (incr <=? alloc - len)|].
      by_type Ht; try done; change (type_max 3) with 4294967296 in *; change (type_max 4) with 18446744073709551616 in *;
        unfold type_width; cbn [Z.eqb Pos.eqb]; symmetry; [apply u32_small|apply u64_small]; lia.
    - ztrue (incr <? 0). rewrite i32_small by lia.
      rewrite (u32_small (- incr)), (u64_small (- incr)) by lia. rewrite orb_comm. destruct (type_width t =? 8); by ztrue (- incr <=? len). }
  by rewrite HT.
Qed.

(** The new length of a block, and the terminator. *)
Lemma sdsIncrLen_raw t len alloc buf incr :
  type_ok t -> 0 <= len <= alloc -> alloc < type_max t -> -2 ^ 31 < incr < 2 ^ 31 -> incr <> 0 ->
  0 <= len + incr <= alloc ->
  sdsIncrLen (raw t len alloc buf) incr = b ← bset buf (len + incr) 0; Some (raw t (len + incr) alloc b).
Proof.
  intros Ht Hl Ha Hi H0 Hs. unfold sdsIncrLen.
  rewrite sget_flags by (done || lia). cbn [mbind option_bind].
  destruct (flags_type t len Ht) as [Hf Hlen]; [lia|]. rewrite Hf.
  assert (Hsel : (if t =? SDS_TYPE_5 then
       let oldlen := SDS_TYPE_5_LEN (if t =? 0 then 8 * len else t) in
       if ((incr >? 0) && (oldlen + incr <? 32)) || ((incr <? 0) && (oldlen >=? u32 (i32 (- incr))))
       then s ← sset (raw t len alloc buf) (-1) (Z.lor SDS_TYPE_5 (Z.shiftl (oldlen + incr) SDS_TYPE_BITS));
            Some (s, u64 (oldlen + incr))
       else None
     else hdr_incr_len (type_width t) (raw t len alloc buf) incr) = Some (raw t (len + incr) alloc buf, len + incr)).
  { destruct (decide (t = 0)) as [->|Ht0].
    - change (0 =? SDS_TYPE_5) with true. cbv iota zeta. rewrite Hlen by done. change (type_max 0) with 32 in *.
      assert (HT : (incr >? 0) && (len + incr <? 32) || (incr <? 0) && (len >=? u32 (i32 (- incr))) = true).
      { rewrite Z.gtb_ltb, Z.geb_leb. ztrue (len + incr <? 32). destruct (Z.ltb_spec 0 incr); [done|].
        ztrue (incr <? 0). rewrite i32_small, u32_small by lia. by ztrue (- incr <=? len). }
      rewrite HT. unfold raw, header. change (0 =? SDS_TYPE_5) with true. cbv iota. cbn [app].
      change (sdsHdrSize 0) with 1. rewrite sset_type5. cbn [mbind option_bind]. rewrite u64_small by lia.
      unfold SDS_TYPE_5, SDS_TYPE_BITS. rewrite Z.lor_0_l, Z.shiftl_mul_pow2 by lia. change (2 ^ 3) with 8.
      rewrite u8_small by lia. by replace ((len + incr) * 8) with (8 * (len + incr)) by lia.
    - rewrite (proj2 (Z.eqb_neq t SDS_TYPE_5)) by done. by apply hdr_incr_len_raw. }
  assert (HS := sset_raw t (len + incr) alloc buf (len + incr) 0 Ht ltac:(lia)).
  change (u8 0) with 0 in HS. rewrite <-HS.
  by_type Ht; cbn [Z.eqb Pos.eqb] in Hsel; unfold type_width in Hsel; cbn [Z.eqb Pos.eqb] in Hsel; by rewrite Hsel.
Qed.

(** Setting the length after writing into the spare bytes. *)
Lemma sdsIncrLen_grow t c d x f n :
  type_ok t -> n = zlen c + zlen d + zlen f -> n < type_max t -> 0 < zlen d < 2 ^ 31 ->
  sdsIncrLen (raw t (zlen c) n (c ++ d ++ x :: f)) (zlen d) = Some (sds_mk t (c ++ d) f).
Proof.
  intros Ht Hn Hm Hd. rewrite sdsIncrLen_raw by (done || lia).
  rewrite app_assoc, bset_app by (rewrite length_app; lia). cbn [mbind option_bind].
  unfold sds_mk. by rewrite length_app, Nat2Z.inj_add, Hn.
Qed.

Lemma sdsIncrLen_trim t c d f :
  sds_ok t (c ++ d) f -> 0 < zlen d < 2 ^ 31 ->
  exists f', sdsIncrLen (sds_mk t (c ++ d) f) (- zlen d) = Some (sds_mk t c f') /\ sds_ok t c f'.
Proof.
  intros Hok Hd. destruct (sds_ok_len _ _ _ Hok) as (Ht & Hc & Hf). destruct d as [|x d]; [cbn [length] in Hd; lia|].
  unfold sds_mk. rewrite length_app in Hc, Hf |- *. rewrite sdsIncrLen_raw by (done || lia).
  exists (d ++ ch_nul :: f). rewrite <-app_assoc. cbn [app].
  rewrite bset_app by (cbn [length]; lia). cbn [mbind option_bind length] in *.
  unfold sds_ok. rewrite length_app. cbn [length]. split; [|split; [done|lia]].
  do 2 f_equal; lia.
Qed.

Lemma sdsupdatelen_mk t a b f :
  sds_ok t (a ++ ch_nul :: b) f -> Forall (fun x => x <> 0) a -> zlen a < 2 ^ 31 ->
  sdsupdatelen (sds_mk t (a ++ ch_nul :: b) f) = Some (sds_mk t a (b ++ ch_nul :: f)).
Proof.
  intros Hok Ha Hl. destruct (sds_ok_len _ _ _ Hok) as (Ht & Hc & Hf).
  rewrite length_app in Hc, Hf. cbn [length] in Hc, Hf.
  unfold sdsupdatelen. rewrite schars_mk, <-app_assoc by done. cbn [app].
  assert (HL := strlen_app [] a (b ++ ch_nul :: f) 0 eq_refl Ha). cbn [app] in HL. rewrite HL.
  cbn [mbind option_bind]. rewrite i32_small, u64_small by lia. unfold sds_mk. rewrite length_app in *. cbn [length] in *.
  rewrite sdssetlen_raw by (done || lia). rewrite <-app_assoc, length_app. cbn [app length].
  do 2 f_equal. lia.
Qed.

(** Sequences of calls on one string. *)
Inductive sds_call :=
  | Catlen (d : list Z) | Cat (d : list Z) | Catsds (t : Z) (d f : list Z)
  | Cpylen (d : list Z) | Cpy (d : list Z) | Growzero (n : Z) | Clear
  | MakeRoomFor (n : Z) | RemoveFreeSpace | Dup.

Definition run_call (s : sds) (o : sds_call) : option sds :=
  match o with
  | Catlen d => sdscatlen junk s d (zlen d)
  | Cat d => sdscat junk s (d ++ [ch_nul])
  | Catsds t d f => sdscatsds junk s (sds_mk t d f)
  | Cpylen d => sdscpylen junk s d (zlen d)
  | Cpy d => sdscpy junk s (d ++ [ch_nul])
  | Growzero n => sdsgrowzero junk s n
  | Clear => sdsclear s
  | MakeRoomFor n => sdsMakeRoomFor junk s n
  | RemoveFreeSpace => sdsRemoveFreeSpace junk s
  | Dup => sdsdup junk s
  end.

Fixpoint run_calls (s : sds) (os : list sds_call) : option sds :=
  match os with
  | [] => Some s
  | o :: os => s ← run_call s o; run_calls s os
  end.

(** What a call does to the bytes of the string. *)
Definition call_bytes (c : list Z) (o : sds_call) : list Z :=
  match o with
  | Catlen d | Cat d | Catsds _ d _ => c ++ d
  | Cpylen d | Cpy d => d
  | Growzero n => c ++ replicate (Z.to_nat (n - zlen c)) 0
  | Clear => []
  | MakeRoomFor _ | RemoveFreeSpace | Dup => c
  end.

Definition call_cost (o : sds_call) : Z :=
  match o with
  | Catlen d | Cat d | Catsds _ d _ | Cpylen d | Cpy d => zlen d
  | Growzero n | MakeRoomFor n => n
  | _ => 0
  end.

(** C strings hold no NUL, sds arguments are well formed. *)
Definition call_ok (o : sds_call) : Prop :=
  0 <= call_cost o /\
  match o with
  | Cat d | Cpy d => Forall (fun x => x <> 0) d
  | Catsds t d f => sds_ok t d f
  | _ => True
  end.

Lemma strlen_cstr d : Forall (fun x => x <> 0) d -> strlen (d ++ [ch_nul]) 0 = Some (zlen d).
Proof. intros H. by apply (strlen_app [] d []). Qed.

Lemma run_call_bytes s c o :
  sds_rep s c -> call_ok o -> fits (zlen c + call_cost o) ->
  exists s', run_call s o = Some s' /\ sds_rep s' (call_bytes c o).
Proof.
  intros Hs [H0 Ho] Hb. assert (Hb' := Hb). unfold fits in Hb'. destruct o; cbn [run_call call_bytes call_cost] in *.
  - by apply sdscatlen_mk; [|apply bread_all|].
  - unfold sdscat. rewrite strlen_cstr by done. cbn [mbind option_bind].
    by apply sdscatlen_mk; [|apply bread_0|].
  - unfold sdscatsds. rewrite sdslen_mk, schars_mk by done. cbn [mbind option_bind].
    by apply sdscatlen_mk; [|apply bread_0|].
  - by eapply sdscpylen_mk; [|apply bread_all|].
  - unfold sdscpy. rewrite strlen_cstr by done. cbn [mbind option_bind].
    by eapply sdscpylen_mk; [|apply bread_0|].
  - apply sdsgrowzero_mk; [done|done|]. unfold fits. lia.
  - by eapply sdsclear_mk.
  - destruct Hs as (t & f & Hok & ->).
    destruct (sdsMakeRoomFor_mk t c f n Hok) as (t' & f' & -> & ? & _); [lia..|].
    eexists. split; [done|by exists t', f'].
  - destruct Hs as (t & f & Hok & ->). rewrite sdsRemoveFreeSpace_mk by (done || lia).
    eexists. split; [done|]. exists (sdsReqType (zlen c)), []. split; [|done].
    destruct (sdsReqType_spec (zlen c)); [lia|]. split; [done|]. simpl. lia.
  - apply sdsdup_mk; [done|]. unfold fits. lia.
Qed.

Lemma call_bytes_len c o : 0 <= call_cost o -> zlen (call_bytes c o) <= zlen c + call_cost o.
Proof.
  destruct o; cbn [call_bytes call_cost]; rewrite ?length_app, ?length_replicate; cbn [length]; lia.
Qed.

End Specs.

Section Theorems.
  Context (junk : Z -> Z).

(** C5. Every sequence of appends, copies, zero-extensions, clears, duplications
    and reservations runs inside its heap blocks and leaves a well-formed
    string whose bytes are those the calls ask for. *)
Theorem sds_refines_bytes os : forall s c,
  sds_rep s c -> Forall call_ok os ->
  fits (zlen c + foldr Z.add 0 (map call_cost os)) ->
  exists s', run_calls junk s os = Some s' /\ sds_rep s' (foldl call_bytes c os).
Proof.
  induction os as [|o os IH]; intros s c Hs Hc Hb; [by exists s|].
  apply Forall_cons_1 in Hc as [H0 Hc]. cbn [map foldr foldl run_calls] in *.
  assert (Hsum : 0 <= foldr Z.add 0 (map call_cost os)).
  { clear -Hc. induction Hc as [|o os [] ]; cbn [map foldr]; lia. }
  destruct (run_call_bytes junk s c o Hs H0) as (s1 & -> & Hs1); [unfold fits in *; lia|].
  apply IH; [done|done|]. assert (Hl := call_bytes_len c o (proj1 H0)). unfold fits in *. lia.
Qed.

(** C20. sdsMakeRoomFor keeps the bytes, leaves at least [n] bytes free, does
    nothing when they are free already (a type 5 string never knows it has
    spare bytes), and otherwise doubles the new length up to a mebibyte, with
    the header type that length needs, never type 5. *)
Theorem sdsMakeRoomFor_correct t c f n :
  sds_ok t c f -> 0 <= n -> fits (zlen c + n) ->
  exists t' f', sdsMakeRoomFor junk (sds_mk t c f) n = Some (sds_mk t' c f') /\ sds_ok t' c f' /\
    n <= zlen f' /\
    (if (if t =? 0 then 0 else zlen f) >=? n then t' = t /\ f' = f
     else t' = room_type (room_for (zlen c + n)) /\ zlen c + zlen f' = room_for (zlen c + n)).
Proof. intros Hok Hn Hb. by apply sdsMakeRoomFor_mk. Qed.

(** C29. Bytes written over the terminator and the spare bytes are appended by
    sdsIncrLen, which terminates the string again; a negative increment trims
    the string. *)
Theorem sdsIncrLen_correct t c d f :
  0 < zlen d < 2 ^ 31 -> sds_ok t (c ++ d) f ->
  (forall x, sdsIncrLen (raw t (zlen c) (zlen (c ++ d) + zlen f) (c ++ d ++ x :: f)) (zlen d) =
    Some (sds_mk t (c ++ d) f)) /\
  (exists f', sdsIncrLen (sds_mk t (c ++ d) f) (- zlen d) = Some (sds_mk t c f') /\ sds_ok t c f').
Proof.
  intros Hd Hok. split; [|by apply sdsIncrLen_trim].
  intros x. rewrite length_app. destruct Hok as [Ht Hm]. rewrite length_app in Hm.
  apply sdsIncrLen_grow; [done|lia..].
Qed.

(** C30. A new string holds the bytes it is made from, zeros for a NULL pointer,
    in a block just large enough. *)
Theorem sdsnewlen_correct t n :
  0 <= n -> n + 18 < 2 ^ 64 ->
  (forall c, bread t 0 n = Some c ->
    sdsnewlen junk (Some t) n = Some (sds_mk (newtype n) c []) /\ sds_ok (newtype n) c []) /\
  sdsnewlen junk None n = Some (sds_mk (newtype n) (replicate (Z.to_nat n) 0) []).
Proof.
  intros Hn Hb. split; [|by apply sdsnewlen_null]. intros c Hr. split; [by apply sdsnewlen_copy|].
  destruct (newtype_spec n) as [Ht Hm]; [lia|]. apply bread_length in Hr. split; [done|]. simpl. lia.
Qed.
End Theorems.

(** "hi" in a string of type 8 with two spare bytes. *)
Definition hi_sds : sds := sds_mk 1 [104; 105] [0; 0].

Lemma hi_ok : sds_ok 1 [104; 105] [0; 0].
Proof. by vm_compute; auto. Qed.
Lemma hi_rep : sds_rep hi_sds [104; 105].
Proof. exists 1, [0; 0]. split; [apply hi_ok|done]. Qed.

Lemma sds_refines_bytes_witness :
  let os := [Catlen [33]; Growzero 5; RemoveFreeSpace; Cat [97]; Dup; MakeRoomFor 1000] in
  exists s', run_calls (fun _ => 0) hi_sds os = Some s' /\ sds_rep s' (foldl call_bytes [104; 105] os).
Proof.
  intros os. apply sds_refines_bytes; [apply hi_rep| |by vm_compute].
  repeat constructor; done.
Defined.

Lemma sdsMakeRoomFor_correct_witness :
  exists t' f', sdsMakeRoomFor (fun _ => 0) (sds_mk 1 [104; 105] [0; 0]) 300 = Some (sds_mk t' [104; 105] f') /\
    sds_ok t' [104; 105] f' /\ 300 <= zlen f' /\
    (if (if 1 =? 0 then 0 else zlen [0; 0]) >=? 300 then t' = 1 /\ f' = [0; 0]
     else t' = room_type (room_for (zlen [104; 105] + 300)) /\ zlen [104; 105] + zlen f' = room_for (zlen [104; 105] + 300)).
Proof. apply sdsMakeRoomFor_correct; [apply hi_ok|lia|by vm_compute]. Defined.

Lemma sdsIncrLen_correct_witness :
  (forall x, sdsIncrLen (raw 1 (zlen [104]) (zlen ([104] ++ [105]) + zlen [0; 0]) ([104] ++ [105] ++ x :: [0; 0])) (zlen [105]) =
    Some (sds_mk 1 ([104] ++ [105]) [0; 0])) /\
  (exists f', sdsIncrLen (sds_mk 1 ([104] ++ [105]) [0; 0]) (- zlen [105]) = Some (sds_mk 1 [104] f') /\ sds_ok 1 [104] f').
Proof. apply sdsIncrLen_correct; [simpl; lia|apply hi_ok]. Defined.

Lemma sdsnewlen_correct_witness :
  (forall c, bread [104; 105; 0] 0 2 = Some c ->
    sdsnewlen (fun _ => 0) (Some [104; 105; 0]) 2 = Some (sds_mk (newtype 2) c []) /\ sds_ok (newtype 2) c []) /\
  sdsnewlen (fun _ => 0) None 2 = Some (sds_mk (newtype 2) (replicate (Z.to_nat 2) 0) []).
Proof. apply sdsnewlen_correct; lia. Defined.
