(* ===== verification/SdsString.v ===== *)
(** sds.c, the string side: printing numbers, trimming, ranges, case,
    comparison, splitting and joining, printf and the quoted representation.

    A C string argument is the memory from its first character on, its
    terminator included.  Loops that the source bounds by pointers run on
    fuel; [None] stands for an access outside a buffer or exhausted fuel, and
    each specification says that neither happens. *)

From Stdlib Require Import String.
From S2P Require Import Prelude Decimal Sds.
#[local] Open Scope Z_scope.

(** ** Numbers *)

(** do { *p++ = '0'+(v%10); v /= 10; } while(v) *)
Fixpoint llstr_digits (fuel : nat) (s : list Z) (p v : Z) : option (list Z * Z) :=
  match fuel with
  | O => None
  | S fuel =>
      s ← bset s p (ch_0 + v mod 10);
      let v := v / 10 in
      if v =? 0 then Some (s, p + 1) else llstr_digits fuel s (p + 1) v
  end.

(** Reversal in place of the characters between the pointers [s] and [p]. *)
Fixpoint llstr_reverse (fuel : nat) (b : list Z) (s p : Z) : option (list Z) :=
  if s <? p then
    match fuel with
    | O => None
    | S fuel =>
        aux ← bget b s;
        x ← bget b p;
        b ← bset b s x;
        b ← bset b p aux;
        llstr_reverse fuel b (s + 1) (p - 1)
    end
  else Some b.

Definition SDS_LLSTR_SIZE : Z := 21.

(** For LLONG_MIN the negation [-value] overflows, which C leaves undefined; [i64]
    is what two's complement hardware gives, and what the code needs. *)
Definition sdsll2str (s : list Z) (value : Z) : option (list Z * Z) :=
  let v := if value <? 0 then u64 (i64 (- value)) else value in
  '(s, p) ← llstr_digits 20 s 0 v;
  '(s, p) ← (if value <? 0 then s ← bset s p ch_minus; Some (s, p + 1) else Some (s, p));
  let l := p in
  s ← bset s p ch_nul;
  s ← llstr_reverse (Z.to_nat l) s 0 (p - 1);
  Some (s, l).

Definition sdsull2str (s : list Z) (v : Z) : option (list Z * Z) :=
  '(s, p) ← llstr_digits 20 s 0 v;
  let l := p in
  s ← bset s p ch_nul;
  s ← llstr_reverse (Z.to_nat l) s 0 (p - 1);
  Some (s, l).

(** ** Trimming and ranges *)

(** strchr(cset, c) != NULL; the terminator is part of the string. *)
Fixpoint strchr (cset : list Z) (c : Z) : option bool :=
  match cset with
  | [] => None
  | x :: cset => if x =? c then Some true else if x =? 0 then Some false else strchr cset c
  end.

Fixpoint trim_left (fuel : nat) (s : sds) (cset : list Z) (sp end_ : Z) : option Z :=
  if sp <=? end_ then
    c ← sget s sp;
    b ← strchr cset c;
    if (b : bool) then
      match fuel with O => None | S fuel => trim_left fuel s cset (sp + 1) end_ end
    else Some sp
  else Some sp.

Fixpoint trim_right (fuel : nat) (s : sds) (cset : list Z) (sp ep : Z) : option Z :=
  if ep >? sp then
    c ← sget s ep;
    b ← strchr cset c;
    if (b : bool) then
      match fuel with O => None | S fuel => trim_right fuel s cset sp (ep - 1) end
    else Some ep
  else Some ep.

Definition sdstrim (s : sds) (cset : list Z) : option sds :=
  l ← sdslen s;
  let end_ := l - 1 in
  sp ← trim_left (Z.to_nat l) s cset 0 end_;
  ep ← trim_right (Z.to_nat l) s cset sp end_;
  let len := if sp >? ep then 0 else ep - sp + 1 in
  s ← (if negb (sp =? 0) then bs ← sread s sp len; swrite s 0 bs else Some s);
  s ← sset s len ch_nul;
  sdssetlen s len.

(** The indexes are ints; [start = len+start] is computed in size_t and
    converted back.  For start 0 and end INT_MAX the int sum [(end-start)+1]
    overflows, which C leaves undefined; [i32] is the wrap-around of the
    machine (the sum is computed again once end was cut to the length). *)
Definition sdsrange (s : sds) (start end_ : Z) : option sds :=
  len ← sdslen s;
  if len =? 0 then Some s else
  let start := if start <? 0 then let st := i32 (u64 (len + start)) in if st <? 0 then 0 else st else start in
  let end_ := if end_ <? 0 then let e := i32 (u64 (len + end_)) in if e <? 0 then 0 else e else end_ in
  let newlen := if start >? end_ then 0 else u64 (i32 (end_ - start + 1)) in
  let '(start, newlen) :=
    if negb (newlen =? 0) then
      if start >=? i32 len then (start, 0)
      else if end_ >=? i32 len then
        let end_ := i32 (u64 (len - 1)) in
        (start, if start >? end_ then 0 else u64 (i32 (end_ - start + 1)))
      else (start, newlen)
    else (0, newlen) in
  s ← (if negb (start =? 0) && negb (newlen =? 0) then bs ← sread s start newlen; swrite s 0 bs else Some s);
  s ← sset s newlen ch_nul;
  sdssetlen s newlen.

(** ** Case and comparison *)

(** for (j = 0; j < len; j++) s[j] = f(s[j]) on chars. *)
Fixpoint map_chars (f : Z -> Z) (n : nat) (s : sds) (j : Z) : option sds :=
  match n with
  | O => Some s
  | S n => c ← sget s j; s ← sset s j (u8 (f (i8 c))); map_chars f n s (j + 1)
  end.

Definition sdstolower (s : sds) : option sds := len ← sdslen s; map_chars tolower (Z.to_nat (i32 len)) s 0.
Definition sdstoupper (s : sds) : option sds := len ← sdslen s; map_chars toupper (Z.to_nat (i32 len)) s 0.

(** memcmp: the difference of the first bytes that differ. *)
Fixpoint memcmp_list (a b : list Z) : Z :=
  match a, b with
  | x :: a, y :: b => if x =? y then memcmp_list a b else x - y
  | _, _ => 0
  end.
Definition memcmp (a b : list Z) (n : Z) : option Z :=
  x ← bread a 0 n; y ← bread b 0 n; Some (memcmp_list x y).

Definition sdscmp (s1 s2 : sds) : option Z :=
  l1 ← sdslen s1;
  l2 ← sdslen s2;
  let minlen := if l1 <? l2 then l1 else l2 in
  cmp ← memcmp (schars s1) (schars s2) minlen;
  Some (if cmp =? 0 then i32 (u64 (l1 - l2)) else cmp).

Fixpoint mapchars_find (c : Z) (from to : list Z) (n : nat) (i : Z) : option (option Z) :=
  match n with
  | O => Some None
  | S n => x ← bget from i;
           if c =? x then y ← bget to i; Some (Some y) else mapchars_find c from to n (i + 1)
  end.
Fixpoint mapchars_loop (n : nat) (s : sds) (from to : list Z) (setlen j : Z) : option sds :=
  match n with
  | O => Some s
  | S n =>
      c ← sget s j;
      r ← mapchars_find c from to (Z.to_nat setlen) 0;
      s ← (match r with Some y => sset s j y | None => Some s end);
      mapchars_loop n s from to setlen (j + 1)
  end.
Definition sdsmapchars (s : sds) (from to : list Z) (setlen : Z) : option sds :=
  l ← sdslen s; mapchars_loop (Z.to_nat l) s from to setlen 0.

Section SdsString.
  Context (junk : Z -> Z).

Definition sdsfromlonglong (value : Z) : option sds :=
  '(buf, len) ← sdsll2str (s_malloc junk SDS_LLSTR_SIZE) value;
  sdsnewlen junk (Some buf) len.

(** ** Splitting and joining *)

(** The array of tokens: its capacity and the tokens stored so far. *)
Definition put_token (slots : Z) (tokens : list sds) (t : sds) : option (list sds) :=
  if zlen tokens <? slots then Some (tokens ++ [t]) else None.

Fixpoint split_loop (fuel : nat) (s : list Z) (len : Z) (sep : list Z) (seplen slots start j : Z)
    (tokens : list sds) : option (Z * Z * list sds) :=
  if j <? len - (seplen - 1) then
    match fuel with
    | O => None
    | S fuel =>
        let slots := if slots <? zlen tokens + 2 then i32 (slots * 2) else slots in
        c ← bget s j;
        c0 ← bget sep 0;
        found ← (if (seplen =? 1) && (c =? c0) then Some true
                 else m ← memcmp (drop (Z.to_nat j) s) sep seplen; Some (m =? 0));
        if (found : bool) then
          t ← sdsnewlen junk (Some (drop (Z.to_nat start) s)) (j - start);
          tokens ← put_token slots tokens t;
          split_loop fuel s len sep seplen slots (j + seplen) (j + seplen - 1 + 1) tokens
        else split_loop fuel s len sep seplen slots start (j + 1) tokens
    end
  else Some (slots, start, tokens).

(** [Some None] is the NULL result for bad lengths. *)
Definition sdssplitlen (s : list Z) (len : Z) (sep : list Z) (seplen : Z) : option (option (list sds)) :=
  if (seplen <? 1) || (len <? 0) then Some None else
  if len =? 0 then Some (Some []) else
  '(slots, start, tokens) ← split_loop (Z.to_nat len) s len sep seplen 5 0 0 [];
  t ← sdsnewlen junk (Some (drop (Z.to_nat start) s)) (len - start);
  tokens ← put_token slots tokens t;
  Some (Some tokens).

Fixpoint join_loop (join : sds) (argv : list (list Z)) (sep : list Z) : option sds :=
  match argv with
  | [] => Some join
  | a :: argv =>
      join ← sdscat junk join a;
      join ← (match argv with [] => Some join | _ => sdscat junk join sep end);
      join_loop join argv sep
  end.
Definition sdsjoin (argv : list (list Z)) (sep : list Z) : option sds :=
  join ← sdsempty junk; join_loop join argv sep.

Fixpoint joinsds_loop (join : sds) (argv : list sds) (sep : list Z) (seplen : Z) : option sds :=
  match argv with
  | [] => Some join
  | a :: argv =>
      join ← sdscatsds junk join a;
      join ← (match argv with [] => Some join | _ => sdscatlen junk join sep seplen end);
      joinsds_loop join argv sep seplen
  end.
Definition sdsjoinsds (argv : list sds) (sep : list Z) (seplen : Z) : option sds :=
  join ← sdsempty junk; joinsds_loop join argv sep seplen.

(** ** printf *)

(** vsnprintf(buf, buflen, ...) of a format whose output is [out]. *)
Definition vsnprintf (buf : list Z) (buflen : Z) (out : list Z) : option (list Z) :=
  bwrite buf 0 (take (Z.to_nat (buflen - 1)) out ++ [ch_nul]).

Fixpoint catvprintf_loop (fuel : nat) (buf : list Z) (buflen : Z) (out : list Z) : option (list Z) :=
  match fuel with
  | O => None
  | S fuel =>
      buf ← bset buf (buflen - 2) ch_nul;
      buf ← vsnprintf buf buflen out;
      c ← bget buf (buflen - 2);
      if negb (c =? 0) then
        let buflen := u64 (buflen * 2) in catvprintf_loop fuel (s_malloc junk buflen) buflen out
      else Some buf
  end.

(** [fmtlen] is the length of the format, [out] what it prints; buflen is a
    size_t, which wraps around. *)
Definition sdscatvprintf (s : sds) (fmtlen : Z) (out : list Z) : option sds :=
  let buflen := u64 (fmtlen * 2) in
  let buflen := if buflen >? 1024 then buflen else 1024 in
  buf ← catvprintf_loop 64 (s_malloc junk buflen) buflen out;
  sdscat junk s buf.

(** ** Quoted representation *)

Definition hexdigit (d : Z) : Z := if d <? 10 then ch_0 + d else 97 + (d - 10).

Fixpoint repr_loop (n : nat) (s : sds) (p : list Z) (i : Z) : option sds :=
  match n with
  | O => Some s
  | S n =>
      c ← bget p i;
      s ← (if (c =? ch_bslash) || (c =? ch_dquote) then sdscatvprintf s 3 [ch_bslash; c]
           else if c =? 10 then sdscatlen junk s (str "\n") 2
           else if c =? 13 then sdscatlen junk s (str "\r") 2
           else if c =? 9 then sdscatlen junk s (str "\t") 2
           else if c =? 7 then sdscatlen junk s (str "\a") 2
           else if c =? 8 then sdscatlen junk s (str "\b") 2
           else if isprint (i8 c) then sdscatvprintf s 2 [c]
           else sdscatvprintf s 6 [ch_bslash; 120; hexdigit (c / 16); hexdigit (c mod 16)]);
      repr_loop n s p (i + 1)
  end.

Definition sdscatrepr (s : sds) (p : list Z) (len : Z) : option sds :=
  s ← sdscatlen junk s [ch_dquote] 1;
  s ← repr_loop (Z.to_nat len) s p 0;
  sdscatlen junk s [ch_dquote] 1.

End SdsString.

(** ** Numbers are printed in canonical decimal notation *)

Lemma llstr_digits_spec fuel : forall pre (mid : list Z) post v ds,
  is_dec ds v -> length mid = length ds -> (length ds <= fuel)%nat ->
  llstr_digits fuel (pre ++ mid ++ post) (zlen pre) v = Some (pre ++ reverse ds ++ post, zlen pre + zlen ds).
Proof.
  induction fuel as [|fuel IH]; intros pre mid post v ds Hd Hl Hf.
  { apply is_dec_nonempty in Hd. lia. }
  assert (Hv := is_dec_nonneg _ _ Hd). cbn [llstr_digits].
  destruct mid as [|x mid]; [apply is_dec_nonempty in Hd; simpl in Hl; lia|].
  cbn [app]. rewrite bset_app by done. cbn [mbind option_bind].
  destruct (Z.lt_ge_cases v 10) as [Hs|Hs].
  - assert (ds = [ch_0 + v]) as -> by (eapply is_dec_inj; [done|]; by apply is_dec_digit).
    ztrue (v / 10 =? 0). cbn [length] in *. destruct mid; [|simpl in Hl; lia].
    rewrite Z.mod_small by lia. done.
  - destruct (is_dec_unsnoc _ _ Hd Hs) as (t & -> & Ht). rewrite length_app in *. cbn [length] in *.
    zfalse (v / 10 =? 0).
    replace (pre ++ ch_0 + v mod 10 :: mid ++ post) with ((pre ++ [ch_0 + v mod 10]) ++ mid ++ post)
      by by rewrite <-app_assoc.
    replace (zlen pre + 1) with (zlen (pre ++ [ch_0 + v mod 10])) by (rewrite length_app; simpl; lia).
    rewrite (IH _ _ _ _ t) by (done || lia). rewrite reverse_app, <-!app_assoc, length_app. simpl.
    fpair.
Qed.

Lemma llstr_reverse_spec fuel : forall pre mid post,
  (length mid <= fuel)%nat ->
  llstr_reverse fuel (pre ++ mid ++ post) (zlen pre) (zlen pre + zlen mid - 1) = Some (pre ++ reverse mid ++ post).
Proof.
  induction fuel as [|fuel IH]; intros pre mid post Hf.
  { destruct mid; [|simpl in Hf; lia]. cbn [llstr_reverse length]. by zfalse (zlen pre <? zlen pre + Z.of_nat 0 - 1). }
  destruct mid as [|x mid]; cbn [llstr_reverse]; [cbn [length]; by zfalse (zlen pre <? zlen pre + Z.of_nat 0 - 1)|].
  destruct mid as [|y mid _] using rev_ind; [cbn [length]; by zfalse (zlen pre <? zlen pre + Z.of_nat 1 - 1)|].
  cbn [length] in *. rewrite length_app in *. cbn [length] in *.
  ztrue (zlen pre <? zlen pre + Z.of_nat (S (length mid + 1)) - 1).
  cbn [app]. rewrite bget_mid. cbn [mbind option_bind].
  assert (HR : forall a, pre ++ a :: (mid ++ [y]) ++ post = (pre ++ a :: mid) ++ y :: post).
  { intros a. rewrite <-!app_assoc. by rewrite <-app_comm_cons. }
  assert (HL : forall a, zlen pre + Z.of_nat (S (length mid + 1)) - 1 = zlen (pre ++ a :: mid)).
  { intros a. rewrite length_app. cbn [length]. lia. }
  rewrite HR, (HL x), bget_mid. cbn [mbind option_bind].
  rewrite <-HR, bset_app by done. cbn [mbind option_bind]. rewrite HR.
  rewrite bset_app by (rewrite !length_app; cbn [length]; lia). cbn [mbind option_bind].
  specialize (IH (pre ++ [y]) mid (x :: post) ltac:(lia)). rewrite length_app in IH. cbn [length] in IH.
  rewrite <-!app_assoc in IH |- *. cbn [app] in IH |- *.
  replace (zlen pre + 1) with (Z.of_nat (length pre + 1)) by lia.
  replace (zlen (pre ++ x :: mid) - 1) with (Z.of_nat (length pre + 1) + zlen mid - 1)
    by (rewrite length_app; cbn [length]; lia).
  rewrite IH, reverse_cons, reverse_app, reverse_singleton. by rewrite <-!app_assoc.
Qed.

Lemma llstr_finish ds (mid : list Z) x post :
  length mid = length ds ->
  (s ← bset (reverse ds ++ x :: post) (zlen ds) ch_nul;
   s ← llstr_reverse (Z.to_nat (zlen ds)) s 0 (zlen ds - 1); Some (s, zlen ds)) =
    Some (ds ++ ch_nul :: post, zlen ds).
Proof.
  intros Hm. rewrite bset_app by (by rewrite length_reverse). cbn [mbind option_bind].
  assert (HR := llstr_reverse_spec (Z.to_nat (zlen ds)) [] (reverse ds) (ch_nul :: post)).
  rewrite length_reverse in HR. cbn [app length] in HR. change (Z.of_nat 0) with 0 in HR.
  rewrite Z.add_0_l in HR. rewrite HR by lia. cbn [mbind option_bind]. by rewrite reverse_involutive.
Qed.

Lemma sdsull2str_spec v ds (mid : list Z) x post :
  in_u64 v -> is_dec ds v -> length mid = length ds ->
  sdsull2str (mid ++ x :: post) v = Some (ds ++ ch_nul :: post, zlen ds).
Proof.
  intros Hv Hd Hm. unfold sdsull2str.
  assert (HD := llstr_digits_spec 20 [] mid (x :: post) v ds Hd Hm (is_dec_u64_len20 _ _ Hd Hv)).
  cbn [app length] in HD. change (Z.of_nat 0) with 0 in HD. rewrite HD. cbn [mbind option_bind].
  by apply (llstr_finish ds mid).
Qed.

Lemma sdsll2str_spec v s (mid : list Z) x post :
  in_i64 v -> is_sdec s v -> length mid = length s ->
  sdsll2str (mid ++ x :: post) v = Some (s ++ ch_nul :: post, zlen s).
Proof.
  intros Hv Hs Hm. unfold sdsll2str. destruct Hs as [[H0 Hd]|(H0 & ds & -> & Hd)].
  - zfalse (v <? 0). apply (sdsull2str_spec v); [mlia|done|done].
  - ztrue (v <? 0). replace (u64 (i64 (- v))) with (- v) by mlia.
    cbn [length] in Hm. destruct (length_split_tail mid (length ds)) as (m & y & -> & Hm' & Hy); [lia|].
    destruct y as [|y [|]]; cbn [length] in Hy; try lia. rewrite <-app_assoc. cbn [app].
    assert (HD := llstr_digits_spec 20 [] m (y :: x :: post) (- v) ds Hd Hm' (is_dec_u64_len20 _ _ Hd ltac:(mlia))).
    cbn [app length] in HD. change (Z.of_nat 0) with 0 in HD. rewrite HD. cbn [mbind option_bind].
    rewrite Z.add_0_l, bset_app by (by rewrite length_reverse). cbn [mbind option_bind].
    assert (HF := llstr_finish (ch_minus :: ds) (ch_minus :: ds) x post eq_refl).
    rewrite reverse_cons, <-app_assoc in HF. cbn [app length] in HF.
    replace (zlen ds + 1) with (Z.of_nat (S (length ds))) by lia. exact HF.
Qed.

(** ** Trimming and ranges keep a slice *)

Lemma sget_raw t len alloc buf i : type_ok t -> 0 <= i -> sget (raw t len alloc buf) i = bget buf i.
Proof.
  intros Ht Hi. unfold sget, raw. cbn [blk ptr]. rewrite <-(header_length t len alloc) by done.
  rewrite !bget_lookup by lia. rewrite lookup_app_r by lia. f_equal. lia.
Qed.

Lemma sget_mk t c f i x : sds_ok t c f -> c !! i = Some x -> sget (sds_mk t c f) (Z.of_nat i) = Some x.
Proof.
  intros [Ht _] Hx. unfold sds_mk. rewrite sget_raw by (done || lia). rewrite bget_lookup by lia.
  rewrite Nat2Z.id. by apply lookup_app_l_Some.
Qed.

Lemma sread_mk t c f off n :
  sds_ok t c f -> 0 <= off -> sread (sds_mk t c f) off n = bread (c ++ ch_nul :: f) off n.
Proof. intros [Ht _] Hoff. by apply sread_raw. Qed.

Lemma bwrite_same b m : bread b 0 (zlen m) = Some m -> bwrite b 0 m = Some b.
Proof.
  intros Hr. assert (exists post, b = m ++ post) as [post ->].
  { unfold bread in Hr. destruct (_ && _); [|done]. injection Hr as Hr.
    exists (drop (length m) b). rewrite <-Hr at 1. by rewrite Nat2Z.id, take_drop. }
  by rewrite bwrite_0.
Qed.

(** Moving a slice to the front of the string and cutting the string there. *)
Lemma shift_mk t c f sp m (move : bool) :
  sds_ok t c f -> 0 <= sp -> sread (sds_mk t c f) sp (zlen m) = Some m -> zlen m <= zlen c ->
  (move = false -> sp = 0 \/ m = []) ->
  exists f', sds_ok t m f' /\
  (s ← (if move then bs ← sread (sds_mk t c f) sp (zlen m); swrite (sds_mk t c f) 0 bs else Some (sds_mk t c f));
   s ← sset s (zlen m) ch_nul; sdssetlen s (zlen m)) = Some (sds_mk t m f').
Proof.
  intros Hok Hsp Hr Hm Hmove.
  destruct (overwrite_mk t [] c f m Hok) as (f' & Hok' & Hs & _); [lia|].
  exists f'. split; [done|]. cbn [app length] in Hs. change (Z.of_nat 0) with 0 in Hs. rewrite Z.add_0_l in Hs.
  rewrite <-Hs. destruct move.
  - rewrite Hr. done.
  - cbn [mbind option_bind]. unfold sds_mk. rewrite swrite_raw by (destruct Hok; done || lia).
    rewrite bwrite_same; [done|]. rewrite <-sread_mk with (t := t) by (done || lia).
    destruct (Hmove eq_refl) as [-> | ->]; [done|]. rewrite sread_mk by (done || lia).
    by apply (bread_0 [] (c ++ ch_nul :: f)).
Qed.

Definition in_cset (cs : list Z) (c : Z) : bool := bool_decide (c = 0 \/ c ∈ cs).

Lemma strchr_spec cs post c :
  Forall (fun x => x <> 0) cs -> strchr (cs ++ ch_nul :: post) c = Some (in_cset cs c).
Proof.
  unfold in_cset. induction 1 as [|x cs Hx Hcs IH]; cbn [app strchr].
  - destruct (Z.eqb_spec 0 c) as [<-|Hc]; [done|]. cbn. f_equal. symmetry.
    apply bool_decide_eq_false_2. intros [?|H]; [done|]. by apply elem_of_nil in H.
  - destruct (Z.eqb_spec x c) as [->|Hc].
    + f_equal. symmetry. apply bool_decide_eq_true_2. right. left.
    + rewrite (proj2 (Z.eqb_neq x 0)) by done. rewrite IH. f_equal. apply bool_decide_ext.
      rewrite elem_of_cons. intuition congruence.
Qed.

Fixpoint drop_while (P : Z -> bool) (l : list Z) : list Z :=
  match l with
  | [] => []
  | x :: l' => if P x then drop_while P l' else l
  end.

(** [l] without the characters of [P] at either end. *)
Definition trim (P : Z -> bool) (l : list Z) : list Z :=
  reverse (drop_while P (reverse (drop_while P l))).

Lemma drop_while_split P l :
  exists a, l = a ++ drop_while P l /\ Forall (fun x => P x = true) a /\
    (drop_while P l = [] \/ exists x m, drop_while P l = x :: m /\ P x = false).
Proof.
  induction l as [|x l (a & Hl & Ha & Hd)]; [exists []; eauto|]. cbn [drop_while].
  destruct (P x) eqn:E.
  - exists (x :: a). cbn [app]. rewrite <-Hl. auto.
  - exists []. split; [done|]. split; [done|]. right. by exists x, l.
Qed.

(** The ends that are dropped, and what is left. *)
Lemma trim_split P l :
  exists a b, l = a ++ trim P l ++ b /\ Forall (fun x => P x = true) a /\ Forall (fun x => P x = true) b /\
    ((trim P l = [] /\ b = []) \/
     (exists x m, trim P l = x :: m /\ P x = false) /\ (exists m y, trim P l = m ++ [y] /\ P y = false)).
Proof.
  destruct (drop_while_split P l) as (a & Hl & Ha & Hd).
  destruct (drop_while_split P (reverse (drop_while P l))) as (b & Hr & Hb & Hd').
  unfold trim. set (m := drop_while P (reverse (drop_while P l))) in *.
  apply (f_equal reverse) in Hr. rewrite reverse_involutive, reverse_app in Hr.
  exists a, (reverse b). rewrite <-Hr. split; [done|]. split; [done|]. split; [by apply Forall_reverse|].
  destruct Hd as [Hd|(x & m0 & Hd & Hx)].
  - left. rewrite Hd in Hr. symmetry in Hr. apply app_eq_nil in Hr as [-> ->]. done.
  - right. destruct Hd' as [Hd'|(y & m1 & Hd' & Hy)].
    { rewrite Hd' in Hr. cbn in Hr. rewrite Hd in Hr.
      assert (P x = true) as Hx'; [|congruence].
      apply (Forall_reverse (fun x => P x = true)) in Hb. rewrite <-Hr in Hb. by apply Forall_cons_1 in Hb as [? _]. }
    rewrite Hd', reverse_cons. split; [|by exists (reverse m1), y].
    rewrite Hd', reverse_cons, Hd in Hr.
    destruct (reverse m1) as [|z r] eqn:Em; cbn [app] in *; injection Hr as -> _; eauto.
Qed.

Section Trim.
  Context (cs post : list Z) (Hcs : Forall (fun x => x <> 0) cs).
  Context (t : Z) (c f : list Z) (Hok : sds_ok t c f).
Let cset := cs ++ ch_nul :: post.
Let s := sds_mk t c f.

Lemma char_test i x :
  c !! i = Some x -> forall A (k : bool -> option A),
  (c0 ← sget s (Z.of_nat i); b ← strchr cset c0; k b) = k (in_cset cs x).
Proof.
  intros Hx A k. unfold s, cset. rewrite (sget_mk _ _ _ _ x) by done. cbn [mbind option_bind].
  by rewrite strchr_spec.
Qed.

Lemma trim_left_stop fuel u w :
  c = u ++ w -> (w = [] \/ exists x m, w = x :: m /\ in_cset cs x = false) ->
  trim_left fuel s cset (zlen u) (zlen c - 1) = Some (zlen u).
Proof.
  intros Hc Hw. destruct Hw as [->|(x & m & -> & Hx)].
  - rewrite app_nil_r in Hc. subst c. destruct fuel; cbn [trim_left]; by zfalse (zlen u <=? zlen u - 1).
  - assert (zlen u <= zlen c - 1) by (subst c; rewrite length_app; simpl; lia).
    destruct fuel; cbn [trim_left]; ztrue (zlen u <=? zlen c - 1);
      rewrite (char_test (length u) x), Hx by (subst c; by apply list_lookup_middle); done.
Qed.

Lemma trim_left_spec fuel : forall u v w,
  c = u ++ v ++ w -> Forall (fun x => in_cset cs x = true) v ->
  (w = [] \/ exists x m, w = x :: m /\ in_cset cs x = false) -> (length v <= fuel)%nat ->
  trim_left fuel s cset (zlen u) (zlen c - 1) = Some (zlen u + zlen v).
Proof.
  induction fuel as [|fuel IH]; intros u v w Hc Hv Hw Hf.
  - destruct v; [|simpl in Hf; lia]. rewrite (trim_left_stop _ _ w) by done. cbn [length]. fpair.
  - destruct v as [|y v]; [rewrite (trim_left_stop _ _ w) by done; cbn [length]; fpair|].
    apply Forall_cons_1 in Hv as [Hy Hv]. cbn [trim_left].
    assert (zlen u <= zlen c - 1) by (subst c; rewrite length_app; simpl; lia).
    ztrue (zlen u <=? zlen c - 1). rewrite (char_test (length u) y), Hy by (subst c; by apply list_lookup_middle).
    specialize (IH (u ++ [y]) v w). rewrite length_app in IH. cbn [length] in *.
    replace (zlen u + 1) with (Z.of_nat (length u + 1)) by lia. rewrite IH; [fpair| |done..|lia].
    rewrite Hc. by rewrite <-app_assoc.
Qed.

Lemma trim_right_stop fuel u m w :
  c = u ++ m ++ w -> (exists m' y, m = m' ++ [y] /\ in_cset cs y = false) ->
  trim_right fuel s cset (zlen u) (zlen u + zlen m - 1) = Some (zlen u + zlen m - 1).
Proof.
  intros Hc (m' & y & -> & Hy).
  replace (zlen u + zlen (m' ++ [y]) - 1) with (zlen (u ++ m')) by (rewrite !length_app; simpl; lia).
  destruct m' as [|z m'].
  - rewrite app_nil_r. destruct fuel; cbn [trim_right]; rewrite Z.gtb_ltb; by zfalse (zlen u <? zlen u).
  - assert (zlen u < zlen (u ++ z :: m')) by (rewrite length_app; simpl; lia).
    destruct fuel; cbn [trim_right]; rewrite Z.gtb_ltb; ztrue (zlen u <? zlen (u ++ z :: m'));
      (rewrite (char_test (length (u ++ z :: m')) y), Hy; [done|]);
      replace c with ((u ++ z :: m') ++ y :: w) by (rewrite Hc, <-!app_assoc; done); by apply list_lookup_middle.
Qed.

Lemma trim_right_spec fuel : forall u m v w,
  c = u ++ m ++ v ++ w -> Forall (fun x => in_cset cs x = true) v ->
  (exists m' y, m = m' ++ [y] /\ in_cset cs y = false) -> (length v <= fuel)%nat ->
  trim_right fuel s cset (zlen u) (zlen u + zlen m + zlen v - 1) = Some (zlen u + zlen m - 1).
Proof.
  induction fuel as [|fuel IH]; intros u m v w Hc Hv Hm Hf.
  - destruct v; [|simpl in Hf; lia]. cbn [length]. rewrite Z.add_0_r. by apply (trim_right_stop _ _ _ w).
  - destruct v as [|y v _] using rev_ind; [cbn [length]; rewrite Z.add_0_r; by apply (trim_right_stop _ _ _ w)|].
    apply Forall_app in Hv as [Hv Hy]. apply Forall_cons_1 in Hy as [Hy _].
    rewrite length_app in *. cbn [length] in *.
    assert (1 <= zlen m) by (destruct Hm as (m' & z & -> & _); rewrite length_app; simpl; lia).
    cbn [trim_right]. rewrite Z.gtb_ltb. ztrue (zlen u <? zlen u + zlen m + Z.of_nat (length v + 1) - 1).
    replace (zlen u + zlen m + Z.of_nat (length v + 1) - 1) with (zlen (u ++ m ++ v)) by (rewrite !length_app; lia).
    rewrite (char_test (length (u ++ m ++ v)) y), Hy.
    + replace (zlen (u ++ m ++ v) - 1) with (zlen u + zlen m + zlen v - 1) by (rewrite !length_app; lia).
      apply (IH _ _ _ ([y] ++ w)); [|done|done|lia]. rewrite Hc. by rewrite <-!app_assoc.
    + replace c with ((u ++ m ++ v) ++ y :: w) by (rewrite Hc, <-!app_assoc; done). by apply list_lookup_middle.
Qed.

Lemma sdstrim_mk : exists f', sdstrim s cset = Some (sds_mk t (trim (in_cset cs) c) f') /\
  sds_ok t (trim (in_cset cs) c) f'.
Proof.
  destruct (trim_split (in_cset cs) c) as (a & b & Hc & Ha & Hb & Hm). set (m := trim (in_cset cs) c) in *.
  assert (Hlen := f_equal (fun l => zlen l) Hc). cbn beta in Hlen. rewrite !length_app in Hlen.
  assert (Hl : sdslen s = Some (zlen c)) by by apply sdslen_mk.
  unfold sdstrim. rewrite Hl. cbn [mbind option_bind].
  assert (HL := trim_left_spec (Z.to_nat (zlen c)) [] a (m ++ b) Hc Ha).
  cbn [length] in HL. change (Z.of_nat 0) with 0 in HL. rewrite HL; [|..|lia].
  2:{ destruct Hm as [[-> ->]|[(x & m0 & -> & Hx) _]]; [by left|]. right. by exists x, (m0 ++ b). }
  cbn [mbind option_bind]. rewrite Z.add_0_l.
  assert (HR : trim_right (Z.to_nat (zlen c)) s cset (zlen a) (zlen c - 1) = Some (zlen a + zlen m - 1)).
  { destruct Hm as [[Hm0 ->]|[_ Hm]].
    - rewrite Hm0 in *. cbn [length] in *. destruct (Z.to_nat (zlen c)); cbn [trim_right];
        rewrite Z.gtb_ltb; zfalse (zlen a <? zlen c - 1); fpair.
    - replace (zlen c - 1) with (zlen a + zlen m + zlen b - 1) by lia.
      apply (trim_right_spec _ _ _ _ []); [by rewrite app_nil_r|done|done|lia]. }
  rewrite HR. cbn [mbind option_bind].
  replace (if zlen a >? zlen a + zlen m - 1 then 0 else zlen a + zlen m - 1 - zlen a + 1) with (zlen m).
  2:{ rewrite Z.gtb_ltb. destruct (Z.ltb_spec (zlen a + zlen m - 1) (zlen a)); lia. }
  destruct (shift_mk t c f (zlen a) m (negb (zlen a =? 0)) Hok) as (f' & Hok' & Hs); [lia| |lia| |].
  - rewrite sread_mk by (done || lia). rewrite Hc, <-!app_assoc. by apply bread_app.
  - intros E. left. destruct (Z.eqb_spec (zlen a) 0); [done|discriminate].
  - exists f'. split; [exact Hs|done].
Qed.
End Trim.

Lemma sdstrim_spec s c cs post :
  sds_rep s c -> Forall (fun x => x <> 0) cs ->
  exists s', sdstrim s (cs ++ ch_nul :: post) = Some s' /\ sds_rep s' (trim (in_cset cs) c).
Proof.
  intros (t & f & Hok & ->) Hcs. destruct (sdstrim_mk cs post Hcs t c f Hok) as (f' & Hs & Hok').
  eexists. split; [exact Hs|by exists t, f'].
Qed.

(** The slice of [c] between two inclusive indexes, negative ones counted from
    the end. *)
Definition slice_index (n i : Z) : Z := if i <? 0 then Z.max 0 (n + i) else i.
Definition slice (c : list Z) (start end_ : Z) : list Z :=
  let a := slice_index (zlen c) start in
  let b := Z.min (slice_index (zlen c) end_) (zlen c - 1) in
  take (Z.to_nat (b - a + 1)) (drop (Z.to_nat a) c).

Definition int_ok (z : Z) : Prop := -2147483648 <= z < 2147483648.

Lemma bread_slice c x f a n :
  0 <= a -> 0 <= n -> a + n <= zlen c ->
  bread (c ++ x :: f) a n = Some (take (Z.to_nat n) (drop (Z.to_nat a) c)).
Proof.
  intros. rewrite bread_eq by (rewrite ?length_app; cbn [length]; lia).
  f_equal. rewrite drop_app_le by lia. rewrite take_app_le; [done|]. rewrite length_drop. lia.
Qed.

(** The bounds sdsrange settles on. *)
Lemma range_index len i : 0 < len < 2147483648 -> int_ok i ->
  (if i <? 0 then let st := i32 (u64 (len + i)) in if st <? 0 then 0 else st else i) = slice_index len i.
Proof.
  intros Hl Hi. unfold slice_index, int_ok in *. destruct (Z.ltb_spec i 0); [|done].
  assert (E : i32 (u64 (len + i)) = len + i) by mlia. cbv zeta. rewrite E.
  destruct (Z.ltb_spec (len + i) 0); lia.
Qed.

Lemma sdsrange_mk t c f start end_ :
  sds_ok t c f -> zlen c < 2147483648 -> int_ok start -> int_ok end_ ->
  exists f', sdsrange (sds_mk t c f) start end_ = Some (sds_mk t (slice c start end_) f') /\
    sds_ok t (slice c start end_) f'.
Proof.
  intros Hok Hc Hs He. unfold sdsrange. rewrite sdslen_mk by done. cbn [mbind option_bind].
  destruct (Z.eqb_spec (zlen c) 0) as [H0|H0].
  { exists f. assert (c = []) as -> by (apply length_zero_iff_nil; lia). unfold slice.
    by rewrite drop_nil, take_nil. }
  rewrite !range_index by (done || lia). unfold slice. cbv zeta.
  assert (Hi : forall i, int_ok i -> 0 <= slice_index (zlen c) i < 2147483648).
  { intros i Hi. unfold slice_index, int_ok in *. destruct (Z.ltb_spec i 0); lia. }
  apply Hi in Hs, He. set (a := slice_index (zlen c) start) in *. set (b := slice_index (zlen c) end_) in *.
  set (n := Z.max 0 (Z.min b (zlen c - 1) - a + 1)).
  set (m := take (Z.to_nat (Z.min b (zlen c - 1) - a + 1)) (drop (Z.to_nat a) c)).
  assert (Hm : zlen m = if zlen c <=? a then 0 else n).
  { unfold m, n. rewrite length_take, length_drop. destruct (Z.leb_spec (zlen c) a); lia. }
  assert (HB : exists st, (if negb ((if a >? b then 0 else u64 (i32 (b - a + 1))) =? 0)
     then if a >=? i32 (zlen c) then (a, 0)
          else if b >=? i32 (zlen c) then
            (a, if a >? i32 (u64 (zlen c - 1)) then 0 else u64 (i32 (i32 (u64 (zlen c - 1)) - a + 1)))
          else (a, if a >? b then 0 else u64 (i32 (b - a + 1)))
     else (0, if a >? b then 0 else u64 (i32 (b - a + 1)))) = (st, zlen m) /\ 0 <= st /\
     (zlen m = 0 \/ st = a)).
  { rewrite !Z.gtb_ltb, !Z.geb_leb, (i32_small (zlen c)) by lia.
    replace (i32 (u64 (zlen c - 1))) with (zlen c - 1) by mlia.
    destruct (Z.ltb_spec b a) as [Hab|Hab]; cbn [Z.eqb negb].
    { exists 0. rewrite Hm. unfold n. destruct (Z.leb_spec (zlen c) a); (split; [f_equal; lia|lia]). }
    destruct (Z.eqb_spec (u64 (i32 (b - a + 1))) 0) as [Hz|Hz]; [exfalso; mlia|]. cbn [negb].
    exists a. rewrite Hm. unfold n. destruct (Z.leb_spec (zlen c) a); [split; [done|lia]|].
    destruct (Z.leb_spec (zlen c) b); (split; [f_equal|lia]).
    - zfalse (zlen c - 1 <? a). mlia.
    - mlia. }
  destruct HB as (st & -> & Hst & Hsta).
  destruct (Z.eqb_spec (zlen m) 0) as [Hz|Hz]; cbn [negb].
  - assert (m = []) as -> by (apply length_zero_iff_nil; lia). rewrite andb_false_r.
    destruct (shift_mk t c f 0 [] false Hok) as (f' & Hok' & Hrun);
      [lia|by rewrite sread_mk, (bread_0 [] (c ++ ch_nul :: f))|simpl; lia|by left|].
    exists f'. split; [exact Hrun|done].
  - destruct Hsta as [?| ->]; [done|]. unfold n in Hm. destruct (Z.leb_spec (zlen c) a); [lia|].
    destruct (shift_mk t c f a m (negb (a =? 0) && true) Hok Hst) as (f' & Hok' & Hrun); [|lia| |].
    + rewrite sread_mk by done. rewrite bread_slice by lia. unfold m at 2. do 3 f_equal. lia.
    + intros E. left. rewrite andb_true_r in E. destruct (Z.eqb_spec a 0); [done|discriminate].
    + exists f'. split; [exact Hrun|done].
Qed.

(** ** Case, comparison and substitution *)

(** A loop that rewrites each character of the string. *)
Lemma map_chars_mk f0 n : forall t a b f,
  sds_ok t (a ++ b) f -> n = length b ->
  map_chars f0 n (sds_mk t (a ++ b) f) (zlen a) =
    Some (sds_mk t (a ++ map (fun c => u8 (u8 (f0 (i8 c)))) b) f).
Proof.
  induction n as [|n IH]; intros t a b f Hok Hn; destruct b as [|x b]; try discriminate; [done|].
  cbn [map_chars map]. rewrite (sget_mk _ _ _ _ x) by (done || by apply list_lookup_middle).
  cbn [mbind option_bind].
  assert (Hset : sset (sds_mk t (a ++ x :: b) f) (zlen a) (u8 (f0 (i8 x))) =
    Some (sds_mk t ((a ++ [u8 (u8 (f0 (i8 x)))]) ++ b) f)).
  { destruct Hok as [Ht _]. unfold sds_mk. rewrite sset_raw by (done || lia). rewrite <-!app_assoc. cbn [app].
    rewrite bset_app by done. cbn [mbind option_bind]. by rewrite !length_app. }
  rewrite Hset. cbn [mbind option_bind].
  replace (zlen a + 1) with (zlen (a ++ [u8 (u8 (f0 (i8 x)))])) by (rewrite length_app; simpl; lia).
  rewrite IH; [by rewrite <-app_assoc| |by injection Hn].
  destruct Hok as [Ht Hm]. split; [done|]. rewrite !length_app in *. simpl in *. lia.
Qed.

Lemma map_case_byte f0 l :
  (forall c, 0 <= c < 128 -> 0 <= f0 c < 128) -> (forall c, c < 0 \/ 128 <= c -> f0 c = c) ->
  bytes_ok l -> map (fun c => u8 (u8 (f0 (i8 c)))) l = map f0 l.
Proof.
  intros Hlo Hhi. induction 1 as [|c l Hc Hl IH]; [done|]. cbn [map]. f_equal; [|done].
  unfold byte_ok in Hc.
  destruct (Z.lt_ge_cases c 128).
  - replace (i8 c) with c by mlia. specialize (Hlo c). mlia.
  - rewrite (Hhi c) by lia. rewrite Hhi by mlia. mlia.
Qed.

Lemma sdscase_spec s c :
  sds_rep s c -> bytes_ok c -> zlen c < 2 ^ 31 ->
  exists s1 s2, sdstolower s = Some s1 /\ sds_rep s1 (map tolower c) /\
    sdstoupper s = Some s2 /\ sds_rep s2 (map toupper c).
Proof.
  intros (t & f & Hok & ->) Hb Hl. unfold sdstolower, sdstoupper. rewrite sdslen_mk by done.
  cbn [mbind option_bind]. rewrite i32_small by lia. rewrite Nat2Z.id.
  assert (HM := fun f0 => map_chars_mk f0 (length c) t [] c f Hok eq_refl). cbn [app length] in HM.
  change (Z.of_nat 0) with 0 in HM. rewrite !HM.
  rewrite !(map_case_byte _ c); [|try done..]; try (intros x Hx; unfold tolower, toupper; ztests).
  eexists _, _. split_and!; [done| |done|]; exists t, f; (split; [|done]); destruct Hok; (split; [done|]); by rewrite length_map.
Qed.

(** Lexicographic order of byte strings, a proper prefix being smaller. *)
Fixpoint lex (a b : list Z) : comparison :=
  match a, b with
  | [], [] => Eq
  | [], _ :: _ => Lt
  | _ :: _, [] => Gt
  | x :: a, y :: b => match x ?= y with Eq => lex a b | r => r end
  end.

Lemma lex_prefix n : forall a b, n = Nat.min (length a) (length b) ->
  (memcmp_list (take n a) (take n b) = 0 -> lex a b = (zlen a ?= zlen b)) /\
  (memcmp_list (take n a) (take n b) <> 0 -> lex a b = (memcmp_list (take n a) (take n b) ?= 0)).
Proof.
  induction n as [|n IH]; intros a b Hn; destruct a as [|x a], b as [|y b]; try (simpl in Hn; lia);
    try (split; intros; done).
  cbn [take memcmp_list lex length] in *. destruct (Z.eqb_spec x y) as [->|Hxy].
  - rewrite Z.compare_refl. destruct (IH a b) as [H1 H2]; [lia|]. split; [|done].
    intros H. rewrite (H1 H). destruct (Z.compare_spec (zlen a) (zlen b)), (Z.compare_spec (Z.of_nat (S (length a))) (Z.of_nat (S (length b)))); lia || done.
  - split; [lia|]. intros _. destruct (Z.compare_spec x y), (Z.compare_spec (x - y) 0); lia || done.
Qed.

Lemma bread_prefix c p n : 0 <= n <= zlen c -> bread (c ++ p) 0 n = Some (take (Z.to_nat n) c).
Proof. intros. rewrite bread_eq by (rewrite ?length_app; lia). change (Z.to_nat 0) with O. by rewrite drop_0, take_app_le by lia. Qed.

(** Comparing the common length of two strings, then their lengths. *)
Lemma memcmp_lex c1 p1 c2 p2 : zlen c1 < 2 ^ 31 -> zlen c2 < 2 ^ 31 ->
  exists cmp, memcmp (c1 ++ p1) (c2 ++ p2) (if zlen c1 <? zlen c2 then zlen c1 else zlen c2) = Some cmp /\
    ((if cmp =? 0 then i32 (u64 (zlen c1 - zlen c2)) else cmp) ?= 0) = lex c1 c2.
Proof.
  intros H1 H2. set (n := if zlen c1 <? zlen c2 then zlen c1 else zlen c2).
  assert (Hn : n = Z.of_nat (Nat.min (length c1) (length c2))).
  { unfold n. destruct (Z.ltb_spec (zlen c1) (zlen c2)); lia. }
  unfold memcmp. rewrite !bread_prefix by lia. cbn [mbind option_bind]. rewrite Hn, Nat2Z.id.
  destruct (lex_prefix _ c1 c2 eq_refl) as [He Hd].
  set (r := memcmp_list _ _) in *. eexists. split; [done|].
  destruct (Z.eqb_spec r 0) as [E|E]; [|by rewrite Hd].
  rewrite He by done. replace (i32 (u64 (zlen c1 - zlen c2))) with (zlen c1 - zlen c2) by mlia.
  destruct (Z.compare_spec (zlen c1 - zlen c2) 0), (Z.compare_spec (zlen c1) (zlen c2)); lia || done.
Qed.

Lemma sdscmp_spec s1 s2 c1 c2 :
  sds_rep s1 c1 -> sds_rep s2 c2 -> zlen c1 < 2 ^ 31 -> zlen c2 < 2 ^ 31 ->
  exists r, sdscmp s1 s2 = Some r /\ (r ?= 0) = lex c1 c2.
Proof.
  intros (t1 & f1 & Hok1 & ->) (t2 & f2 & Hok2 & ->) H1 H2. unfold sdscmp.
  rewrite !sdslen_mk, !schars_mk by done. cbn [mbind option_bind].
  destruct (memcmp_lex c1 (ch_nul :: f1) c2 (ch_nul :: f2) H1 H2) as (cmp & -> & Hr). by eexists.
Qed.

(** The replacement of [c]: the byte of [to] at its first place in [from]. *)
Fixpoint mapped (from to : list Z) (c : Z) : Z :=
  match from, to with
  | x :: from, y :: to => if c =? x then y else mapped from to c
  | _, _ => c
  end.

Lemma mapchars_find_spec c : forall from to fpre tpre fpost tpost,
  length from = length to -> length fpre = length tpre -> bytes_ok to ->
  exists r, mapchars_find c (fpre ++ from ++ fpost) (tpre ++ to ++ tpost) (length from) (zlen fpre) = Some r /\
    mapped from to c = default c r /\ (forall y, r = Some y -> byte_ok y).
Proof.
  induction from as [|x from IH]; intros to fpre tpre fpost tpost Hl Hp Hb; destruct to as [|y to]; try discriminate;
    [by exists None|].
  apply Forall_cons_1 in Hb as [Hy Hb].
  cbn [length mapchars_find app mapped]. rewrite bget_mid. cbn [mbind option_bind].
  destruct (Z.eqb_spec c x).
  - rewrite Hp, bget_mid. cbn [mbind option_bind]. exists (Some y). split_and!; [done..|]. by intros ? [= <-].
  - destruct (IH to (fpre ++ [x]) (tpre ++ [y]) fpost tpost) as (r & Hr & Hm);
      [by injection Hl|rewrite !length_app; simpl; lia|done|].
    exists r. split; [|done]. rewrite <-!app_assoc in Hr. rewrite length_app in Hr. simpl in Hr. rewrite <-Hr. f_equal. lia.
Qed.

Lemma mapchars_loop_mk from to fpost tpost n : forall t a b f,
  length from = length to -> bytes_ok to -> sds_ok t (a ++ b) f -> n = length b ->
  mapchars_loop n (sds_mk t (a ++ b) f) (from ++ fpost) (to ++ tpost) (zlen from) (zlen a) =
    Some (sds_mk t (a ++ map (mapped from to) b) f).
Proof.
  induction n as [|n IH]; intros t a b f Hft Hb Hok Hn; destruct b as [|x b]; try discriminate; [done|].
  cbn [mapchars_loop map]. rewrite (sget_mk _ _ _ _ x) by (done || by apply list_lookup_middle).
  cbn [mbind option_bind]. rewrite Nat2Z.id.
  destruct (mapchars_find_spec x from to [] [] fpost tpost Hft eq_refl Hb) as (r & Hr & Hm & Hy).
  cbn [app length] in Hr. change (Z.of_nat 0) with 0 in Hr. rewrite Hr. cbn [mbind option_bind].
  assert (Hset : (match r with Some y => sset (sds_mk t (a ++ x :: b) f) (zlen a) y | None => Some (sds_mk t (a ++ x :: b) f) end) =
    Some (sds_mk t ((a ++ [mapped from to x]) ++ b) f)).
  { rewrite Hm. destruct r as [y|]; cbn [default]; [|by rewrite <-app_assoc].
    destruct Hok as [Ht _]. unfold sds_mk. rewrite sset_raw by (done || lia). rewrite <-!app_assoc. cbn [app].
    rewrite bset_app by done. cbn [mbind option_bind]. specialize (Hy y eq_refl). unfold byte_ok in Hy.
    by rewrite !length_app, u8_small by done. }
  rewrite Hset. cbn [mbind option_bind].
  replace (zlen a + 1) with (zlen (a ++ [mapped from to x])) by (rewrite length_app; simpl; lia).
  rewrite IH; [by rewrite <-app_assoc|done|done| |by injection Hn].
  destruct Hok as [Ht Hl]. split; [done|]. rewrite !length_app in *. simpl in *. lia.
Qed.

Lemma sdsmapchars_spec s c from to fpost tpost :
  sds_rep s c -> length from = length to -> bytes_ok to ->
  exists s', sdsmapchars s (from ++ fpost) (to ++ tpost) (zlen from) = Some s' /\ sds_rep s' (map (mapped from to) c).
Proof.
  intros (t & f & Hok & ->) Hl Hb. unfold sdsmapchars. rewrite sdslen_mk by done. cbn [mbind option_bind].
  rewrite Nat2Z.id. assert (HM := mapchars_loop_mk from to fpost tpost (length c) t [] c f Hl Hb Hok eq_refl).
  cbn [app length] in HM. change (Z.of_nat 0) with 0 in HM. rewrite HM.
  eexists. split; [done|]. exists t, f. split; [|done]. destruct Hok. split; [done|]. by rewrite length_map.
Qed.

Section Specs.
  Context (junk : Z -> Z).

(** ** Splitting and joining *)

Lemma sdsnewlen_rep t0 n c :
  0 <= n -> n + 18 < 2 ^ 64 -> bread t0 0 n = Some c ->
  exists s, sdsnewlen junk (Some t0) n = Some s /\ sds_rep s c.
Proof.
  intros Hn Hb Hr. exists (sds_mk (newtype n) c []). split; [by apply sdsnewlen_copy|].
  exists (newtype n), []. split; [|done]. destruct (newtype_spec n) as [Ht Hm]; [lia|].
  apply bread_length in Hr. split; [done|]. simpl. lia.
Qed.

Lemma sdsempty_rep : exists s, sdsempty junk = Some s /\ sds_rep s [].
Proof. unfold sdsempty. by apply sdsnewlen_rep. Qed.

(** [sep] does not occur in [l] at any place. *)
Definition no_sep (sep l : list Z) : Prop := forall i, (i <= length l)%nat -> ~ sep `prefix_of` drop i l.

(** [toks] is [c] cut at the occurrences of [sep], from left to right. *)
Inductive splits (sep : list Z) : list Z -> list (list Z) -> Prop :=
  | splits_end c : no_sep sep c -> splits sep c [c]
  | splits_cut a rest toks :
      (forall i, (i < length a)%nat -> ~ sep `prefix_of` drop i (a ++ sep ++ rest)) ->
      splits sep rest toks -> splits sep (a ++ sep ++ rest) (a :: toks).

Fixpoint intercalate (sep : list Z) (l : list (list Z)) : list Z :=
  match l with
  | [] => []
  | [x] => x
  | x :: l => x ++ sep ++ intercalate sep l
  end.

Lemma splits_nonempty sep c toks : splits sep c toks -> toks <> [].
Proof. by inversion 1. Qed.

Lemma splits_join sep c toks : splits sep c toks -> intercalate sep toks = c.
Proof.
  induction 1 as [|a rest toks Ha Hs IH]; [done|]. cbn [intercalate].
  destruct toks; [by apply splits_nonempty in Hs|]. by rewrite IH.
Qed.

Lemma memcmp_list_eq a b : length a = length b -> memcmp_list a b = 0 <-> a = b.
Proof.
  revert b. induction a as [|x a IH]; intros [|y b] Hl; try discriminate; [done|]. cbn [memcmp_list].
  destruct (Z.eqb_spec x y) as [->|Hxy].
  - rewrite IH by by injection Hl. split; [by intros ->|by intros [= ->]].
  - split; [lia|]. intros [= ? ?]. done.
Qed.

(** The separator test of the loop at place [j]. *)
Lemma sep_test (sep spost : list Z) (c post : list Z) j :
  sep <> [] -> (j + length sep <= length c)%nat ->
  exists b : bool,
    (c0 ← bget (c ++ post) (Z.of_nat j); d0 ← bget (sep ++ spost) 0;
     (if (zlen sep =? 1) && (c0 =? d0) then Some true
      else m ← memcmp (drop j (c ++ post)) (sep ++ spost) (zlen sep); Some (m =? 0))) = Some b /\
    (b = true <-> sep `prefix_of` drop j c).
Proof.
  intros Hs Hj. destruct sep as [|d sep]; [done|]. cbn [length] in Hj.
  rewrite (bget_lookup _ (Z.of_nat j)), Nat2Z.id by lia. rewrite lookup_app_l by lia.
  destruct (lookup_lt_is_Some_2 c j) as [x Hx]; [lia|]. rewrite Hx. cbn [mbind option_bind].
  change (bget ((d :: sep) ++ spost) 0) with (Some d). cbn [mbind option_bind].
  assert (Hd : drop j (c ++ post) = drop j c ++ post) by (by rewrite drop_app_le by lia).
  set (w := take (length (d :: sep)) (drop j c)).
  assert (Hw : length w = length (d :: sep)) by (unfold w; rewrite length_take, length_drop; cbn [length]; lia).
  assert (Hmem : memcmp (drop j (c ++ post)) ((d :: sep) ++ spost) (zlen (d :: sep)) = Some (memcmp_list w (d :: sep))).
  { unfold memcmp. rewrite Hd. rewrite <-(take_drop (length (d :: sep)) (drop j c)). fold w. rewrite <-app_assoc.
    rewrite (bread_0 w) by (done || by rewrite Hw). cbn [mbind option_bind].
    by rewrite (bread_0 (d :: sep) spost). }
  rewrite Hmem. cbn [mbind option_bind].
  assert (Hpre : (d :: sep) `prefix_of` drop j c <-> w = d :: sep).
  { split.
    - intros [k Hk]. unfold w. rewrite Hk. apply take_app_length.
    - intros Hwe. exists (drop (length (d :: sep)) (drop j c)). rewrite <-(take_drop (length (d :: sep)) (drop j c)) at 1. fold w. by rewrite Hwe. }
  rewrite <-(memcmp_list_eq w (d :: sep) Hw) in Hpre. setoid_rewrite Hpre.
  destruct ((zlen (d :: sep) =? 1) && (x =? d)) eqn:E.
  - exists true. split; [done|]. split; [intros _|done]. apply andb_true_iff in E as [E1 E2].
    apply Z.eqb_eq in E1, E2. subst x. destruct sep; [|cbn [length] in E1; lia].
    apply memcmp_list_eq; [done|]. unfold w. by rewrite (drop_S c d j Hx).
  - exists (memcmp_list w (d :: sep) =? 0). split; [done|]. apply Z.eqb_eq.
Qed.

Section Split.
  Context (sep spost c post : list Z) (Hsep : sep <> []) (Hc : zlen c < 2 ^ 29).

Lemma split_loop_spec fuel : forall p rest i tokens dtoks slots,
  c = p ++ rest -> (i <= length rest)%nat ->
  (forall k, (k < i)%nat -> ~ sep `prefix_of` drop k rest) ->
  Forall2 sds_rep tokens dtoks -> zlen tokens <= zlen p -> zlen tokens + 1 <= slots < 2 ^ 31 ->
  (length rest - i <= fuel)%nat ->
  exists slots' p' last tokens' dtoks',
    split_loop junk fuel (c ++ post) (zlen c) (sep ++ spost) (zlen sep) slots (zlen p) (zlen p + Z.of_nat i) tokens =
      Some (slots', zlen p', tokens') /\
    zlen tokens' < slots' /\ Forall2 sds_rep tokens' (dtoks ++ dtoks') /\ c = p' ++ last /\
    splits sep rest (dtoks' ++ [last]).
Proof.
  assert (Hs1 : (1 <= length sep)%nat) by (destruct sep; [done|simpl; lia]).
  induction fuel as [|fuel IH]; intros p rest i tokens dtoks slots Hp Hi Hno Ht Htp Hsl Hf;
    assert (Hlen := f_equal (fun l => zlen l) Hp); cbn beta in Hlen; rewrite length_app in Hlen; cbn [split_loop].
  all: destruct (Z.ltb_spec (zlen p + Z.of_nat i) (zlen c - (zlen sep - 1))) as [Hj|Hj].
  - lia.
  - exists slots, p, rest, tokens, []. rewrite app_nil_r. split_and!; [done|lia|done..|]. apply splits_end.
    intros k Hk Hpre. destruct (Nat.lt_ge_cases k i); [by eapply Hno|].
    apply prefix_length in Hpre. rewrite length_drop in Hpre. lia.
  - assert (Hdrop : drop (length p + i) c = drop i rest) by (rewrite Hp; by rewrite <-drop_drop, drop_app_length).
    set (slots1 := if slots <? zlen tokens + 2 then i32 (slots * 2) else slots).
    assert (Hsl1 : zlen tokens + 2 <= slots1 < 2 ^ 31).
    { unfold slots1. destruct (Z.ltb_spec slots (zlen tokens + 2)); [rewrite i32_small by lia|]; lia. }
    destruct (sep_test sep spost c post (length p + i) Hsep) as (b & Hb & Hbs); [lia|].
    replace (zlen p + Z.of_nat i) with (Z.of_nat (length p + i)) by lia. rewrite !Nat2Z.id.
    rewrite Hdrop in Hbs.
    destruct (bget (c ++ post) (Z.of_nat (length p + i))) as [c0|]; [|discriminate].
    destruct (bget (sep ++ spost) 0) as [d0|]; [|discriminate]. cbn [mbind option_bind] in Hb |- *. rewrite Hb.
    cbn [mbind option_bind]. clear Hb. destruct b.
    + destruct Hbs as [Hbs _]. destruct (Hbs eq_refl) as [rest' Hrest]. clear Hbs.
      assert (Hr : rest = take i rest ++ sep ++ rest') by (by rewrite <-Hrest, take_drop).
      set (a := take i rest) in *. assert (Hla : length a = i) by (unfold a; rewrite length_take; lia).
      assert (Hlr := f_equal (@length Z) Hr). rewrite !length_app in Hlr.
      assert (Hd : drop (length p) (c ++ post) = a ++ (sep ++ rest' ++ post)).
      { rewrite Hp, <-app_assoc, drop_app_length. rewrite Hr, <-!app_assoc. done. }
      replace (Z.of_nat (length p + i) - zlen p) with (zlen a) by lia. rewrite Hd.
      destruct (sdsnewlen_rep (a ++ (sep ++ rest' ++ post)) (zlen a) a) as (tk & -> & Htk); [lia|lia|by apply bread_0|].
      cbn [mbind option_bind]. unfold put_token. ztrue (zlen tokens <? slots1). cbn [mbind option_bind].
      destruct (IH (p ++ a ++ sep) rest' O (tokens ++ [tk]) (dtoks ++ [a]) slots1)
        as (slots' & p' & last & tokens' & dtoks' & Hrun & H1 & H2 & H3 & H4).
      * rewrite Hp, Hr, <-!app_assoc. done.
      * lia.
      * lia.
      * apply Forall2_app; [done|by constructor].
      * rewrite !length_app. simpl. lia.
      * rewrite length_app. simpl. lia.
      * lia.
      * exists slots', p', last, tokens', (a :: dtoks'). rewrite !length_app in Hrun.
        replace (Z.of_nat (length p + i) + zlen sep) with (Z.of_nat (length p + (length a + length sep))) by lia.
        replace (Z.of_nat (length p + (length a + length sep)) - 1 + 1)
          with (Z.of_nat (length p + (length a + length sep)) + Z.of_nat 0) by lia.
        rewrite <-app_assoc in H2. split_and!; [exact Hrun|done..|].
        rewrite Hr. apply splits_cut; [|done]. rewrite <-Hr. rewrite Hla. exact Hno.
    + destruct (IH p rest (S i) tokens dtoks slots1) as (slots' & p' & last & tokens' & dtoks' & Hrun & H1);
        [done|lia| |done|done|lia|lia|].
      { intros k Hk. destruct (decide (k = i)) as [->|]; [|apply Hno; lia]. intros Hpre.
        apply Hbs in Hpre. done. }
      exists slots', p', last, tokens', dtoks'. split; [|done]. rewrite <-Hrun. f_equal. lia.
  - exists slots, p, rest, tokens, []. rewrite app_nil_r. split_and!; [done|lia|done..|]. apply splits_end.
    intros k Hk Hpre. destruct (Nat.lt_ge_cases k i); [by eapply Hno|].
    apply prefix_length in Hpre. rewrite length_drop in Hpre. lia.
Qed.

Lemma sdssplitlen_spec :
  exists toks dtoks, sdssplitlen junk (c ++ post) (zlen c) (sep ++ spost) (zlen sep) = Some (Some toks) /\
    Forall2 sds_rep toks dtoks /\ (if decide (c = []) then dtoks = [] else splits sep c dtoks).
Proof.
  assert (Hs1 : (1 <= length sep)%nat) by (destruct sep; [done|simpl; lia]).
  unfold sdssplitlen. zfalse (zlen sep <? 1). zfalse (zlen c <? 0). cbn [orb].
  destruct (decide (c = [])) as [->|Hne]; [by exists [], []|].
  assert (zlen c <> 0) by (destruct c; [done|simpl; lia]). zfalse (zlen c =? 0).
  destruct (split_loop_spec (Z.to_nat (zlen c)) [] c O [] [] 5) as (slots' & p' & last & tokens' & dtoks' & Hrun & H1 & H2 & H3 & H4);
    [done|lia..|constructor|done|simpl; lia|lia|].
  cbn [length] in Hrun. change (Z.of_nat 0) with 0 in Hrun. rewrite Z.add_0_r in Hrun. rewrite Hrun. cbn [mbind option_bind].
  assert (Hlen := f_equal (@length Z) H3). rewrite length_app in Hlen.
  destruct (sdsnewlen_rep (drop (Z.to_nat (zlen p')) (c ++ post)) (zlen c - zlen p') last) as (tk & -> & Htk); [lia|lia| |].
  { rewrite H3, Nat2Z.id, <-app_assoc, drop_app_length. apply bread_0; [done|]. rewrite length_app. lia. }
  cbn [mbind option_bind]. unfold put_token. ztrue (zlen tokens' <? slots'). cbn [mbind option_bind].
  exists (tokens' ++ [tk]), (dtoks' ++ [last]). split; [done|]. split; [|done].
  apply Forall2_app; [done|by constructor].
Qed.
End Split.

Definition cstring (d : list Z) : Prop := Forall (fun x => x <> 0) d.

Lemma sdscat_mk s c d post :
  sds_rep s c -> cstring d -> fits (zlen c + zlen d) ->
  exists s', sdscat junk s (d ++ ch_nul :: post) = Some s' /\ sds_rep s' (c ++ d).
Proof.
  intros Hs Hd Hb. unfold sdscat. rewrite (strlen_app [] d post) by done. cbn [mbind option_bind].
  apply sdscatlen_mk; [done|by apply bread_0|done].
Qed.

Lemma intercalate_cons sep a b l : intercalate sep (a :: b :: l) = a ++ sep ++ intercalate sep (b :: l).
Proof. done. Qed.

Lemma join_loop_spec sep args : forall join c,
  cstring sep -> Forall cstring args -> sds_rep join c -> fits (zlen c + zlen (intercalate sep args)) ->
  exists s', join_loop junk join (map (fun d => d ++ [ch_nul]) args) (sep ++ [ch_nul]) = Some s' /\
    sds_rep s' (c ++ intercalate sep args).
Proof.
  unfold fits. induction args as [|a args IH]; intros join c Hsep Ha Hj Hb.
  { exists join. by rewrite app_nil_r. }
  apply Forall_cons_1 in Ha as [Ha Hargs]. destruct args as [|b args]; cbn [map join_loop].
  - cbn [intercalate] in *. destruct (sdscat_mk join c a [] Hj Ha Hb) as (j1 & -> & Hj1).
    cbn [mbind option_bind]. by exists j1.
  - rewrite intercalate_cons in *. rewrite !length_app in Hb.
    destruct (sdscat_mk join c a [] Hj Ha) as (j1 & -> & Hj1); [unfold fits; lia|]. cbn [mbind option_bind].
    destruct (sdscat_mk j1 (c ++ a) sep [] Hj1 Hsep) as (j2 & -> & Hj2); [unfold fits; rewrite length_app; lia|].
    cbn [mbind option_bind].
    destruct (IH j2 ((c ++ a) ++ sep) Hsep Hargs Hj2) as (s' & Hs' & Hrep); [rewrite !length_app; lia|].
    exists s'. split; [exact Hs'|]. by rewrite <-!app_assoc in Hrep.
Qed.

Lemma joinsds_loop_spec sep args : forall join c argv,
  Forall2 sds_rep argv args -> sds_rep join c -> fits (zlen c + zlen (intercalate sep args)) ->
  exists s', joinsds_loop junk join argv sep (zlen sep) = Some s' /\ sds_rep s' (c ++ intercalate sep args).
Proof.
  unfold fits. induction args as [|a args IH]; intros join c argv Ha Hj Hb; inversion Ha; subst.
  { exists join. by rewrite app_nil_r. }
  rename select (sds_rep _ a) into Hx. destruct Hx as (t & f & Hok & ->).
  assert (Hcat : forall c0 j0, sds_rep j0 c0 -> fits (zlen c0 + zlen a) ->
    exists j1, sdscatsds junk j0 (sds_mk t a f) = Some j1 /\ sds_rep j1 (c0 ++ a)).
  { intros c0 j0 Hj0 Hb0. unfold sdscatsds. rewrite sdslen_mk, schars_mk by done. cbn [mbind option_bind].
    apply sdscatlen_mk; [done|by apply bread_0|done]. }
  rename select (Forall2 _ _ args) into Hargs. destruct args as [|b args]; inversion Hargs; subst; cbn [joinsds_loop].
  - cbn [intercalate] in *. destruct (Hcat c join Hj Hb) as (j1 & -> & Hj1). cbn [mbind option_bind]. by exists j1.
  - rewrite intercalate_cons in *. rewrite !length_app in Hb.
    destruct (Hcat c join Hj) as (j1 & -> & Hj1); [unfold fits; lia|]. cbn [mbind option_bind].
    destruct (sdscatlen_mk junk j1 (c ++ a) sep (zlen sep) sep Hj1 (bread_all _)) as (j2 & -> & Hj2);
      [unfold fits; rewrite length_app; lia|].
    cbn [mbind option_bind].
    destruct (IH j2 ((c ++ a) ++ sep) _ Hargs Hj2) as (s' & Hs' & Hrep); [rewrite !length_app; lia|].
    exists s'. split; [exact Hs'|]. by rewrite <-!app_assoc in Hrep.
Qed.

(** ** printf and the quoted representation *)

Lemma vprintf_fits out buf buflen :
  zlen out + 2 <= buflen -> zlen buf = buflen ->
  exists rest, (buf ← bset buf (buflen - 2) ch_nul; vsnprintf buf buflen out) = Some (out ++ ch_nul :: rest) /\
    bget (out ++ ch_nul :: rest) (buflen - 2) = Some 0.
Proof.
  intros Hl Hb. unfold bset, vsnprintf. rewrite take_ge by lia.
  destruct (length_split_tail buf (Z.to_nat (buflen - 2))) as (u & v & -> & Hu & Hv); [lia|].
  destruct v as [|x v]; [cbn [length] in *; lia|]. change (x :: v) with ([x] ++ v).
  rewrite bwrite_app by (cbn; lia). cbn [mbind option_bind]. cbn [length] in Hv. rewrite length_app in *. cbn [length] in *.
  destruct (decide (length out = length u)) as [E|E].
  - exists v. split; [|apply bget_app_mid; lia].
    rewrite (app_assoc u), bwrite_0 by (rewrite ?length_app; simpl; lia). by rewrite <-app_assoc.
  - destruct (length_split_tail u (length out + 1)) as (u1 & u2 & -> & Hu1 & Hu2); [lia|].
    rewrite length_app in *. exists (u2 ++ [ch_nul] ++ v). split.
    + rewrite <-!app_assoc. rewrite bwrite_0 by (rewrite ?length_app; simpl; lia). by rewrite <-!app_assoc.
    + change (ch_nul :: u2 ++ [ch_nul] ++ v) with ([ch_nul] ++ u2 ++ [ch_nul] ++ v).
      rewrite !app_assoc, <-app_assoc. apply bget_app_mid. rewrite !length_app. simpl. lia.
Qed.

Lemma vprintf_too_long out buf buflen :
  cstring out -> 2 <= buflen -> buflen < zlen out + 2 -> zlen buf = buflen ->
  exists b c, (buf ← bset buf (buflen - 2) ch_nul; vsnprintf buf buflen out) = Some b /\
    bget b (buflen - 2) = Some c /\ c <> 0.
Proof.
  intros Ho Hbl Hl Hb. unfold bset, vsnprintf.
  destruct (length_split_tail buf (Z.to_nat (buflen - 2))) as (u & v & -> & Hu & Hv); [lia|].
  destruct v as [|x v]; [cbn [length] in *; lia|]. change (x :: v) with ([x] ++ v).
  rewrite bwrite_app by (cbn; lia). cbn [mbind option_bind]. rewrite length_app in *. cbn [length] in *.
  destruct v as [|y [|]]; cbn [length] in *; try lia.
  assert (Hlt : length (take (Z.to_nat (buflen - 1)) out) = Z.to_nat (buflen - 1)) by (rewrite length_take; lia).
  rewrite <-(app_nil_r (u ++ [ch_nul] ++ [y])), bwrite_0 by (rewrite ?length_app; cbn [length]; lia).
  destruct (lookup_lt_is_Some_2 out (Z.to_nat (buflen - 2))) as [c Hc]; [lia|].
  eexists _, c. split; [done|]. rewrite app_nil_r. split.
  - rewrite bget_lookup by lia. rewrite lookup_app_l by lia. by rewrite lookup_take_lt by lia.
  - by apply (list.Forall_lookup_1 _ _ _ _ Ho Hc).
Qed.

Lemma catvprintf_loop_spec out fuel : forall buf buflen,
  cstring out -> zlen buf = buflen -> 2 <= buflen -> zlen out + 2 <= buflen * 2 ^ Z.of_nat fuel ->
  zlen out + 2 <= 2 ^ 63 ->
  exists rest, catvprintf_loop junk (S fuel) buf buflen out = Some (out ++ ch_nul :: rest).
Proof.
  induction fuel as [|fuel IH]; intros buf buflen Ho Hb H2 Hl H63;
    destruct (Z.le_gt_cases (zlen out + 2) buflen) as [Hf|Hf]; [|simpl in Hl; lia| |].
  1, 2: destruct (vprintf_fits out buf buflen Hf Hb) as (rest & Hrun & Hget); exists rest;
    cbn [catvprintf_loop]; destruct (bset buf (buflen - 2) 0) as [b0|]; [|discriminate];
    cbn [mbind option_bind] in Hrun |- *; rewrite Hrun; cbn [mbind option_bind]; by rewrite Hget.
  destruct (vprintf_too_long out buf buflen Ho H2 Hf Hb) as (b & c & Hrun & Hget & Hc).
  destruct (IH (s_malloc junk (buflen * 2)) (buflen * 2)) as (rest & Hrest); [done| |lia| |done|].
  - unfold s_malloc. destruct (zrealloc_grow junk [] (buflen * 2)) as (l & -> & Hlen); [simpl; lia|]. simpl in *. lia.
  - rewrite Nat2Z.inj_succ, Z.pow_succ_r in Hl by lia. lia.
  - exists rest. rewrite <-Hrest. remember (S fuel) as k. cbn [catvprintf_loop].
    rewrite (u64_small (buflen * 2)) by (pow_consts; lia).
    destruct (bset buf (buflen - 2) 0) as [b0|]; [|discriminate].
    cbn [mbind option_bind] in Hrun |- *. rewrite Hrun. cbn [mbind option_bind]. rewrite Hget. cbn [mbind option_bind].
    by rewrite (proj2 (Z.eqb_neq c 0) Hc).
Qed.

Lemma sdscatvprintf_spec s c fmtlen out :
  sds_rep s c -> cstring out -> fits (zlen c + zlen out) ->
  exists s', sdscatvprintf junk s fmtlen out = Some s' /\ sds_rep s' (c ++ out).
Proof.
  intros Hs Ho Hb. assert (Hb' := Hb). unfold fits in Hb'. unfold sdscatvprintf. rewrite Z.gtb_ltb.
  set (bl := if 1024 <? u64 (fmtlen * 2) then u64 (fmtlen * 2) else 1024).
  assert (Hbl : 1024 <= bl) by (unfold bl; destruct (Z.ltb_spec 1024 (u64 (fmtlen * 2))); lia).
  destruct (catvprintf_loop_spec out 63 (s_malloc junk bl) bl Ho) as (rest & ->).
  - unfold s_malloc. destruct (zrealloc_grow junk [] bl) as (l & -> & Hlen); [simpl; lia|]. simpl in *. lia.
  - lia.
  - change (2 ^ Z.of_nat 63) with (2 ^ 63). pow_consts. lia.
  - pow_consts. lia.
  - cbn [mbind option_bind]. by apply sdscat_mk.
Qed.

(** How sdscatrepr writes a byte, and a string. *)
Definition repr_char (c : Z) : list Z :=
  if (c =? ch_bslash) || (c =? ch_dquote) then [ch_bslash; c]
  else if c =? 10 then str "\n"
  else if c =? 13 then str "\r"
  else if c =? 9 then str "\t"
  else if c =? 7 then str "\a"
  else if c =? 8 then str "\b"
  else if isprint (i8 c) then [c]
  else [ch_bslash; 120; hexdigit (c / 16); hexdigit (c mod 16)].

Definition repr (p : list Z) : list Z := ch_dquote :: concat (map repr_char p) ++ [ch_dquote].

Lemma repr_char_length c : 1 <= zlen (repr_char c) <= 4.
Proof. unfold repr_char. repeat case_match; cbn; lia. Qed.

Lemma hexdigit_range d : 0 <= d < 16 -> 48 <= hexdigit d <= 57 \/ 97 <= hexdigit d <= 102.
Proof. intros. unfold hexdigit. destruct (Z.ltb_spec d 10); lia. Qed.

Lemma repr_loop_spec n : forall s c pre p post,
  sds_rep s c -> bytes_ok p -> n = length p -> fits (zlen c + 4 * zlen p) ->
  exists s', repr_loop junk n s (pre ++ p ++ post) (zlen pre) = Some s' /\
    sds_rep s' (c ++ concat (map repr_char p)).
Proof.
  unfold fits. induction n as [|n IH]; intros s c pre p post Hs Hp Hn Hb; destruct p as [|x p]; try discriminate.
  { exists s. by rewrite app_nil_r. }
  apply Forall_cons_1 in Hp as [Hx Hp]. unfold byte_ok in Hx. cbn [repr_loop app length] in *.
  rewrite bget_mid. cbn [mbind option_bind].
  assert (Hcat : forall d, zlen d <= 4 -> exists s', sdscatlen junk s d (zlen d) = Some s' /\ sds_rep s' (c ++ d)).
  { intros d Hd. apply sdscatlen_mk; [done|apply bread_all|unfold fits; lia]. }
  assert (Hpr : forall fl d, cstring d -> zlen d <= 4 -> exists s', sdscatvprintf junk s fl d = Some s' /\ sds_rep s' (c ++ d)).
  { intros fl d Hd Hl. apply sdscatvprintf_spec; [done|done|unfold fits; lia]. }
  assert (Hstep : exists s1, (if (x =? ch_bslash) || (x =? ch_dquote) then sdscatvprintf junk s 3 [ch_bslash; x]
           else if x =? 10 then sdscatlen junk s (str "\n") 2
           else if x =? 13 then sdscatlen junk s (str "\r") 2
           else if x =? 9 then sdscatlen junk s (str "\t") 2
           else if x =? 7 then sdscatlen junk s (str "\a") 2
           else if x =? 8 then sdscatlen junk s (str "\b") 2
           else if isprint (i8 x) then sdscatvprintf junk s 2 [x]
           else sdscatvprintf junk s 6 [ch_bslash; 120; hexdigit (x / 16); hexdigit (x mod 16)]) = Some s1 /\
      sds_rep s1 (c ++ repr_char x)).
  { unfold repr_char.
    destruct ((x =? ch_bslash) || (x =? ch_dquote)) eqn:E0.
    { apply Hpr; [|cbn; lia]. apply orb_true_iff in E0. repeat constructor; lia. }
    destruct (x =? 10); [apply (Hcat (str "\n")); cbn; lia|].
    destruct (x =? 13); [apply (Hcat (str "\r")); cbn; lia|].
    destruct (x =? 9); [apply (Hcat (str "\t")); cbn; lia|].
    destruct (x =? 7); [apply (Hcat (str "\a")); cbn; lia|].
    destruct (x =? 8); [apply (Hcat (str "\b")); cbn; lia|].
    destruct (isprint (i8 x)) eqn:E.
    - apply Hpr; [|cbn; lia]. constructor; [|constructor]. intros ->. done.
    - apply Hpr; [|cbn; lia]. assert (H1 := hexdigit_range (x / 16) ltac:(dlia)).
      assert (H2 := hexdigit_range (x mod 16) ltac:(dlia)). repeat constructor; lia. }
  destruct Hstep as (s1 & -> & Hs1). cbn [mbind option_bind].
  assert (Hl := repr_char_length x).
  destruct (IH s1 (c ++ repr_char x) (pre ++ [x]) p post) as (s' & Hrun & Hs'); [done|done|by injection Hn|rewrite length_app; lia|].
  exists s'. rewrite <-!app_assoc, length_app in Hrun. cbn [app length] in Hrun.
  replace (zlen pre + 1) with (Z.of_nat (length pre + 1)) by lia. split; [exact Hrun|].
  cbn [map concat]. by rewrite <-app_assoc in Hs'.
Qed.

Lemma concat_repr_length p : zlen (concat (map repr_char p)) <= 4 * zlen p.
Proof.
  induction p as [|x p IH]; [done|]. cbn [map concat length]. rewrite length_app.
  pose proof (repr_char_length x). lia.
Qed.

Lemma sdscatrepr_spec s c p post :
  sds_rep s c -> bytes_ok p -> fits (zlen c + 4 * zlen p + 2) ->
  exists s', sdscatrepr junk s (p ++ post) (zlen p) = Some s' /\ sds_rep s' (c ++ repr p).
Proof.
  unfold fits. intros Hs Hp Hb. unfold sdscatrepr.
  destruct (sdscatlen_mk junk s c [ch_dquote] 1 [ch_dquote] Hs eq_refl) as (s1 & -> & Hs1); [unfold fits; lia|].
  cbn [mbind option_bind]. rewrite Nat2Z.id.
  destruct (repr_loop_spec (length p) s1 (c ++ [ch_dquote]) [] p post Hs1 Hp eq_refl) as (s2 & Hrun & Hs2).
  { unfold fits. rewrite length_app. cbn [length]. lia. }
  cbn [app length] in Hrun. change (Z.of_nat 0) with 0 in Hrun. rewrite Hrun. cbn [mbind option_bind].
  pose proof (concat_repr_length p).
  destruct (sdscatlen_mk junk s2 _ [ch_dquote] 1 [ch_dquote] Hs2 eq_refl) as (s3 & Hrun3 & Hs3).
  { unfold fits. rewrite !length_app. cbn [length]. lia. }
  exists s3. split; [exact Hrun3|]. unfold repr. by rewrite <-!app_assoc in Hs3.
Qed.
End Specs.

Section FromLong.
  Context (junk : Z -> Z).

Lemma sdsfromlonglong_spec v :
  in_i64 v -> exists s ds, sdsfromlonglong junk v = Some s /\ sds_rep s ds /\ is_sdec ds v.
Proof.
  intros Hv. destruct (is_sdec_exists v) as [ds Hds].
  assert (Hlen := sdec_length _ _ Hv Hds).
  unfold sdsfromlonglong, s_malloc. destruct (zrealloc_grow junk [] SDS_LLSTR_SIZE) as (l & -> & Hl); [done|].
  change (SDS_LLSTR_SIZE - zlen []) with 21 in Hl. cbn [app].
  destruct (length_split_tail l (length ds)) as (mid & r & -> & Hm & Hr); [lia|].
  destruct r as [|x post]; [cbn [length] in Hr; lia|].
  rewrite (sdsll2str_spec v ds mid x post) by done. cbn [mbind option_bind].
  destruct (sdsnewlen_rep junk (ds ++ ch_nul :: post) (zlen ds) ds) as (s & Hs & Hrep); [lia|lia|by apply bread_0|].
  by exists s, ds.
Qed.
End FromLong.

Section Theorems.
  Context (junk : Z -> Z).

(** C22. sdstrim drops from both ends the characters of the set, and NUL bytes,
    which strchr finds in every set. *)
Theorem sdstrim_correct s c cs post :
  sds_rep s c -> Forall (fun x => x <> 0) cs ->
  exists s', sdstrim s (cs ++ ch_nul :: post) = Some s' /\ sds_rep s' (trim (in_cset cs) c).
Proof. apply sdstrim_spec. Qed.

(** C21. sdsrange keeps the slice between two inclusive indexes. *)
Theorem sdsrange_correct s c start end_ :
  sds_rep s c -> zlen c < 2 ^ 31 -> int_ok start -> int_ok end_ ->
  exists s', sdsrange s start end_ = Some s' /\ sds_rep s' (slice c start end_).
Proof.
  intros (t & f & Hok & ->) Hc Hs He. destruct (sdsrange_mk t c f start end_ Hok) as (f' & Hrun & Hok'); [lia|done|done|].
  eexists. split; [exact Hrun|by exists t, f'].
Qed.

(** C23. sdscmp orders strings of less than 2^31 bytes lexicographically (the
    difference of two lengths is converted to int). *)
Theorem sdscmp_correct s1 s2 c1 c2 :
  sds_rep s1 c1 -> sds_rep s2 c2 -> zlen c1 < 2 ^ 31 -> zlen c2 < 2 ^ 31 ->
  exists r, sdscmp s1 s2 = Some r /\ (r ?= 0) = lex c1 c2.
Proof. apply sdscmp_spec. Qed.

(** C14. sdssplitlen cuts at every occurrence of the separator, left to right, and
    sdsjoinsds puts the tokens together again. *)
Theorem sdssplitlen_correct sep spost c post :
  sep <> [] -> zlen sep < 2 ^ 29 -> zlen c < 2 ^ 29 ->
  exists toks dtoks, sdssplitlen junk (c ++ post) (zlen c) (sep ++ spost) (zlen sep) = Some (Some toks) /\
    Forall2 sds_rep toks dtoks /\ (if decide (c = []) then dtoks = [] else splits sep c dtoks) /\
    exists s', sdsjoinsds junk toks sep (zlen sep) = Some s' /\ sds_rep s' c.
Proof.
  intros Hsep Hsl Hc. destruct (sdssplitlen_spec junk sep spost c post Hsep Hc) as (toks & dtoks & Hrun & Htoks & Hs).
  exists toks, dtoks. split_and!; [done..|].
  assert (Hj : intercalate sep dtoks = c).
  { destruct (decide (c = [])) as [->|]; [by subst|]. by apply splits_join. }
  unfold sdsjoinsds. destruct (sdsempty_rep junk) as (j & -> & Hjr). cbn [mbind option_bind].
  rewrite <-Hj. apply joinsds_loop_spec with (c := []); [done|done|]. rewrite Hj. unfold fits. simpl. lia.
Qed.

(** C27. sdsfromlonglong writes the canonical decimal notation. *)
Theorem sdsfromlonglong_correct v :
  in_i64 v -> exists s ds, sdsfromlonglong junk v = Some s /\ sds_rep s ds /\ is_sdec ds v.
Proof. apply sdsfromlonglong_spec. Qed.
End Theorems.

Lemma sdstrim_correct_witness :
  exists s', sdstrim hi_sds ([104; 120] ++ ch_nul :: []) = Some s' /\ sds_rep s' (trim (in_cset [104; 120]) [104; 105]).
Proof. apply sdstrim_correct; [apply hi_rep|by repeat constructor]. Defined.

Lemma sdsrange_correct_witness :
  exists s', sdsrange hi_sds (-1) 5 = Some s' /\ sds_rep s' (slice [104; 105] (-1) 5).
Proof. apply sdsrange_correct; [apply hi_rep|simpl; lia|unfold int_ok; lia..]. Defined.

Lemma sdscmp_correct_witness :
  exists r, sdscmp hi_sds hi_sds = Some r /\ (r ?= 0) = lex [104; 105] [104; 105].
Proof. apply sdscmp_correct; [apply hi_rep..|simpl; lia|simpl; lia]. Defined.

(** "a, b" cut at ", ". *)
Lemma sdssplitlen_correct_witness :
  exists toks dtoks, sdssplitlen (fun _ => 0) ([97; 44; 32; 98] ++ [0]) (zlen [97; 44; 32; 98]) ([44; 32] ++ [0]) (zlen [44; 32]) =
      Some (Some toks) /\
    Forall2 sds_rep toks dtoks /\ (if decide ([97; 44; 32; 98] = []) then dtoks = [] else splits [44; 32] [97; 44; 32; 98] dtoks) /\
    exists s', sdsjoinsds (fun _ => 0) toks [44; 32] (zlen [44; 32]) = Some s' /\ sds_rep s' [97; 44; 32; 98].
Proof. apply sdssplitlen_correct; [done|simpl; lia|simpl; lia]. Defined.

Lemma sdsfromlonglong_correct_witness :
  exists s ds, sdsfromlonglong (fun _ => 0) (-9223372036854775808) = Some s /\ sds_rep s ds /\ is_sdec ds (-9223372036854775808).
Proof. apply sdsfromlonglong_correct. mlia. Defined.
