(* ===== verification/SdsArgs.v ===== *)
(** sds.c, sdssplitargs: the splitting of a line into arguments with double
    and single quotes, and its specification by the grammar of such lines. *)

From Stdlib Require Import String.
From S2P Require Import Prelude Sds SdsString.
#[local] Open Scope Z_scope.

Section SdsArgs.
  Context (junk : Z -> Z).

(** ** sdssplitargs *)

Definition is_hex_digit (c : Z) : bool :=
  ((ch_0 <=? c) && (c <=? ch_9)) || ((97 <=? c) && (c <=? 102)) || ((65 <=? c) && (c <=? 70)).

Definition hex_digit_to_int (c : Z) : Z :=
  if (ch_0 <=? c) && (c <=? ch_9) then c - ch_0
  else if (97 <=? c) && (c <=? 102) then c - 87
  else if (65 <=? c) && (c <=? 70) then c - 55
  else 0.

(** The character an escape in double quotes stands for. *)
Definition unescape (c : Z) : Z :=
  if c =? 110 then 10 else if c =? 114 then 13 else if c =? 116 then 9
  else if c =? 98 then 8 else if c =? 97 then 7 else c.

Record arg_state := { a_p : Z; a_cur : sds; a_inq : bool; a_insq : bool; a_done : bool }.

(** The tests of the source read only as far as && lets them. *)
Definition hex_escape (line : list Z) (p : Z) : option bool :=
  c ← bget line p;
  if negb (c =? ch_bslash) then Some false else
  c1 ← bget line (p + 1);
  if negb (c1 =? 120) then Some false else
  c2 ← bget line (p + 2);
  if negb (is_hex_digit c2) then Some false else
  c3 ← bget line (p + 3);
  Some (is_hex_digit c3).

(** [Some None]: goto err. *)
Definition closing_quote (line : list Z) (st : arg_state) : option (option arg_state) :=
  c1 ← bget line (a_p st + 1);
  if negb (c1 =? 0) && negb (isspace (i8 c1)) then Some None
  else Some (Some {| a_p := a_p st; a_cur := a_cur st; a_inq := a_inq st; a_insq := a_insq st; a_done := true |}).

Definition cat_char (st : arg_state) (skip : Z) (c : Z) : option (option arg_state) :=
  cur ← sdscatlen junk (a_cur st) [c] 1;
  Some (Some {| a_p := a_p st + skip; a_cur := cur; a_inq := a_inq st; a_insq := a_insq st; a_done := a_done st |}).

Definition inq_step (line : list Z) (st : arg_state) : option (option arg_state) :=
  let p := a_p st in
  c ← bget line p;
  isx ← hex_escape line p;
  if (isx : bool) then
    h ← bget line (p + 2);
    l ← bget line (p + 3);
    cat_char st 3 (u8 (hex_digit_to_int h * 16 + hex_digit_to_int l))
  else
    esc ← (if c =? ch_bslash then c1 ← bget line (p + 1); Some (negb (c1 =? 0)) else Some false);
    if (esc : bool) then c1 ← bget line (p + 1); cat_char st 1 (unescape c1)
    else if c =? ch_dquote then closing_quote line st
    else if c =? 0 then Some None
    else cat_char st 0 c.

Definition insq_step (line : list Z) (st : arg_state) : option (option arg_state) :=
  let p := a_p st in
  c ← bget line p;
  esc ← (if c =? ch_bslash then c1 ← bget line (p + 1); Some (c1 =? ch_squote) else Some false);
  if (esc : bool) then cat_char st 1 ch_squote
  else if c =? ch_squote then closing_quote line st
  else if c =? 0 then Some None
  else cat_char st 0 c.

Definition bare_step (line : list Z) (st : arg_state) : option (option arg_state) :=
  c ← bget line (a_p st);
  if (c =? 32) || (c =? 10) || (c =? 13) || (c =? 9) || (c =? 0) then
    Some (Some {| a_p := a_p st; a_cur := a_cur st; a_inq := a_inq st; a_insq := a_insq st; a_done := true |})
  else if c =? ch_dquote then
    Some (Some {| a_p := a_p st; a_cur := a_cur st; a_inq := true; a_insq := a_insq st; a_done := a_done st |})
  else if c =? ch_squote then
    Some (Some {| a_p := a_p st; a_cur := a_cur st; a_inq := a_inq st; a_insq := true; a_done := a_done st |})
  else cat_char st 0 c.

(** while(!done) { ...; if ( *p) p++; } *)
Fixpoint arg_loop (fuel : nat) (line : list Z) (st : arg_state) : option (option (Z * sds)) :=
  if a_done st then Some (Some (a_p st, a_cur st)) else
  match fuel with
  | O => None
  | S fuel =>
      r ← (if a_inq st then inq_step line st else if a_insq st then insq_step line st else bare_step line st);
      match r with
      | None => Some None
      | Some st =>
          c ← bget line (a_p st);
          arg_loop fuel line
            {| a_p := if negb (c =? 0) then a_p st + 1 else a_p st; a_cur := a_cur st; a_inq := a_inq st;
               a_insq := a_insq st; a_done := a_done st |}
      end
  end.

Fixpoint skip_blanks (fuel : nat) (line : list Z) (p : Z) : option Z :=
  c ← bget line p;
  if negb (c =? 0) && isspace (i8 c) then
    match fuel with O => None | S fuel => skip_blanks fuel line (p + 1) end
  else Some p.

Fixpoint splitargs_loop (fuel : nat) (line : list Z) (p : Z) (vector : list sds) : option (option (list sds)) :=
  match fuel with
  | O => None
  | S fuel =>
      p ← skip_blanks (length line) line p;
      c ← bget line p;
      if negb (c =? 0) then
        current ← sdsempty junk;
        r ← arg_loop (length line) line {| a_p := p; a_cur := current; a_inq := false; a_insq := false; a_done := false |};
        match r with
        | None => Some None
        | Some (p, current) => splitargs_loop fuel line p (vector ++ [current])
        end
      else Some (Some vector)
  end.

(** [Some None] is the NULL result for unbalanced quotes. *)
Definition sdssplitargs (line : list Z) : option (option (list sds)) :=
  splitargs_loop (S (length line)) line 0 [].
End SdsArgs.

(** ** The grammar of arguments *)

(** An element inside double quotes: a plain character, \xHH, a backslash and
    another character. *)
Inductive dqitem := QLit (c : Z) | QHex (h l : Z) | QEsc (c : Z).
(** Inside single quotes: a plain character, an escaped quote, a backslash
    before another character. *)
Inductive sqitem := SLit (c : Z) | SQuote | SBack (c : Z).
(** The quoted part that may end an argument. *)
Inductive quoted := Bare | DQuoted (items : list dqitem) | SQuoted (items : list sqitem).
Record argument := { bare : list Z; tail : quoted }.

Definition dq_text (i : dqitem) : list Z :=
  match i with QLit c => [c] | QHex h l => [ch_bslash; 120; h; l] | QEsc c => [ch_bslash; c] end.
Definition dq_value (i : dqitem) : list Z :=
  match i with
  | QLit c => [c]
  | QHex h l => [u8 (hex_digit_to_int h * 16 + hex_digit_to_int l)]
  | QEsc c => [unescape c]
  end.
Definition dq_ok (i : dqitem) : Prop :=
  match i with
  | QLit c => c <> 0 /\ c <> ch_dquote /\ c <> ch_bslash
  | QHex h l => is_hex_digit h = true /\ is_hex_digit l = true
  | QEsc c => c <> 0 /\ c <> 120
  end.

Definition sq_text (i : sqitem) : list Z :=
  match i with SLit c => [c] | SQuote => [ch_bslash; ch_squote] | SBack c => [ch_bslash; c] end.
Definition sq_value (i : sqitem) : list Z :=
  match i with SLit c => [c] | SQuote => [ch_squote] | SBack c => [ch_bslash; c] end.
Definition sq_ok (i : sqitem) : Prop :=
  match i with
  | SLit c => c <> 0 /\ c <> ch_squote /\ c <> ch_bslash
  | SQuote => True
  | SBack c => c <> 0 /\ c <> ch_squote /\ c <> ch_bslash
  end.

Definition bare_ok (c : Z) : Prop :=
  c <> 0 /\ isspace (i8 c) = false /\ c <> ch_dquote /\ c <> ch_squote.

Definition quoted_text (q : quoted) : list Z :=
  match q with
  | Bare => []
  | DQuoted l => ch_dquote :: concat (map dq_text l) ++ [ch_dquote]
  | SQuoted l => ch_squote :: concat (map sq_text l) ++ [ch_squote]
  end.
Definition quoted_value (q : quoted) : list Z :=
  match q with
  | Bare => []
  | DQuoted l => concat (map dq_value l)
  | SQuoted l => concat (map sq_value l)
  end.
Definition quoted_ok (q : quoted) : Prop :=
  match q with Bare => True | DQuoted l => Forall dq_ok l | SQuoted l => Forall sq_ok l end.

Definition arg_text (a : argument) : list Z := bare a ++ quoted_text (tail a).
Definition arg_value (a : argument) : list Z := bare a ++ quoted_value (tail a).
Definition arg_ok (a : argument) : Prop :=
  Forall bare_ok (bare a) /\ quoted_ok (tail a) /\ (bare a <> [] \/ tail a <> Bare).

(** The characters that end an argument. *)
Definition blank (c : Z) : Prop := c = 32 \/ c = 10 \/ c = 13 \/ c = 9.

(** A line: arguments, each after blanks, which only the first may lack. *)
Fixpoint line_text (args : list (list Z * argument)) : list Z :=
  match args with
  | [] => []
  | (b, a) :: args => b ++ arg_text a ++ line_text args
  end.
Fixpoint line_ok (first : bool) (args : list (list Z * argument)) : Prop :=
  match args with
  | [] => True
  | (b, a) :: args => Forall blank b /\ (first = true \/ b <> []) /\ arg_ok a /\ line_ok false args
  end.

(** ** Running one argument *)

Section Args.
  Context (junk : Z -> Z).

Definition astate (p : list Z) (cur : sds) (inq insq : bool) : arg_state :=
  {| a_p := zlen p; a_cur := cur; a_inq := inq; a_insq := insq; a_done := false |}.

(** From after [pre] the loop reads [text], appends [val], in the same mode. *)
Definition runs (line : list Z) (inq insq : bool) (pre text : list Z) (cur : sds) (c val : list Z) : Prop :=
  exists n cur', (n <= length text)%nat /\ sds_rep cur' (c ++ val) /\
    forall fuel, arg_loop junk (n + fuel) line (astate pre cur inq insq) =
      arg_loop junk fuel line (astate (pre ++ text) cur' inq insq).

Lemma runs_app line inq insq pre t1 t2 cur c v1 v2 :
  runs line inq insq pre t1 cur c v1 ->
  (forall cur1, sds_rep cur1 (c ++ v1) -> runs line inq insq (pre ++ t1) t2 cur1 (c ++ v1) v2) ->
  runs line inq insq pre (t1 ++ t2) cur c (v1 ++ v2).
Proof.
  intros (n1 & cur1 & Hn1 & Hr1 & H1) H2. destruct (H2 cur1 Hr1) as (n2 & cur2 & Hn2 & Hr2 & H2').
  exists (n1 + n2)%nat, cur2. rewrite length_app. split; [lia|]. rewrite app_assoc. split; [done|].
  intros fuel. rewrite <-Nat.add_assoc, H1, H2'. by rewrite <-app_assoc.
Qed.

Definition step_of (line : list Z) (st : arg_state) : option (option arg_state) :=
  if a_inq st then inq_step junk line st else if a_insq st then insq_step junk line st else bare_step junk line st.

Lemma bget_app_front (text rest : list Z) i y : bget text i = Some y -> bget (text ++ rest) i = Some y.
Proof.
  intros H. assert (Hi := bget_Some _ _ _ H). rewrite bget_lookup in H |- * by lia.
  by apply lookup_app_l_Some.
Qed.

(** One step that appends a character and advances over [text]. *)
Lemma runs_char line inq insq pre text rest cur c x y :
  line = pre ++ text ++ rest -> sds_rep cur c -> fits (zlen c + 1) ->
  bget text (zlen text - 1) = Some y -> y <> 0 ->
  step_of line (astate pre cur inq insq) = cat_char junk (astate pre cur inq insq) (zlen text - 1) x ->
  runs line inq insq pre text cur c [x].
Proof.
  intros -> Hcur Hb Hy Hy0 Hstep. assert (Hi := bget_Some _ _ _ Hy).
  destruct (sdscatlen_mk junk cur c [x] 1 [x] Hcur eq_refl Hb) as (cur' & Hcat & Hcur').
  exists 1%nat, cur'. split; [lia|]. split; [done|]. intros fuel. cbn [Nat.add arg_loop a_done astate].
  change (if a_inq _ then _ else _) with (step_of (pre ++ text ++ rest) (astate pre cur inq insq)).
  rewrite Hstep. unfold cat_char. cbn [a_cur astate]. rewrite Hcat. cbn [mbind option_bind a_p a_inq a_insq a_done a_cur].
  rewrite bget_pre, (bget_app_front _ _ _ y Hy) by lia. cbn [mbind option_bind].
  rewrite (proj2 (Z.eqb_neq y 0)) by done. cbn [negb]. unfold astate. cbn [a_p a_inq a_insq a_done a_cur].
  by replace (zlen pre + (zlen text - 1) + 1) with (zlen (pre ++ text)) by (rewrite length_app; lia).
Qed.

Ltac at_offset := rewrite <-?Z.add_assoc; rewrite ?bget_pre by lia.

Lemma not_hex_digit_nul c : is_hex_digit c = true -> c <> 0.
Proof. intros H ->. done. Qed.

(** Each element inside double quotes is one step. *)
Lemma runs_dq line pre i rest cur c :
  line = pre ++ dq_text i ++ rest -> dq_ok i -> sds_rep cur c -> fits (zlen c + 1) ->
  runs line true false pre (dq_text i) cur c (dq_value i).
Proof.
  intros Hl Hok Hcur Hb. destruct i as [x|h l|x]; cbn [dq_text dq_value dq_ok] in *.
  - destruct Hok as (H0 & H1 & H2). eapply (runs_char line true false pre [x] rest cur c x x); try done.
    unfold step_of, inq_step, hex_escape. cbn [a_inq astate a_p]. rewrite Hl. cbn [app]. rewrite bget_mid. cbn [mbind option_bind].
    rewrite (proj2 (Z.eqb_neq x ch_bslash)), (proj2 (Z.eqb_neq x ch_dquote)), (proj2 (Z.eqb_neq x 0)) by done. done.
  - destruct Hok as (Hh & Hl'). eapply (runs_char line true false pre [ch_bslash; 120; h; l] rest cur c _ l); try done.
    { by apply not_hex_digit_nul. }
    unfold step_of, inq_step, hex_escape. cbn [a_inq astate a_p]. rewrite Hl. cbn [app].
    rewrite bget_mid, !bget_pre by lia. rewrite bget_1, bget_2, bget_3. cbn. by rewrite Hh, Hl'.
  - destruct Hok as (H0 & H1). eapply (runs_char line true false pre [ch_bslash; x] rest cur c _ x); try done.
    unfold step_of, inq_step, hex_escape. cbn [a_inq astate a_p]. rewrite Hl. cbn [app].
    rewrite bget_mid, !bget_pre by lia. rewrite bget_1. cbn [mbind option_bind]. change (ch_bslash =? ch_bslash) with true. cbv iota.
    rewrite (proj2 (Z.eqb_neq x 120)), (proj2 (Z.eqb_neq x 0)) by done. done.
Qed.

Lemma runs_bare line pre x rest cur c :
  line = pre ++ [x] ++ rest -> bare_ok x -> sds_rep cur c -> fits (zlen c + 1) ->
  runs line false false pre [x] cur c [x].
Proof.
  intros Hl (H0 & H1 & H2 & H3) Hcur Hb. eapply (runs_char line false false pre [x] rest cur c x x); try done.
  unfold step_of, bare_step. cbn [a_inq a_insq astate a_p]. rewrite Hl. cbn [app]. rewrite bget_mid. cbn [mbind option_bind].
  rewrite (proj2 (Z.eqb_neq x ch_dquote)), (proj2 (Z.eqb_neq x ch_squote)), (proj2 (Z.eqb_neq x 0)) by done.
  assert (forall y, isspace (i8 y) = true -> x <> y) as Hn by (intros y Hy ->; congruence).
  rewrite !(proj2 (Z.eqb_neq x _)) by (by apply Hn). done.
Qed.

Lemma runs_sq_char line pre x rest cur c :
  line = pre ++ [x] ++ rest -> x <> 0 -> x <> ch_squote -> (x = ch_bslash -> exists y r, rest = y :: r /\ y <> ch_squote) ->
  sds_rep cur c -> fits (zlen c + 1) ->
  runs line false true pre [x] cur c [x].
Proof.
  intros Hl H0 H1 H2 Hcur Hb. eapply (runs_char line false true pre [x] rest cur c x x); try done.
  unfold step_of, insq_step. cbn [a_inq a_insq astate a_p]. rewrite Hl. cbn [app]. rewrite bget_mid. cbn [mbind option_bind].
  rewrite (proj2 (Z.eqb_neq x ch_squote)), (proj2 (Z.eqb_neq x 0)) by done.
  destruct (Z.eqb_spec x ch_bslash) as [->|]; [|done]. destruct (H2 eq_refl) as (y & r & -> & Hy). cbn [app].
  rewrite bget_pre by lia. rewrite bget_1. cbn [mbind option_bind]. by rewrite (proj2 (Z.eqb_neq y ch_squote)).
Qed.

Lemma runs_sq line pre i rest cur c :
  line = pre ++ sq_text i ++ rest -> sq_ok i -> sds_rep cur c -> fits (zlen c + 2) ->
  runs line false true pre (sq_text i) cur c (sq_value i).
Proof.
  unfold fits. intros Hl Hok Hcur Hb. destruct i as [x| |x]; cbn [sq_text sq_value sq_ok] in *.
  - destruct Hok as (H0 & H1 & H2). eapply (runs_sq_char line pre x rest); try done. unfold fits. lia.
  - eapply (runs_char line false true pre [ch_bslash; ch_squote] rest cur c _ ch_squote); try done; [unfold fits; lia|].
    unfold step_of, insq_step. cbn [a_inq a_insq astate a_p]. rewrite Hl. cbn [app].
    rewrite bget_mid, bget_pre by lia. rewrite bget_1. done.
  - destruct Hok as (H0 & H1 & H2). apply (runs_app line false true pre [ch_bslash] [x] cur c [ch_bslash] [x]).
    + eapply (runs_sq_char line pre ch_bslash ([x] ++ rest)); try done; [|unfold fits; lia]. intros _. by exists x, rest.
    + intros cur1 Hc1. eapply (runs_sq_char line (pre ++ [ch_bslash]) x rest); try done; [by rewrite Hl, <-app_assoc|].
      unfold fits. rewrite length_app. simpl. lia.
Qed.

(** A sequence of elements. *)
Lemma runs_items {I} (text value : I -> list Z) (ok : I -> Prop) inq insq (line : list Z) items :
  (forall i, zlen (value i) <= 2) ->
  (forall pre i rest cur c, line = pre ++ text i ++ rest -> ok i -> sds_rep cur c -> fits (zlen c + 2) ->
    runs line inq insq pre (text i) cur c (value i)) ->
  forall pre rest cur c, line = pre ++ concat (map text items) ++ rest -> Forall ok items ->
  sds_rep cur c -> fits (zlen c + 2 * zlen items) ->
  runs line inq insq pre (concat (map text items)) cur c (concat (map value items)).
Proof.
  unfold fits. intros Hv Hi. induction items as [|i items IH]; intros pre rest cur c Hl Hok Hcur Hb; cbn [map concat length] in *.
  - exists O, cur. rewrite !app_nil_r. done.
  - apply Forall_cons_1 in Hok as [Hok Hoks]. rewrite <-app_assoc in Hl. apply runs_app.
    + apply (Hi _ _ (concat (map text items) ++ rest)); [done..|lia].
    + intros cur1 Hc1. apply (IH _ rest); [by rewrite Hl, <-app_assoc|done|done|].
      rewrite length_app. specialize (Hv i). lia.
Qed.

(** ** The end of an argument *)

Definition quote_char (dq : bool) : Z := if dq then ch_dquote else ch_squote.

(** The opening quote switches mode. *)
Lemma open_quote line pre rest cur fuel (dq : bool) :
  line = pre ++ quote_char dq :: rest ->
  arg_loop junk (S fuel) line (astate pre cur false false) =
    arg_loop junk fuel line (astate (pre ++ [quote_char dq]) cur dq (negb dq)).
Proof.
  intros ->. destruct dq; cbn [arg_loop astate a_done a_inq a_insq quote_char]; unfold bare_step; cbn [astate a_p];
    rewrite bget_mid; cbn [mbind option_bind Z.eqb Pos.eqb orb a_p a_cur a_inq a_insq a_done];
    rewrite bget_mid; cbn [mbind option_bind Z.eqb Pos.eqb negb]; unfold astate;
    rewrite length_app; cbn [length]; by replace (Z.of_nat (length pre + 1)) with (zlen pre + 1) by lia.
Qed.

(** The closing quote ends the argument before a blank or the end of the
    line, and is an error before anything else. *)
Lemma close_quote line pre y rest cur fuel (dq : bool) :
  line = pre ++ quote_char dq :: y :: rest ->
  arg_loop junk (S fuel) line (astate pre cur dq (negb dq)) =
    if (y =? 0) || isspace (i8 y) then Some (Some (zlen pre + 1, cur)) else Some None.
Proof.
  intros ->. set (line := pre ++ _ :: y :: rest).
  assert (Hstep : step_of line (astate pre cur dq (negb dq)) = closing_quote line (astate pre cur dq (negb dq))).
  { unfold line, step_of, inq_step, insq_step, hex_escape. destruct dq; cbn [a_inq a_insq astate negb a_p]; by rewrite bget_mid. }
  cbn [arg_loop]. change (a_done (astate pre cur dq (negb dq))) with false. cbv iota.
  change (if a_inq _ then _ else _) with (step_of line (astate pre cur dq (negb dq))). rewrite Hstep.
  unfold closing_quote. cbn [a_p astate]. unfold line. rewrite bget_app_mid1. cbn [mbind option_bind].
  rewrite <-negb_orb. destruct ((y =? 0) || isspace (i8 y)); cbn [negb]; [|done].
  cbn [mbind option_bind a_p a_cur]. rewrite bget_mid. cbn [mbind option_bind].
  destruct dq; cbn [Z.eqb Pos.eqb negb]; by destruct fuel.
Qed.

(** A blank or the end of the line ends an argument outside quotes. *)
Lemma end_bare line pre y rest cur fuel :
  line = pre ++ y :: rest -> y = 0 \/ blank y ->
  arg_loop junk (S fuel) line (astate pre cur false false) =
    Some (Some (if y =? 0 then zlen pre else zlen pre + 1, cur)).
Proof.
  intros -> Hy. cbn [arg_loop astate a_done a_inq a_insq]. unfold bare_step. cbn [astate a_p].
  rewrite bget_mid. cbn [mbind option_bind].
  assert ((y =? 32) || (y =? 10) || (y =? 13) || (y =? 9) || (y =? 0) = true) as ->
    by (by destruct Hy as [->|[->|[->|[->| ->]]]]).
  cbn [mbind option_bind a_p a_cur a_inq a_insq]. rewrite bget_mid. cbn [mbind option_bind].
  destruct (y =? 0); cbn [negb]; by destruct fuel.
Qed.

(** Inside quotes the end of the line is an error. *)
Lemma unterminated line pre rest cur fuel (dq : bool) :
  line = pre ++ 0 :: rest -> arg_loop junk (S fuel) line (astate pre cur dq (negb dq)) = Some None.
Proof.
  intros ->. destruct dq; cbn [arg_loop astate a_done a_inq a_insq negb]; unfold inq_step, insq_step, hex_escape;
    cbn [astate a_p]; rewrite bget_mid; done.
Qed.

Lemma concat_singletons (l : list Z) : concat (map (fun c => [c]) l) = l.
Proof. induction l as [|x l IH]; [done|]. cbn. by rewrite IH. Qed.

Lemma dq_value_length i : zlen (dq_value i) <= 2.
Proof. destruct i; cbn; lia. Qed.
Lemma sq_value_length i : zlen (sq_value i) <= 2.
Proof. destruct i; cbn; lia. Qed.
Lemma dq_items_length l : (length l <= length (concat (map dq_text l)))%nat.
Proof. induction l as [|i l IH]; [done|]. cbn. rewrite length_app. destruct i; cbn; lia. Qed.
Lemma sq_items_length l : (length l <= length (concat (map sq_text l)))%nat.
Proof. induction l as [|i l IH]; [done|]. cbn. rewrite length_app. destruct i; cbn; lia. Qed.

Lemma runs_bares line b pre rest cur c :
  line = pre ++ b ++ rest -> Forall bare_ok b -> sds_rep cur c -> fits (zlen c + 2 * zlen line) ->
  runs line false false pre b cur c b.
Proof.
  unfold fits. intros Hl Hb Hcur Hf. assert (Hlen := f_equal (fun l => zlen l) Hl). cbn beta in Hlen. rewrite !length_app in Hlen.
  rewrite <-(concat_singletons b) in Hl |- *.
  eapply (runs_items (fun c => [c]) (fun c => [c]) bare_ok); [cbn; lia| |done..|unfold fits; lia].
  unfold fits. intros pre0 x rest0 cur0 c0 Hl0 Hx Hc0 Hf0. eapply runs_bare; [done..|unfold fits; lia].
Qed.

(** The elements between quotes. *)
Lemma runs_quoted line q pre rest cur c :
  fits (zlen c + 2 * zlen line) -> quoted_ok q -> sds_rep cur c ->
  match q with
  | Bare => True
  | DQuoted l => line = pre ++ concat (map dq_text l) ++ rest ->
                 runs line true false pre (concat (map dq_text l)) cur c (concat (map dq_value l))
  | SQuoted l => line = pre ++ concat (map sq_text l) ++ rest ->
                 runs line false true pre (concat (map sq_text l)) cur c (concat (map sq_value l))
  end.
Proof.
  unfold fits. intros Hf Hq Hcur. destruct q as [|l|l]; [done|intros Hl..];
    assert (Hlen := f_equal (fun l => zlen l) Hl); cbn beta in Hlen; rewrite !length_app in Hlen; cbn [quoted_ok] in Hq.
  - pose proof (dq_items_length l).
    eapply (runs_items dq_text dq_value dq_ok); [apply dq_value_length| |done..|unfold fits; lia].
    unfold fits. intros pre0 x rest0 cur0 c0 Hl0 Hx Hc0 Hf0. eapply runs_dq; [done..|unfold fits; lia].
  - pose proof (sq_items_length l).
    eapply (runs_items sq_text sq_value sq_ok); [apply sq_value_length| |done..|unfold fits; lia].
    unfold fits. intros pre0 x rest0 cur0 c0 Hl0 Hx Hc0 Hf0. eapply runs_sq; [done..|unfold fits; lia].
Qed.

(** From the opening to the closing quote. *)
Lemma quoted_end line pre txt val y rest cur c (dq : bool) :
  line = pre ++ (quote_char dq :: txt ++ [quote_char dq]) ++ y :: rest -> y = 0 \/ blank y ->
  runs line dq (negb dq) (pre ++ [quote_char dq]) txt cur c val ->
  exists m cur', (m <= length txt)%nat /\ sds_rep cur' (c ++ val) /\
    forall fuel, arg_loop junk (S (m + S fuel)) line (astate pre cur false false) =
      Some (Some (zlen (pre ++ quote_char dq :: txt ++ [quote_char dq]), cur')).
Proof.
  intros Hl Hy (m & cur' & Hm & Hr & Hrun). exists m, cur'. split; [done|]. split; [done|]. intros fuel.
  rewrite <-app_comm_cons, <-app_assoc in Hl. rewrite (open_quote _ _ _ _ _ dq Hl), Hrun.
  rewrite (close_quote _ _ y rest _ _ dq) by (by rewrite Hl, <-!app_assoc).
  assert ((y =? 0) || isspace (i8 y) = true) as -> by (by destruct Hy as [->|[->|[->|[->| ->]]]]).
  do 3 f_equal. rewrite !length_app. cbn [length]. rewrite length_app. cbn [length]. lia.
Qed.

(** The same for the quoted part of an argument, if it has one. *)
Lemma quoted_run line pre q y rest cur c :
  line = pre ++ quoted_text q ++ y :: rest -> y = 0 \/ blank y -> quoted_ok q -> sds_rep cur c ->
  fits (zlen c + 2 * zlen line) ->
  exists m cur' p, (m <= length (quoted_text q))%nat /\ sds_rep cur' (c ++ quoted_value q) /\
    (forall fuel, arg_loop junk (m + S fuel) line (astate pre cur false false) = Some (Some (p, cur'))) /\
    (p = zlen (pre ++ quoted_text q) \/ p = zlen (pre ++ quoted_text q) + 1 /\ blank y).
Proof.
  intros Hl Hy Hq Hcur Hf. destruct q as [|l|l]; cbn [quoted_text quoted_value] in *.
  - exists O, cur, (if y =? 0 then zlen pre else zlen pre + 1). rewrite !app_nil_r.
    split; [simpl; lia|]. split; [done|]. split; [intros fuel; by apply (end_bare _ _ _ rest)|].
    destruct Hy as [->|Hy]; [by left|]. right. split; [|done]. by destruct Hy as [->|[->|[->| ->]]].
  - assert (Hrun := runs_quoted line (DQuoted l) (pre ++ [ch_dquote]) (ch_dquote :: y :: rest) cur c Hf Hq Hcur).
    destruct (quoted_end line pre _ _ y rest cur c true Hl Hy (Hrun ltac:(by rewrite Hl; simpl; rewrite <-!app_assoc)))
      as (m & cur' & Hm & Hr & Hend).
    exists (S m), cur', (zlen (pre ++ ch_dquote :: concat (map dq_text l) ++ [ch_dquote])).
    cbn [length]. rewrite length_app. split; [lia|]. split; [done|]. split; [exact Hend|by left].
  - assert (Hrun := runs_quoted line (SQuoted l) (pre ++ [ch_squote]) (ch_squote :: y :: rest) cur c Hf Hq Hcur).
    destruct (quoted_end line pre _ _ y rest cur c false Hl Hy (Hrun ltac:(by rewrite Hl; simpl; rewrite <-!app_assoc)))
      as (m & cur' & Hm & Hr & Hend).
    exists (S m), cur', (zlen (pre ++ ch_squote :: concat (map sq_text l) ++ [ch_squote])).
    cbn [length]. rewrite length_app. split; [lia|]. split; [done|]. split; [exact Hend|by left].
Qed.

(** A whole argument; after one outside quotes the blank is passed as well. *)
Lemma arg_run line a pre y rest cur :
  line = pre ++ arg_text a ++ y :: rest -> y = 0 \/ blank y -> arg_ok a -> sds_rep cur [] ->
  fits (4 * zlen line) ->
  exists cur' p, sds_rep cur' (arg_value a) /\
    arg_loop junk (length line) line (astate pre cur false false) = Some (Some (p, cur')) /\
    (p = zlen (pre ++ arg_text a) \/ p = zlen (pre ++ arg_text a) + 1 /\ blank y).
Proof.
  unfold fits. intros Hl Hy (Hb & Hq & _) Hcur Hf. unfold arg_text, arg_value in *. rewrite <-app_assoc in Hl.
  assert (Hlen := f_equal (@length Z) Hl). rewrite !length_app in Hlen. cbn [length] in Hlen.
  destruct (runs_bares line (bare a) pre _ cur [] Hl Hb Hcur) as (n & cur1 & Hn & Hr1 & H1); [unfold fits; simpl; lia|].
  cbn [app] in Hr1. rewrite app_assoc in Hl |- *.
  destruct (quoted_run line (pre ++ bare a) (tail a) y rest cur1 (bare a) Hl Hy Hq Hr1) as (m & cur' & p & Hm & Hr & Hrun & Hp);
    [unfold fits; lia|].
  exists cur', p. split; [done|]. split; [|done].
  replace (length line) with (n + (m + S (length line - n - m - 1)))%nat by lia. by rewrite H1.
Qed.

(** An argument whose quotes do not balance, or with a character after the
    closing quote. *)
Definition bad_text (b : list Z) (dq : bool) (txt : list Z) (last : list Z) : list Z :=
  b ++ quote_char dq :: txt ++ last.
Definition bad_ending (dq : bool) (last : list Z) : Prop :=
  (exists r, last = 0 :: r) \/
  (exists y r, last = quote_char dq :: y :: r /\ y <> 0 /\ isspace (i8 y) = false).

Lemma bad_run line pre b q last cur (dq : bool) txt :
  line = pre ++ bad_text b dq txt last -> bad_ending dq last ->
  (dq = true /\ exists l, q = DQuoted l /\ txt = concat (map dq_text l)) \/
  (dq = false /\ exists l, q = SQuoted l /\ txt = concat (map sq_text l)) ->
  Forall bare_ok b -> quoted_ok q -> sds_rep cur [] -> fits (4 * zlen line) ->
  arg_loop junk (length line) line (astate pre cur false false) = Some None.
Proof.
  unfold fits, bad_text. intros Hl Hbad Hq Hb Hqok Hcur Hf.
  assert (Hlen := f_equal (@length Z) Hl). rewrite !length_app in Hlen. cbn [length] in Hlen. rewrite length_app in Hlen.
  assert (Hlast : (1 <= length last)%nat) by (destruct Hbad as [[r ->]|(y & r & -> & _)]; simpl; lia).
  destruct (runs_bares line b pre _ cur [] Hl Hb Hcur) as (n & cur1 & Hn & Hr1 & H1); [unfold fits; simpl; lia|].
  cbn [app] in Hr1.
  assert (Hrun : exists v, runs line dq (negb dq) ((pre ++ b) ++ [quote_char dq]) txt cur1 b v).
  { assert (HQ := runs_quoted line q ((pre ++ b) ++ [quote_char dq]) last cur1 b ltac:(unfold fits; lia) Hqok Hr1).
    destruct Hq as [(-> & l & -> & ->)|(-> & l & -> & ->)]; eexists; apply HQ; by rewrite Hl, <-!app_assoc. }
  destruct Hrun as (v & m & cur' & Hm & Hr & Hrun).
  replace (length line) with (n + S (m + S (length line - n - m - 2)))%nat by lia. rewrite H1.
  rewrite (open_quote _ _ (txt ++ last) _ _ dq) by (by rewrite Hl, <-!app_assoc). rewrite Hrun.
  destruct Hbad as [[r ->]|(y & r & -> & Hy & Hys)].
  - apply (unterminated _ _ r). by rewrite Hl, <-!app_assoc.
  - rewrite (close_quote _ _ y r _ _ dq) by (by rewrite Hl, <-!app_assoc).
    by rewrite (proj2 (Z.eqb_neq y 0)), Hys by done.
Qed.

(** ** The line *)

(** Not skipped as a blank: the terminator or a character that is not space. *)
Definition stops (x : Z) : Prop := x = 0 \/ isspace (i8 x) = false.

Lemma blank_space x : blank x -> x <> 0 /\ isspace (i8 x) = true.
Proof. by intros [->|[->|[->| ->]]]. Qed.

Lemma skip_blanks_spec line b : forall fuel pre x r,
  line = pre ++ b ++ x :: r -> Forall blank b -> stops x -> (length b <= fuel)%nat ->
  skip_blanks fuel line (zlen pre) = Some (zlen (pre ++ b)).
Proof.
  induction b as [|c b IH]; intros fuel pre x r Hl Hb Hx Hf.
  - cbn [app] in Hl. subst line. rewrite app_nil_r.
    destruct fuel; cbn [skip_blanks]; rewrite bget_mid; cbn [mbind option_bind];
      (destruct Hx as [->|Hx]; [done|]); by rewrite Hx, andb_false_r.
  - apply Forall_cons_1 in Hb as [Hc Hb]. apply blank_space in Hc as [Hc0 Hc].
    destruct fuel as [|fuel]; [simpl in Hf; lia|]. cbn [skip_blanks].
    assert (Hget : bget line (zlen pre) = Some c) by (subst line; apply bget_mid). rewrite Hget. cbn [mbind option_bind].
    rewrite (proj2 (Z.eqb_neq c 0)), Hc by done. cbn [negb andb].
    replace (zlen pre + 1) with (zlen (pre ++ [c])) by (rewrite length_app; simpl; lia).
    rewrite (IH fuel (pre ++ [c]) x r); [by rewrite <-app_assoc|by rewrite Hl, <-app_assoc|done|done|simpl in Hf; lia].
Qed.

(** Blanks in front of the pointer do not matter to the loop. *)
Lemma loop_blanks line pre b1 b2 x r fuel vector :
  line = pre ++ b1 ++ b2 ++ x :: r -> Forall blank b1 -> Forall blank b2 -> stops x ->
  splitargs_loop junk fuel line (zlen (pre ++ b1)) vector = splitargs_loop junk fuel line (zlen pre) vector.
Proof.
  intros Hl H1 H2 Hx. destruct fuel; [done|]. cbn [splitargs_loop].
  assert (Hlen := f_equal (@length Z) Hl). rewrite !length_app in Hlen. cbn [length] in Hlen.
  rewrite (skip_blanks_spec line b2 _ (pre ++ b1) x r) by (done || lia || by rewrite Hl, <-!app_assoc).
  rewrite (skip_blanks_spec line (b1 ++ b2) _ pre x r); [by rewrite <-!app_assoc| | |done|rewrite length_app; lia].
  - by rewrite Hl, <-!app_assoc.
  - by apply Forall_app.
Qed.

(** What follows an argument: blanks, then something that is not a blank; at
    least one blank, or the end of the line. *)
Definition follows (R : list Z) : Prop :=
  exists b x r, R = b ++ x :: r /\ Forall blank b /\ stops x /\ (b <> [] \/ x = 0).

Lemma arg_text_head a : arg_ok a -> exists x r, arg_text a = x :: r /\ x <> 0 /\ isspace (i8 x) = false.
Proof.
  intros (Hb & _ & Hne). unfold arg_text. destruct (bare a) as [|x b]; cbn [app].
  - destruct (tail a) as [|l|l]; [by destruct Hne| |]; eexists _, _; split; done.
  - apply Forall_cons_1 in Hb as [(H0 & Hx & _) _]. by exists x, (b ++ quoted_text (tail a)).
Qed.

Lemma line_follows args rest : line_ok false args -> follows rest -> follows (line_text args ++ rest).
Proof.
  intros Hok Hr. destruct args as [|[b a] args]; [done|]. destruct Hok as (Hb & Hne & Ha & _). cbn [line_text].
  destruct (arg_text_head a Ha) as (x & r & Hx & _ & Hs). exists b, x, (r ++ line_text args ++ rest).
  rewrite Hx, <-!app_assoc. split_and!; [done|done|by right|]. destruct Hne; [done|by left].
Qed.

Lemma args_run args : forall line pre rest vector first,
  line = pre ++ line_text args ++ rest -> line_ok first args -> follows rest -> fits (4 * zlen line) ->
  exists toks, Forall2 sds_rep toks (map (fun a => arg_value a.2) args) /\
    forall fuel, splitargs_loop junk (length args + fuel) line (zlen pre) vector =
      splitargs_loop junk fuel line (zlen (pre ++ line_text args)) (vector ++ toks).
Proof.
  induction args as [|[b a] args IH]; intros line pre rest vector first Hl Hok Hr Hf.
  { exists []. split; [constructor|]. intros fuel. by rewrite !app_nil_r. }
  destruct Hok as (Hb & _ & Ha & Hok). cbn [line_text] in Hl. rewrite <-!app_assoc in Hl.
  destruct (sdsempty_rep junk) as (cur & Hempty & Hcur).
  destruct (line_follows args rest Hok Hr) as (b' & x' & r' & HR & Hb' & Hx' & Hne).
  assert (exists y R, line_text args ++ rest = y :: R /\ (y = 0 \/ blank y)) as (y & R & HyR & Hy).
  { rewrite HR. destruct b' as [|y b']; [destruct Hne as [?| ->]; [done|]; eauto|].
    apply Forall_cons_1 in Hb' as [? _]. eexists y, _. split; [done|by right]. }
  destruct (arg_text_head a Ha) as (x & r & Hx & Hx0 & Hxs).
  assert (Hl1 : line = (pre ++ b) ++ arg_text a ++ y :: R) by (by rewrite Hl, HyR, <-app_assoc).
  destruct (arg_run line a (pre ++ b) y R cur Hl1 Hy Ha Hcur Hf) as (cur' & p & Hrep & Hrun & Hp).
  destruct (IH line (pre ++ b ++ arg_text a) rest (vector ++ [cur']) false) as (toks & Htoks & HIH);
    [by rewrite Hl, <-!app_assoc|done..|].
  exists (cur' :: toks). split; [by constructor|]. intros fuel. cbn [length Nat.add splitargs_loop].
  assert (Hlen := f_equal (@length Z) Hl). rewrite !length_app in Hlen.
  rewrite (skip_blanks_spec line b _ pre x (r ++ line_text args ++ rest)); [|by rewrite Hl, Hx|done|by right|lia].
  cbn [mbind option_bind].
  assert (Hget : bget line (zlen (pre ++ b)) = Some x) by (rewrite Hl1, Hx; cbn [app]; apply bget_mid).
  rewrite Hget. cbn [mbind option_bind]. rewrite (proj2 (Z.eqb_neq x 0)) by done. cbn [negb].
  rewrite Hempty. cbn [mbind option_bind]. unfold astate in Hrun. rewrite Hrun. cbn [mbind option_bind].
  assert (Hgo : splitargs_loop junk (length args + fuel) line p (vector ++ [cur']) =
    splitargs_loop junk (length args + fuel) line (zlen (pre ++ b ++ arg_text a)) (vector ++ [cur'])).
  { rewrite <-app_assoc in Hp. destruct Hp as [->|[-> Hbl]]; [done|].
    replace (zlen (pre ++ b ++ arg_text a) + 1) with (zlen ((pre ++ b ++ arg_text a) ++ [y])) by (rewrite length_app; simpl; lia).
    destruct b' as [|y' b']; cbn [app] in HR; rewrite HR in HyR; injection HyR as -> HR'.
    - destruct Hne as [?| ->]; [done|]. by apply blank_space in Hbl as [? _].
    - apply Forall_cons_1 in Hb' as [Hy' Hb']. apply (loop_blanks line _ [y] b' x' r'); [|by constructor|done|done].
      rewrite Hl1, <-!app_assoc, <-HR'. done. }
  rewrite Hgo, HIH. cbn [line_text]. by rewrite <-!app_assoc.
Qed.

Lemma line_args_length args first : line_ok first args -> (length args <= length (line_text args))%nat.
Proof.
  revert first. induction args as [|[b a] args IH]; intros first Hok; [done|]. destruct Hok as (_ & _ & Ha & Hok).
  destruct (arg_text_head a Ha) as (x & r & Hx & _). cbn [line_text length]. rewrite !length_app, Hx. cbn [length].
  specialize (IH _ Hok). lia.
Qed.

Lemma splitargs_good args trail post :
  let line := line_text args ++ trail ++ 0 :: post in
  line_ok true args -> Forall blank trail -> fits (4 * zlen line) ->
  exists toks, sdssplitargs junk line = Some (Some toks) /\
    Forall2 sds_rep toks (map (fun a => arg_value a.2) args).
Proof.
  intros line Hok Ht Hf. assert (Hfol : follows (trail ++ 0 :: post)).
  { exists trail, 0, post. split_and!; [done|done|by left|by right]. }
  destruct (args_run args line [] _ [] true eq_refl Hok Hfol Hf) as (toks & Htoks & Hrun).
  exists toks. split; [|done]. unfold sdssplitargs. assert (Hlen := line_args_length args true Hok).
  assert (Hll : (length (line_text args) < length line)%nat) by (unfold line; rewrite !length_app; cbn [length]; lia).
  replace (S (length line)) with (length args + S (length line - length args))%nat by lia.
  change 0 with (zlen (@nil Z)) at 1. rewrite Hrun. cbn [app splitargs_loop].
  rewrite (skip_blanks_spec line trail _ (line_text args) 0 post) by (done || (by left) || (unfold line; rewrite !length_app; lia)).
  cbn [mbind option_bind].
  assert (Hget : bget line (zlen (line_text args ++ trail)) = Some 0) by (unfold line; rewrite app_assoc; apply bget_mid).
  rewrite Hget. done.
Qed.

Lemma splitargs_bad args b0 b q (dq : bool) txt last :
  let line := line_text args ++ b0 ++ bad_text b dq txt last in
  line_ok true args -> Forall blank b0 -> args = [] \/ b0 <> [] -> bad_ending dq last ->
  (dq = true /\ exists l, q = DQuoted l /\ txt = concat (map dq_text l)) \/
  (dq = false /\ exists l, q = SQuoted l /\ txt = concat (map sq_text l)) ->
  Forall bare_ok b -> quoted_ok q -> fits (4 * zlen line) -> sdssplitargs junk line = Some None.
Proof.
  intros line Hok Hb0 Hne Hbad Hq Hb Hqok Hf.
  assert (exists x r, bad_text b dq txt last = x :: r /\ x <> 0 /\ isspace (i8 x) = false) as (x & r & Hx & Hx0 & Hxs).
  { unfold bad_text. destruct b as [|x b]; cbn [app]; [eexists _, _; split; [done|by destruct dq]|].
    apply Forall_cons_1 in Hb as [(? & ? & _) _]. by eexists x, _. }
  assert (Hrun : exists toks, forall fuel, splitargs_loop junk (length args + fuel) line 0 [] =
      splitargs_loop junk fuel line (zlen (line_text args)) toks).
  { destruct Hne as [->|Hne]; [by exists []|].
    destruct (args_run args line [] (b0 ++ bad_text b dq txt last) [] true eq_refl Hok) as (toks & _ & Hrun); [|done|by exists toks].
    exists b0, x, r. split_and!; [by rewrite Hx|done|by right|by left]. }
  destruct Hrun as (toks & Hrun). unfold sdssplitargs. assert (Hlen := line_args_length args true Hok).
  assert (Hll : (length (line_text args) < length line)%nat) by (unfold line; rewrite !length_app, Hx; cbn [length]; lia).
  replace (S (length line)) with (length args + S (length line - length args))%nat by lia.
  rewrite Hrun. cbn [splitargs_loop].
  rewrite (skip_blanks_spec line b0 _ (line_text args) x r);
    [|unfold line; by rewrite Hx|done|by right|unfold line; rewrite !length_app; lia].
  cbn [mbind option_bind].
  assert (Hget : bget line (zlen (line_text args ++ b0)) = Some x) by (unfold line; rewrite app_assoc, Hx; apply bget_mid).
  rewrite Hget. cbn [mbind option_bind]. rewrite (proj2 (Z.eqb_neq x 0)) by done. cbn [negb].
  destruct (sdsempty_rep junk) as (cur & Hempty & Hcur). rewrite Hempty. cbn [mbind option_bind].
  assert (HB := bad_run line (line_text args ++ b0) b q last cur dq txt ltac:(unfold line; by rewrite <-app_assoc)
    Hbad Hq Hb Hqok Hcur Hf). unfold astate in HB. by rewrite HB.
Qed.
End Args.

(** ** Quoted representations are read back *)

(** The element that stands for a byte in its quoted representation. *)
Definition repr_item (c : Z) : dqitem :=
  if (c =? ch_bslash) || (c =? ch_dquote) then QEsc c
  else if c =? 10 then QEsc 110 else if c =? 13 then QEsc 114 else if c =? 9 then QEsc 116
  else if c =? 7 then QEsc 97 else if c =? 8 then QEsc 98
  else if isprint (i8 c) then QLit c
  else QHex (hexdigit (c / 16)) (hexdigit (c mod 16)).

Lemma hexdigit_hex d : 0 <= d < 16 -> is_hex_digit (hexdigit d) = true /\ hex_digit_to_int (hexdigit d) = d.
Proof.
  intros Hd. unfold is_hex_digit, hex_digit_to_int, hexdigit. destruct (Z.ltb_spec d 10).
  - ztrue (ch_0 <=? ch_0 + d). ztrue (ch_0 + d <=? ch_9). cbn. split; [done|lia].
  - zfalse (97 + (d - 10) <=? ch_9). ztrue (97 <=? 97 + (d - 10)). ztrue (97 + (d - 10) <=? 102).
    rewrite andb_false_r. cbn. split; [done|lia].
Qed.

Lemma repr_item_spec c : byte_ok c ->
  dq_text (repr_item c) = repr_char c /\ dq_value (repr_item c) = [c] /\ dq_ok (repr_item c).
Proof.
  intros Hc. unfold byte_ok in Hc. unfold repr_item, repr_char.
  destruct (Z.eqb_spec c ch_bslash) as [->|Hb]; [done|]. destruct (Z.eqb_spec c ch_dquote) as [->|Hq]; [done|]. cbn [orb].
  repeat match goal with |- context [c =? ?k] => destruct (Z.eqb_spec c k) as [->|]; [done|] end.
  destruct (isprint (i8 c)) eqn:E.
  - split; [done|]. split; [done|]. cbn. split; [|done]. by intros ->.
  - destruct (hexdigit_hex (c / 16)) as [Hh1 Hv1]; [dlia|]. destruct (hexdigit_hex (c mod 16)) as [Hh2 Hv2]; [dlia|].
    cbn [dq_text dq_value dq_ok]. split; [done|]. rewrite Hv1, Hv2. split; [|done]. f_equal. unfold u8. dlia.
Qed.

Definition repr_arg (p : list Z) : argument := {| bare := []; tail := DQuoted (map repr_item p) |}.

Lemma repr_arg_spec p : bytes_ok p -> arg_text (repr_arg p) = repr p /\ arg_value (repr_arg p) = p /\ arg_ok (repr_arg p).
Proof.
  intros Hp. unfold arg_text, arg_value, arg_ok, repr_arg, repr. cbn [bare tail quoted_text quoted_value quoted_ok app].
  assert (concat (map dq_text (map repr_item p)) = concat (map repr_char p) /\
    concat (map dq_value (map repr_item p)) = p /\ Forall dq_ok (map repr_item p)) as (-> & -> & Hok).
  { induction Hp as [|c p Hc Hp (IH1 & IH2 & IH3)]; [done|]. destruct (repr_item_spec c Hc) as (H1 & H2 & H3).
    cbn [map concat]. rewrite H1, H2, IH1, IH2. split_and!; [done|done|by constructor]. }
  split_and!; [done|done|constructor|done|by right].
Qed.

(** The line that quotes the strings [ps] with a space between them. *)
Lemma repr_line ps : Forall bytes_ok ps -> forall first b, Forall blank b -> (first = true \/ b <> []) ->
  exists args, line_text args = match ps with [] => [] | _ => b ++ intercalate [32] (map repr ps) end /\
    line_ok first args /\ map (fun a => arg_value a.2) args = ps.
Proof.
  induction 1 as [|p ps Hp Hps IH]; intros first b Hb Hne; [by exists []|].
  destruct (IH false [32]) as (args & Ht & Hok & Hv); [by constructor; [by left|constructor]|by right|].
  destruct (repr_arg_spec p Hp) as (H1 & H2 & H3). exists ((b, repr_arg p) :: args).
  cbn [line_text line_ok map]. cbn [snd]. rewrite H1, H2, Ht, Hv. split; [|done].
  destruct ps; [by rewrite app_nil_r|done].
Qed.

Section Theorems.
  Context (junk : Z -> Z).

(** C11. A line of arguments is split into their values, whatever mix of bare,
    double quoted and single quoted text it is made of. *)
Theorem sdssplitargs_correct args trail post :
  line_ok true args -> Forall blank trail -> fits (4 * zlen (line_text args ++ trail ++ 0 :: post)) ->
  exists toks, sdssplitargs junk (line_text args ++ trail ++ 0 :: post) = Some (Some toks) /\
    Forall2 sds_rep toks (map (fun a => arg_value a.2) args).
Proof. apply splitargs_good. Qed.

(** C12. Unbalanced quotes, and a character after a closing quote, give NULL. *)
Theorem sdssplitargs_unbalanced args b0 b q (dq : bool) txt last :
  line_ok true args -> Forall blank b0 -> args = [] \/ b0 <> [] -> bad_ending dq last ->
  (dq = true /\ exists l, q = DQuoted l /\ txt = concat (map dq_text l)) \/
  (dq = false /\ exists l, q = SQuoted l /\ txt = concat (map sq_text l)) ->
  Forall bare_ok b -> quoted_ok q -> fits (4 * zlen (line_text args ++ b0 ++ bad_text b dq txt last)) ->
  sdssplitargs junk (line_text args ++ b0 ++ bad_text b dq txt last) = Some None.
Proof. apply splitargs_bad. Qed.

(** C13. Strings quoted by sdscatrepr and separated by spaces are split back into
    themselves. *)
Theorem sdssplitargs_repr ps post :
  Forall bytes_ok ps -> fits (4 * zlen (intercalate [32] (map repr ps) ++ 0 :: post)) ->
  (forall p s c, p ∈ ps -> sds_rep s c -> fits (zlen c + 4 * zlen p + 2) ->
     exists s', sdscatrepr junk s p (zlen p) = Some s' /\ sds_rep s' (c ++ repr p)) /\
  exists toks, sdssplitargs junk (intercalate [32] (map repr ps) ++ 0 :: post) = Some (Some toks) /\
    Forall2 sds_rep toks ps.
Proof.
  intros Hps Hf. split.
  - intros p s c Hp Hs Hb. assert (Hpb : bytes_ok p) by by eapply (proj1 (list.Forall_forall bytes_ok ps)).
    assert (HR := sdscatrepr_spec junk s c p [] Hs Hpb Hb). by rewrite app_nil_r in HR.
  - destruct (repr_line ps Hps true []) as (args & Ht & Hok & Hv); [constructor|by left|].
    assert (Hl : intercalate [32] (map repr ps) = line_text args) by (rewrite Ht; by destruct ps).
    rewrite Hl in Hf |- *. assert (HG := splitargs_good junk args [] post Hok ltac:(constructor) Hf).
    by rewrite Hv in HG.
Qed.
End Theorems.

(** get "a b\x41" *)
Definition sample_args : list (list Z * argument) :=
  [([], {| bare := [103; 101; 116]; tail := Bare |});
   ([32], {| bare := []; tail := DQuoted [QLit 97; QLit 32; QLit 98; QHex 52 49] |})].

Lemma sample_args_ok : line_ok true sample_args.
Proof.
  unfold sample_args. cbn. unfold arg_ok. cbn. split_and!; try (by left); try done.
  - repeat constructor; done.
  - by constructor; [left|].
  - by right.
  - repeat constructor; done.
  - by right.
Qed.

Lemma sdssplitargs_correct_witness :
  exists toks, sdssplitargs (fun _ => 0) (line_text sample_args ++ [10] ++ 0 :: []) = Some (Some toks) /\
    Forall2 sds_rep toks (map (fun a => arg_value a.2) sample_args).
Proof.
  apply sdssplitargs_correct; [apply sample_args_ok|by constructor; [right; left|]|by vm_compute].
Defined.

(** A quote that the line does not close. *)
Lemma sdssplitargs_unbalanced_witness :
  sdssplitargs (fun _ => 0) (line_text sample_args ++ [32] ++ bad_text [97] true (concat (map dq_text [QLit 98])) [0]) = Some None.
Proof.
  apply (sdssplitargs_unbalanced (fun _ => 0) sample_args [32] [97] (DQuoted [QLit 98]) true (concat (map dq_text [QLit 98])) [0]).
  - apply sample_args_ok.
  - by constructor; [left|].
  - by right.
  - left. by exists [].
  - left. split; [done|]. by exists [QLit 98].
  - repeat constructor; done.
  - repeat constructor; done.
  - by vm_compute.
Defined.

Lemma sdssplitargs_repr_witness :
  let ps := [[0; 255; 34]; []; [104; 105]] in
  (forall p s c, p ∈ ps -> sds_rep s c -> fits (zlen c + 4 * zlen p + 2) ->
     exists s', sdscatrepr (fun _ => 0) s p (zlen p) = Some s' /\ sds_rep s' (c ++ repr p)) /\
  exists toks, sdssplitargs (fun _ => 0) (intercalate [32] (map repr ps) ++ 0 :: []) = Some (Some toks) /\
    Forall2 sds_rep toks ps.
Proof.
  intros ps. apply sdssplitargs_repr; [|by vm_compute].
  repeat constructor; unfold byte_ok; lia.
Defined.
