(* ===== verification/SdsFmt.v ===== *)
(** sds.c, sdscatfmt: the formatted append, and its specification by the
    pieces of a format. *)

From S2P Require Import Prelude Decimal Sds SdsString.

(** ** sdscatfmt *)

(** The variadic arguments, by the type va_arg takes them at. *)
Inductive va_value :=
  | VaStr (s : list Z) | VaSds (s : sds)
  | VaInt (n : Z) | VaLongLong (n : Z) | VaUInt (n : Z) | VaULongLong (n : Z).

Section SdsFmt.
  Context (junk : Z -> Z).

(** memcpy(s+i,str,l) after making room, sdsinclen, i += l *)
Definition catfmt_bytes (s : sds) (i : Z) (t : list Z) (l : Z) : option (sds * Z) :=
  avail ← sdsavail s;
  s ← (if avail <? l then sdsMakeRoomFor junk s l else Some s);
  bs ← bread t 0 l;
  s ← swrite s i bs;
  s ← sdsinclen s l;
  Some (s, i32 (i + l)).

Definition catfmt_char (s : sds) (i c : Z) : option (sds * Z) :=
  s ← sset s i c; s ← sdsinclen s 1; Some (s, i + 1).

(** One conversion specification, its character being [next]. *)
Definition catfmt_spec (s : sds) (i next : Z) (ap : list va_value) : option (sds * Z * list va_value) :=
  if (next =? 115) || (next =? 83) then
    match ap with
    | VaStr t :: ap => if next =? 115 then l ← strlen t 0; '(s, i) ← catfmt_bytes s i t l; Some (s, i, ap) else None
    | VaSds t :: ap => if next =? 83 then l ← sdslen t; '(s, i) ← catfmt_bytes s i (schars t) l; Some (s, i, ap) else None
    | _ => None
    end
  else if (next =? 105) || (next =? 73) then
    '(num, ap) ← (match ap with
                  | VaInt n :: ap => if next =? 105 then Some (n, ap) else None
                  | VaLongLong n :: ap => if next =? 73 then Some (n, ap) else None
                  | _ => None
                  end);
    '(buf, l) ← sdsll2str (s_malloc junk SDS_LLSTR_SIZE) num;
    '(s, i) ← catfmt_bytes s i buf l;
    Some (s, i, ap)
  else if (next =? 117) || (next =? 85) then
    '(unum, ap) ← (match ap with
                   | VaUInt n :: ap => if next =? 117 then Some (n, ap) else None
                   | VaULongLong n :: ap => if next =? 85 then Some (n, ap) else None
                   | _ => None
                   end);
    '(buf, l) ← sdsull2str (s_malloc junk SDS_LLSTR_SIZE) unum;
    '(s, i) ← catfmt_bytes s i buf l;
    Some (s, i, ap)
  else '(s, i) ← catfmt_char s i next; Some (s, i, ap).

Fixpoint catfmt_loop (fuel : nat) (fmt : list Z) (f : Z) (s : sds) (i : Z) (ap : list va_value) : option (sds * Z) :=
  c ← bget fmt f;
  if c =? 0 then Some (s, i) else
  match fuel with
  | O => None
  | S fuel =>
      avail ← sdsavail s;
      s ← (if avail =? 0 then sdsMakeRoomFor junk s 1 else Some s);
      if c =? 37 then
        next ← bget fmt (f + 1);
        '(s, i, ap) ← catfmt_spec s i next ap;
        catfmt_loop fuel fmt (f + 1 + 1) s i ap
      else
        '(s, i) ← catfmt_char s i c;
        catfmt_loop fuel fmt (f + 1) s i ap
  end.

Definition sdscatfmt (s : sds) (fmt : list Z) (ap : list va_value) : option sds :=
  initlen ← sdslen s;
  '(s, i) ← catfmt_loop (length fmt) fmt 0 s (i32 initlen) ap;
  sset s i ch_nul.

End SdsFmt.

(** ** Pieces of a format *)

Inductive piece :=
  | PChar (c : Z)               (* an ordinary character *)
  | POther (c : Z)              (* %c for a character that is no conversion *)
  | PStr (d post : list Z)      (* %s *)
  | PSds (t : Z) (d f : list Z) (* %S *)
  | PInt (n : Z) | PLongLong (n : Z) | PUInt (n : Z) | PULongLong (n : Z).

Definition piece_text (p : piece) : list Z :=
  match p with
  | PChar c => [c]
  | POther c => [37; c]
  | PStr _ _ => [37; 115] | PSds _ _ _ => [37; 83]
  | PInt _ => [37; 105] | PLongLong _ => [37; 73]
  | PUInt _ => [37; 117] | PULongLong _ => [37; 85]
  end.
Definition piece_args (p : piece) : list va_value :=
  match p with
  | PChar _ | POther _ => []
  | PStr d post => [VaStr (d ++ ch_nul :: post)] | PSds t d f => [VaSds (sds_mk t d f)]
  | PInt n => [VaInt n] | PLongLong n => [VaLongLong n]
  | PUInt n => [VaUInt n] | PULongLong n => [VaULongLong n]
  end.
(** [v] is what the piece prints. *)
Definition piece_value (p : piece) (v : list Z) : Prop :=
  match p with
  | PChar c | POther c => v = [c]
  | PStr d _ | PSds _ d _ => v = d
  | PInt n | PLongLong n => is_sdec v n
  | PUInt n | PULongLong n => is_dec v n
  end.
Definition no_conversion (c : Z) : Prop :=
  c <> 115 /\ c <> 83 /\ c <> 105 /\ c <> 73 /\ c <> 117 /\ c <> 85.
Definition piece_ok (p : piece) : Prop :=
  match p with
  | PChar c => 0 < c < 256 /\ c <> 37
  | POther c => 0 < c < 256 /\ no_conversion c
  | PStr d _ => cstring d
  | PSds t d f => sds_ok t d f
  | PInt n | PLongLong n => in_i64 n
  | PUInt n | PULongLong n => in_u64 n
  end.

Section Fmt.
  Context (junk : Z -> Z).

(** The buffer of an unterminated string with room for [d]. *)
Lemma split_room (x : Z) (f d : list Z) : zlen d <= zlen f ->
  exists u x' f', x :: f = u ++ x' :: f' /\ length u = length d /\ zlen f = zlen d + zlen f'.
Proof.
  intros Hd. destruct (length_split_tail (x :: f) (length d)) as (u & v & E & Hu & Hv); [simpl; lia|].
  destruct v as [|x' f']; cbn [length] in Hv; [lia|]. exists u, x', f'. split_and!; [done|done|].
  apply (f_equal (@length Z)) in E. rewrite length_app in E. cbn [length] in E. lia.
Qed.

(** Appending [d] at the end without terminating the string. *)
Lemma write_open t c x f d :
  sds_ok t c f -> zlen d <= zlen f ->
  exists x' f', sds_ok t (c ++ d) f' /\ zlen f = zlen d + zlen f' /\
  (s ← swrite (sds_open t c x f) (zlen c) d; sdsinclen s (zlen d)) = Some (sds_open t (c ++ d) x' f').
Proof.
  intros [Ht Hm] Hd. destruct (split_room x f d Hd) as (u & x' & f' & E & Hu & Hf). exists x', f'.
  unfold sds_ok, sds_open. rewrite length_app. split; [split; [done|lia]|]. split; [done|].
  rewrite swrite_raw by (done || lia). rewrite E, bwrite_app by lia. cbn [mbind option_bind].
  rewrite sdsinclen_raw by (done || lia). rewrite <-app_assoc. do 2 f_equal; lia.
Qed.

Lemma make_room_open t c x f n :
  sds_ok t c f -> t <> 0 -> 0 <= n -> fits (zlen c + n) ->
  exists t' f', (avail ← sdsavail (sds_open t c x f);
      if avail <? n then sdsMakeRoomFor junk (sds_open t c x f) n else Some (sds_open t c x f)) =
    Some (sds_open t' c x f') /\ sds_ok t' c f' /\ t' <> 0 /\ n <= zlen f'.
Proof.
  intros Hok Ht Hn Hf. rewrite sdsavail_open by done. cbn [mbind option_bind].
  rewrite (proj2 (Z.eqb_neq t 0)) by done. destruct (Z.ltb_spec (zlen f) n); [|by exists t, f].
  destruct (sdsMakeRoomFor_open junk t c x f n Hok Hn Hf) as (t' & f' & -> & Hok' & Hn' & Hcase).
  exists t', f'. split_and!; [done|done| |done].
  rewrite (proj2 (Z.eqb_neq t 0)), Z.geb_leb in Hcase by done. rewrite (proj2 (Z.leb_gt _ _)) in Hcase by lia.
  destruct Hcase as [-> _]. assert (H1 := room_type_spec (room_for (zlen c + n))). apply H1.
  unfold fits in Hf. unfold room_for, SDS_MAX_PREALLOC. destruct (Z.ltb_spec (zlen c + n) 1048576); lia.
Qed.

Lemma catfmt_bytes_open t c x f m d :
  sds_ok t c f -> t <> 0 -> bread m 0 (zlen d) = Some d -> zlen c + zlen d < 2 ^ 31 ->
  exists t' x' f', catfmt_bytes junk (sds_open t c x f) (zlen c) m (zlen d) =
    Some (sds_open t' (c ++ d) x' f', zlen (c ++ d)) /\ sds_ok t' (c ++ d) f' /\ t' <> 0.
Proof.
  intros Hok Ht Hr Hl. unfold catfmt_bytes.
  destruct (make_room_open t c x f (zlen d) Hok Ht) as (t' & f' & Hrun & Hok' & Ht' & Hd); [lia|unfold fits; lia|].
  destruct (sdsavail (sds_open t c x f)) as [avail|]; [|discriminate]. cbn [mbind option_bind] in Hrun |- *.
  rewrite Hrun. cbn [mbind option_bind]. rewrite Hr. cbn [mbind option_bind].
  destruct (write_open t' c x f' d Hok' Hd) as (x' & f'' & Hok'' & _ & Hw). exists t', x', f''. split; [|done].
  destruct (swrite _ _ _) as [s1|]; [|discriminate]. cbn [mbind option_bind] in Hw |- *. rewrite Hw.
  cbn [mbind option_bind]. rewrite i32_small by lia. rewrite length_app. do 2 f_equal. lia.
Qed.

Lemma catfmt_char_open t c x f y :
  sds_ok t c f -> 1 <= zlen f -> 0 < y < 256 ->
  exists x' f', catfmt_char (sds_open t c x f) (zlen c) y = Some (sds_open t (c ++ [y]) x' f', zlen (c ++ [y])) /\
    sds_ok t (c ++ [y]) f'.
Proof.
  intros Hok Hf Hy. destruct (write_open t c x f [y] Hok) as (x' & f' & Hok' & _ & Hw); [simpl; lia|].
  exists x', f'. split; [|done]. unfold catfmt_char, sset. rewrite u8_small by lia.
  destruct (swrite _ _ _) as [s1|]; [|discriminate]. cbn [mbind option_bind] in Hw |- *.
  change (zlen [y]) with 1 in Hw. rewrite Hw. cbn [mbind option_bind]. rewrite length_app. simpl. do 2 f_equal. lia.
Qed.

(** The buffer for a number. *)
Lemma llstr_buffer n : (n <= 20)%nat -> exists (mid : list Z) x post, s_malloc junk SDS_LLSTR_SIZE = mid ++ x :: post /\ length mid = n.
Proof.
  intros Hn. unfold s_malloc. destruct (zrealloc_grow junk [] SDS_LLSTR_SIZE) as (l & -> & Hl); [done|]. cbn [app].
  change (SDS_LLSTR_SIZE - zlen []) with 21 in Hl.
  destruct (length_split_tail l n) as (mid & v & -> & Hm & Hv); [lia|].
  destruct v as [|x post]; [cbn [length] in Hv; lia|]. by exists mid, x, post.
Qed.

Lemma piece_value_length p v : piece_ok p -> piece_value p v ->
  match p with PInt _ | PLongLong _ | PUInt _ | PULongLong _ => (length v <= 20)%nat | _ => True end.
Proof.
  destruct p; cbn; intros Hok Hv; try done;
    first [by apply (sdec_length v n) | by apply (is_dec_u64_len20 v n)].
Qed.

(** The bytes [v] at the front of the memory [m] are appended. *)
Ltac append_bytes m v :=
  cbn [mbind option_bind];
  match goal with Hs : sds_ok ?t ?c ?f, Ht : ?t <> 0 |- context [sds_open ?t ?c ?x ?f] =>
    destruct (catfmt_bytes_open t c x f m v Hs Ht) as (t' & x' & f' & -> & ?); [by apply bread_0|lia|];
    cbn [mbind option_bind]; by exists t', x', f'
  end.

(** A number is printed into the buffer, then appended. *)
Ltac print_number spec :=
  cbn [Z.eqb Pos.eqb orb mbind option_bind];
  match goal with Hlen : (length ?v <= 20)%nat |- _ =>
    destruct (llstr_buffer (length v) Hlen) as (mid & y & post & -> & Hm);
    rewrite (spec mid y post) by done; append_bytes (v ++ ch_nul :: post) v
  end.

(** Each conversion prints its value and takes its argument. *)
Lemma catfmt_spec_open t c x f p v next ap :
  piece_text p = [37; next] -> piece_ok p -> piece_value p v ->
  sds_ok t c f -> t <> 0 -> 1 <= zlen f -> zlen c + zlen v < 2 ^ 31 ->
  exists t' x' f', catfmt_spec junk (sds_open t c x f) (zlen c) next (piece_args p ++ ap) =
    Some (sds_open t' (c ++ v) x' f', zlen (c ++ v), ap) /\ sds_ok t' (c ++ v) f' /\ t' <> 0.
Proof.
  intros Htext Hok Hv Hs Ht Hf Hl. assert (Hlen := piece_value_length p v Hok Hv). unfold catfmt_spec.
  destruct p as [k|k|d post|ty d fr|n|n|n|n]; try discriminate Htext; injection Htext as <-; cbn [piece_ok piece_value piece_args app] in *.
  - destruct Hok as (Hk & H1 & H2 & H3 & H4 & H5 & H6).
    rewrite (proj2 (Z.eqb_neq k 115)), (proj2 (Z.eqb_neq k 83)), (proj2 (Z.eqb_neq k 105)),
      (proj2 (Z.eqb_neq k 73)), (proj2 (Z.eqb_neq k 117)), (proj2 (Z.eqb_neq k 85)) by done. cbn [orb]. subst v.
    destruct (catfmt_char_open t c x f k Hs Hf Hk) as (x' & f' & -> & Hs'). cbn [mbind option_bind]. by exists t, x', f'.
  - subst v. cbn [Z.eqb Pos.eqb orb]. rewrite (strlen_app [] d post) by done. append_bytes (d ++ ch_nul :: post) d.
  - subst v. cbn [Z.eqb Pos.eqb orb]. rewrite sdslen_mk, schars_mk by done. append_bytes (d ++ ch_nul :: fr) d.
  - print_number (sdsll2str_spec n v).
  - print_number (sdsll2str_spec n v).
  - print_number (sdsull2str_spec n v).
  - print_number (sdsull2str_spec n v).
Qed.

(** Before each character there is room for one. *)
Lemma room_one t c x f :
  sds_ok t c f -> fits (zlen c + 1) ->
  exists t' f', (avail ← sdsavail (sds_open t c x f);
      if avail =? 0 then sdsMakeRoomFor junk (sds_open t c x f) 1 else Some (sds_open t c x f)) =
    Some (sds_open t' c x f') /\ sds_ok t' c f' /\ t' <> 0 /\ 1 <= zlen f'.
Proof.
  intros Hok Hf. rewrite sdsavail_open by done. cbn [mbind option_bind].
  set (avail := if t =? 0 then 0 else zlen f). destruct (Z.eqb_spec avail 0) as [E|E].
  - destruct (sdsMakeRoomFor_open junk t c x f 1 Hok) as (t' & f' & -> & Hok' & Hn' & Hcase); [lia|done|].
    exists t', f'. split_and!; [done|done| |done]. fold avail in Hcase. rewrite E in Hcase. cbn in Hcase.
    destruct Hcase as [-> _]. apply room_type_spec. unfold fits in Hf.
    unfold room_for, SDS_MAX_PREALLOC. destruct (Z.ltb_spec (zlen c + 1) 1048576); lia.
  - exists t, f. unfold avail in E. destruct (Z.eqb_spec t 0); [done|]. split_and!; [done|done|done|lia].
Qed.

Lemma catfmt_loop_open ps : forall fuel fpre fpost t c x f vs,
  Forall piece_ok ps -> Forall2 piece_value ps vs -> sds_ok t c f ->
  zlen c + zlen (concat vs) + 1 < 2 ^ 31 -> (length ps <= fuel)%nat ->
  exists t' x' f', catfmt_loop junk fuel (fpre ++ concat (map piece_text ps) ++ ch_nul :: fpost) (zlen fpre)
      (sds_open t c x f) (zlen c) (concat (map piece_args ps)) =
    Some (sds_open t' (c ++ concat vs) x' f', zlen (c ++ concat vs)) /\ sds_ok t' (c ++ concat vs) f'.
Proof.
  induction ps as [|p ps IH]; intros fuel fpre fpost t c x f vs Hok Hv Hs Hl Hfuel; inversion Hv; subst.
  { exists t, x, f. rewrite !app_nil_r. split; [|done]. cbn [map concat app].
    destruct fuel; cbn [catfmt_loop]; by rewrite bget_mid. }
  rename y into v, l' into vs'. rename select (piece_value p v) into Hpv.
  apply Forall_cons_1 in Hok as [Hpok Hok]. destruct fuel as [|fuel]; [simpl in Hfuel; lia|].
  cbn [map concat length] in *. rewrite length_app in Hl. rewrite <-(app_assoc (piece_text p)).
  destruct (room_one t c x f Hs) as (t1 & f1 & Hroom & Hs1 & Ht1 & Hf1); [unfold fits; lia|].
  cbn [catfmt_loop].
  assert (Hgo : forall t2 x2 f2, sds_ok t2 (c ++ v) f2 -> exists t' x' f',
     catfmt_loop junk fuel (fpre ++ piece_text p ++ concat (map piece_text ps) ++ ch_nul :: fpost)
       (zlen (fpre ++ piece_text p)) (sds_open t2 (c ++ v) x2 f2) (zlen (c ++ v)) (concat (map piece_args ps)) =
     Some (sds_open t' (c ++ v ++ concat vs') x' f', zlen (c ++ v ++ concat vs')) /\ sds_ok t' (c ++ v ++ concat vs') f').
  { intros t2 x2 f2 Hs2.
    destruct (IH fuel (fpre ++ piece_text p) fpost t2 (c ++ v) x2 f2 vs') as (t' & x' & f' & Hrun & Hs');
      [done|done|done|rewrite length_app; lia|lia|].
    rewrite <-(app_assoc fpre), <-(app_assoc c) in Hrun. rewrite <-(app_assoc c) in Hs'. by exists t', x', f'. }
  assert (Hshape : (exists k, p = PChar k) \/ exists next, piece_text p = [37; next])
    by (destruct p; [left; eauto|right; cbn; eauto..]).
  destruct Hshape as [[k ->]|[next Htext]].
  - destruct Hpok as [Hk H37]. cbn [piece_text piece_args app piece_value] in *. rewrite bget_mid. cbn [mbind option_bind].
    zfalse (k =? 0). subst v. destruct (sdsavail (sds_open t c x f)) as [avail|]; [|discriminate].
    cbn [mbind option_bind] in Hroom |- *. rewrite Hroom. cbn [mbind option_bind].
    rewrite (proj2 (Z.eqb_neq k 37)) by done.
    destruct (catfmt_char_open t1 c x f1 k Hs1 Hf1 Hk) as (x2 & f2 & -> & Hs2). cbn [mbind option_bind].
    replace (zlen fpre + 1) with (zlen (fpre ++ [k])) by (rewrite length_app; simpl; lia). by apply Hgo.
  - rewrite Htext in *. cbn [app] in *. rewrite bget_mid. cbn [mbind option_bind Z.eqb Pos.eqb].
    destruct (sdsavail (sds_open t c x f)) as [avail|]; [|discriminate].
    cbn [mbind option_bind] in Hroom |- *. rewrite Hroom. cbn [mbind option_bind]. rewrite bget_app_mid1. cbn [mbind option_bind].
    destruct (catfmt_spec_open t1 c x f1 p v next (concat (map piece_args ps)) Htext Hpok Hpv Hs1 Ht1 Hf1)
      as (t2 & x2 & f2 & -> & Hs2 & _); [lia|]. cbn [mbind option_bind].
    replace (zlen fpre + 1 + 1) with (zlen (fpre ++ [37; next])) by (rewrite length_app; simpl; lia). by apply Hgo.
Qed.

Lemma piece_text_length ps : (length ps <= length (concat (map piece_text ps)))%nat.
Proof. induction ps as [|p ps IH]; [done|]. cbn [map concat length]. rewrite length_app. destruct p; cbn; lia. Qed.

(** C19. sdscatfmt appends, in order, what each piece of the format prints. *)
Theorem sdscatfmt_correct s c ps vs fpost :
  sds_rep s c -> Forall piece_ok ps -> Forall2 piece_value ps vs -> zlen c + zlen (concat vs) + 1 < 2 ^ 31 ->
  exists s', sdscatfmt junk s (concat (map piece_text ps) ++ ch_nul :: fpost) (concat (map piece_args ps)) = Some s' /\
    sds_rep s' (c ++ concat vs).
Proof.
  intros (t & f & Hok & ->) Hps Hvs Hl. unfold sdscatfmt. rewrite sdslen_mk by done. cbn [mbind option_bind].
  rewrite i32_small by lia. pose proof (piece_text_length ps).
  destruct (catfmt_loop_open ps (length (concat (map piece_text ps) ++ ch_nul :: fpost)) [] fpost t c ch_nul f vs Hps Hvs Hok Hl)
    as (t' & x' & f' & Hrun & Hs'); [rewrite length_app; lia|].
  cbn [app length] in Hrun. change (Z.of_nat 0) with 0 in Hrun. unfold sds_mk. unfold sds_open in Hrun at 1.
  rewrite Hrun. cbn [mbind option_bind].
  exists (sds_mk t' (c ++ concat vs) f'). split; [|by exists t', f'].
  destruct Hs' as [Ht' _]. unfold sds_open. rewrite sset_raw, bset_app by (done || lia). done.
Qed.
End Fmt.

(** The format "a%i" and its argument -5. *)
Lemma sdscatfmt_correct_witness :
  let ps := [PChar 97; PInt (-5)] in
  let vs := [[97]; [45; 53]] in
  exists s', sdscatfmt (fun _ => 0) hi_sds (concat (map piece_text ps) ++ ch_nul :: []) (concat (map piece_args ps)) = Some s' /\
    sds_rep s' ([104; 105] ++ concat vs).
Proof.
  intros ps vs. apply sdscatfmt_correct; [apply hi_rep| | |simpl; lia].
  - repeat constructor; cbn; split_and?; try lia; mlia.
  - constructor; [done|]. constructor; [|done]. right. split; [lia|]. exists [53]. split; [done|].
    apply (is_dec_digit 5). lia.
Defined.
