(* ===== verification/Object.v ===== *)
(** object.c: string objects, their three encodings and the operations that
    read them whatever the encoding.

    An object is a record; [lru] is left out (eviction's data), and so is the
    memory of an object that decrRefCount frees.  The sds of an EMBSTR object
    lies behind the object in the same chunk: its block here is that part of
    the chunk.  serverAssert and serverPanic end the server: [None]. *)

From S2P Require Import Prelude Decimal Util Sds SdsString.

Definition OBJ_STRING : Z := 0.
Definition OBJ_ENCODING_RAW : Z := 0.
Definition OBJ_ENCODING_INT : Z := 1.
Definition OBJ_ENCODING_EMBSTR : Z := 8.
Definition OBJ_ENCODING_EMBSTR_SIZE_LIMIT : Z := 44.
Definition OBJ_SHARED_INTEGERS : Z := 10000.
Definition OBJ_SHARED_REFCOUNT : Z := 2147483647.
Definition MAXMEMORY_FLAG_NO_SHARED_INTEGERS : Z := 3.

(** [o->ptr]: a pointer to a string, or the long an INT object stores in it. *)
Inductive optr := PLong (v : Z) | PSds (s : sds).

Record robj := mkObj { otype : Z; encoding : Z; refcount : Z; oval : optr }.

(** The settings that tryObjectEncoding reads. *)
Record server := { maxmemory : Z; maxmemory_policy : Z }.

Definition sdsEncodedObject (o : robj) : bool := (encoding o =? OBJ_ENCODING_RAW) || (encoding o =? OBJ_ENCODING_EMBSTR).
Definition optr_sds (o : robj) : option sds := match oval o with PSds s => Some s | PLong _ => None end.
Definition optr_long (o : robj) : option Z := match oval o with PLong v => Some v | PSds _ => None end.

Section Object.
  (** The value of fresh heap memory and of local buffers. *)
  Context (junk : Z -> Z).

Definition createObject (type : Z) (p : optr) : robj := mkObj type OBJ_ENCODING_RAW 1 p.

Definition makeObjectShared (o : robj) : option robj :=
  if refcount o =? 1 then Some (mkObj (otype o) (encoding o) OBJ_SHARED_REFCOUNT (oval o)) else None.

(** shared.integers[j], as createSharedObjects makes it. *)
Definition shared_integer (j : Z) : option robj :=
  if (0 <=? j) && (j <? OBJ_SHARED_INTEGERS) then
    o ← makeObjectShared (createObject OBJ_STRING (PLong j));
    Some (mkObj (otype o) OBJ_ENCODING_INT (refcount o) (oval o))
  else None.

Definition incrRefCount (o : robj) : robj :=
  if negb (refcount o =? OBJ_SHARED_REFCOUNT) then mkObj (otype o) (encoding o) (i32 (refcount o + 1)) (oval o) else o.

Definition createRawStringObject (p : option (list Z)) (len : Z) : option robj :=
  s ← sdsnewlen junk p len; Some (createObject OBJ_STRING (PSds s)).

Definition createEmbeddedStringObject (p : option (list Z)) (len : Z) : option robj :=
  let sh := s_malloc junk (u64 (3 + len + 1)) in
  let s := {| blk := sh; ptr := 3 |} in
  s ← hdr_set_len 1 s len;
  s ← hdr_set_alloc 1 s len;
  s ← sset s (-1) SDS_TYPE_8;
  s ← (match p with
       | Some b => bs ← bread b 0 len; s ← swrite s 0 bs; sset s len ch_nul
       | None => swrite s 0 (replicate (Z.to_nat (len + 1)) 0)
       end);
  Some (mkObj OBJ_STRING OBJ_ENCODING_EMBSTR 1 (PSds s)).

Definition createStringObject (p : option (list Z)) (len : Z) : option robj :=
  if len <=? OBJ_ENCODING_EMBSTR_SIZE_LIMIT then createEmbeddedStringObject p len
  else createRawStringObject p len.

Definition createStringObjectFromLongLong (value : Z) : option robj :=
  if (0 <=? value) && (value <? OBJ_SHARED_INTEGERS) then
    o ← shared_integer value; Some (incrRefCount o)
  else if (LONG_MIN <=? value) && (value <=? LONG_MAX) then
    let o := createObject OBJ_STRING (PLong value) in
    Some (mkObj (otype o) OBJ_ENCODING_INT (refcount o) (oval o))
  else s ← sdsfromlonglong junk value; Some (createObject OBJ_STRING (PSds s)).

Definition dupStringObject (o : robj) : option robj :=
  if negb (otype o =? OBJ_STRING) then None else
  if encoding o =? OBJ_ENCODING_RAW then
    s ← optr_sds o; len ← sdslen s; createRawStringObject (Some (schars s)) len
  else if encoding o =? OBJ_ENCODING_EMBSTR then
    s ← optr_sds o; len ← sdslen s; createEmbeddedStringObject (Some (schars s)) len
  else if encoding o =? OBJ_ENCODING_INT then
    let d := createObject OBJ_STRING (PLong 0) in
    Some (mkObj (otype d) OBJ_ENCODING_INT (refcount d) (oval o))
  else None.

(** The number is the out parameter, set when the result is C_OK. *)
Definition isSdsRepresentableAsLongLong (s : sds) : option (Z * option Z) :=
  len ← sdslen s;
  r ← string2ll (schars s) len;
  Some (match r with Some v => (C_OK, Some v) | None => (C_ERR, None) end).

Definition isObjectRepresentableAsLongLong (o : robj) : option (Z * option Z) :=
  if negb (otype o =? OBJ_STRING) then None else
  if encoding o =? OBJ_ENCODING_INT then v ← optr_long o; Some (C_OK, Some v)
  else s ← optr_sds o; isSdsRepresentableAsLongLong s.

Definition tryObjectEncoding (srv : server) (o : robj) : option robj :=
  if negb (otype o =? OBJ_STRING) then None else
  if negb (sdsEncodedObject o) then Some o else
  if refcount o >? 1 then Some o else
  s ← optr_sds o;
  len ← sdslen s;
  value ← (if len <=? 20 then string2l (schars s) len else Some None);
  match value with
  | Some value =>
      if ((maxmemory srv =? 0) || (Z.land (maxmemory_policy srv) MAXMEMORY_FLAG_NO_SHARED_INTEGERS =? 0)) &&
         (0 <=? value) && (value <? OBJ_SHARED_INTEGERS)
      then o ← shared_integer value; Some (incrRefCount o)
      else Some (mkObj (otype o) OBJ_ENCODING_INT (refcount o) (PLong value))
  | None =>
      if len <=? OBJ_ENCODING_EMBSTR_SIZE_LIMIT then
        if encoding o =? OBJ_ENCODING_EMBSTR then Some o
        else createEmbeddedStringObject (Some (schars s)) len
      else
        if encoding o =? OBJ_ENCODING_RAW then
          avail ← sdsavail s;
          if avail >? len / 10 then s ← sdsRemoveFreeSpace junk s; Some (mkObj (otype o) (encoding o) (refcount o) (PSds s))
          else Some o
        else Some o
  end.

Definition getDecodedObject (o : robj) : option robj :=
  if sdsEncodedObject o then Some (incrRefCount o) else
  if (otype o =? OBJ_STRING) && (encoding o =? OBJ_ENCODING_INT) then
    v ← optr_long o;
    '(_, buf) ← ll2string (s_malloc junk 32) 32 v;
    len ← strlen buf 0;
    createStringObject (Some buf) len
  else None.

(** The characters and the length that a comparison uses, [bufa] or [bufb]
    being a local array of 128 characters. *)
Definition string_view (o : robj) : option (list Z * Z) :=
  if sdsEncodedObject o then s ← optr_sds o; len ← sdslen s; Some (schars s, len)
  else v ← optr_long o; '(len, buf) ← ll2string (s_malloc junk 128) 128 v; Some (buf, len).

(** compareStringObjectsWithFlags for REDIS_COMPARE_BINARY; [same] is [a == b].
    The collation of the other flag is strcoll's. *)
Definition compareStringObjects (same : bool) (a b : robj) : option Z :=
  if negb ((otype a =? OBJ_STRING) && (otype b =? OBJ_STRING)) then None else
  if same then Some 0 else
  '(astr, alen) ← string_view a;
  '(bstr, blen) ← string_view b;
  let minlen := if alen <? blen then alen else blen in
  cmp ← memcmp astr bstr minlen;
  Some (if cmp =? 0 then i32 (u64 (alen - blen)) else cmp).

Definition equalStringObjects (same : bool) (a b : robj) : option bool :=
  if (encoding a =? OBJ_ENCODING_INT) && (encoding b =? OBJ_ENCODING_INT) then
    x ← optr_long a; y ← optr_long b; Some (x =? y)
  else r ← compareStringObjects same a b; Some (r =? 0).

Definition stringObjectLen (o : robj) : option Z :=
  if negb (otype o =? OBJ_STRING) then None else
  if sdsEncodedObject o then s ← optr_sds o; sdslen s
  else v ← optr_long o; sdigits10 v.

(** [None] as the object is a NULL pointer. *)
Definition getLongLongFromObject (o : option robj) : option (Z * option Z) :=
  match o with
  | None => Some (C_OK, Some 0)
  | Some o =>
      if negb (otype o =? OBJ_STRING) then None else
      if sdsEncodedObject o then
        s ← optr_sds o; len ← sdslen s; r ← string2ll (schars s) len;
        Some (match r with None => (C_ERR, None) | Some v => (C_OK, Some v) end)
      else if encoding o =? OBJ_ENCODING_INT then v ← optr_long o; Some (C_OK, Some v)
      else None
  end.
End Object.

(** ** The string of an object *)

(** [o] is a well-formed string object with the characters [c]. *)
Inductive obj_str (o : robj) (c : list Z) : Prop :=
  | str_raw s : otype o = OBJ_STRING -> (encoding o = OBJ_ENCODING_RAW \/ encoding o = OBJ_ENCODING_EMBSTR) ->
      oval o = PSds s -> sds_rep s c -> obj_str o c
  | str_int v : otype o = OBJ_STRING -> encoding o = OBJ_ENCODING_INT -> oval o = PLong v -> in_i64 v -> is_sdec c v -> obj_str o c.

Section Specs.
  Context (junk : Z -> Z).

Lemma createEmbedded_str b len c : 0 <= len < 256 -> bread b 0 len = Some c ->
  exists o, createEmbeddedStringObject junk (Some b) len = Some o /\ obj_str o c /\ encoding o = OBJ_ENCODING_EMBSTR /\ refcount o = 1.
Proof.
  intros Hlen Hb. assert (Hc := bread_length _ _ _ _ Hb). unfold createEmbeddedStringObject. rewrite u64_small by lia.
  destruct (s_malloc_split junk 3 len 1) as (H & M & R & -> & HH & HM & HR); [lia..|].
  destruct R as [|x [|]]; cbn [length] in HR; try lia.
  assert (Hh := hdr_init_fresh 1 H (M ++ [x]) len ltac:(done) ltac:(done) HH). unfold hdr_init in Hh. change (type_width 1) with 1 in Hh. change (sdsHdrSize 1) with 3 in Hh.
  destruct (hdr_set_len 1 _ len) as [s1|]; [|done]. cbn [mbind option_bind] in *.
  destruct (hdr_set_alloc 1 s1 len) as [s2|]; [|done]. cbn [mbind option_bind] in *. change SDS_TYPE_8 with 1. rewrite Hh.
  cbn [mbind option_bind]. rewrite Hb. cbn [mbind option_bind].
  assert (HW := write_terminated 1 len len [] M [] c x ltac:(done) ltac:(lia)). cbn [app length] in HW. rewrite Hc in HW.
  change (Z.of_nat 0) with 0 in HW. rewrite Z.add_0_l in HW. rewrite HW. cbn [mbind option_bind]. eexists. split; [done|]. split; [|done].
  eapply str_raw; [done|by right|done|]. exists 1, []. split; [|unfold sds_mk; cbn [length]; by rewrite Hc, Z.add_0_r].
  split; [done|]. change (type_max 1) with 256. cbn [length]. lia.
Qed.

Lemma createRaw_str b len c : 0 <= len -> len + 18 < 2 ^ 64 -> bread b 0 len = Some c ->
  exists o, createRawStringObject junk (Some b) len = Some o /\ obj_str o c /\ encoding o = OBJ_ENCODING_RAW /\ refcount o = 1.
Proof.
  intros H0 H1 Hb. unfold createRawStringObject. rewrite (sdsnewlen_copy junk b len c H0 H1 Hb). cbn [mbind option_bind].
  eexists. split; [done|]. split; [|done]. eapply str_raw; [done|by left|done|]. exists (newtype len), []. split; [|done].
  destruct (newtype_spec len); [lia|]. assert (Hc := bread_length _ _ _ _ Hb). split; [done|]. cbn [length]. lia.
Qed.

Lemma createStringObject_str b len c : 0 <= len -> len + 18 < 2 ^ 64 -> bread b 0 len = Some c ->
  exists o, createStringObject junk (Some b) len = Some o /\ obj_str o c /\ refcount o = 1 /\
    encoding o = (if len <=? OBJ_ENCODING_EMBSTR_SIZE_LIMIT then OBJ_ENCODING_EMBSTR else OBJ_ENCODING_RAW).
Proof.
  intros H0 H1 Hb. unfold createStringObject. destruct (Z.leb_spec len OBJ_ENCODING_EMBSTR_SIZE_LIMIT) as [Hl|Hl].
  - unfold OBJ_ENCODING_EMBSTR_SIZE_LIMIT in Hl. destruct (createEmbedded_str b len c) as (o & -> & ? & ? & ?); [lia|done|]. by exists o.
  - destruct (createRaw_str b len c H0 H1 Hb) as (o & -> & ? & ? & ?). by exists o.
Qed.

Lemma shared_integer_str v c : 0 <= v < OBJ_SHARED_INTEGERS -> is_sdec c v ->
  exists o, shared_integer v = Some o /\ incrRefCount o = o /\ obj_str o c /\ encoding o = OBJ_ENCODING_INT /\ refcount o = OBJ_SHARED_REFCOUNT.
Proof.
  intros Hv Hc. unfold shared_integer. ztrue (0 <=? v). ztrue (v <? OBJ_SHARED_INTEGERS). cbn.
  eexists. split; [done|]. split; [done|]. split; [|done]. unfold OBJ_SHARED_INTEGERS in Hv. by apply (str_int _ c v); [..|mlia|].
Qed.

Lemma createStringObjectFromLongLong_str v : in_i64 v ->
  exists o c, createStringObjectFromLongLong junk v = Some o /\ obj_str o c /\ is_sdec c v /\ encoding o = OBJ_ENCODING_INT.
Proof.
  intros Hv. destruct (is_sdec_exists v) as [c Hc]. unfold createStringObjectFromLongLong.
  destruct (decide (0 <= v < OBJ_SHARED_INTEGERS)) as [Hs|Hs].
  - ztrue (0 <=? v). ztrue (v <? OBJ_SHARED_INTEGERS). destruct (shared_integer_str v c Hs Hc) as (o & -> & Hi & Ho & He & _).
    cbn [mbind option_bind andb]. rewrite Hi. by exists o, c.
  - assert ((0 <=? v) && (v <? OBJ_SHARED_INTEGERS) = false) as -> by (rewrite andb_false_iff, Z.leb_gt, Z.ltb_ge; lia).
    unfold LONG_MIN, LONG_MAX. ztrue (LLONG_MIN <=? v). ztrue (v <=? LLONG_MAX). cbn [andb]. eexists _, c. split; [done|]. split; [|done].
    by apply (str_int _ c v).
Qed.

Lemma string_view_spec o c : obj_str o c -> exists p, string_view junk o = Some (c ++ p, zlen c).
Proof.
  intros [s Ht He Hp (t & f & Hok & ->)|v Ht He Hp Hv Hc]; unfold string_view, sdsEncodedObject, optr_sds, optr_long; rewrite Hp.
  - assert ((encoding o =? OBJ_ENCODING_RAW) || (encoding o =? OBJ_ENCODING_EMBSTR) = true) as -> by (destruct He as [-> | ->]; done).
    cbn [mbind option_bind]. rewrite sdslen_mk, schars_mk by done. by eexists.
  - rewrite He. cbn [Z.eqb orb mbind option_bind]. change ((OBJ_ENCODING_INT =? OBJ_ENCODING_RAW) || (OBJ_ENCODING_INT =? OBJ_ENCODING_EMBSTR)) with false. cbv iota.
    assert (Hl := sdec_length c v Hv Hc). rewrite (ll2string_full _ 128 v c) by (done || lia || (unfold s_malloc; destruct (zrealloc_grow junk [] 128) as (l & -> & Hz); [done|cbn in Hz |- *; lia])).
    cbn [mbind option_bind]. by eexists.
Qed.

Lemma compareStringObjects_spec same a b ca cb : obj_str a ca -> obj_str b cb -> zlen ca < 2 ^ 31 -> zlen cb < 2 ^ 31 -> (same = true -> a = b) ->
  exists r, compareStringObjects junk same a b = Some r /\ (r ?= 0) = lex ca cb.
Proof.
  intros Ha Hb H1 H2 Hs. unfold compareStringObjects.
  assert (otype a = OBJ_STRING /\ otype b = OBJ_STRING) as [-> ->] by (destruct Ha, Hb; done). cbn [Z.eqb andb negb OBJ_STRING].
  destruct (string_view_spec a ca Ha) as [pa Hva]. destruct (string_view_spec b cb Hb) as [pb Hvb].
  destruct (memcmp_lex ca pa cb pb H1 H2) as (cmp & Hc & Hr). destruct same.
  - rewrite (Hs eq_refl) in Hva. rewrite Hva in Hvb. injection Hvb as E El. exists 0. split; [done|].
    assert (length ca = length cb) by lia. apply app_inj_1 in E as [-> _]; [|done]. clear. induction cb as [|x cb IH]; [done|]. cbn. by rewrite Z.compare_refl.
  - rewrite Hva, Hvb. cbn [mbind option_bind]. rewrite Hc. cbn [mbind option_bind]. by eexists.
Qed.

Lemma lex_eq a : forall b, lex a b = Eq <-> a = b.
Proof.
  induction a as [|x a IH]; intros [|y b]; cbn [lex]; try done. destruct (Z.compare_spec x y) as [->|H|H].
  - rewrite IH. split; [by intros ->|by intros [= ->]].
  - split; [done|]. intros [= -> _]. lia.
  - split; [done|]. intros [= -> _]. lia.
Qed.
End Specs.

Section Reads.
  Context (junk : Z -> Z).

(** The sds of an object that has one. *)
Lemma obj_sds o c : obj_str o c -> encoding o <> OBJ_ENCODING_INT ->
  exists t f, sdsEncodedObject o = true /\ optr_sds o = Some (sds_mk t c f) /\ sds_ok t c f.
Proof.
  intros [s Ht He Hp (t & f & Hok & ->)|v Ht He Hp Hv Hc] Hne; [|done]. exists t, f. unfold sdsEncodedObject, optr_sds. rewrite Hp.
  by destruct He as [-> | ->].
Qed.

Lemma obj_int o c : obj_str o c -> encoding o = OBJ_ENCODING_INT ->
  exists v, sdsEncodedObject o = false /\ optr_long o = Some v /\ in_i64 v /\ is_sdec c v.
Proof.
  intros [s Ht He Hp Hs|v Ht He Hp Hv Hc] E; [by destruct He as [He|He]; rewrite E in He|]. exists v. unfold sdsEncodedObject, optr_long. rewrite Hp, He.
  done.
Qed.

Lemma obj_type o c : obj_str o c -> otype o = OBJ_STRING.
Proof. by destruct 1. Qed.

Lemma obj_decidable o c : obj_str o c -> encoding o = OBJ_ENCODING_INT \/ encoding o <> OBJ_ENCODING_INT.
Proof. intros _. destruct (Z.eq_dec (encoding o) OBJ_ENCODING_INT); auto. Qed.

Lemma stringObjectLen_spec o c : obj_str o c -> stringObjectLen o = Some (zlen c).
Proof.
  intros Ho. unfold stringObjectLen. rewrite (obj_type o c Ho). cbn [Z.eqb negb OBJ_STRING].
  destruct (obj_decidable o c Ho) as [E|E].
  - destruct (obj_int o c Ho E) as (v & -> & -> & Hv & Hc). by apply sdigits10_spec.
  - destruct (obj_sds o c Ho E) as (t & f & -> & -> & Hok). by apply sdslen_mk.
Qed.

Lemma equalStringObjects_spec same a b ca cb : obj_str a ca -> obj_str b cb -> zlen ca < 2 ^ 31 -> zlen cb < 2 ^ 31 -> (same = true -> a = b) ->
  equalStringObjects junk same a b = Some (bool_decide (ca = cb)).
Proof.
  intros Ha Hb H1 H2 Hs. unfold equalStringObjects.
  destruct (Z.eqb_spec (encoding a) OBJ_ENCODING_INT) as [Ea|Ea], (Z.eqb_spec (encoding b) OBJ_ENCODING_INT) as [Eb|Eb]; cbn [andb].
  1: { destruct (obj_int a ca Ha Ea) as (v & _ & -> & Hv & Hca). destruct (obj_int b cb Hb Eb) as (w & _ & -> & Hw & Hcb). cbn [mbind option_bind].
    f_equal. apply eq_true_iff_eq. rewrite Z.eqb_eq, bool_decide_eq_true. split.
    - intros ->. by apply (is_sdec_inj ca cb w).
    - intros ->. by apply (is_sdec_value cb). }
  all: destruct (compareStringObjects_spec junk same a b ca cb Ha Hb H1 H2 Hs) as (r & -> & Hr); cbn [mbind option_bind]; f_equal;
    apply eq_true_iff_eq; rewrite Z.eqb_eq, bool_decide_eq_true, <-lex_eq, <-Hr; destruct (Z.compare_spec r 0); split; (done || lia).
Qed.

Lemma getLongLongFromObject_spec o c : obj_str o c ->
  exists r, getLongLongFromObject (Some o) = Some (match r with Some v => (C_OK, Some v) | None => (C_ERR, None) end) /\
    forall v, r = Some v <-> is_sdec c v /\ in_i64 v.
Proof.
  intros Ho. unfold getLongLongFromObject. rewrite (obj_type o c Ho). cbn [Z.eqb negb OBJ_STRING].
  destruct (obj_decidable o c Ho) as [E|E].
  - destruct (obj_int o c Ho E) as (v & -> & -> & Hv & Hc). exists (Some v). rewrite E. split; [done|].
    intros w. split; [by intros [= <-]|]. intros [Hw _]. by rewrite (is_sdec_value c v w Hc Hw).
  - destruct (obj_sds o c Ho E) as (t & f & -> & -> & Hok). cbn [mbind option_bind]. rewrite sdslen_mk, schars_mk by done. cbn [mbind option_bind].
    destruct (string2ll_spec c (ch_nul :: f)) as (r & -> & Hr). exists r. split; [|done]. cbn [mbind option_bind]. by destruct r.
Qed.

Lemma getDecodedObject_spec o c : obj_str o c ->
  exists o', getDecodedObject junk o = Some o' /\ obj_str o' c /\ encoding o' <> OBJ_ENCODING_INT.
Proof.
  intros Ho. unfold getDecodedObject. destruct (obj_decidable o c Ho) as [E|E].
  - destruct (obj_int o c Ho E) as (v & -> & -> & Hv & Hc). rewrite (obj_type o c Ho), E. cbn [Z.eqb Pos.eqb andb OBJ_STRING OBJ_ENCODING_INT mbind option_bind].
    assert (Hl := sdec_length c v Hv Hc). unfold s_malloc. destruct (zrealloc_grow junk [] 32) as (l & -> & Hz); [done|]. cbn [app]. change (32 - zlen []) with 32 in Hz.
    rewrite (ll2string_full _ 32 v c) by (done || lia). cbn [mbind option_bind].
    assert (Hs := strlen_app [] c (drop (S (length c)) l) 0 eq_refl (sdec_nonzero c v Hc)). cbn [app] in Hs |- *. rewrite Hs. cbn [mbind option_bind].
    destruct (createStringObject_str junk (c ++ ch_nul :: drop (S (length c)) l) (zlen c) c) as (o' & -> & Ho' & _ & He); [lia|lia|by apply bread_0|].
    exists o'. split; [done|]. split; [done|]. rewrite He. by destruct (_ <=? _).
  - destruct (obj_sds o c Ho E) as (t & f & -> & _ & Hok). eexists. split; [done|]. unfold incrRefCount. destruct (negb _); [|done]. split; [|done].
    destruct Ho as [s Ht He Hp Hs|v Ht He Hp Hv Hc]; [by eapply str_raw|done].
Qed.

Lemma sdsavail_sds_mk t c f : sds_ok t c f -> sdsavail (sds_mk t c f) = Some (if t =? 0 then 0 else zlen f).
Proof. apply (sdsavail_open t c ch_nul f). Qed.

(** Whether the characters denote a 64-bit integer. *)
Definition denotes (c : list Z) (r : option Z) : Prop := forall v, r = Some v <-> is_sdec c v /\ in_i64 v.

Lemma try_long_spec t c f : sds_ok t c f -> 
  exists r, (if zlen c <=? 20 then string2l (schars (sds_mk t c f)) (zlen c) else Some None) = Some r /\ denotes c r.
Proof.
  intros Hok. rewrite schars_mk, string2l_string2ll by done. destruct (string2ll_spec c (ch_nul :: f)) as (r & Hr & Hs).
  destruct (Z.leb_spec (zlen c) 20); [by exists r|]. exists None. split; [done|]. intros v. split; [done|].
  intros [Hd Hv]. assert (Hl := sdec_length c v Hv Hd). lia.
Qed.
End Reads.

(** ** Properties *)

Section Theorems.
  Context (junk : Z -> Z).

(** The encoding of a string object is invisible to its readers: on any
    two objects, comparison is the order of their bytes, equality that of their
    bytes, the length and the integer value those of the bytes, and decoding
    gives an object with the same bytes that is not integer encoded. *)
Theorem string_reads_correct same a b ca cb :
  obj_str a ca -> obj_str b cb -> zlen ca < 2 ^ 31 -> zlen cb < 2 ^ 31 -> (same = true -> a = b) ->
  (exists r, compareStringObjects junk same a b = Some r /\ (r ?= 0) = lex ca cb) /\
  equalStringObjects junk same a b = Some (bool_decide (ca = cb)) /\
  stringObjectLen a = Some (zlen ca) /\
  (exists r, getLongLongFromObject (Some a) = Some (match r with Some v => (C_OK, Some v) | None => (C_ERR, None) end) /\ denotes ca r) /\
  exists a', getDecodedObject junk a = Some a' /\ obj_str a' ca /\ encoding a' <> OBJ_ENCODING_INT.
Proof.
  intros Ha Hb H1 H2 Hs. split; [by apply compareStringObjects_spec|]. split; [by apply equalStringObjects_spec|].
  split; [by apply stringObjectLen_spec|]. split; [by apply getLongLongFromObject_spec|]. by apply getDecodedObject_spec.
Qed.

(** tryObjectEncoding keeps the string.  An object that is integer encoded
    or has other references comes back as it is.  Otherwise the notation of a
    64-bit integer becomes an INT object, the shared one below 10000 unless
    the eviction policy forbids it; another string of at most 44 bytes becomes
    an EMBSTR object; a longer one keeps its encoding, and if it is RAW at most
    a tenth of its length is left as spare room. *)
Theorem tryObjectEncoding_correct srv o c :
  obj_str o c -> zlen c < 2 ^ 31 ->
  exists o', tryObjectEncoding junk srv o = Some o' /\ obj_str o' c /\
    if (encoding o =? OBJ_ENCODING_INT) || (refcount o >? 1) then o' = o else
    exists r, denotes c r /\
    match r with
    | Some v => encoding o' = OBJ_ENCODING_INT /\
        refcount o' = (if ((maxmemory srv =? 0) || (Z.land (maxmemory_policy srv) MAXMEMORY_FLAG_NO_SHARED_INTEGERS =? 0)) && (0 <=? v) && (v <? 10000)
                       then OBJ_SHARED_REFCOUNT else refcount o)
    | None => if zlen c <=? 44 then encoding o' = OBJ_ENCODING_EMBSTR
              else encoding o' = encoding o /\ (encoding o = OBJ_ENCODING_RAW ->
                     exists s a, oval o' = PSds s /\ sdsavail s = Some a /\ a <= zlen c / 10)
    end.
Proof.
  intros Ho Hl. unfold tryObjectEncoding. rewrite (obj_type o c Ho). cbn [Z.eqb negb OBJ_STRING]. rewrite Z.gtb_ltb.
  destruct (Z.eqb_spec (encoding o) OBJ_ENCODING_INT) as [E|E]; cbn [orb].
  { destruct (obj_int o c Ho E) as (v & -> & _ & Hv & Hc). by exists o. }
  destruct (obj_sds o c Ho E) as (t & f & -> & Hp & Hok). cbn [negb]. destruct (Z.ltb_spec 1 (refcount o)); [by exists o|].
  rewrite Hp. cbn [mbind option_bind]. rewrite sdslen_mk by done. cbn [mbind option_bind].
  destruct (try_long_spec t c f Hok) as (r & -> & Hr). cbn [mbind option_bind]. destruct r as [v|].
  - destruct (proj1 (Hr v) eq_refl) as [Hc Hv]. change 10000 with OBJ_SHARED_INTEGERS. rewrite <-!andb_assoc.
    destruct (((maxmemory srv =? 0) || (Z.land (maxmemory_policy srv) MAXMEMORY_FLAG_NO_SHARED_INTEGERS =? 0)) && ((0 <=? v) && (v <? OBJ_SHARED_INTEGERS))) eqn:Es.
    + apply andb_true_iff in Es as [Ep Es]. rewrite andb_true_iff, Z.leb_le, Z.ltb_lt in Es.
      destruct (shared_integer_str junk v c) as (o' & -> & Hi & Ho' & He & Hrc); [lia|done|]. cbn [mbind option_bind]. rewrite Hi.
      exists o'. split; [done|]. split; [done|]. exists (Some v). split; [done|]. split; [done|]. rewrite <-!andb_assoc, Ep. ztrue (0 <=? v). by ztrue (v <? OBJ_SHARED_INTEGERS).
    + eexists. split; [done|]. split; [by apply (str_int _ c v)|]. exists (Some v). split; [done|]. split; [done|]. rewrite <-!andb_assoc. change 10000 with OBJ_SHARED_INTEGERS. by rewrite Es.
  - change OBJ_ENCODING_EMBSTR_SIZE_LIMIT with 44. destruct (Z.leb_spec (zlen c) 44) as [H44|H44].
    + destruct (Z.eqb_spec (encoding o) OBJ_ENCODING_EMBSTR); [exists o; split; [done|]; split; [done|]; by exists None|].
      destruct (createEmbedded_str junk (schars (sds_mk t c f)) (zlen c) c) as (o' & -> & Ho' & He & _); [lia|rewrite schars_mk by done; by apply bread_0|].
      exists o'. split; [done|]. split; [done|]. by exists None.
    + destruct (Z.eqb_spec (encoding o) OBJ_ENCODING_RAW) as [Er|Er].
      2: { exists o. split; [done|]. split; [done|]. by exists None. }
      rewrite sdsavail_sds_mk by done. cbn [mbind option_bind]. rewrite Z.gtb_ltb.
      destruct (Z.ltb_spec (zlen c / 10) (if t =? 0 then 0 else zlen f)) as [Hf|Hf].
      * rewrite (sdsRemoveFreeSpace_mk junk t c f Hok) by lia. cbn [mbind option_bind].
        assert (Hok' : sds_ok (sdsReqType (zlen c)) c []) by (destruct (sdsReqType_spec (zlen c)); [lia|]; split; [done|cbn [length]; lia]).
        eexists. split; [done|]. split; [eapply str_raw; [done|by left|done|by exists (sdsReqType (zlen c)), []]|].
        exists None. split; [done|]. split; [done|]. intros _. eexists _, _. split; [done|]. split; [by apply sdsavail_sds_mk|].
        cbn [length]. assert (0 <= zlen c / 10) by (apply Z.div_pos; lia). destruct (sdsReqType (zlen c) =? 0); lia.
      * exists o. split; [done|]. split; [done|]. exists None. split; [done|]. split; [done|]. intros _.
        destruct Ho as [s Ht He Hv Hs|]; [|done]. unfold optr_sds in Hp. rewrite Hv in Hp. injection Hp as ->.
        eexists _, _. split; [done|]. split; [by apply sdsavail_sds_mk|]. lia.
Qed.
End Theorems.

(** ** Instances *)

Definition int_obj : robj := mkObj OBJ_STRING OBJ_ENCODING_INT 1 (PLong (-42)).
Definition raw_obj : robj := mkObj OBJ_STRING OBJ_ENCODING_RAW 1 (PSds (sds_mk 1 (str "-42") [7; 7])).

Lemma raw_obj_str : obj_str raw_obj (str "-42").
Proof. eapply str_raw; [done|by left|done|]. exists 1, [7; 7]. split; [|done]. split; [done|by vm_compute]. Qed.
Lemma int_obj_str : obj_str int_obj (str "-42").
Proof.
  apply (str_int _ _ (-42)); [done..|mlia|]. right. split; [lia|]. exists (str "42"). split; [done|]. split; [repeat constructor; done|by left; eexists _, _|done].
Qed.

Lemma string_reads_correct_witness :
  (exists r, compareStringObjects (fun _ => 0) false int_obj raw_obj = Some r /\ (r ?= 0) = lex (str "-42") (str "-42")) /\
  equalStringObjects (fun _ => 0) false int_obj raw_obj = Some (bool_decide (str "-42" = str "-42")) /\
  stringObjectLen int_obj = Some (zlen (str "-42")) /\
  (exists r, getLongLongFromObject (Some int_obj) = Some (match r with Some v => (C_OK, Some v) | None => (C_ERR, None) end) /\ denotes (str "-42") r) /\
  exists a', getDecodedObject (fun _ => 0) int_obj = Some a' /\ obj_str a' (str "-42") /\ encoding a' <> OBJ_ENCODING_INT.
Proof. apply string_reads_correct; [apply int_obj_str|apply raw_obj_str|by vm_compute|by vm_compute|done]. Defined.

Definition plain_server : server := {| maxmemory := 0; maxmemory_policy := 0 |}.

Lemma tryObjectEncoding_correct_witness :
  exists o', tryObjectEncoding (fun _ => 0) plain_server raw_obj = Some o' /\ obj_str o' (str "-42") /\
    if (encoding raw_obj =? OBJ_ENCODING_INT) || (refcount raw_obj >? 1) then o' = raw_obj else
    exists r, denotes (str "-42") r /\
    match r with
    | Some v => encoding o' = OBJ_ENCODING_INT /\
        refcount o' = (if ((maxmemory plain_server =? 0) || (Z.land (maxmemory_policy plain_server) MAXMEMORY_FLAG_NO_SHARED_INTEGERS =? 0)) && (0 <=? v) && (v <? 10000)
                       then OBJ_SHARED_REFCOUNT else refcount raw_obj)
    | None => if zlen (str "-42") <=? 44 then encoding o' = OBJ_ENCODING_EMBSTR
              else encoding o' = encoding raw_obj /\ (encoding raw_obj = OBJ_ENCODING_RAW ->
                     exists s a, oval o' = PSds s /\ sdsavail s = Some a /\ a <= zlen (str "-42") / 10)
    end.
Proof. apply tryObjectEncoding_correct; [apply raw_obj_str|by vm_compute]. Defined.
