(* ===== verification/Networking.v ===== *)
(** networking.c: how a client's bytes become commands.

    [readQueryFromClient] appends what read(2) returns to the query buffer, an
    sds; [processInputBuffer] cuts requests off its front, in the inline or the
    multibulk (RESP) form, fills [argv] with string objects and calls
    processCommand for each complete request.

    The rest of the server is behind the class [Server]: executing a command,
    freeing a client, pausing, the replication stream, the clock.  What a client
    is told is the list [errors] of the texts given to addReplyErrorLength; the
    output buffers, the log lines and the release of memory are not modelled.  *)

From S2P Require Import Prelude Decimal Util Sds SdsString SdsArgs Object.

Definition PROTO_IOBUF_LEN : Z := 16384.
Definition PROTO_INLINE_MAX_SIZE : Z := 65536.
Definition PROTO_MBULK_BIG_ARG : Z := 32768.
Definition PROTO_REQ_INLINE : Z := 1.
Definition PROTO_REQ_MULTIBULK : Z := 2.
Definition CLIENT_SLAVE : Z := 1.
Definition CLIENT_MASTER : Z := 2.
Definition CLIENT_MULTI : Z := 8.
Definition CLIENT_BLOCKED : Z := 16.
Definition CLIENT_CLOSE_AFTER_REPLY : Z := 64.
Definition CLIENT_ASKING : Z := 512.
Definition CLIENT_CLOSE_ASAP : Z := 1024.
Definition CLIENT_REPLY_SKIP_NEXT : Z := 8388608.
Definition CLIENT_REPLY_SKIP : Z := 16777216.
Definition BLOCKED_MODULE : Z := 3.

(** The parser's part of a client; [argc] is the length of [argv], [argv_size]
    the number of slots that its block has.  [asking] is
    [c->cmd && c->cmd->proc == askingCommand]. *)
Record client := mkClient {
  querybuf : sds; querybuf_peak : Z;
  argv : list robj; argv_size : Z;
  reqtype : Z; multibulklen : Z; bulklen : Z;
  flags : Z; btype : Z; asking : bool;
  pending_querybuf : sds; reploff : Z; read_reploff : Z; repl_ack_time : Z; lastinteraction : Z;
  errors : list (list Z)
}.

Definition set_querybuf (c : client) (q : sds) : client :=
  mkClient q (querybuf_peak c) (argv c) (argv_size c) (reqtype c) (multibulklen c) (bulklen c) (flags c) (btype c) (asking c)
    (pending_querybuf c) (reploff c) (read_reploff c) (repl_ack_time c) (lastinteraction c) (errors c).
Definition set_argv (c : client) (l : list robj) (size : Z) : client :=
  mkClient (querybuf c) (querybuf_peak c) l size (reqtype c) (multibulklen c) (bulklen c) (flags c) (btype c) (asking c)
    (pending_querybuf c) (reploff c) (read_reploff c) (repl_ack_time c) (lastinteraction c) (errors c).
Definition set_request (c : client) (rt mb bl : Z) : client :=
  mkClient (querybuf c) (querybuf_peak c) (argv c) (argv_size c) rt mb bl (flags c) (btype c) (asking c)
    (pending_querybuf c) (reploff c) (read_reploff c) (repl_ack_time c) (lastinteraction c) (errors c).
Definition set_flags (c : client) (f : Z) (ask : bool) : client :=
  mkClient (querybuf c) (querybuf_peak c) (argv c) (argv_size c) (reqtype c) (multibulklen c) (bulklen c) f (btype c) ask
    (pending_querybuf c) (reploff c) (read_reploff c) (repl_ack_time c) (lastinteraction c) (errors c).
Definition set_repl (c : client) (p : sds) (off rd ack li : Z) : client :=
  mkClient (querybuf c) (querybuf_peak c) (argv c) (argv_size c) (reqtype c) (multibulklen c) (bulklen c) (flags c) (btype c) (asking c)
    p off rd ack li (errors c).
Definition set_peak (c : client) (n : Z) : client :=
  mkClient (querybuf c) n (argv c) (argv_size c) (reqtype c) (multibulklen c) (bulklen c) (flags c) (btype c) (asking c)
    (pending_querybuf c) (reploff c) (read_reploff c) (repl_ack_time c) (lastinteraction c) (errors c).
Definition add_error (c : client) (e : list Z) : client :=
  mkClient (querybuf c) (querybuf_peak c) (argv c) (argv_size c) (reqtype c) (multibulklen c) (bulklen c) (flags c) (btype c) (asking c)
    (pending_querybuf c) (reploff c) (read_reploff c) (repl_ack_time c) (lastinteraction c) (errors c ++ [e]).

Definition has (c : client) (f : Z) : bool := negb (Z.land (flags c) f =? 0).

(** What processCommand leaves: its result and the client, or nothing when the
    client was freed (server.current_client is NULL). *)
Inductive cmd_result (W : Type) := Command (w : W) (c : client) (r : Z) | Freed (w : W).
Arguments Command {W} w c r.
Arguments Freed {W} w.

(** The server, as the network layer uses it. *)
Class Server (W : Type) := {
  unixtime : W -> Z;
  client_max_querybuf_len : W -> Z;
  clientsArePaused : W -> W * bool;
  processCommand : W -> client -> option (cmd_result W);
  freeClient : W -> client -> W;
  stat_net_input : W -> Z -> W;  (* server.stat_net_input_bytes += n *)
  replicationFeedSlavesFromMasterStream : W -> list Z -> W
}.

(** strchr on the memory [s]: the offset. *)
Fixpoint strchr_pos (s : list Z) (ch i : Z) : option (option Z) :=
  match s with
  | [] => None
  | x :: s => if x =? ch then Some (Some i) else if x =? ch_nul then Some None else strchr_pos s ch (i + 1)
  end.

Section Parser.
  (** The value of fresh memory. *)
  Context (junk : Z -> Z).

Definition freeClientArgv (c : client) : client := set_flags (set_argv c [] (argv_size c)) (flags c) false.

Definition resetClient (c : client) : client :=
  let prevcmd_asking := asking c in
  let c := freeClientArgv c in
  let c := set_request c 0 0 (-1) in
  let f := flags c in
  let f := if (Z.land f CLIENT_MULTI =? 0) && negb prevcmd_asking then Z.ldiff f CLIENT_ASKING else f in
  let f := Z.ldiff f CLIENT_REPLY_SKIP in
  let f := if negb (Z.land f CLIENT_REPLY_SKIP_NEXT =? 0) then Z.ldiff (Z.lor f CLIENT_REPLY_SKIP) CLIENT_REPLY_SKIP_NEXT else f in
  set_flags c f (asking c).

Definition addReplyError (c : client) (err : list Z) : client := add_error c err.

(** "%c" prints nothing that can be seen behind it when the character is NUL;
    line ends become spaces. *)
Definition addReplyErrorFormat_got (c : client) (ch : Z) : client :=
  let text := str "Protocol error: expected '$', got '" ++ (if ch =? ch_nul then [] else ch :: str "'") in
  add_error c (map (fun x => if (x =? 13) || (x =? 10) then 32 else x) text).

Definition setProtocolError (c : client) (pos : Z) : option client :=
  let c := set_flags c (Z.lor (flags c) CLIENT_CLOSE_AFTER_REPLY) (asking c) in
  q ← sdsrange (querybuf c) pos (-1);
  Some (set_querybuf c q).

(** c->argv[c->argc++] = o *)
Definition put_arg (c : client) (o : robj) : option client :=
  if zlen (argv c) <? argv_size c then Some (set_argv c (argv c ++ [o]) (argv_size c)) else None.

Fixpoint inline_args (l : list sds) (c : client) : option client :=
  match l with
  | [] => Some c
  | a :: l =>
      len ← sdslen a;
      if negb (len =? 0) then c ← put_arg c (createObject OBJ_STRING (PSds a)); inline_args l c
      else inline_args l c
  end.

(** [now] is server.unixtime. *)
Definition processInlineBuffer (now : Z) (c : client) : option (client * Z) :=
  newline ← strchr_pos (schars (querybuf c)) 10 0;
  match newline with
  | None =>
      len ← sdslen (querybuf c);
      if len >? PROTO_INLINE_MAX_SIZE then
        let c := addReplyError c (str "Protocol error: too big inline request") in
        c ← setProtocolError c 0; Some (c, C_ERR)
      else Some (c, C_ERR)
  | Some newline =>
      newline ← (if negb (newline =? 0) then p ← sget (querybuf c) (newline - 1); Some (if p =? 13 then newline - 1 else newline)
                 else Some newline);
      let querylen := newline in
      aux ← sdsnewlen junk (Some (schars (querybuf c))) querylen;
      args ← sdssplitargs junk (schars aux);
      match args with
      | None =>
          let c := addReplyError c (str "Protocol error: unbalanced quotes in request") in
          c ← setProtocolError c 0; Some (c, C_ERR)
      | Some args =>
          let c := if (querylen =? 0) && has c CLIENT_SLAVE
                   then set_repl c (pending_querybuf c) (reploff c) (read_reploff c) now (lastinteraction c) else c in
          q ← sdsrange (querybuf c) (i32 (querylen + 2)) (-1);
          let c := set_querybuf c q in
          let c := if negb (zlen args =? 0) then set_argv c [] (zlen args) else set_argv c [] (argv_size c) in
          c ← inline_args args c;
          Some (c, C_OK)
      end
  end.

(** One turn of the loop of processMultibulkBuffer, at offset [pos]. *)
Inductive turn := Return_err (c : client) | Stop (c : client) (pos : Z) | Next (c : client) (pos : Z).

(** Reading the bulk length when it is unknown. *)
Definition read_bulklen (c : client) (pos : Z) : option turn :=
  if negb (bulklen c =? -1) then Some (Next c pos) else
  newline ← (if pos <? 0 then None else strchr_pos (drop (Z.to_nat pos) (schars (querybuf c))) 13 pos);
  len ← sdslen (querybuf c);
  match newline with
  | None =>
      if len >? PROTO_INLINE_MAX_SIZE then
        let c := addReplyError c (str "Protocol error: too big bulk count string") in
        c ← setProtocolError c 0; Some (Return_err c)
      else Some (Stop c pos)
  | Some newline =>
      if newline >? i32 len - 2 then Some (Stop c pos) else
      ch ← sget (querybuf c) pos;
      if negb (ch =? 36) then
        c ← setProtocolError (addReplyErrorFormat_got c ch) pos; Some (Return_err c)
      else
      ll ← string2ll (drop (Z.to_nat (pos + 1)) (schars (querybuf c))) (newline - (pos + 1));
      match ll with
      | Some ll =>
          if (ll <? 0) || (ll >? 512 * 1024 * 1024) then
            let c := addReplyError c (str "Protocol error: invalid bulk length") in
            c ← setProtocolError c pos; Some (Return_err c)
          else
          let pos := pos + (newline - pos + 2) in
          if ll >=? PROTO_MBULK_BIG_ARG then
            q ← sdsrange (querybuf c) pos (-1);
            qblen ← sdslen q;
            q ← (if qblen <? ll + 2 then sdsMakeRoomFor junk q (ll + 2 - qblen) else Some q);
            Some (Next (set_request (set_querybuf c q) (reqtype c) (multibulklen c) ll) 0)
          else Some (Next (set_request c (reqtype c) (multibulklen c) ll) pos)
      | None =>
          let c := addReplyError c (str "Protocol error: invalid bulk length") in
          c ← setProtocolError c pos; Some (Return_err c)
      end
  end.

(** Reading the argument.  In the shortcut the object takes the buffer itself,
    which is then cut in place. *)
Definition read_bulk (c : client) (pos : Z) : option turn :=
  len ← sdslen (querybuf c);
  if u64 (len - pos) <? u32 (bulklen c + 2) then Some (Stop c pos) else
  '(c, pos) ← (
    if (pos =? 0) && (bulklen c >=? PROTO_MBULK_BIG_ARG) && (i32 len =? bulklen c + 2) then
      q ← sdsIncrLen (querybuf c) (-2);
      c ← put_arg c (createObject OBJ_STRING (PSds q));
      q ← sdsnewlen junk None (bulklen c + 2);
      q ← sdsclear q;
      Some (set_querybuf c q, 0)
    else
      o ← createStringObject junk (Some (drop (Z.to_nat pos) (schars (querybuf c)))) (bulklen c);
      c ← put_arg c o;
      Some (c, i32 (pos + (bulklen c + 2))));
  Some (Next (set_request c (reqtype c) (multibulklen c - 1) (-1)) pos).

(** while(c->multibulklen), [n] being multibulklen. *)
Fixpoint bulk_loop (n : nat) (c : client) (pos : Z) : option turn :=
  match n with
  | O => Some (Stop c pos)
  | S n =>
      t ← read_bulklen c pos;
      match t with
      | Next c pos =>
          t ← read_bulk c pos;
          match t with Next c pos => bulk_loop n c pos | t => Some t end
      | t => Some t
      end
  end.

(** The first part: the number of arguments.  The flag says that the function
    returns, with the result [Z]. *)
Definition read_multibulklen (c : client) : option (client * Z * option Z) :=
  if negb (zlen (argv c) =? 0) then None else
  newline ← strchr_pos (schars (querybuf c)) 13 0;
  len ← sdslen (querybuf c);
  match newline with
  | None =>
      if len >? PROTO_INLINE_MAX_SIZE then
        let c := addReplyError c (str "Protocol error: too big mbulk count string") in
        c ← setProtocolError c 0; Some (c, 0, Some C_ERR)
      else Some (c, 0, Some C_ERR)
  | Some newline =>
      if newline >? i32 len - 2 then Some (c, 0, Some C_ERR) else
      ch ← sget (querybuf c) 0;
      if negb (ch =? 42) then None else
      ll ← string2ll (drop 1 (schars (querybuf c))) (newline - 1);
      match ll with
      | Some ll =>
          if ll >? 1024 * 1024 then
            let c := addReplyError c (str "Protocol error: invalid multibulk length") in
            c ← setProtocolError c 0; Some (c, 0, Some C_ERR)
          else
          let pos := newline + 2 in
          if ll <=? 0 then q ← sdsrange (querybuf c) pos (-1); Some (set_querybuf c q, pos, Some C_OK)
          else Some (set_argv (set_request c (reqtype c) ll (bulklen c)) (argv c) ll, pos, None)
      | None =>
          let c := addReplyError c (str "Protocol error: invalid multibulk length") in
          c ← setProtocolError c 0; Some (c, 0, Some C_ERR)
      end
  end.

(** The second part: the arguments, then the trimming. *)
Definition read_args (c : client) (pos : Z) : option (client * Z) :=
  if negb (multibulklen c >? 0) then None else
  t ← bulk_loop (Z.to_nat (multibulklen c)) c pos;
  match t with
  | Return_err c => Some (c, C_ERR)
  | Stop c pos | Next c pos =>
      c ← (if negb (pos =? 0) then q ← sdsrange (querybuf c) pos (-1); Some (set_querybuf c q) else Some c);
      Some (c, if multibulklen c =? 0 then C_OK else C_ERR)
  end.

Definition processMultibulkBuffer (c : client) : option (client * Z) :=
  '(c, pos, ret) ← (if multibulklen c =? 0 then read_multibulklen c else Some (c, 0, None));
  match ret with Some r => Some (c, r) | None => read_args c pos end.

  Context {W : Type} {HS : Server W}.

(** The end of processInputBuffer's loop; [None] as the client when it is gone,
    the flag when the loop goes on. *)
Definition run_request (w : W) (c : client) : option (W * option client * bool) :=
  if zlen (argv c) =? 0 then Some (w, Some (resetClient c), true) else
  res ← processCommand w c;
  match res with
  | Freed w => Some (w, None, false)
  | Command w c r =>
      c ← (if r =? C_OK then
             len ← sdslen (querybuf c);
             let c := if has c CLIENT_MASTER && negb (has c CLIENT_MULTI)
                      then set_repl c (pending_querybuf c) (i64 (u64 (read_reploff c - len))) (read_reploff c) (repl_ack_time c) (lastinteraction c) else c in
             Some (if negb (has c CLIENT_BLOCKED) || negb (btype c =? BLOCKED_MODULE) then resetClient c else c)
           else Some c);
      Some (w, Some c, true)
  end.

Fixpoint input_loop (fuel : nat) (w : W) (c : client) : option (W * option client) :=
  match fuel with
  | O => None
  | S f =>
      len ← sdslen (querybuf c);
      if len =? 0 then Some (w, Some c) else
      let '(w, paused) := (if negb (has c CLIENT_SLAVE) then clientsArePaused w else (w, false)) in
      if paused then Some (w, Some c) else
      if has c CLIENT_BLOCKED then Some (w, Some c) else
      if has c (Z.lor CLIENT_CLOSE_AFTER_REPLY CLIENT_CLOSE_ASAP) then Some (w, Some c) else
      c ← (if reqtype c =? 0 then
             ch ← sget (querybuf c) 0;
             Some (set_request c (if ch =? 42 then PROTO_REQ_MULTIBULK else PROTO_REQ_INLINE) (multibulklen c) (bulklen c))
           else Some c);
      '(c, r) ← (if reqtype c =? PROTO_REQ_INLINE then processInlineBuffer (unixtime w) c
                 else if reqtype c =? PROTO_REQ_MULTIBULK then processMultibulkBuffer c
                 else None);
      if negb (r =? C_OK) then Some (w, Some c) else
      '(w, c, again) ← run_request w c;
      match c with
      | Some c => if (again : bool) then input_loop f w c else Some (w, Some c)
      | None => Some (w, None)
      end
  end.

Definition processInputBuffer (w : W) (c : client) : option (W * option client) :=
  len ← sdslen (querybuf c); input_loop (S (Z.to_nat len)) w c.

Definition read_len (c : client) : option Z :=
  if (reqtype c =? PROTO_REQ_MULTIBULK) && negb (multibulklen c =? 0) && negb (bulklen c =? -1) && (bulklen c >=? PROTO_MBULK_BIG_ARG) then
    len ← sdslen (querybuf c);
    let remaining := i32 (u64 (u32 (bulklen c + 2) - len)) in
    Some (if remaining <? PROTO_IOBUF_LEN then remaining else PROTO_IOBUF_LEN)
  else Some PROTO_IOBUF_LEN.

(** What read(2) answers: an error that is not fatal, one that is, or bytes;
    none at the end of the stream. *)
Inductive read_result := Again | Failed | Bytes (bs : list Z).

Definition readQueryFromClient (w : W) (c : client) (res : read_result) : option (W * option client) :=
  readlen ← read_len c;
  qblen ← sdslen (querybuf c);
  let c := if querybuf_peak c <? qblen then set_peak c qblen else c in
  q ← sdsMakeRoomFor junk (querybuf c) (u64 readlen);
  let c := set_querybuf c q in
  match res with
  | Again => Some (w, Some c)
  | Failed => Some (freeClient w c, None)
  | Bytes [] => Some (freeClient w c, None)
  | Bytes data =>
      let nread := zlen data in
      if nread >? readlen then None else
      q ← swrite (querybuf c) qblen data;
      let c := set_querybuf c q in
      pending ← (if has c CLIENT_MASTER then sdscatlen junk (pending_querybuf c) data nread else Some (pending_querybuf c));
      q ← sdsIncrLen (querybuf c) nread;
      let c := set_querybuf c q in
      let c := set_repl c pending (reploff c) (if has c CLIENT_MASTER then i64 (read_reploff c + nread) else read_reploff c)
                 (repl_ack_time c) (unixtime w) in
      let w := stat_net_input w nread in
      len ← sdslen (querybuf c);
      if len >? client_max_querybuf_len w then Some (freeClient w c, None) else
      if negb (has c CLIENT_MASTER) then processInputBuffer w c else
      let prev_offset := reploff c in
      '(w, c) ← processInputBuffer w c;
      match c with
      | None => None
      | Some c =>
          let applied := u64 (reploff c - prev_offset) in
          if negb (applied =? 0) then
            bs ← sread (pending_querybuf c) 0 applied;
            q ← sdsrange (pending_querybuf c) (i32 applied) (-1);
            Some (replicationFeedSlavesFromMasterStream w bs, Some (set_repl c q (reploff c) (read_reploff c) (repl_ack_time c) (lastinteraction c)))
          else Some (w, Some c)
      end
  end.
End Parser.

(** ** Examples *)

Example strchr_pos_ex : strchr_pos (str "ab" ++ [0; 98]) 98 0 = Some (Some 1) /\ strchr_pos (str "a" ++ [0; 98]) 98 0 = Some None.
Proof. done. Qed.
