(* ===== verification/Requests.v ===== *)
(** networking.c: the request parser on a well-formed stream.

    The specification is the grammar of RESP requests.  The state of the parser
    between two reads stands for the part of the stream that is still to come:
    the predicate [pending].  Every call keeps it, whatever part of the stream
    has arrived. *)

From S2P Require Import Prelude Decimal Util Sds SdsString SdsArgs Object Networking.

(** ** The grammar *)

Definition crlf : list Z := [13; 10].

(** The arguments of a request, each as [$length CRLF bytes CRLF]. *)
Inductive enc_args : list (list Z) -> list Z -> Prop :=
  | enc_nil : enc_args [] []
  | enc_cons a s l b : is_sdec s (zlen a) -> zlen a <= 536870912 -> enc_args l b ->
      enc_args (a :: l) ((36 :: s) ++ crlf ++ a ++ crlf ++ b).

(** The requests of a stream; one without arguments is no command. *)
Inductive requests : list (list (list Z)) -> list Z -> Prop :=
  | req_nil : requests [] []
  | req_empty v s l b : is_sdec s v -> in_i64 v -> v <= 0 -> requests l b -> requests l ((42 :: s) ++ crlf ++ b)
  | req_cons args s b l b' : args <> [] -> zlen args <= 1048576 -> is_sdec s (zlen args) -> enc_args args b -> requests l b' ->
      requests (args :: l) ((42 :: s) ++ crlf ++ b ++ b').

(** ** The query buffer *)

Lemma rep_bytes s q : sds_rep s q -> sdslen s = Some (zlen q) /\ exists post, schars s = q ++ ch_nul :: post.
Proof. intros (t & f & Hok & ->). split; [by apply sdslen_mk|]. exists f. by apply schars_mk. Qed.

Lemma rep_get s pre x q : sds_rep s (pre ++ x :: q) -> sget s (zlen pre) = Some x.
Proof.
  intros (t & f & Hok & ->). apply sget_mk; [done|]. by rewrite lookup_app_r, Nat.sub_diag by done.
Qed.

Lemma slice_drop c pos : 0 <= pos -> slice c pos (-1) = drop (Z.to_nat pos) c.
Proof.
  intros Hp. unfold slice, slice_index. zfalse (pos <? 0). change (-1 <? 0) with true. cbv iota. apply take_ge. rewrite length_drop. lia.
Qed.

Lemma trim_front s pre q n : sds_rep s (pre ++ q) -> n = zlen pre -> zlen (pre ++ q) < 2 ^ 31 -> exists s', sdsrange s n (-1) = Some s' /\ sds_rep s' q.
Proof.
  intros (t & f & Hok & ->) -> Hl. rewrite length_app in Hl.
  destruct (sdsrange_mk t (pre ++ q) f (zlen pre) (-1) Hok) as (f' & Hrun & Hok'); [rewrite length_app; lia|unfold int_ok; lia|unfold int_ok; lia|].
  rewrite slice_drop, Nat2Z.id, drop_app_length in Hrun, Hok' by lia. eexists. split; [exact Hrun|]. by exists t, f'.
Qed.

(** A header line of the stream, of which the part [q] has arrived. *)
Lemma header_cases h (q net R : list Z) : q ++ net = h ++ crlf ++ R ->
  (exists q', q = h ++ crlf ++ q' /\ q' ++ net = R) \/ q = h ++ [13] \/ exists n, h = q ++ n.
Proof.
  revert q. induction h as [|x h IH]; intros q E.
  - destruct q as [|a [|b q]]; [right; right; by exists []|right; left; by injection E as -> _|].
    injection E as -> -> E. left. by exists q.
  - destruct q as [|y q]; [right; right; by exists (x :: h)|]. injection E as -> E.
    destruct (IH q E) as [(q' & -> & E')|[-> |(n & ->)]]; [left; by exists q'|right; by left|right; right; by exists n].
Qed.

Lemma split_prefix (x q net R : list Z) : q ++ net = x ++ R -> (length x <= length q)%nat -> exists q', q = x ++ q' /\ q' ++ net = R.
Proof.
  revert q. induction x as [|y x IH]; intros q E Hl; [by exists q|]. destruct q as [|z q]; [cbn in Hl; lia|].
  injection E as -> E. cbn [length] in Hl. destruct (IH q E) as (q' & -> & HR); [lia|]. by exists q'.
Qed.

Lemma strchr_found h rest i : Forall (fun x => x <> 13 /\ x <> 0) h -> strchr_pos (h ++ 13 :: rest) 13 i = Some (Some (i + zlen h)).
Proof.
  intros Hh. revert i. induction Hh as [|x h [H1 H2] Hh IH]; intros i; cbn [app strchr_pos length]; [by rewrite Z.add_0_r|].
  rewrite (proj2 (Z.eqb_neq x 13)), (proj2 (Z.eqb_neq x ch_nul)) by done. rewrite IH. do 2 f_equal. lia.
Qed.

Lemma strchr_none h post i : Forall (fun x => x <> 13 /\ x <> 0) h -> strchr_pos (h ++ ch_nul :: post) 13 i = Some None.
Proof.
  intros Hh. revert i. induction Hh as [|x h [H1 H2] Hh IH]; intros i; cbn [app strchr_pos]; [done|].
  by rewrite (proj2 (Z.eqb_neq x 13)), (proj2 (Z.eqb_neq x ch_nul)).
Qed.

Lemma header_chars x s v : is_sdec s v -> x = 36 \/ x = 42 -> Forall (fun c => c <> 13 /\ c <> 0) (x :: s).
Proof.
  intros Hs Hx. constructor; [lia|]. eapply Forall_impl; [by eapply sdec_chars|]. unfold digit. intros c Hc. cbn beta in Hc. lia.
Qed.

Lemma len_sdec (a s : list Z) : is_sdec s (zlen a) -> zlen a <= 536870912 -> zlen s <= 20.
Proof. intros Hs Ha. assert (H := sdec_length s (zlen a) ltac:(mlia) Hs). lia. Qed.

Lemma string2ll_at v (s post : list Z) : is_sdec s v -> in_i64 v -> string2ll (s ++ post) (zlen s) = Some (Some v).
Proof. intros Hs Hv. destruct (string2ll_spec s post) as (r & -> & Hr). by rewrite (proj2 (Hr v)). Qed.

(** ** One turn of the argument loop *)

(** The client up to its buffer, its arguments and the request under way. *)
Definition same_rest (c c' : client) : Prop :=
  querybuf_peak c' = querybuf_peak c /\ flags c' = flags c /\ btype c' = btype c /\ asking c' = asking c /\
  pending_querybuf c' = pending_querybuf c /\ reploff c' = reploff c /\ read_reploff c' = read_reploff c /\
  repl_ack_time c' = repl_ack_time c /\ lastinteraction c' = lastinteraction c /\ errors c' = errors c.

#[export] Instance same_rest_refl : Reflexive same_rest.
Proof. intros c. by repeat split. Qed.
#[export] Instance same_rest_trans : Transitive same_rest.
Proof. intros a b c Hab Hbc. unfold same_rest in *. intuition congruence. Qed.

(** The limits that keep the parser's own limits out of the way: a buffer of at
    most 64k, or one that holds nothing but a part of a big argument. *)
Definition small_enough (bl n : Z) : Prop := n <= PROTO_INLINE_MAX_SIZE \/ (PROTO_MBULK_BIG_ARG <= bl /\ n <= bl + 2).

(** What the parser leaves behind when it waits for more. *)
Definition leftover (bl n : Z) : Prop := if PROTO_MBULK_BIG_ARG <=? bl then n < bl + 2 else n <= PROTO_MBULK_BIG_ARG.

(** It has more to come. *)
Definition waits (bl n : Z) (net : list Z) : Prop := leftover bl n /\ net <> [].

Lemma header_wait (h q net R : list Z) : q ++ net = h ++ crlf ++ R -> q = h ++ [13] \/ (exists n, h = q ++ n) -> net <> [].
Proof.
  intros E H ->. rewrite app_nil_r in E. apply (f_equal length) in E. rewrite !length_app in E. cbn [length crlf] in E.
  destruct H as [-> |[n ->]]; rewrite ?length_app in E; cbn [length] in E; lia.
Qed.

Section Turns.
  Context (junk : Z -> Z).

Lemma read_bulklen_spec c (pre q net a s R : list Z) :
  sds_rep (querybuf c) (pre ++ q) -> q ++ net = (36 :: s) ++ crlf ++ R -> is_sdec s (zlen a) -> zlen a <= 536870912 ->
  bulklen c = -1 -> zlen (pre ++ q) <= PROTO_INLINE_MAX_SIZE ->
  (read_bulklen junk c (zlen pre) = Some (Stop c (zlen pre)) /\ zlen q <= 22 /\ net <> []) \/
  exists c' pre' q', read_bulklen junk c (zlen pre) = Some (Next c' (zlen pre')) /\ sds_rep (querybuf c') (pre' ++ q') /\ q' ++ net = R /\
    same_rest c c' /\ argv c' = argv c /\ argv_size c' = argv_size c /\ reqtype c' = reqtype c /\ multibulklen c' = multibulklen c /\
    bulklen c' = zlen a /\ zlen (pre' ++ q') <= zlen (pre ++ q) /\ (PROTO_MBULK_BIG_ARG <= zlen a -> pre' = []).
Proof.
  intros Hq Hnet Hs Ha Hbl Hsz. destruct (rep_bytes _ _ Hq) as (Hlen & post & Hch). unfold PROTO_INLINE_MAX_SIZE, PROTO_MBULK_BIG_ARG in *.
  assert (Hhd := header_chars 36 s _ Hs (or_introl eq_refl)). assert (Hsl := len_sdec a s Hs Ha).
  unfold read_bulklen, PROTO_INLINE_MAX_SIZE, PROTO_MBULK_BIG_ARG. rewrite Hbl, Hlen, Hch. cbn [negb Z.eqb Pos.eqb]. zfalse (zlen pre <? 0). rewrite Nat2Z.id, <-app_assoc, drop_app_length.
  destruct (header_cases _ _ _ _ Hnet) as [(q' & -> & HR)|[-> |(n & Hn)]].
  - right. assert (Hf := strchr_found (36 :: s) (10 :: q' ++ ch_nul :: post) (zlen pre) Hhd).
    assert (E : ((36 :: s) ++ crlf ++ q') ++ ch_nul :: post = (36 :: s) ++ 13 :: 10 :: q' ++ ch_nul :: post) by (unfold crlf; by rewrite <-!app_assoc).
    rewrite E, Hf. cbn [mbind option_bind]. assert (HL : zlen ((36 :: s) ++ crlf ++ q') = zlen s + 3 + zlen q') by (unfold crlf; rewrite !length_app; cbn [length]; lia).
    rewrite (length_app pre), Nat2Z.inj_add, HL in Hsz |- *. rewrite i32_small by lia. cbn [length].
    rewrite Z.gtb_ltb. zfalse (zlen pre + (zlen s + 3 + zlen q') - 2 <? zlen pre + Z.of_nat (S (length s))).
    rewrite (rep_get _ pre 36 (s ++ crlf ++ q')) by done. cbn [mbind option_bind Z.eqb Pos.eqb negb].
    assert (Hd : drop (Z.to_nat (zlen pre + 1)) (pre ++ (36 :: s) ++ 13 :: 10 :: q' ++ ch_nul :: post) = s ++ 13 :: 10 :: q' ++ ch_nul :: post).
    { replace (Z.to_nat (zlen pre + 1)) with (length pre + 1)%nat by lia. by rewrite <-drop_drop, drop_app_length. }
    rewrite Hd. replace (zlen pre + Z.of_nat (S (length s)) - (zlen pre + 1)) with (zlen s) by lia.
    rewrite (string2ll_at (zlen a)) by (done || mlia). cbn [mbind option_bind]. rewrite Z.gtb_ltb.
    zfalse (zlen a <? 0). zfalse (512 * 1024 * 1024 <? zlen a). cbn [orb]. rewrite Z.geb_leb.
    set (pre1 := pre ++ (36 :: s) ++ crlf). assert (Hp1 : zlen pre1 = zlen pre + (zlen pre + Z.of_nat (S (length s)) - zlen pre + 2)).
    { unfold pre1, crlf. rewrite !length_app. cbn [length]. lia. }
    assert (Hq1 : sds_rep (querybuf c) (pre1 ++ q')) by (unfold pre1; by rewrite <-!app_assoc).
    assert (Hl1 : zlen (pre1 ++ q') = zlen pre + (zlen s + 3 + zlen q')) by (rewrite length_app; lia).
    destruct (Z.leb_spec 32768 (zlen a)) as [Hbig|Hbig].
    + destruct (trim_front _ _ _ _ Hq1 (eq_sym Hp1)) as (s1 & -> & Hr1); [lia|]. cbn [mbind option_bind].
      destruct (rep_bytes _ _ Hr1) as (-> & _). cbn [mbind option_bind].
      assert (exists s2, (if zlen q' <? zlen a + 2 then sdsMakeRoomFor junk s1 (zlen a + 2 - zlen q') else Some s1) = Some s2 /\ sds_rep s2 q') as (s2 & -> & Hr2).
      { destruct (Z.ltb_spec (zlen q') (zlen a + 2)); [|by exists s1]. destruct Hr1 as (t & f & Hok & ->).
        destruct (sdsMakeRoomFor_mk junk t q' f (zlen a + 2 - zlen q') Hok) as (t' & f' & -> & Hok' & _); [lia..|]. eexists. split; [done|]. by exists t', f'. }
      cbn [mbind option_bind]. eexists _, [], q'. split; [done|]. split; [done|]. split; [done|]. split; [by repeat split|]. repeat split. cbn [app]. lia.
    + rewrite <-Hp1. eexists _, pre1, q'. split; [done|]. split; [done|]. split; [done|]. split; [by repeat split|]. repeat split; lia.
  - left. assert (Hf := strchr_found (36 :: s) (ch_nul :: post) (zlen pre) Hhd). rewrite <-app_assoc. cbn [app] in Hf, Hsz |- *. rewrite Hf. cbn [mbind option_bind].
    split; [|split; [cbn [length]; rewrite length_app; cbn [length]; lia|by eapply header_wait; [exact Hnet|left]]]. rewrite i32_small by lia. rewrite Z.gtb_ltb, !length_app. cbn [length]. rewrite length_app. cbn [length].
    match goal with |- (if ?b then _ else _) = _ => replace b with true by (symmetry; apply Z.ltb_lt; lia) end. done.
  - left. assert (Hnh : Forall (fun x => x <> 13 /\ x <> 0) q) by (rewrite Hn in Hhd; by apply Forall_app in Hhd as [? _]).
    rewrite (strchr_none q) by done. cbn [mbind option_bind]. rewrite Z.gtb_ltb. zfalse (65536 <? zlen (pre ++ q)). split; [done|].
    split; [|eapply header_wait; [exact Hnet|right; by exists n]]. apply (f_equal length) in Hn. rewrite length_app in Hn. cbn [length] in Hn. lia.
Qed.

Lemma read_bulk_spec c (pre q net a R : list Z) :
  sds_rep (querybuf c) (pre ++ q) -> q ++ net = a ++ crlf ++ R -> bulklen c = zlen a -> zlen a <= 536870912 -> zlen (argv c) < argv_size c ->
  zlen (pre ++ q) <= PROTO_INLINE_MAX_SIZE \/ (PROTO_MBULK_BIG_ARG <= zlen a /\ pre = [] /\ zlen q <= zlen a + 2) ->
  (read_bulk junk c (zlen pre) = Some (Stop c (zlen pre)) /\ zlen q < zlen a + 2 /\ net <> []) \/
  exists c' pre' q' o, read_bulk junk c (zlen pre) = Some (Next c' (zlen pre')) /\ sds_rep (querybuf c') (pre' ++ q') /\ q' ++ net = R /\
    same_rest c c' /\ argv c' = argv c ++ [o] /\ obj_str o a /\ argv_size c' = argv_size c /\ reqtype c' = reqtype c /\
    multibulklen c' = multibulklen c - 1 /\ bulklen c' = -1 /\ zlen (pre' ++ q') <= PROTO_INLINE_MAX_SIZE /\ zlen q' < zlen q.
Proof.
  intros Hq Hnet Hbl Ha Hroom Hsz. destruct (rep_bytes _ _ Hq) as (Hlen & post & Hch). unfold PROTO_INLINE_MAX_SIZE, PROTO_MBULK_BIG_ARG in *.
  unfold read_bulk, put_arg, PROTO_MBULK_BIG_ARG. rewrite Hlen, Hbl, Hch, (length_app pre), Nat2Z.inj_add. cbn [mbind option_bind].
  assert (Hl : zlen (pre ++ q) <= 536870914) by (rewrite length_app in *; destruct Hsz as [?|(_ & -> & ?)]; cbn [length]; lia). rewrite length_app in Hl.
  rewrite u64_small, u32_small by lia. replace (zlen pre + zlen q - zlen pre) with (zlen q) by lia.
  destruct (Z.ltb_spec (zlen q) (zlen a + 2)) as [Hlt|Hge]; [left|right].
  { split; [done|]. split; [done|]. intros ->. rewrite app_nil_r in Hnet. rewrite Hnet in Hlt. unfold crlf in Hlt. rewrite !length_app in Hlt. cbn [length] in Hlt. lia. }
  assert (exists q', q = a ++ crlf ++ q' /\ q' ++ net = R) as (q' & -> & HR).
  { rewrite app_assoc in Hnet. destruct (split_prefix (a ++ crlf) q net R Hnet) as (q' & -> & HR); [rewrite length_app; cbn [length crlf]; lia|].
    exists q'. by rewrite <-app_assoc. }
  assert (Hlq : zlen (a ++ crlf ++ q') = zlen a + 2 + zlen q') by (unfold crlf; rewrite !length_app; cbn [length]; lia). rewrite Hlq in *.
  rewrite i32_small by lia. rewrite Z.geb_leb. ztrue (zlen (argv c) <? argv_size c).
  destruct ((zlen pre =? 0) && (32768 <=? zlen a) && (zlen pre + (zlen a + 2 + zlen q') =? zlen a + 2)) eqn:Ebig.
  - assert (pre = [] /\ q' = []) as [-> ->] by (rewrite !andb_true_iff, !Z.eqb_eq in Ebig; split; apply length_zero_iff_nil; lia).
    destruct Hq as (t & f & Hok & Hqb). rewrite Hqb. cbn [app]. rewrite app_nil_r in *. destruct (sdsIncrLen_trim t a crlf f Hok) as (f' & Hrun & Hok'); [done|].
    change (- zlen crlf) with (-2) in Hrun. rewrite Hrun. cbn [mbind option_bind].
    destruct (newtype_spec (zlen a + 2)) as [Ht Hm]; [lia|].
    destruct (sdsclear_mk (sds_mk (newtype (zlen a + 2)) (replicate (Z.to_nat (zlen a + 2)) 0) []) (replicate (Z.to_nat (zlen a + 2)) 0)) as (s' & Hs' & Hr').
    { eexists _, []. split; [|done]. split; [done|]. rewrite length_replicate. cbn [length]. lia. }
    cbn [set_argv bulklen]. rewrite Hbl, sdsnewlen_null by lia. cbn [mbind option_bind]. rewrite Hs'. cbn [mbind option_bind].
    eexists _, [], [], _. split; [done|]. cbn [app] in HR |- *. split; [done|]. split; [done|]. split; [by repeat split|]. split; [done|].
    split; [by eapply str_raw; [|left| |exists t, f']|]. cbn [length crlf] in *. repeat split; lia.
  - destruct (createStringObject_str junk (drop (Z.to_nat (zlen pre)) ((pre ++ a ++ crlf ++ q') ++ ch_nul :: post)) (zlen a) a) as (o & Ho & Hs & _); [lia|lia| |].
    { rewrite Nat2Z.id, <-app_assoc, drop_app_length, <-app_assoc. by apply bread_0. }
    rewrite Ho. cbn [mbind option_bind].
    assert (Hsz' : zlen pre + (zlen a + 2 + zlen q') <= 65536).
    { destruct Hsz as [Hsz|(Hb & -> & Hsz)]; [rewrite length_app in Hsz; lia|]. exfalso. rewrite !andb_false_iff, !Z.eqb_neq, Z.leb_gt in Ebig. cbn [length] in Ebig. lia. }
    assert (Hp : zlen (pre ++ a ++ crlf) = i32 (zlen pre + (zlen a + 2))) by (rewrite i32_small, !length_app by lia; cbn [length crlf]; lia).
    cbn [set_argv bulklen]. rewrite Hbl, <-Hp. eexists _, (pre ++ a ++ crlf), q', o. split; [done|]. split; [by rewrite <-!app_assoc|]. split; [done|].
    split; [by repeat split|]. split; [done|]. split; [done|]. repeat split; [|lia]. rewrite <-!app_assoc, length_app, Nat2Z.inj_add, Hlq. lia.
Qed.
End Turns.

(** ** The state between two reads *)

(** The request under way: [s] is what follows in the stream, up to the end of
    the arguments and then [R]. *)
Inductive reading (c : client) (args : list (list Z)) (R s : list Z) : Prop :=
  | reading_header args1 args2 b : args = args1 ++ args2 -> Forall2 obj_str (argv c) args1 -> multibulklen c = zlen args2 -> argv_size c = zlen args ->
      bulklen c = -1 -> enc_args args2 b -> s = b ++ R -> reading c args R s
  | reading_data args1 a args2 b : args = args1 ++ a :: args2 -> Forall2 obj_str (argv c) args1 -> multibulklen c = zlen args2 + 1 -> argv_size c = zlen args ->
      bulklen c = zlen a -> zlen a <= 536870912 -> enc_args args2 b -> s = a ++ crlf ++ b ++ R -> reading c args R s.

Definition in_size (c : client) (pre q : list Z) : Prop :=
  zlen (pre ++ q) <= PROTO_INLINE_MAX_SIZE \/ (PROTO_MBULK_BIG_ARG <= bulklen c /\ pre = [] /\ zlen q <= bulklen c + 2).

Section Loop.
  Context (junk : Z -> Z).

(** One turn. *)
Definition one_turn (c : client) (pos : Z) : option turn :=
  t ← read_bulklen junk c pos; match t with Next c pos => read_bulk junk c pos | t => Some t end.

Lemma data_turn c (pre q net R : list Z) args1 a args2 b :
  sds_rep (querybuf c) (pre ++ q) -> q ++ net = a ++ crlf ++ b ++ R -> Forall2 obj_str (argv c) args1 ->
  multibulklen c = zlen args2 + 1 -> argv_size c = zlen (args1 ++ a :: args2) -> bulklen c = zlen a -> zlen a <= 536870912 -> enc_args args2 b -> in_size c pre q ->
  exists c' pre' q', same_rest c c' /\ reqtype c' = reqtype c /\ sds_rep (querybuf c') (pre' ++ q') /\ reading c' (args1 ++ a :: args2) R (q' ++ net) /\
    ((read_bulk junk c (zlen pre) = Some (Stop c' (zlen pre')) /\ waits (bulklen c') (zlen q') net /\ zlen q' <= zlen q /\ 0 < multibulklen c' /\ zlen (pre' ++ q') < 2 ^ 31) \/
     (read_bulk junk c (zlen pre) = Some (Next c' (zlen pre')) /\ bulklen c' = -1 /\ multibulklen c' = multibulklen c - 1 /\ zlen q' < zlen q /\ zlen (pre' ++ q') <= PROTO_INLINE_MAX_SIZE)).
Proof.
  intros Hq Hnet Hargs Hmb Has Hbl Ha Henc Hsz. assert (Hl := Forall2_length _ _ _ Hargs).
  destruct (read_bulk_spec junk c pre q net a (b ++ R) Hq Hnet Hbl Ha) as [(Hrun & Hlt & Hnn)|(c' & pre' & q' & o & Hrun & Hq' & HR & Hsame & Hav & Ho & Has' & Hrt & Hmb' & Hbl' & Hsz' & Hlt)].
  - rewrite Has, length_app. cbn [length]. lia.
  - unfold in_size in Hsz. by rewrite Hbl in Hsz.
  - exists c, pre, q. split; [done|]. split; [done|]. split; [done|]. split; [by eapply reading_data|]. left. split; [done|].
    split; [|split; [lia|split; [lia|]]].
    + split; [|done]. unfold leftover, PROTO_MBULK_BIG_ARG. rewrite Hbl. destruct (Z.leb_spec 32768 (zlen a)); lia.
    + destruct Hsz as [?|(_ & -> & ?)]; unfold PROTO_INLINE_MAX_SIZE in *; cbn [app]; lia.
  - exists c', pre', q'. split; [done|]. split; [done|]. split; [done|]. split; [|by right].
    eapply (reading_header c' _ R _ (args1 ++ [a]) args2 b); [by rewrite <-app_assoc| |lia|by rewrite Has'|done|done|done].
    rewrite Hav. apply Forall2_app; [done|]. by repeat constructor.
Qed.

Lemma one_turn_spec c (pre q net R : list Z) args :
  sds_rep (querybuf c) (pre ++ q) -> reading c args R (q ++ net) -> in_size c pre q -> 0 < multibulklen c ->
  exists c' pre' q', same_rest c c' /\ reqtype c' = reqtype c /\ sds_rep (querybuf c') (pre' ++ q') /\ reading c' args R (q' ++ net) /\
    ((one_turn c (zlen pre) = Some (Stop c' (zlen pre')) /\ waits (bulklen c') (zlen q') net /\ zlen q' <= zlen q /\ 0 < multibulklen c' /\ zlen (pre' ++ q') < 2 ^ 31) \/
     (one_turn c (zlen pre) = Some (Next c' (zlen pre')) /\ bulklen c' = -1 /\ multibulklen c' = multibulklen c - 1 /\ zlen q' < zlen q /\ zlen (pre' ++ q') <= PROTO_INLINE_MAX_SIZE)).
Proof.
  intros Hq Hread Hsz Hmb0. destruct Hread as [args1 args2 b -> Hargs Hmb Has Hbl Henc Hs|args1 a args2 b -> Hargs Hmb Has Hbl Ha Henc Hs].
  - destruct Henc as [|a s args2 b Hdec Ha Henc]; [cbn in Hmb; lia|]. rewrite <-!app_assoc in Hs.
    assert (Hsz0 : zlen (pre ++ q) <= PROTO_INLINE_MAX_SIZE) by (destruct Hsz as [?|(? & _)]; [done|unfold PROTO_MBULK_BIG_ARG in *; lia]).
    destruct (read_bulklen_spec junk c pre q net a s (a ++ crlf ++ b ++ R) Hq) as
      [(Hrun & Hlt & Hnn)|(c1 & pre1 & q1 & Hrun & Hq1 & HR1 & Hs1 & Hav1 & Has1 & Hrt1 & Hmb1 & Hbl1 & Hsz1 & Hbig1)]; [done..| |].
    + exists c, pre, q. split; [done|]. split; [done|]. split; [done|]. split; [eapply reading_header; [done..|by constructor|by rewrite <-!app_assoc]|].
      left. unfold one_turn. rewrite Hrun. split; [done|]. split; [|split; [done|split; [lia|unfold PROTO_INLINE_MAX_SIZE in *; lia]]].
      split; [|done]. unfold leftover. rewrite Hbl. change (PROTO_MBULK_BIG_ARG <=? -1) with false. cbv iota. unfold PROTO_MBULK_BIG_ARG. lia.
    + destruct (data_turn c1 pre1 q1 net R args1 a args2 b) as (c' & pre' & q' & Hs' & Hrt' & Hq' & Hr' & Hres);
        [done|done|by rewrite Hav1|rewrite Hmb1; cbn [length] in Hmb; lia|by rewrite Has1|done|done|done|by left; lia|].
      assert (Hlq : zlen q1 <= zlen q) by (apply (f_equal length) in Hs, HR1; rewrite !length_app in Hs, HR1; cbn [length crlf] in *; rewrite ?length_app in Hs; lia).
      exists c', pre', q'. split; [by etrans|]. split; [by rewrite Hrt'|]. split; [done|]. split; [done|]. unfold one_turn. rewrite Hrun. cbn [mbind option_bind].
      destruct Hres as [(-> & ? & ? & ? & ?)|(-> & ? & ? & ? & ?)]; [left|right]; (split; [done|]); (split; [done|]); (split; [lia|]); (split; [lia|]); lia.
  - destruct (data_turn c pre q net R args1 a args2 b) as (c' & pre' & q' & Hs' & Hrt' & Hq' & Hr' & Hres); [done..|].
    exists c', pre', q'. split; [done|]. split; [done|]. split; [done|]. split; [done|]. unfold one_turn, read_bulklen. rewrite Hbl. zfalse (zlen a =? -1). cbn [negb mbind option_bind].
    done.
Qed.

Lemma bulk_loop_turn n c pos : bulk_loop junk (S n) c pos =
  t ← one_turn c pos; match t with Next c pos => bulk_loop junk n c pos | t => Some t end.
Proof. cbn [bulk_loop]. unfold one_turn. destruct (read_bulklen junk c pos) as [[]|]; done. Qed.

Lemma bulk_loop_spec n : forall c (pre q net R : list Z) args,
  n = Z.to_nat (multibulklen c) -> sds_rep (querybuf c) (pre ++ q) -> reading c args R (q ++ net) -> in_size c pre q ->
  exists c' pre' q', bulk_loop junk n c (zlen pre) = Some (Stop c' (zlen pre')) /\ same_rest c c' /\ reqtype c' = reqtype c /\
    sds_rep (querybuf c') (pre' ++ q') /\ reading c' args R (q' ++ net) /\ zlen (pre' ++ q') < 2 ^ 31 /\ zlen q' <= zlen q /\
    if multibulklen c' =? 0 then n <> O -> zlen q' < zlen q /\ zlen q' <= PROTO_INLINE_MAX_SIZE else waits (bulklen c') (zlen q') net.
Proof.
  induction n as [|n IH]; intros c pre q net R args Hn Hq Hread Hsz.
  - exists c, pre, q. split; [done|]. split; [done|]. split; [done|]. split; [done|]. split; [done|].
    assert (multibulklen c = 0) as -> by (destruct Hread; lia). split; [|split; [done|by intros []]].
    destruct Hsz as [?|(_ & -> & ?)]; [unfold PROTO_INLINE_MAX_SIZE in *; lia|]. destruct Hread; cbn [app]; lia.
  - destruct (one_turn_spec c pre q net R args Hq Hread Hsz) as (c1 & pre1 & q1 & Hs1 & Hrt1 & Hq1 & Hr1 & Hres); [lia|]. rewrite bulk_loop_turn.
    destruct Hres as [(-> & Hleft & Hlq & Hmb & Hl)|(-> & Hbl1 & Hmb1 & Hlq & Hsz1)]; cbn [mbind option_bind].
    + exists c1, pre1, q1. split; [done|]. split; [done|]. split; [done|]. split; [done|]. split; [done|]. split; [done|]. split; [done|]. by zfalse (multibulklen c1 =? 0).
    + destruct (IH c1 pre1 q1 net R args) as (c' & pre' & q' & -> & Hs' & Hrt' & Hq' & Hr' & Hl' & Hlq' & Hend); [lia|done|done|by left|].
      exists c', pre', q'. split; [done|]. split; [by etrans|]. split; [by rewrite Hrt'|]. split; [done|]. split; [done|]. split; [done|]. split; [lia|].
      destruct (multibulklen c' =? 0); [intros _; rewrite length_app in Hsz1; lia|done].
Qed.
End Loop.

(** ** One call of the parser *)

(** The parser's state before a call: the commands that are still to be run and
    the stream from the buffer on. *)
Inductive pending (c : client) (cmds : list (list (list Z))) (s : list Z) : Prop :=
  | pending_idle : multibulklen c = 0 -> bulklen c = -1 -> argv c = [] -> reqtype c = 0 \/ reqtype c = PROTO_REQ_MULTIBULK ->
      requests cmds s -> pending c cmds s
  | pending_args args cmds' R : cmds = args :: cmds' -> args <> [] -> reqtype c = PROTO_REQ_MULTIBULK -> 0 < multibulklen c ->
      reading c args R s -> requests cmds' R -> pending c cmds s.

Section Calls.
  Context (junk : Z -> Z).

(** A line of the form [*number]. *)
Lemma count_line c (q net s R : list Z) v :
  sds_rep (querybuf c) q -> q ++ net = (42 :: s) ++ crlf ++ R -> is_sdec s v -> in_i64 v -> v <= 1048576 -> zlen q <= PROTO_INLINE_MAX_SIZE -> argv c = [] ->
  (read_multibulklen c = Some (c, 0, Some C_ERR) /\ zlen q <= 22 /\ net <> []) \/
  exists pre q', q = pre ++ q' /\ pre <> [] /\ q' ++ net = R /\
    read_multibulklen c = (if v <=? 0 then x ← sdsrange (querybuf c) (zlen pre) (-1); Some (set_querybuf c x, zlen pre, Some C_OK)
                           else Some (set_argv (set_request c (reqtype c) v (bulklen c)) (argv c) v, zlen pre, None)).
Proof.
  intros Hq Hnet Hs Hv Hv2 Hsz Hav. destruct (rep_bytes _ _ Hq) as (Hlen & post & Hch). unfold PROTO_INLINE_MAX_SIZE in *.
  assert (Hhd := header_chars 42 s _ Hs (or_intror eq_refl)). assert (Hsl := sdec_length s v Hv Hs).
  unfold read_multibulklen, PROTO_INLINE_MAX_SIZE. rewrite Hav, Hlen, Hch. change (negb (zlen (@nil robj) =? 0)) with false. cbv iota.
  destruct (header_cases _ _ _ _ Hnet) as [(q' & -> & HR)|[-> |(n & Hn)]].
  - right. exists ((42 :: s) ++ crlf), q'. split; [by rewrite <-app_assoc|]. split; [done|]. split; [done|].
    assert (Hf := strchr_found (42 :: s) (10 :: q' ++ ch_nul :: post) 0 Hhd).
    assert (E : ((42 :: s) ++ crlf ++ q') ++ ch_nul :: post = (42 :: s) ++ 13 :: 10 :: q' ++ ch_nul :: post) by (unfold crlf; by rewrite <-!app_assoc).
    assert (HL : zlen ((42 :: s) ++ crlf ++ q') = zlen s + 3 + zlen q') by (unfold crlf; rewrite !length_app; cbn [length]; lia).
    rewrite E, Hf, HL in *. cbn [mbind option_bind]. rewrite i32_small by lia. cbn [length]. rewrite Z.gtb_ltb.
    zfalse (zlen s + 3 + zlen q' - 2 <? 0 + Z.of_nat (S (length s))).
    assert (Hg := rep_get _ [] 42 (s ++ crlf ++ q') Hq). cbn [length] in Hg. change (Z.of_nat 0) with 0 in Hg. rewrite Hg. cbn [mbind option_bind Z.eqb Pos.eqb negb].
    change (drop 1 ((42 :: s) ++ 13 :: 10 :: q' ++ ch_nul :: post)) with (s ++ 13 :: 10 :: q' ++ ch_nul :: post).
    replace (0 + Z.of_nat (S (length s)) - 1) with (zlen s) by lia. rewrite (string2ll_at v) by done. cbn [mbind option_bind]. rewrite Z.gtb_ltb.
    zfalse (1024 * 1024 <? v). assert (zlen ((42 :: s) ++ crlf) = 0 + Z.of_nat (S (length s)) + 2) as <- by (rewrite length_app; cbn [length crlf]; lia). done.
  - left. assert (Hf := strchr_found (42 :: s) (ch_nul :: post) 0 Hhd). rewrite <-app_assoc. cbn [app] in Hf, Hsz |- *. rewrite Hf. cbn [mbind option_bind].
    split; [|split; [cbn [length]; rewrite length_app; cbn [length]; lia|by eapply header_wait; [exact Hnet|left]]]. rewrite i32_small by lia. rewrite Z.gtb_ltb. cbn [length]. rewrite length_app. cbn [length].
    match goal with |- (if ?b then _ else _) = _ => replace b with true by (symmetry; apply Z.ltb_lt; lia) end. done.
  - left. assert (Hnh : Forall (fun x => x <> 13 /\ x <> 0) q) by (rewrite Hn in Hhd; by apply Forall_app in Hhd as [? _]).
    rewrite (strchr_none q) by done. cbn [mbind option_bind]. rewrite Z.gtb_ltb. zfalse (65536 <? zlen q). split; [done|].
    split; [|eapply header_wait; [exact Hnet|right; by exists n]]. apply (f_equal length) in Hn. rewrite length_app in Hn. cbn [length] in Hn. lia.
Qed.

(** The loop, then the trimming. *)
Lemma finish_multibulk c (pre q net R : list Z) args :
  sds_rep (querybuf c) (pre ++ q) -> reading c args R (q ++ net) -> in_size c pre q -> 0 < multibulklen c ->
  exists c' q', read_args junk c (zlen pre) = Some (c', if multibulklen c' =? 0 then C_OK else C_ERR) /\
    same_rest c c' /\ reqtype c' = reqtype c /\ sds_rep (querybuf c') q' /\ reading c' args R (q' ++ net) /\ zlen q' <= zlen q /\
    if multibulklen c' =? 0 then zlen q' < zlen q /\ zlen q' <= PROTO_INLINE_MAX_SIZE else waits (bulklen c') (zlen q') net.
Proof.
  intros Hq Hread Hsz Hmb. unfold read_args. rewrite Z.gtb_ltb. ztrue (0 <? multibulklen c). cbn [negb].
  destruct (bulk_loop_spec junk _ c pre q net R args eq_refl Hq Hread Hsz) as (c1 & pre1 & q1 & -> & Hs & Hrt & Hq1 & Hr1 & Hl & Hlq & Hend).
  cbn [mbind option_bind]. assert (Hend' : if multibulklen c1 =? 0 then zlen q1 < zlen q /\ zlen q1 <= PROTO_INLINE_MAX_SIZE else waits (bulklen c1) (zlen q1) net) by (destruct (multibulklen c1 =? 0); [apply Hend; lia|done]).
  destruct (Z.eqb_spec (zlen pre1) 0) as [E|E]; cbn [negb].
  - assert (pre1 = []) as -> by (apply length_zero_iff_nil; lia). exists c1, q1. by repeat (split; [done|]).
  - destruct (trim_front _ pre1 q1 _ Hq1 eq_refl Hl) as (s' & -> & Hs'). cbn [mbind option_bind]. exists (set_querybuf c1 s'), q1. split; [done|].
    split; [etrans; [exact Hs|by repeat split]|]. split; [done|]. split; [done|]. split; [|done].
    destruct Hr1 as [args1 args2 b ? ? ? ? ? ? ?|args1 a args2 b ? ? ? ? ? ? ? ?]; [by eapply reading_header|by eapply reading_data].
Qed.

(** What a call gives: the parser waits for more, or a request is complete. *)
Definition parsed (c : client) (r : Z) (q q' net : list Z) (cmds : list (list (list Z))) : Prop :=
  (r = C_ERR /\ pending c cmds (q' ++ net) /\ reqtype c = PROTO_REQ_MULTIBULK /\ waits (bulklen c) (zlen q') net) \/
  (r = C_OK /\ zlen q' < zlen q /\ zlen q' <= PROTO_INLINE_MAX_SIZE /\
    ((argv c = [] /\ requests cmds (q' ++ net)) \/
     exists args cmds', cmds = args :: cmds' /\ args <> [] /\ Forall2 obj_str (argv c) args /\ requests cmds' (q' ++ net))).

Lemma reading_done c args R s : reading c args R s -> multibulklen c = 0 -> Forall2 obj_str (argv c) args /\ s = R.
Proof.
  intros [args1 args2 b -> Hargs Hmb _ _ Henc ->|args1 a args2 b -> Hargs Hmb] Hz; [|lia].
  destruct args2; [|cbn in Hmb; lia]. inversion Henc. rewrite app_nil_r. done.
Qed.

Lemma reading_parsed c (q q' net R : list Z) args cmds' :
  reading c args R (q' ++ net) -> args <> [] -> reqtype c = PROTO_REQ_MULTIBULK -> requests cmds' R ->
  (if multibulklen c =? 0 then zlen q' < zlen q /\ zlen q' <= PROTO_INLINE_MAX_SIZE else waits (bulklen c) (zlen q') net) ->
  parsed c (if multibulklen c =? 0 then C_OK else C_ERR) q q' net (args :: cmds').
Proof.
  intros Hr Hne Hrt HR Hend. destruct (Z.eqb_spec (multibulklen c) 0) as [E|E].
  - right. split; [done|]. split; [apply Hend|]. split; [apply Hend|]. right. exists args, cmds'. destruct (reading_done c args R _ Hr E) as [? ->]. done.
  - left. split; [done|]. split; [|done]. eapply pending_args; [done..| |done|done]. destruct Hr; lia.
Qed.

Lemma processMultibulkBuffer_spec c (q net : list Z) cmds :
  sds_rep (querybuf c) q -> q <> [] -> pending c cmds (q ++ net) -> reqtype c = PROTO_REQ_MULTIBULK -> small_enough (bulklen c) (zlen q) ->
  exists c' r q', processMultibulkBuffer junk c = Some (c', r) /\ same_rest c c' /\ sds_rep (querybuf c') q' /\ parsed c' r q q' net cmds.
Proof.
  intros Hq Hne Hp Hrt Hsz. unfold processMultibulkBuffer. destruct Hp as [Hmb Hbl Hav _ Hreq|args cmds' R -> Hane _ Hmb Hread HR].
  - assert (Hsz0 : zlen q <= PROTO_INLINE_MAX_SIZE) by (destruct Hsz as [?|[? _]]; [done|unfold PROTO_MBULK_BIG_ARG in *; lia]). rewrite Hmb. cbn [Z.eqb].
    assert (Hwait : zlen q <= 22 -> net <> [] -> read_multibulklen c = Some (c, 0, Some C_ERR) ->
      exists c' r q', ('(c, pos, ret) ← read_multibulklen c; match ret with Some r => Some (c, r) | None => read_args junk c pos end) = Some (c', r) /\
        same_rest c c' /\ sds_rep (querybuf c') q' /\ parsed c' r q q' net cmds).
    { intros Hl Hnn ->. exists c, C_ERR, q. split; [done|]. split; [done|]. split; [done|]. left. split; [done|]. split; [apply pending_idle; auto|]. split; [done|]. split; [|done].
      unfold leftover. rewrite Hbl. change (PROTO_MBULK_BIG_ARG <=? -1) with false. cbv iota. unfold PROTO_MBULK_BIG_ARG. lia. }
    inversion Hreq as [E1 E2|v s l b Hs Hv Hv0 HR E1 E2|args s b l b' Hane Han Hs Henc HR E1 E2]; subst.
    + symmetry in E2. by apply app_nil in E2 as [-> _].
    + destruct (count_line c q net s b v Hq (eq_sym E2) Hs Hv) as [(Hrun & Hl & Hnn)|(pre & q' & -> & Hpre & Hb & Hrun)]; [lia|done|done|by apply Hwait|].
      rewrite Hrun. ztrue (v <=? 0). destruct (trim_front _ pre q' _ Hq eq_refl) as (x & -> & Hx); [unfold PROTO_INLINE_MAX_SIZE in *; lia|]. cbn [mbind option_bind].
      exists (set_querybuf c x), C_OK, q'. split; [done|]. split; [by repeat split|]. split; [done|]. right. split; [done|].
      rewrite length_app in *. assert (0 < zlen pre) by (destruct pre; [done|cbn; lia]). split; [lia|]. split; [lia|]. left. split; [done|]. by rewrite Hb.
    + assert (Hz : 1 <= zlen args) by (destruct args; [done|cbn; lia]).
      destruct (count_line c q net s (b ++ b') (zlen args) Hq (eq_sym E2) Hs) as [(Hrun & Hl & Hnn)|(pre & q' & -> & Hpre & Hb & Hrun)]; [mlia|lia|done|done|by apply Hwait|].
      rewrite Hrun. zfalse (zlen args <=? 0). cbn [mbind option_bind]. set (c1 := set_argv _ _ _).
      assert (Hm1 : multibulklen c1 = zlen args) by done.
      destruct (finish_multibulk c1 pre q' net b' args) as (c' & q2 & -> & Hs' & Hrt' & Hq2 & Hr2 & Hlq & Hend); [done| |by left|lia|].
      { rewrite Hb. apply (reading_header c1 args b' _ [] args b); [done| |done|done|done|done|done]. unfold c1. cbn [set_argv argv]. rewrite Hav. constructor. }
      eexists c', _, q2. split; [done|]. split; [etrans; [|exact Hs']; by repeat split|]. split; [done|].
      apply (reading_parsed c' _ q2 net b' args l Hr2 Hane); [by rewrite Hrt'|done|]. destruct (multibulklen c' =? 0); [|done].
      rewrite length_app. lia.
  - zfalse (multibulklen c =? 0). cbn [mbind option_bind].
    destruct (finish_multibulk c [] q net R args Hq Hread) as (c' & q2 & Hrun & Hs' & Hrt' & Hq2 & Hr2 & Hlq & Hend); [|done|].
    { destruct Hsz as [?|[? ?]]; [by left|by right]. }
    cbn [length] in Hrun. change (Z.of_nat 0) with 0 in Hrun. rewrite Hrun. eexists c', _, q2. split; [done|]. split; [done|]. split; [done|].
    apply (reading_parsed c' _ q2 net R args cmds' Hr2 Hane); [by rewrite Hrt'|done|done].
Qed.
End Calls.

(** ** The server behind the parser *)

(** The client is served: neither a master's, nor blocked, nor about to be closed. *)
Definition live (c : client) : Prop :=
  has c CLIENT_MASTER = false /\ has c CLIENT_BLOCKED = false /\ has c (Z.lor CLIENT_CLOSE_AFTER_REPLY CLIENT_CLOSE_ASAP) = false.

(** A server whose commands, not being among those that block or close their
    client, leave the parser alone; [executed] lists the arguments they had. *)
Class ServerLaws (W : Type) {HS : Server W} := {
  srv_ok : W -> Prop;
  executed : W -> list (list robj);
  not_paused w : srv_ok w -> exists w', clientsArePaused w = (w', false) /\ srv_ok w' /\ executed w' = executed w;
  command_law w c : srv_ok w -> live c -> argv c <> [] ->
    exists w' c', processCommand w c = Some (Command w' c' C_OK) /\ srv_ok w' /\ executed w' = executed w ++ [argv c] /\
      live c' /\ querybuf c' = querybuf c;
  net_input_law w n : srv_ok w -> srv_ok (stat_net_input w n) /\ executed (stat_net_input w n) = executed w;
  max_querybuf_law w : srv_ok w -> 2 ^ 30 <= client_max_querybuf_len w
}.

Lemma flag_ldiff f a k : Z.land a k = 0 -> Z.land (Z.ldiff f a) k = Z.land f k.
Proof.
  intros H. apply Z.bits_inj'. intros i Hi. apply (f_equal (fun x => Z.testbit x i)) in H. rewrite Z.land_spec, Z.bits_0 in H.
  rewrite !Z.land_spec, Z.ldiff_spec. destruct (Z.testbit f i), (Z.testbit a i), (Z.testbit k i); done.
Qed.

Lemma flag_lor f a k : Z.land a k = 0 -> Z.land (Z.lor f a) k = Z.land f k.
Proof.
  intros H. apply Z.bits_inj'. intros i Hi. apply (f_equal (fun x => Z.testbit x i)) in H. rewrite Z.land_spec, Z.bits_0 in H.
  rewrite !Z.land_spec, Z.lor_spec. destruct (Z.testbit f i), (Z.testbit a i), (Z.testbit k i); done.
Qed.

Lemma reset_flag c k : Z.land CLIENT_ASKING k = 0 -> Z.land CLIENT_REPLY_SKIP k = 0 -> Z.land CLIENT_REPLY_SKIP_NEXT k = 0 ->
  has (resetClient c) k = has c k.
Proof.
  intros H1 H2 H3. unfold has, resetClient. cbn [set_flags flags set_request freeClientArgv set_argv asking].
  repeat match goal with |- context [if ?b then _ else _] => destruct b end; rewrite ?flag_ldiff, ?flag_lor, ?flag_ldiff by done; done.
Qed.

Lemma reset_live c : live c -> live (resetClient c).
Proof. intros (H1 & H2 & H3). by repeat split; rewrite reset_flag. Qed.

Lemma reset_pending c cmds s : requests cmds s -> pending (resetClient c) cmds s.
Proof. intros H. apply pending_idle; [done..|by left|done]. Qed.

Lemma same_rest_live c c' : same_rest c c' -> live c -> live c'.
Proof. intros (_ & Hf & _). unfold live, has. by rewrite Hf. Qed.

Lemma leftover_nil bl : leftover bl 0.
Proof. unfold leftover. destruct (Z.leb_spec PROTO_MBULK_BIG_ARG bl); unfold PROTO_MBULK_BIG_ARG in *; lia. Qed.

Lemma leftover_small bl n : leftover bl n -> small_enough bl n.
Proof. unfold leftover, small_enough, PROTO_INLINE_MAX_SIZE, PROTO_MBULK_BIG_ARG. destruct (Z.leb_spec 32768 bl); lia. Qed.

Section Stream.
  Context {W : Type} {HS : Server W} {HL : ServerLaws W}.
  Context (junk : Z -> Z).

(** The type of the request is settled by its first character. *)
Lemma settle_type c (q net : list Z) cmds : sds_rep (querybuf c) q -> q <> [] -> pending c cmds (q ++ net) ->
  exists c', (if reqtype c =? 0 then ch ← sget (querybuf c) 0;
      Some (set_request c (if ch =? 42 then PROTO_REQ_MULTIBULK else PROTO_REQ_INLINE) (multibulklen c) (bulklen c)) else Some c) = Some c' /\
    same_rest c c' /\ querybuf c' = querybuf c /\ bulklen c' = bulklen c /\ reqtype c' = PROTO_REQ_MULTIBULK /\ pending c' cmds (q ++ net).
Proof.
  intros Hq Hne Hp. destruct q as [|x q]; [done|]. destruct Hp as [Hmb Hbl Hav Hrt Hreq|args cmds' R -> Hane Hrt Hmb Hread HR].
  - destruct Hrt as [Hrt|Hrt]; rewrite Hrt; cbn [Z.eqb].
    + assert (Hg := rep_get _ [] x q Hq). cbn [length] in Hg. change (Z.of_nat 0) with 0 in Hg. rewrite Hg. cbn [mbind option_bind].
      assert (x = 42) as -> by (cbn [app] in Hreq; by inversion Hreq). eexists. split; [done|]. split; [by repeat split|]. split; [done|]. split; [done|]. split; [done|].
      apply pending_idle; [done..|by right|done].
    + exists c. repeat split; try done. apply pending_idle; [done..|by right|done].
  - rewrite Hrt. exists c. repeat split; try done. by eapply pending_args.
Qed.

(** The client and the server after some of the commands. *)
Record served (w w' : W) (c' : client) (net : list Z) (cmds : list (list (list Z))) : Prop := {
  sv_ok : srv_ok w';
  sv_live : live c';
  sv_run : exists q done todo new, cmds = done ++ todo /\ sds_rep (querybuf c') q /\ pending c' todo (q ++ net) /\ leftover (bulklen c') (zlen q) /\
    (net = [] -> todo = []) /\ executed w' = executed w ++ new /\ Forall2 (Forall2 obj_str) new done
}.

Lemma pending_nil c cmds : pending c cmds [] -> cmds = [].
Proof.
  intros [_ _ _ _ Hr|args cmds' R _ _ _ Hmb Hread _]; [by inversion Hr|]. exfalso.
  destruct Hread as [args1 args2 b _ _ Hm _ _ Henc E|args1 a args2 b _ _ _ _ _ _ _ E].
  - destruct Henc; [cbn [length] in Hm; lia|done].
  - apply (f_equal length) in E. rewrite !length_app in E. cbn [length crlf] in E. lia.
Qed.

Lemma run_request_spec w c q : srv_ok w -> live c -> argv c <> [] -> sds_rep (querybuf c) q ->
  exists w' c', run_request w c = Some (w', Some c', true) /\ srv_ok w' /\ executed w' = executed w ++ [argv c] /\ live c' /\
    querybuf c' = querybuf c /\ bulklen c' = -1 /\ forall cmds s, requests cmds s -> pending c' cmds s.
Proof.
  intros Hw Hlive Hne Hq. unfold run_request. destruct (Z.eqb_spec (zlen (argv c)) 0) as [E|E]; [by destruct (argv c)|].
  destruct (command_law w c Hw Hlive Hne) as (w' & c' & -> & Hw' & Hex & Hlive' & Hqb). cbn [mbind option_bind]. rewrite Z.eqb_refl.
  rewrite Hqb. destruct (rep_bytes _ _ Hq) as [-> _]. cbn [mbind option_bind]. destruct Hlive' as (H1 & H2 & H3). rewrite H1. cbn [andb]. cbv zeta iota. rewrite H2. cbn [negb orb].
  exists w', (resetClient c'). split; [done|]. split; [done|]. split; [done|]. split; [by apply reset_live|]. split; [done|]. split; [done|]. apply reset_pending.
Qed.

Lemma served_more w w1 w' c' net args new1 cmds : served w1 w' c' net cmds -> executed w1 = executed w ++ [new1] -> Forall2 obj_str new1 args ->
  served w w' c' net (args :: cmds).
Proof.
  intros [H1 H2 (q & done & todo & new & -> & Hq & Hp & Hl & Hnil & Hex & Hall)] Hw1 Hn. split; [done|done|].
  exists q, (args :: done), todo, (new1 :: new). split; [done|]. split; [done|]. split; [done|]. split; [done|]. split; [done|]. split; [|by constructor].
  rewrite Hex, Hw1, <-app_assoc. done.
Qed.

Lemma served_same w w1 w' c' net cmds : served w1 w' c' net cmds -> executed w1 = executed w -> served w w' c' net cmds.
Proof. intros [H1 H2 H3] E. rewrite E in H3. by split. Qed.

Lemma served_none w c q net cmds : srv_ok w -> live c -> sds_rep (querybuf c) q -> pending c cmds (q ++ net) -> leftover (bulklen c) (zlen q) ->
  (net = [] -> cmds = []) -> served w w c net cmds.
Proof. intros. split; [done|done|]. exists q, [], cmds, []. by repeat (split; [done|]); split; [rewrite app_nil_r|constructor]. Qed.

Lemma input_loop_spec fuel : forall w c (q net : list Z) cmds,
  srv_ok w -> live c -> sds_rep (querybuf c) q -> pending c cmds (q ++ net) -> small_enough (bulklen c) (zlen q) -> (length q < fuel)%nat ->
  exists w' c', input_loop junk fuel w c = Some (w', Some c') /\ served w w' c' net cmds.
Proof.
  induction fuel as [|fuel IH]; intros w c q net cmds Hw Hlive Hq Hp Hsz Hf; [lia|]. cbn [input_loop].
  destruct (rep_bytes _ _ Hq) as [-> _]. cbn [mbind option_bind]. destruct (Z.eqb_spec (zlen q) 0) as [E|E].
  { assert (q = []) as -> by (by apply length_zero_iff_nil; lia). exists w, c. split; [done|]. eapply served_none; [done..|apply leftover_nil|]. intros ->. by eapply pending_nil. }
  assert (Hne : q <> []) by (by intros ->).
  assert (exists w1, (if negb (has c CLIENT_SLAVE) then clientsArePaused w else (w, false)) = (w1, false) /\ srv_ok w1 /\ executed w1 = executed w) as (w1 & -> & Hw1 & Hex1).
  { destruct (negb _); [by apply not_paused|by exists w]. }
  destruct Hlive as (H1 & H2 & H3). rewrite H2, H3. destruct (settle_type c q net cmds Hq Hne Hp) as (c1 & -> & Hs1 & Hqb1 & Hbl1 & Hrt1 & Hp1).
  cbn [mbind option_bind]. rewrite Hrt1. change (PROTO_REQ_MULTIBULK =? PROTO_REQ_INLINE) with false. change (PROTO_REQ_MULTIBULK =? PROTO_REQ_MULTIBULK) with true. cbv iota.
  destruct (processMultibulkBuffer_spec junk c1 q net cmds) as (c2 & r & q2 & -> & Hs2 & Hq2 & Hres); [by rewrite Hqb1|done|done|done|by rewrite Hbl1|].
  assert (Hlive2 : live c2) by (eapply same_rest_live; [exact Hs2|]; by eapply same_rest_live). cbn [mbind option_bind].
  destruct Hres as [(-> & Hp2 & _ & Hleft & Hnn)|(-> & Hlt & Hsz2 & Hend)].
  { change (negb (C_ERR =? C_OK)) with true. cbv iota. exists w1, c2. split; [done|]. eapply served_same; [by eapply served_none|done]. }
  change (negb (C_OK =? C_OK)) with false. cbv iota. destruct Hend as [[Hav Hreq]|(args & cmds' & -> & Hane & Hobj & Hreq)].
  - unfold run_request. rewrite Hav. cbn [length]. change (Z.of_nat 0 =? 0) with true. cbn [mbind option_bind].
    destruct (IH w1 (resetClient c2) q2 net cmds) as (w' & c' & Hrun & Hserved); [done|by apply reset_live|done|by apply reset_pending|by left|lia|].
    exists w', c'. split; [done|]. by eapply served_same.
  - assert (Hne2 : argv c2 <> []) by (intros Ea; rewrite Ea in Hobj; by apply Forall2_nil_inv_l in Hobj).
    destruct (run_request_spec w1 c2 q2 Hw1 Hlive2 Hne2 Hq2) as (w3 & c3 & -> & Hw3 & Hex3 & Hlive3 & Hqb3 & Hbl3 & Hp3). cbn [mbind option_bind].
    destruct (IH w3 c3 q2 net cmds') as (w' & c' & Hrun & Hserved); [done|done|by rewrite Hqb3|by apply Hp3|by left|lia|].
    exists w', c'. split; [done|]. eapply served_more; [done| |done]. by rewrite Hex3, Hex1.
Qed.

(** ** Reading from the socket *)

Definition same_parse (c c' : client) : Prop :=
  argv c' = argv c /\ argv_size c' = argv_size c /\ reqtype c' = reqtype c /\ multibulklen c' = multibulklen c /\ bulklen c' = bulklen c.

Lemma pending_same c c' cmds s : same_parse c c' -> pending c cmds s -> pending c' cmds s.
Proof.
  intros (E1 & E2 & E3 & E4 & E5) [H1 H2 H3 H4 H5|args cmds' R H1 Hne H2 H3 Hr HR]; [by apply pending_idle; rewrite ?E1, ?E3, ?E4, ?E5|].
  eapply pending_args; [done|done|by rewrite E3|by rewrite E4| |done]. destruct Hr as [args1 args2 b G1 G2 G3 G4 G5 G6 G7|args1 a args2 b G1 G2 G3 G4 G5 G6 G7 G8].
  - by eapply reading_header; rewrite ?E1, ?E2, ?E4, ?E5.
  - by eapply reading_data; rewrite ?E1, ?E2, ?E4, ?E5.
Qed.

Lemma read_len_spec c (q net : list Z) cmds : sds_rep (querybuf c) q -> pending c cmds (q ++ net) -> leftover (bulklen c) (zlen q) ->
  exists n, read_len c = Some n /\ 1 <= n <= PROTO_IOBUF_LEN /\ (zlen q + n < 2 ^ 30) /\ forall k, 0 <= k <= n -> small_enough (bulklen c) (zlen q + k).
Proof.
  intros Hq Hp Hl. unfold leftover, small_enough, read_len, PROTO_MBULK_BIG_ARG, PROTO_INLINE_MAX_SIZE, PROTO_IOBUF_LEN in *. rewrite Z.geb_leb.
  destruct (Z.leb_spec 32768 (bulklen c)) as [Hb|Hb].
  - destruct Hp as [_ Hbl|args cmds' R _ _ Hrt Hmb Hread _]; [lia|]. destruct Hread as [|args1 a args2 b _ _ _ _ Hbl Ha _ _]; [lia|].
    rewrite Hrt, Z.eqb_refl. zfalse (multibulklen c =? 0). zfalse (bulklen c =? -1). cbn [negb andb]. destruct (rep_bytes _ _ Hq) as [-> _]. cbn [mbind option_bind].
    rewrite u32_small, u64_small, i32_small by lia. eexists. split; [done|]. destruct (Z.ltb_spec (bulklen c + 2 - zlen q) 16384); split; [lia|split; [lia|intros; right; lia]|lia|split; [lia|intros; right; lia]].
  - rewrite andb_false_r. eexists. split; [done|]. split; [lia|]. split; [lia|]. intros. left. lia.
Qed.

Lemma read_append t q f data : sds_ok t q f -> data <> [] -> zlen data <= zlen f -> zlen data < 2 ^ 31 ->
  exists s f', swrite (sds_mk t q f) (zlen q) data = Some s /\ sdsIncrLen s (zlen data) = Some (sds_mk t (q ++ data) f') /\ sds_ok t (q ++ data) f'.
Proof.
  intros [Ht Hm] Hne Hd Hd2. destruct (length_split_tail (ch_nul :: f) (length data)) as (mid & rest & E & Hmid & Hrest); [cbn [length]; lia|].
  destruct rest as [|x f']; [cbn [length] in *; lia|]. unfold sds_mk. rewrite swrite_raw by (done || lia). rewrite E, (bwrite_app q mid (x :: f') _ data) by (done || lia).
  cbn [mbind option_bind]. cbn [length] in *. exists (raw t (zlen q) (zlen q + zlen f) (q ++ data ++ x :: f')), f'.
  split; [done|]. rewrite (sdsIncrLen_grow t q data x f' (zlen q + zlen f)); [|done|lia|done|destruct data; [done|cbn [length] in *; lia]].
  split; [done|]. split; [done|]. rewrite length_app. lia.
Qed.

Lemma readQueryFromClient_spec w c (q data net : list Z) cmds :
  srv_ok w -> live c -> sds_rep (querybuf c) q -> pending c cmds (q ++ data ++ net) -> leftover (bulklen c) (zlen q) -> data <> [] ->
  (forall n, read_len c = Some n -> zlen data <= n) ->
  exists w' c', readQueryFromClient junk w c (Bytes data) = Some (w', Some c') /\ served w w' c' net cmds.
Proof.
  intros Hw Hlive Hq Hp Hl Hne Hd. destruct (read_len_spec c q (data ++ net) cmds Hq Hp Hl) as (n & Hn & Hn1 & Hn2 & Hsmall). specialize (Hd n Hn).
  unfold readQueryFromClient, PROTO_IOBUF_LEN in *. rewrite Hn. cbn [mbind option_bind]. destruct (rep_bytes _ _ Hq) as [-> _]. cbn [mbind option_bind].
  set (c0 := if querybuf_peak c <? zlen q then set_peak c (zlen q) else c).
  assert (Hc0 : querybuf c0 = querybuf c /\ flags c0 = flags c /\ same_parse c c0) by (unfold c0, same_parse; by destruct (_ <? _)). destruct Hc0 as (-> & Hflags & Hsame).
  destruct Hq as (t & f & Hok & ->). rewrite u64_small by lia. destruct (sdsMakeRoomFor_mk junk t q f n Hok) as (t' & f' & -> & Hok' & Hroom & _); [lia..|].
  cbn [mbind option_bind]. destruct data as [|x data]; [done|]. rewrite Z.gtb_ltb. zfalse (n <? zlen (x :: data)). cbn [set_querybuf querybuf].
  destruct (read_append t' q f' (x :: data) Hok') as (s1 & f1 & -> & Hincr & Hok1); [done|lia|lia|]. cbn [mbind option_bind].
  assert (Hm : forall c' k, flags c' = flags c0 -> has c' k = has c k) by (intros c' k E; unfold has; by rewrite E, Hflags).
  destruct Hlive as (H1 & H2 & H3). rewrite !(Hm _ CLIENT_MASTER), H1 by done. cbn [mbind option_bind set_querybuf querybuf]. rewrite Hincr. cbn [mbind option_bind].
  match goal with |- context [client_max_querybuf_len (stat_net_input w ?k)] => destruct (net_input_law w k Hw) as [Hw1 Hex1]; set (w1 := stat_net_input w k) in * end.
  set (c2 := set_repl _ _ _ _ _ _). change (querybuf c2) with (sds_mk t' (q ++ x :: data) f1). rewrite sdslen_mk by done. cbn [mbind option_bind]. rewrite Z.gtb_ltb.
  assert (Hmax := max_querybuf_law w1 Hw1). assert (Hlq : zlen (q ++ x :: data) = zlen q + zlen (x :: data)) by (rewrite length_app; lia).
  zfalse (client_max_querybuf_len w1 <? zlen (q ++ x :: data)). rewrite (Hm c2), H1 by done. cbn [negb].
  unfold processInputBuffer. change (querybuf c2) with (sds_mk t' (q ++ x :: data) f1). rewrite sdslen_mk by done. cbn [mbind option_bind].
  destruct (input_loop_spec (S (Z.to_nat (zlen (q ++ x :: data)))) w1 c2 (q ++ x :: data) net cmds) as (w' & c' & Hrun & Hserved); [done| | | | |lia|].
  - by repeat split; rewrite Hm.
  - by exists t', f1.
  - rewrite <-app_assoc. eapply pending_same; [|exact Hp]. exact Hsame.
  - destruct Hsame as (_ & _ & _ & _ & Hb). change (bulklen c2) with (bulklen c0). rewrite Hb, Hlq. apply Hsmall. lia.
  - exists w', c'. split; [done|]. by eapply served_same.
Qed.
End Stream.

(** ** Whole streams *)

Section Feed.
  Context {W : Type} {HS : Server W} {HL : ServerLaws W}.
  Context (junk : Z -> Z).

(** Successive reads of the stream [net]: each gives some bytes of it, at most
    the number in [sizes] and at most those asked for. *)
Fixpoint feed (sizes : list Z) (w : W) (c : client) (net : list Z) : option (W * option client * list Z) :=
  match sizes with
  | [] => Some (w, Some c, net)
  | n :: sizes =>
      m ← read_len c;
      let k := Z.to_nat (Z.min n m) in
      match take k net with
      | [] => feed sizes w c net
      | bs =>
          '(w, c) ← readQueryFromClient junk w c (Bytes bs);
          match c with Some c => feed sizes w c (drop k net) | None => Some (w, None, drop k net) end
      end
  end.

Lemma served_app w w1 w' c' net cmds done todo new : served w1 w' c' net todo -> cmds = done ++ todo -> executed w1 = executed w ++ new ->
  Forall2 (Forall2 obj_str) new done -> served w w' c' net cmds.
Proof.
  intros [H1 H2 (q & d2 & t2 & n2 & -> & Hq & Hp & Hl & Hnil & Hex & Hall)] -> Hw1 Hn. split; [done|done|].
  exists q, (done ++ d2), t2, (new ++ n2). split; [by rewrite app_assoc|]. split; [done|]. split; [done|]. split; [done|]. split; [done|].
  split; [by rewrite Hex, Hw1, app_assoc|by apply Forall2_app].
Qed.

Lemma feed_spec sizes : Forall (fun n => 1 <= n) sizes -> forall w0 w c net cmds, served w0 w c net cmds ->
  exists w' c' rest, feed sizes w c net = Some (w', Some c', rest) /\ served w0 w' c' rest cmds /\ (zlen net <= zlen sizes -> rest = []).
Proof.
  induction 1 as [|n sizes Hn _ IH]; intros w0 w c net cmds Hsv.
  { exists w, c, net. split; [done|]. split; [done|]. intros Hl. apply length_zero_iff_nil. cbn [length] in Hl. lia. }
  assert (Hsv0 := Hsv). destruct Hsv as [Hw Hlive (q & done & todo & new & -> & Hq & Hp & Hl & Hnil & Hex & Hall)].
  cbn [feed]. destruct (read_len_spec c q net todo Hq Hp Hl) as (m & Hm & Hm1 & _ & _). rewrite Hm. cbn [mbind option_bind].
  destruct (take (Z.to_nat (Z.min n m)) net) as [|x bs] eqn:E.
  - destruct net as [|y net]; [|by destruct (Z.to_nat (Z.min n m)) eqn:Ek; [lia|]].
    destruct (IH w0 w c [] (done ++ todo) Hsv0) as (w' & c' & rest & Hrun & Hsv' & Hr). exists w', c', rest. split; [done|]. split; [done|].
    intros _. apply Hr. cbn [length]. lia.
  - destruct (readQueryFromClient_spec junk w c q (x :: bs) (drop (Z.to_nat (Z.min n m)) net) todo Hw Hlive Hq) as (w1 & c1 & -> & Hsv1); [|done|done| |].
    { by rewrite <-E, take_drop. }
    { intros m' Hm'. rewrite Hm in Hm'. injection Hm' as <-. rewrite <-E, length_take. lia. }
    cbn [mbind option_bind]. assert (Hsv1' : served w0 w1 c1 (drop (Z.to_nat (Z.min n m)) net) (done ++ todo)) by (by eapply served_app).
    destruct (IH w0 w1 c1 _ _ Hsv1') as (w' & c' & rest & Hrun & Hsv' & Hr). exists w', c', rest. split; [done|]. split; [done|].
    intros Hlen. apply Hr. rewrite length_drop. cbn [length] in Hlen. lia.
Qed.
End Feed.

(** ** Properties *)

(** C35. A stream of well-formed requests, cut into reads at any places, makes the
    server run exactly its commands, in order and each with its own arguments,
    whatever bytes these hold; requests without arguments are skipped.  The
    parser never reports a protocol error, never leaves its buffers and never
    gets stuck: when all the stream has arrived every command has been run, and
    it arrives in as many reads as it has bytes at most. *)
Theorem requests_in_any_pieces {W} {HS : Server W} {HL : ServerLaws W} junk sizes w c stream cmds :
  srv_ok w -> live c -> sds_rep (querybuf c) [] -> multibulklen c = 0 -> bulklen c = -1 -> argv c = [] -> reqtype c = 0 ->
  requests cmds stream -> Forall (fun n => 1 <= n) sizes ->
  exists w' c' rest done todo new, feed junk sizes w c stream = Some (w', Some c', rest) /\ live c' /\
    cmds = done ++ todo /\ executed w' = executed w ++ new /\ Forall2 (Forall2 obj_str) new done /\
    (rest = [] -> todo = []) /\ (zlen stream <= zlen sizes -> rest = []).
Proof.
  intros Hw Hlive Hq Hmb Hbl Hav Hrt Hreq Hsizes. assert (Hp : pending c cmds ([] ++ stream)) by (apply pending_idle; auto).
  destruct (feed_spec junk sizes Hsizes w w c stream cmds) as (w' & c' & rest & Hrun & [_ Hlive' (q & done & todo & new & E & _ & _ & _ & Hnil & Hex & Hall)] & Hr).
  { eapply served_none; [done|done|done|done|apply leftover_nil|]. intros ->. by eapply pending_nil. }
  by exists w', c', rest, done, todo, new.
Qed.

(** The limit on the length of a header line is compared with the whole
    buffer: when the arguments before it in the buffer are longer than 64k, a
    request that is well formed so far is refused as soon as the buffer ends
    inside a header.  (A client that was blocked or paused while it sent the
    request has such a buffer.) *)
Theorem big_buffer_refused junk c (pre q n s : list Z) v :
  sds_rep (querybuf c) (pre ++ q) -> 36 :: s = q ++ n -> is_sdec s v -> bulklen c = -1 ->
  PROTO_INLINE_MAX_SIZE < zlen (pre ++ q) < 2 ^ 31 ->
  exists c', read_bulklen junk c (zlen pre) = Some (Return_err c') /\
    errors c' = errors c ++ [str "Protocol error: too big bulk count string"] /\ has c' CLIENT_CLOSE_AFTER_REPLY = true.
Proof.
  intros Hq Hn Hs Hbl [H1 H2]. destruct (rep_bytes _ _ Hq) as (Hlen & post & Hch).
  assert (Hhd := header_chars 36 s _ Hs (or_introl eq_refl)). rewrite Hn in Hhd. apply Forall_app in Hhd as [Hhd _].
  unfold read_bulklen. rewrite Hbl, Hlen, Hch. cbn [negb Z.eqb Pos.eqb]. zfalse (zlen pre <? 0). rewrite Nat2Z.id, <-app_assoc, drop_app_length, strchr_none by done.
  cbn [mbind option_bind]. rewrite Z.gtb_ltb. ztrue (PROTO_INLINE_MAX_SIZE <? zlen (pre ++ q)). unfold setProtocolError, addReplyError. cbn [set_flags querybuf add_error].
  destruct (trim_front (querybuf c) [] (pre ++ q) 0 Hq eq_refl H2) as (s' & -> & _). cbn [mbind option_bind]. eexists. split; [done|]. split; [done|].
  unfold has. cbn [set_querybuf set_flags add_error flags]. rewrite Z.land_lor_distr_l, Z.land_diag.
  destruct (Z.eqb_spec (Z.lor (Z.land (flags c) CLIENT_CLOSE_AFTER_REPLY) CLIENT_CLOSE_AFTER_REPLY) 0) as [E|E]; [|done].
  by apply Z.lor_eq_0_iff in E as [_ ?].
Qed.

(** ** Instances *)

Definition fresh_client (q : list Z) : client :=
  mkClient (sds_mk 1 q [7; 7]) 0 [] 0 0 0 (-1) 0 0 false (sds_mk 1 [] []) 0 0 0 0 [].

Lemma fresh_client_rep q : zlen q < 200 -> sds_rep (querybuf (fresh_client q)) q.
Proof. intros H. exists 1, [7; 7]. split; [|done]. split; [done|]. change (type_max 1) with 256. cbn [length]. lia. Qed.

(** A server that only keeps the arguments of the commands it is given. *)
#[local] Instance log_server : Server (list (list robj)) := {
  unixtime _ := 0;
  client_max_querybuf_len _ := 1073741824;
  clientsArePaused w := (w, false);
  processCommand w c := Some (Command (w ++ [argv c]) c C_OK);
  freeClient w _ := w;
  stat_net_input w _ := w;
  replicationFeedSlavesFromMasterStream w _ := w
}.

#[local] Program Instance log_server_laws : ServerLaws (list (list robj)) := {
  srv_ok _ := True;
  executed w := w
}.
Next Obligation. intros w _. by exists w. Qed.
Next Obligation. intros w c _ Hc _. by exists (w ++ [argv c]), c. Qed.
Next Obligation. done. Qed.
Next Obligation. done. Qed.

(** A PING between two requests without arguments. *)
Definition ping_stream : list Z := (42 :: str "0") ++ crlf ++ (42 :: str "1") ++ crlf ++ ((36 :: str "4") ++ crlf ++ str "PING" ++ crlf ++ []) ++ [].

Lemma ping_requests : requests [[str "PING"]] ping_stream.
Proof.
  assert (Hd : forall d, 0 <= d <= 9 -> is_sdec [48 + d] d).
  { intros d Hd. left. split; [lia|]. split; [by repeat constructor; unfold digit; lia| |cbn; lia]. destruct (Z.eq_dec d 0) as [->|]; [by right|left; eexists _, _; split; [done|lia]]. }
  apply (req_empty 0); [by apply (Hd 0)|mlia|done|]. apply req_cons; [done|done|by apply (Hd 1)| |constructor].
  apply enc_cons; [by apply (Hd 4)|done|constructor].
Qed.

Lemma requests_in_any_pieces_witness :
  exists w' c' rest done todo new, feed (W := list (list robj)) (fun _ => 0) [3; 1; 200; 1] [] (fresh_client []) ping_stream = Some (w', Some c', rest) /\ live c' /\
    [[str "PING"]] = done ++ todo /\ executed w' = executed [] ++ new /\ Forall2 (Forall2 obj_str) new done /\
    (rest = [] -> todo = []) /\ (zlen ping_stream <= zlen [3; 1; 200; 1] -> rest = []).
Proof.
  apply (requests_in_any_pieces (W := list (list robj)) (fun _ => 0) [3; 1; 200; 1] [] (fresh_client []) ping_stream [[str "PING"]]);
    [done|by repeat split|by apply fresh_client_rep|done|done|done|done|apply ping_requests|by repeat constructor].
Defined.

(** 70000 bytes of arguments before a header that has not arrived yet. *)
Definition long_client : client :=
  mkClient (sds_mk 3 (replicate (Z.to_nat 70000) 97 ++ [36]) []) 0 [] 4 PROTO_REQ_MULTIBULK 2 (-1) 0 0 false (sds_mk 1 [] []) 0 0 0 0 [].

Lemma long_client_size : zlen (replicate (Z.to_nat 70000) 97 ++ [36]) = 70001.
Proof. rewrite length_app, length_replicate. cbn [length]. lia. Qed.

Lemma long_client_rep : sds_rep (querybuf long_client) (replicate (Z.to_nat 70000) 97 ++ [36]).
Proof. exists 3, []. split; [|exact eq_refl]. assert (H : type_ok 3) by done. split; [exact H|]. rewrite long_client_size. by vm_compute. Qed.

Lemma four_dec : is_sdec (str "4") 4.
Proof. left. split; [lia|]. split; [by repeat constructor|by left; eexists _, _|done]. Qed.

Lemma big_buffer_refused_witness :
  exists c', read_bulklen (fun _ => 0) long_client (zlen (replicate (Z.to_nat 70000) 97)) = Some (Return_err c') /\
    errors c' = [] ++ [str "Protocol error: too big bulk count string"] /\ has c' CLIENT_CLOSE_AFTER_REPLY = true.
Proof.
  apply (big_buffer_refused (fun _ => 0) long_client (replicate (Z.to_nat 70000) 97) [36] (str "4") (str "4") 4 long_client_rep eq_refl four_dec eq_refl).
  rewrite long_client_size. split; [apply Z.ltb_lt; exact eq_refl|apply Z.ltb_lt; exact eq_refl].
Defined.
