(* ===== verification/Dict.v ===== *)
(** dict.c: chained hash tables with incremental rehashing.

    A dictionary has two tables; while it is rehashing, the buckets of the
    first one move one by one to the second.  A chain is the list of its
    entries, a pointer to an entry is its place (table, index, position in the
    chain), and [None] is an access outside a table or through a NULL table,
    or a failed assert.  Keys are compared by content; the pointer comparison
    that precedes the call of keyCompare is a shortcut for equal keys. *)

From S2P Require Import Prelude.
From stdpp Require Import gmap.
#[local] Open Scope Z_scope.

Definition DICT_OK : Z := 0.
Definition DICT_ERR : Z := 1.
Definition DICT_HT_INITIAL_SIZE : Z := 4.
Definition dict_force_resize_ratio : Z := 5.

Section Types.
  Context (K V : Type).

Record dictht := mkHt {
  ht_table : option (list (list (K * V)));
  ht_size : Z;
  ht_sizemask : Z;
  ht_used : Z
}.

Record dict := mkDict {
  ht0 : dictht;
  ht1 : dictht;
  rehashidx : Z;
  iterators : Z
}.
End Types.

Arguments mkHt {K V} _ _ _ _.
Arguments ht_table {K V} _.
Arguments ht_size {K V} _.
Arguments ht_sizemask {K V} _.
Arguments ht_used {K V} _.
Arguments mkDict {K V} _ _ _ _.
Arguments ht0 {K V} _.
Arguments ht1 {K V} _.
Arguments rehashidx {K V} _.
Arguments iterators {K V} _.

(** A place in the tables: which one, the index, the position in the chain. *)
Definition place : Type := bool * Z * nat.

(** ** Definitions *)

Fixpoint next_power_loop (fuel : nat) (size i : Z) : option Z :=
  match fuel with
  | O => None
  | S f => if size <=? i then Some i else next_power_loop f size (u64 (i * 2))
  end.
Definition _dictNextPower (size : Z) : option Z :=
  if LLONG_MAX <=? size then Some LLONG_MAX else next_power_loop 64 size DICT_HT_INITIAL_SIZE.

Section Ops.
  Context {K V : Type}.
  (** The type's hashFunction and keyCompare, and the value of an entry whose
      value is not set yet. *)
  Context (hashFunction : K -> Z) (keyCompare : K -> K -> bool) (unset : V).
  Abbreviation dictht := (dictht K V).
  Abbreviation dict := (dict K V).

Definition dictIsRehashing (d : dict) : bool := negb (rehashidx d =? -1).
Definition dictSize (d : dict) : Z := u64 (ht_used (ht0 d) + ht_used (ht1 d)).
Definition ht (d : dict) (t : bool) : dictht := if t then ht1 d else ht0 d.
Definition set_ht (d : dict) (t : bool) (h : dictht) : dict :=
  if t then mkDict (ht0 d) h (rehashidx d) (iterators d) else mkDict h (ht1 d) (rehashidx d) (iterators d).
Definition set_used (h : dictht) (u : Z) : dictht := mkHt (ht_table h) (ht_size h) (ht_sizemask h) (u64 u).

(** ht->table[idx], and a store to it. *)
Definition bucket (h : dictht) (idx : Z) : option (list (K * V)) :=
  t ← ht_table h; if 0 <=? idx then t !! Z.to_nat idx else None.
Definition set_bucket (h : dictht) (idx : Z) (c : list (K * V)) : option dictht :=
  _ ← bucket h idx;
  t ← ht_table h;
  Some (mkHt (Some (<[Z.to_nat idx := c]> t)) (ht_size h) (ht_sizemask h) (ht_used h)).

Definition _dictReset : dictht := mkHt None 0 0 0.
Definition _dictInit : dict := mkDict _dictReset _dictReset (-1) 0.
Definition dictCreate : dict := _dictInit.

(** zcalloc of [n] pointers, the product computed in a size_t. *)
Definition calloc_table (n : Z) : list (list (K * V)) := replicate (Z.to_nat (u64 (n * 8) / 8)) [].

Definition dictExpand (d : dict) (size : Z) : option (dict * Z) :=
  realsize ← _dictNextPower size;
  if dictIsRehashing d || (size <? ht_used (ht0 d)) then Some (d, DICT_ERR) else
  if realsize =? ht_size (ht0 d) then Some (d, DICT_ERR) else
  let n := mkHt (Some (calloc_table realsize)) realsize (u64 (realsize - 1)) 0 in
  match ht_table (ht0 d) with
  | None => Some (mkDict n (ht1 d) (rehashidx d) (iterators d), DICT_OK)
  | Some _ => Some (mkDict (ht0 d) n 0 (iterators d), DICT_OK)
  end.

Definition dictResize (can_resize : bool) (d : dict) : option (dict * Z) :=
  if negb can_resize || dictIsRehashing d then Some (d, DICT_ERR) else
  let minimal := i32 (ht_used (ht0 d)) in
  let minimal := if minimal <? DICT_HT_INITIAL_SIZE then DICT_HT_INITIAL_SIZE else minimal in
  dictExpand d minimal.

(** The inner while of dictRehash: the index it stops at, the visits left, and
    whether they ran out. *)
Fixpoint skip_empty (e : nat) (h : dictht) (idx : Z) : option (Z * nat * bool) :=
  c ← bucket h idx;
  match c with
  | _ :: _ => Some (idx, e, false)
  | [] => match e with
          | O => None
          | S e => match e with O => Some (idx + 1, O, true) | S _ => skip_empty e h (idx + 1) end
          end
  end.

Fixpoint move_chain (c : list (K * V)) (h0 h1 : dictht) : option (dictht * dictht) :=
  match c with
  | [] => Some (h0, h1)
  | de :: nextde =>
      let h := u32 (Z.land (hashFunction de.1) (ht_sizemask h1)) in
      b ← bucket h1 h;
      h1 ← set_bucket h1 h (de :: b);
      move_chain nextde (set_used h0 (ht_used h0 - 1)) (set_used h1 (ht_used h1 + 1))
  end.

Fixpoint rehash_loop (n : nat) (d : dict) (empty_visits : nat) : option (dict * bool) :=
  match n with
  | O => Some (d, false)
  | S n =>
      if ht_used (ht0 d) =? 0 then Some (d, false) else
      if ht_size (ht0 d) >? u64 (rehashidx d) then
        '(idx, e, out) ← skip_empty empty_visits (ht0 d) (rehashidx d);
        if (out : bool) then Some (mkDict (ht0 d) (ht1 d) idx (iterators d), true) else
        de ← bucket (ht0 d) idx;
        '(h0, h1) ← move_chain de (ht0 d) (ht1 d);
        h0 ← set_bucket h0 idx [];
        rehash_loop n (mkDict h0 h1 (idx + 1) (iterators d)) e
      else None
  end.

Definition dictRehash (d : dict) (n : nat) : option (dict * Z) :=
  if negb (dictIsRehashing d) then Some (d, 0) else
  '(d, out) ← rehash_loop n d (n * 10);
  if (out : bool) then Some (d, 1) else
  if ht_used (ht0 d) =? 0 then Some (mkDict (ht1 d) _dictReset (-1) (iterators d), 0)
  else Some (d, 1).

(** dictRehashMilliseconds: [late i] is the outcome of the clock test after
    the call number [i] of dictRehash. *)
Fixpoint rehash_ms_loop (fuel : nat) (late : nat -> bool) (i : nat) (d : dict) (rehashes : Z) : option (dict * Z) :=
  match fuel with
  | O => None
  | S f =>
      '(d, r) ← dictRehash d 100;
      if r =? 0 then Some (d, rehashes) else
      let rehashes := i32 (rehashes + 100) in
      if late i then Some (d, rehashes) else rehash_ms_loop f late (S i) d rehashes
  end.
Definition dictRehashMilliseconds (late : nat -> bool) (d : dict) : option (dict * Z) :=
  rehash_ms_loop (S (Z.to_nat (ht_size (ht0 d)))) late 0 d 0.

Definition _dictRehashStep (d : dict) : option dict :=
  if iterators d =? 0 then '(d, _) ← dictRehash d 1; Some d else Some d.

(** [if (dictIsRehashing(d)) _dictRehashStep(d);] *)
Definition rehash_some (d : dict) : option dict := if dictIsRehashing d then _dictRehashStep d else Some d.

(** The walk along a chain: the position of the key. *)
Fixpoint chain_find (key : K) (c : list (K * V)) : option nat :=
  match c with
  | [] => None
  | he :: c => if keyCompare key he.1 then Some O else S <$> chain_find key c
  end.

(** The search of both tables, of the first one only when there is no
    rehashing; [hash] is an unsigned int.  The result has the index in the last
    table that was searched. *)
Definition search (d : dict) (key : K) (hash : Z) : option (Z * option place) :=
  let idx := u32 (Z.land hash (ht_sizemask (ht0 d))) in
  c ← bucket (ht0 d) idx;
  match chain_find key c with
  | Some pos => Some (idx, Some (false, idx, pos))
  | None =>
      if negb (dictIsRehashing d) then Some (idx, None) else
      let idx := u32 (Z.land hash (ht_sizemask (ht1 d))) in
      c ← bucket (ht1 d) idx;
      match chain_find key c with
      | Some pos => Some (idx, Some (true, idx, pos))
      | None => Some (idx, None)
      end
  end.

Definition _dictExpandIfNeeded (can_resize : bool) (d : dict) : option (dict * Z) :=
  if dictIsRehashing d then Some (d, DICT_OK) else
  if ht_size (ht0 d) =? 0 then dictExpand d DICT_HT_INITIAL_SIZE else
  if (ht_size (ht0 d) <=? ht_used (ht0 d)) &&
     (can_resize || (ht_used (ht0 d) / ht_size (ht0 d) >? dict_force_resize_ratio))
  then dictExpand d (u64 (ht_used (ht0 d) * 2))
  else Some (d, DICT_OK).

Definition _dictKeyIndex (can_resize : bool) (d : dict) (key : K) (hash : Z) : option (dict * Z * option place) :=
  '(d, r) ← _dictExpandIfNeeded can_resize d;
  if r =? DICT_ERR then Some (d, -1, None) else
  '(idx, existing) ← search d key hash;
  Some (d, match existing with Some _ => -1 | None => i32 idx end, existing).

(** The place of the new entry or NULL, and the existing one. *)
Definition dictAddRaw (can_resize : bool) (d : dict) (key : K) : option (dict * option place * option place) :=
  d ← rehash_some d;
  '(d, index, existing) ← _dictKeyIndex can_resize d key (u32 (hashFunction key));
  if index =? -1 then Some (d, None, existing) else
  let t := dictIsRehashing d in
  c ← bucket (ht d t) index;
  h ← set_bucket (ht d t) index ((key, unset) :: c);
  Some (set_ht d t (set_used h (ht_used h + 1)), Some (t, index, O), existing).

(** The entry at a place; dictSetVal. *)
Definition entry_at (d : dict) (p : place) : option (K * V) :=
  let '(t, idx, pos) := p in c ← bucket (ht d t) idx; c !! pos.
Definition dictSetVal (d : dict) (p : place) (val : V) : option dict :=
  let '(t, idx, pos) := p in
  c ← bucket (ht d t) idx;
  e ← c !! pos;
  h ← set_bucket (ht d t) idx (<[pos := (e.1, val)]> c);
  Some (set_ht d t h).

Definition dictAdd (can_resize : bool) (d : dict) (key : K) (val : V) : option (dict * Z) :=
  '(d, entry, _) ← dictAddRaw can_resize d key;
  match entry with
  | None => Some (d, DICT_ERR)
  | Some p => d ← dictSetVal d p val; Some (d, DICT_OK)
  end.

Definition dictReplace (can_resize : bool) (d : dict) (key : K) (val : V) : option (dict * Z) :=
  '(d, entry, existing) ← dictAddRaw can_resize d key;
  match entry with
  | Some p => d ← dictSetVal d p val; Some (d, 1)
  | None => p ← existing; d ← dictSetVal d p val; Some (d, 0)
  end.

Definition dictAddOrFind (can_resize : bool) (d : dict) (key : K) : option (dict * option place) :=
  '(d, entry, existing) ← dictAddRaw can_resize d key;
  Some (d, match entry with Some p => Some p | None => existing end).

(** The entry that was unlinked. *)
Definition dictGenericDelete (d : dict) (key : K) : option (dict * option (K * V)) :=
  if (ht_used (ht0 d) =? 0) && (ht_used (ht1 d) =? 0) then Some (d, None) else
  d ← rehash_some d;
  '(_, p) ← search d key (u32 (hashFunction key));
  match p with
  | None => Some (d, None)
  | Some (t, idx, pos) =>
      c ← bucket (ht d t) idx;
      he ← c !! pos;
      h ← set_bucket (ht d t) idx (delete pos c);
      Some (set_ht d t (set_used h (ht_used h - 1)), Some he)
  end.
Definition dictDelete (d : dict) (key : K) : option (dict * Z) :=
  '(d, he) ← dictGenericDelete d key; Some (d, match he with Some _ => DICT_OK | None => DICT_ERR end).
Definition dictUnlink (d : dict) (key : K) : option (dict * option (K * V)) := dictGenericDelete d key.

Definition dictFind (d : dict) (key : K) : option (dict * option place) :=
  if dictSize d =? 0 then Some (d, None) else
  d ← rehash_some d;
  '(_, p) ← search d key (u32 (hashFunction key));
  Some (d, p).
Definition dictFetchValue (d : dict) (key : K) : option (dict * option V) :=
  '(d, p) ← dictFind d key;
  match p with
  | None => Some (d, None)
  | Some p => he ← entry_at d p; Some (d, Some he.2)
  end.

(** The entries _dictClear frees, in order. *)
Fixpoint clear_loop (n : nat) (h : dictht) (i : Z) (used : Z) : option (list (K * V)) :=
  match n with
  | O => Some []
  | S n =>
      if used >? 0 then
        c ← bucket h i;
        l ← clear_loop n h (i + 1) (u64 (used - zlen c));
        Some (c ++ l)
      else Some []
  end.
Definition _dictClear (h : dictht) : option (dictht * list (K * V)) :=
  l ← clear_loop (Z.to_nat (ht_size h)) h 0 (ht_used h); Some (_dictReset, l).
Definition dictEmpty (d : dict) : option (dict * list (K * V)) :=
  '(h0, l0) ← _dictClear (ht0 d);
  '(h1, l1) ← _dictClear (ht1 d);
  Some (mkDict h0 h1 (-1) 0, l0 ++ l1).
End Ops.

(** A dictionary of numbers under their own hash, from empty to rehashing. *)
Fixpoint add_all (l : list Z) (d : dict Z Z) : option (dict Z Z) :=
  match l with
  | [] => Some d
  | k :: l => '(d, _) ← dictAdd id Z.eqb 0 true d k (k * k); add_all l d
  end.
Example dict_ex : (d ← add_all [1; 2; 5; 9; 13] dictCreate; Some (ht_used (ht0 d), ht_used (ht1 d), rehashidx d)) = Some (4, 1, 0).
Proof. reflexivity. Qed.
Example dict_ex2 : (d ← add_all [1; 2; 5; 9; 13] dictCreate; '(_, v) ← dictFetchValue id Z.eqb d 9; Some v) = Some (Some 81).
Proof. reflexivity. Qed.

(** ** Invariant *)

Section Invariant.
  Context {K V : Type}.
  Context (hashFunction : K -> Z).
  Abbreviation dictht := (dictht K V).
  Abbreviation dict := (dict K V).

(** The bucket of a key in a table of 2^k buckets. *)
Definition slot (k : Z) (key : K) : Z := hashFunction key mod 2 ^ k.

Record tbl_ok (k : Z) (t : list (list (K * V))) : Prop := {
  tbl_bits : 2 <= k <= 31;
  tbl_size : zlen t = 2 ^ k;
  tbl_slots : forall i c, t !! i = Some c -> Forall (fun e => slot k e.1 = Z.of_nat i) c
}.

Definition mk_ht (k : Z) (t : list (list (K * V))) : dictht := mkHt (Some t) (2 ^ k) (2 ^ k - 1) (zlen (concat t)).

(** The three forms of a dictionary, with its entries: before the first
    insertion, with one table, and rehashing, when the buckets of the first
    table before rehashidx are empty. *)
Inductive shape : dict -> list (K * V) -> Prop :=
  | shape_new it : shape (mkDict _dictReset _dictReset (-1) it) []
  | shape_one k t it : tbl_ok k t -> shape (mkDict (mk_ht k t) _dictReset (-1) it) (concat t)
  | shape_two k0 t0 k1 t1 i it :
      tbl_ok k0 t0 -> tbl_ok k1 t1 -> 0 <= i <= 2 ^ k0 ->
      (forall j, Z.of_nat j < i -> t0 !! j = Some []) ->
      shape (mkDict (mk_ht k0 t0) (mk_ht k1 t1) i it) (concat t0 ++ concat t1).

(** ** Tables *)

Lemma pow_bits k : 2 <= k <= 31 -> 4 <= 2 ^ k <= 2147483648.
Proof.
  intros Hk. split; [apply (Z.pow_le_mono_r 2 2 k)|apply (Z.pow_le_mono_r 2 k 31)]; lia.
Qed.

Lemma index_slot k key : 2 <= k <= 31 ->
  u32 (Z.land (hashFunction key) (2 ^ k - 1)) = slot k key /\
  u32 (Z.land (u32 (hashFunction key)) (2 ^ k - 1)) = slot k key.
Proof.
  intros Hk. pose proof (pow_bits k Hk). replace (2 ^ k - 1) with (Z.ones k) by (rewrite Z.ones_equiv; lia).
  rewrite !Z.land_ones by lia. unfold slot.
  pose proof (Z.mod_pos_bound (hashFunction key) (2 ^ k) ltac:(lia)).
  assert (E : u32 (hashFunction key) mod 2 ^ k = hashFunction key mod 2 ^ k).
  { unfold u32, wrapu. apply Z.mod_mod_divide. exists (2 ^ (32 - k)). rewrite <-Z.pow_add_r by lia.
    by replace (32 - k + k) with 32 by lia. }
  rewrite E. by rewrite u32_small by lia.
Qed.

Lemma slot_range k t key : tbl_ok k t -> 0 <= slot k key < zlen t.
Proof. intros [Hk Hl _]. rewrite Hl. pose proof (pow_bits k Hk). unfold slot. apply Z.mod_pos_bound. lia. Qed.

Lemma bucket_mk k t idx : 0 <= idx -> bucket (mk_ht k t) idx = t !! Z.to_nat idx.
Proof. intros H. unfold bucket. cbn. by rewrite (proj2 (Z.leb_le 0 idx)). Qed.

Lemma bucket_some k t idx : tbl_ok k t -> 0 <= idx < 2 ^ k -> exists c, t !! Z.to_nat idx = Some c.
Proof. intros [Hk Hl _] Hi. apply lookup_lt_is_Some_2. lia. Qed.

(** A bucket of the table of a key. *)
Lemma bucket_slot k t key : tbl_ok k t ->
  exists c, t !! Z.to_nat (slot k key) = Some c /\ bucket (mk_ht k t) (slot k key) = Some c.
Proof.
  intros Hok. pose proof (slot_range k t key Hok). destruct (bucket_some k t (slot k key) Hok) as [c Hc].
  { rewrite <-(tbl_size _ _ Hok). lia. }
  exists c. split; [done|]. by rewrite bucket_mk by lia.
Qed.

Lemma concat_insert (t : list (list (K * V))) i c c' :
  t !! i = Some c -> concat (<[i := c']> t) ++ c ≡ₚ concat t ++ c'.
Proof.
  intros Hi. rewrite <-(take_drop_middle t i c Hi) at 2. rewrite insert_take_drop by (by eapply lookup_lt_Some).
  rewrite !concat_app. cbn [concat]. solve_Permutation.
Qed.

Lemma concat_cons (t : list (list (K * V))) i c e :
  t !! i = Some c -> concat (<[i := e :: c]> t) ≡ₚ e :: concat t.
Proof.
  intros Hi. apply (Permutation_app_inv_r c). rewrite (concat_insert t i c (e :: c) Hi). solve_Permutation.
Qed.

Lemma length_concat_insert (t : list (list (K * V))) i c c' :
  t !! i = Some c -> zlen (concat (<[i := c']> t)) = zlen (concat t) + zlen c' - zlen c.
Proof. intros Hi. pose proof (Permutation_length (concat_insert t i c c' Hi)) as H. rewrite !length_app in H. lia. Qed.

Lemma tbl_ok_insert k t i c :
  tbl_ok k t -> Forall (fun e => slot k e.1 = Z.of_nat i) c -> tbl_ok k (<[i := c]> t).
Proof.
  intros [Hk Hl Hs] Hc. split; [done|by rewrite length_insert|]. intros j c' Hj.
  destruct (decide (j = i)) as [->|].
  - destruct (decide (i < length t)%nat).
    + rewrite list_lookup_insert_eq in Hj by done. by injection Hj as <-.
    + rewrite list_insert_ge in Hj by lia. by eapply Hs.
  - rewrite list_lookup_insert_ne in Hj by done. by eapply Hs.
Qed.

Lemma elem_in_slot k t e : tbl_ok k t -> e ∈ concat t ->
  exists c, t !! Z.to_nat (slot k e.1) = Some c /\ e ∈ c.
Proof.
  intros Hok He. apply list_elem_of_In, in_concat in He as (c & Hc & He).
  apply list_elem_of_In in Hc, He. apply list_elem_of_lookup in Hc as [i Hi].
  assert (Hs := tbl_slots _ _ Hok i c Hi). rewrite list.Forall_forall in Hs. rewrite (Hs e He), Nat2Z.id. by exists c.
Qed.

Lemma in_bucket (t : list (list (K * V))) i c e : t !! i = Some c -> e ∈ c -> e ∈ concat t.
Proof.
  intros Hi He. apply list_elem_of_In, in_concat. exists c. split; apply list_elem_of_In; [|done].
  by eapply list_elem_of_lookup_2.
Qed.

Lemma set_bucket_mk k t idx c c' : 0 <= idx -> t !! Z.to_nat idx = Some c ->
  set_bucket (mk_ht k t) idx c' = Some (mkHt (Some (<[Z.to_nat idx := c']> t)) (2 ^ k) (2 ^ k - 1) (zlen (concat t))).
Proof. intros H Hc. unfold set_bucket. rewrite bucket_mk, Hc by done. done. Qed.

Lemma set_used_mk k t idx (c c' : list (K * V)) u :
  t !! Z.to_nat idx = Some c -> zlen (concat t) < 2 ^ 63 -> zlen c' < 2 ^ 31 -> u = zlen (concat t) + zlen c' - zlen c ->
  set_used (mkHt (Some (<[Z.to_nat idx := c']> t)) (2 ^ k) (2 ^ k - 1) (zlen (concat t))) u = mk_ht k (<[Z.to_nat idx := c']> t).
Proof.
  intros Hc Ht Hc' ->. unfold set_used, mk_ht. cbn. f_equal. rewrite (length_concat_insert _ _ c) by done.
  pose proof (length_concat_insert t (Z.to_nat idx) c c' Hc). apply u64_small. lia.
Qed.

(** ** Rehashing *)

Lemma move_chain_spec c : forall tb s m u k1 t1,
  tbl_ok k1 t1 -> zlen c <= u < 2 ^ 63 -> zlen (concat t1) + zlen c < 2 ^ 31 ->
  exists t1', move_chain hashFunction c (mkHt tb s m u) (mk_ht k1 t1) = Some (mkHt tb s m (u - zlen c), mk_ht k1 t1') /\
    tbl_ok k1 t1' /\ concat t1' ≡ₚ c ++ concat t1.
Proof.
  induction c as [|de c IH]; intros tb s m u k1 t1 Hok Hu Hb; cbn [move_chain length] in *.
  { exists t1. split; [|done]. do 3 f_equal. lia. }
  cbn [ht_sizemask mk_ht]. rewrite (proj1 (index_slot k1 de.1 (tbl_bits _ _ Hok))).
  destruct (bucket_slot k1 t1 de.1 Hok) as (b & Hb1 & Hbk). pose proof (slot_range k1 t1 de.1 Hok).
  rewrite Hbk. cbn [mbind option_bind]. rewrite (set_bucket_mk k1 t1 _ b) by (done || lia). cbn [mbind option_bind ht_used].
  assert (Hlen : zlen b <= zlen (concat t1)).
  { pose proof (length_concat_insert t1 _ b [] Hb1) as E. cbn [length] in E. lia. }
  rewrite (set_used_mk k1 t1 _ b) by (done || cbn [length mk_ht ht_used]; lia).
  assert (Hok' : tbl_ok k1 (<[Z.to_nat (slot k1 de.1) := de :: b]> t1)).
  { apply tbl_ok_insert; [done|]. rewrite Z2Nat.id by lia. constructor; [done|].
    assert (Hs := tbl_slots _ _ Hok _ _ Hb1). by rewrite Z2Nat.id in Hs by lia. }
  unfold set_used at 1. cbn [ht_table ht_size ht_sizemask ht_used].
  assert (Hl := length_concat_insert t1 _ b (de :: b) Hb1). cbn [length] in Hl.
  rewrite (u64_small (u - 1)) by lia.
  destruct (IH tb s m (u - 1) k1 _ Hok') as (t1' & -> & Hok1 & Hp); [lia|lia|].
  exists t1'. split; [do 3 f_equal; lia|]. split; [done|]. rewrite Hp, (concat_cons t1 _ b) by done.
  solve_Permutation.
Qed.

Lemma skip_empty_spec k t : tbl_ok k t -> forall e idx,
  0 <= idx -> (exists j c, idx <= Z.of_nat j /\ t !! j = Some c /\ c <> []) ->
  exists idx' e' out, skip_empty (S e) (mk_ht k t) idx = Some (idx', e', out) /\ idx <= idx' <= 2 ^ k /\
    (forall j, idx <= Z.of_nat j < idx' -> t !! j = Some []) /\
    (if (out : bool) then idx < idx'
     else exists c e'', e' = S e'' /\ t !! Z.to_nat idx' = Some c /\ c <> [] /\ idx' < 2 ^ k).
Proof.
  intros Hok e. induction e as [|e IH]; intros idx H0 (j & c & Hj & Hc & Hne);
    assert (Hjl := lookup_lt_Some _ _ _ Hc); rewrite <-(tbl_size _ _ Hok);
    (destruct (bucket_some k t idx Hok) as [b Hb]; [rewrite <-(tbl_size _ _ Hok); lia|]);
    cbn [skip_empty]; rewrite (bucket_mk k t idx H0); rewrite Hb; cbn [mbind option_bind];
    (destruct b as [|x b]; [|eexists idx, _, false; split; [reflexivity|]; split; [lia|]; split; [lia|];
       eexists _, _; split; [reflexivity|]; split; [exact Hb|]; split; [done|lia]]).
  - eexists _, _, _. split; [done|]. split; [lia|]. split; [|lia]. intros j' Hj'.
    replace j' with (Z.to_nat idx) by lia. done.
  - destruct (IH (idx + 1)) as (idx' & e' & out & Hrun & Hle & Hem & Hout); [lia| |].
    { exists j, c. split; [|done]. destruct (decide (Z.of_nat j = idx)); [|lia]. subst idx. rewrite Nat2Z.id in Hb. congruence. }
    exists idx', e', out. split; [exact Hrun|]. rewrite (tbl_size _ _ Hok). split; [lia|]. split.
    + intros j' Hj'. destruct (decide (Z.of_nat j' = idx)); [replace j' with (Z.to_nat idx) by lia; done|apply Hem; lia].
    + destruct out; [lia|done].
Qed.

(** The two tables of a dictionary that is rehashing. *)
Record two (k0 : Z) (t0 : list (list (K * V))) (k1 : Z) (t1 : list (list (K * V))) (i : Z) : Prop := {
  two_0 : tbl_ok k0 t0;
  two_1 : tbl_ok k1 t1;
  two_idx : 0 <= i <= 2 ^ k0;
  two_empty : forall j, Z.of_nat j < i -> t0 !! j = Some [];
  two_size : zlen (concat t0) + zlen (concat t1) < 2 ^ 31
}.

Lemma concat_not_nil (t : list (list (K * V))) : concat t <> [] -> exists j c, t !! j = Some c /\ c <> [].
Proof.
  induction t as [|c t IH]; [done|]. cbn. destruct c as [|x c]; [|intros _; by exists O, (x :: c)].
  intros H. destruct (IH H) as (j & c & ? & ?). by exists (S j), c.
Qed.

(** Moving one bucket. *)
Lemma move_bucket k0 t0 k1 t1 i c :
  two k0 t0 k1 t1 i -> t0 !! Z.to_nat i = Some c -> i < 2 ^ k0 ->
  exists t1', move_chain hashFunction c (mk_ht k0 t0) (mk_ht k1 t1) =
      Some (mkHt (Some t0) (2 ^ k0) (2 ^ k0 - 1) (zlen (concat t0) - zlen c), mk_ht k1 t1') /\
    set_bucket (mkHt (Some t0) (2 ^ k0) (2 ^ k0 - 1) (zlen (concat t0) - zlen c)) i [] = Some (mk_ht k0 (<[Z.to_nat i := []]> t0)) /\
    two k0 (<[Z.to_nat i := []]> t0) k1 t1' (i + 1) /\
    concat (<[Z.to_nat i := []]> t0) ++ concat t1' ≡ₚ concat t0 ++ concat t1.
Proof.
  intros [H0 H1 Hi He Hsz] Hc Hlt. assert (Hl := length_concat_insert t0 _ c [] Hc). cbn [length] in Hl.
  destruct (move_chain_spec c (Some t0) (2 ^ k0) (2 ^ k0 - 1) (zlen (concat t0)) k1 t1 H1) as (t1' & Hrun & Hok1 & Hp); [lia|lia|].
  assert (Hperm : concat (<[Z.to_nat i := []]> t0) ++ concat t1' ≡ₚ concat t0 ++ concat t1).
  { rewrite Hp. pose proof (concat_insert t0 _ c [] Hc) as Hci. rewrite app_nil_r in Hci. rewrite <-Hci. solve_Permutation. }
  exists t1'. split; [exact Hrun|]. split; [|split; [|done]].
  - unfold set_bucket, bucket. cbn. rewrite (proj2 (Z.leb_le 0 i)), Hc by lia. cbn. unfold mk_ht. do 2 f_equal. lia.
  - split; [by apply tbl_ok_insert|done|lia| |].
    + intros j Hj. destruct (decide (j = Z.to_nat i)) as [->|].
      * apply list_lookup_insert_eq. by eapply lookup_lt_Some.
      * rewrite list_lookup_insert_ne by done. apply He. lia.
    + apply Permutation_length in Hperm. rewrite !length_app in Hperm. lia.
Qed.

Lemma rehash_loop_spec n : forall k0 t0 k1 t1 i it e,
  two k0 t0 k1 t1 i ->
  exists out t0' t1' i', rehash_loop hashFunction n (mkDict (mk_ht k0 t0) (mk_ht k1 t1) i it) (S e) =
      Some (mkDict (mk_ht k0 t0') (mk_ht k1 t1') i' it, out) /\
    two k0 t0' k1 t1' i' /\ concat t0' ++ concat t1' ≡ₚ concat t0 ++ concat t1 /\ i <= i' /\
    (n <> O -> concat t0 <> [] -> i < i').
Proof.
  induction n as [|n IH]; intros k0 t0 k1 t1 i it e Ht.
  { exists false, t0, t1, i. split; [done|]. split; [done|]. split; [done|]. split; [lia|done]. }
  cbn [rehash_loop]. cbn [ht0 ht1 rehashidx iterators ht_used ht_size mk_ht].
  destruct (Z.eqb_spec (zlen (concat t0)) 0) as [Hz|Hz].
  { exists false, t0, t1, i. split; [done|]. split; [done|]. split; [done|]. split; [lia|].
    intros _ Hne. destruct (concat t0); [done|simpl in Hz; lia]. }
  destruct (concat_not_nil t0) as (j & c & Hj & Hc); [intros E; by rewrite E in Hz|].
  assert (Hij : i <= Z.of_nat j).
  { destruct (Z.lt_ge_cases (Z.of_nat j) i) as [Hlt|]; [|done]. rewrite (two_empty _ _ _ _ _ Ht j Hlt) in Hj. congruence. }
  pose proof (two_idx _ _ _ _ _ Ht). pose proof (pow_bits k0 (tbl_bits _ _ (two_0 _ _ _ _ _ Ht))).
  assert (Hjl := lookup_lt_Some _ _ _ Hj). pose proof (tbl_size _ _ (two_0 _ _ _ _ _ Ht)).
  rewrite u64_small by lia. rewrite Z.gtb_ltb. ztrue (i <? 2 ^ k0).
  destruct (skip_empty_spec k0 t0 (two_0 _ _ _ _ _ Ht) e i) as (idx' & e' & out & Hrun & Hle & Hem & Hout); [lia|eauto|].
  change (mkHt (Some t0) (2 ^ k0) (2 ^ k0 - 1) (zlen (concat t0))) with (mk_ht k0 t0). rewrite Hrun. cbn [mbind option_bind].
  assert (Ht' : two k0 t0 k1 t1 idx').
  { destruct Ht as [? ? ? He ?]. split; [done|done|lia| |done]. intros j' Hj'.
    destruct (Z.lt_ge_cases (Z.of_nat j') i); [by apply He|apply Hem; lia]. }
  destruct out.
  { exists true, t0, t1, idx'. split; [done|]. split; [done|]. split; [done|]. split; [lia|]. intros _ _. lia. }
  destruct Hout as (c' & e'' & -> & Hc' & Hne' & Hlt). rewrite bucket_mk, Hc' by lia. cbn [mbind option_bind].
  destruct (move_bucket k0 t0 k1 t1 idx' c' Ht' Hc' Hlt) as (t1' & -> & Hset & Ht1 & Hp). cbn [mbind option_bind].
  rewrite Hset. cbn [mbind option_bind].
  destruct (IH k0 _ k1 t1' (idx' + 1) it e'' Ht1) as (out & t0'' & t1'' & i' & -> & Ht2 & Hp2 & Hi' & _).
  exists out, t0'', t1'', i'. split; [done|]. split; [done|]. split; [by rewrite Hp2|]. split; [lia|]. intros _ _. lia.
Qed.

(** What dictRehash does to the entries and to the index. *)
Lemma dictRehash_shape d es n :
  shape d es -> zlen es < 2 ^ 31 -> dictIsRehashing d = true ->
  exists d' r es', dictRehash hashFunction d (S n) = Some (d', r) /\ shape d' es' /\ es' ≡ₚ es /\ iterators d' = iterators d /\
    ((r = 0 /\ dictIsRehashing d' = false) \/
     (r = 1 /\ dictIsRehashing d' = true /\ ht_size (ht0 d') = ht_size (ht0 d) /\ rehashidx d < rehashidx d' <= ht_size (ht0 d))).
Proof.
  intros Hs Hl Hr. unfold dictRehash. rewrite Hr. cbn [negb].
  destruct Hs as [it|k t it Hok|k0 t0 k1 t1 i it H0 H1 Hi He]; [done|done|]. rewrite length_app in Hl.
  assert (Ht : two k0 t0 k1 t1 i) by (split; (done || lia)).
  destruct (rehash_loop_spec (S n) k0 t0 k1 t1 i it (9 + n * 10)%nat Ht) as (out & t0' & t1' & i' & Hrun & Ht' & Hp & Hle & Hlt).
  change (S n * 10)%nat with (S (9 + n * 10))%nat. rewrite Hrun. cbn [mbind option_bind]. destruct Ht' as [H0' H1' Hi' He' Hsz'].
  assert (Hgo : i < i' -> exists d' r es', Some (mkDict (mk_ht k0 t0') (mk_ht k1 t1') i' it, 1) = Some (d', r) /\ shape d' es' /\
      es' ≡ₚ concat t0 ++ concat t1 /\ iterators d' = it /\
      ((r = 0 /\ dictIsRehashing d' = false) \/
       (r = 1 /\ dictIsRehashing d' = true /\ ht_size (ht0 d') = 2 ^ k0 /\ i < rehashidx d' <= 2 ^ k0))).
  { intros Hlt'. eexists _, _, _. split; [done|]. split; [by constructor|]. split; [done|]. split; [done|]. right.
    split; [done|]. split; [unfold dictIsRehashing; cbn; by zfalse (i' =? -1)|]. cbn. split; [done|lia]. }
  cbn [ht0 ht_used mk_ht iterators ht_size rehashidx] in *.
  destruct (Z.eqb_spec (zlen (concat t0')) 0) as [Hz|Hz].
  - destruct out.
    + destruct (decide (concat t0 = [])) as [E0|E0]; [|by apply Hgo, Hlt].
      exfalso. cbn [rehash_loop ht0 ht_used mk_ht] in Hrun. by rewrite E0 in Hrun.
    + assert (Et : concat t0' = []) by (destruct (concat t0'); [done|simpl in Hz; lia]). rewrite Et in Hp. cbn [ht1] in *.
      eexists _, _, _. split; [done|]. split; [by constructor|]. split; [done|]. split; [done|]. by left.
  - assert (E0 : concat t0 <> []).
    { intros E0. cbn [rehash_loop ht0 ht_used mk_ht] in Hrun. rewrite E0 in Hrun. cbn in Hrun.
      injection Hrun. intros. subst. by rewrite E0 in Hz. }
    destruct out; by apply Hgo, Hlt.
Qed.

(** [if (dictIsRehashing(d)) _dictRehashStep(d);] keeps the entries. *)
Lemma rehash_some_shape d es :
  shape d es -> zlen es < 2 ^ 31 ->
  exists d' es', rehash_some hashFunction d = Some d' /\ shape d' es' /\ es' ≡ₚ es /\ iterators d' = iterators d.
Proof.
  intros Hs Hl. unfold rehash_some, _dictRehashStep. destruct (dictIsRehashing d) eqn:Er; [|by exists d, es].
  destruct (iterators d =? 0); [|by exists d, es].
  destruct (dictRehash_shape d es 0 Hs Hl Er) as (d' & r & es' & -> & Hs' & Hp & Hit & _). cbn [mbind option_bind].
  by exists d', es'.
Qed.

(** ** Places and stores *)

Lemma chain_place k t i c : tbl_ok k t -> t !! i = Some c -> Forall (fun e => hashFunction e.1 mod 2 ^ k = Z.of_nat i) c.
Proof. intros Hok Hc. exact (tbl_slots _ _ Hok i c Hc). Qed.

(** The chain at an index holds entries of that index. *)
Lemma bucket_placed d es t idx c :
  shape d es -> bucket (ht d t) idx = Some c ->
  0 <= idx /\ Forall (fun e => hashFunction e.1 mod ht_size (ht d t) = idx) c /\ (forall e, e ∈ c -> e ∈ es).
Proof.
  intros Hs Hb. assert (H0 : 0 <= idx).
  { unfold bucket in Hb. destruct (ht_table (ht d t)); [|done]. cbn [mbind option_bind] in Hb. by destruct (Z.leb_spec 0 idx). }
  split; [done|].
  assert (Hgo : forall k tb, tbl_ok k tb -> bucket (mk_ht k tb) idx = Some c ->
     Forall (fun e => hashFunction e.1 mod 2 ^ k = idx) c /\ (forall e, e ∈ c -> e ∈ concat tb)).
  { intros k tb Hok Hbk. rewrite bucket_mk in Hbk by done. split.
    - pose proof (chain_place k tb _ c Hok Hbk) as Hc. by rewrite Z2Nat.id in Hc by done.
    - intros e He. by eapply in_bucket. }
  destruct Hs as [it|k tb it Hok|k0 t0 k1 t1 i it Hok0 Hok1 Hi He], t; try done; cbn in Hb |- *.
  - by apply Hgo.
  - destruct (Hgo k1 t1 Hok1 Hb) as [? Hin]. split; [done|]. intros e He'. apply elem_of_app. right. auto.
  - destruct (Hgo k0 t0 Hok0 Hb) as [? Hin]. split; [done|]. intros e He'. apply elem_of_app. left. auto.
Qed.

(** Replacing a chain. *)
Lemma update_spec d es t idx c c' :
  shape d es -> bucket (ht d t) idx = Some c ->
  Forall (fun e => hashFunction e.1 mod ht_size (ht d t) = idx) c' ->
  c <> [] \/ t = dictIsRehashing d -> zlen es < 2 ^ 31 -> zlen c' < 2 ^ 31 ->
  exists h es', set_bucket (ht d t) idx c' = Some h /\ ht_used h = ht_used (ht d t) /\
    shape (set_ht d t (set_used h (ht_used h + zlen c' - zlen c))) es' /\
    (zlen c' = zlen c -> shape (set_ht d t h) es') /\ es' ++ c ≡ₚ es ++ c'.
Proof.
  intros Hs Hb Hc' Hne Hl Hl'. destruct (bucket_placed d es t idx c Hs Hb) as (H0 & _ & Hin).
  assert (Hgo : forall k tb, tbl_ok k tb -> bucket (mk_ht k tb) idx = Some c -> zlen (concat tb) < 2 ^ 31 ->
     Forall (fun e => hashFunction e.1 mod 2 ^ k = idx) c' ->
     exists h, set_bucket (mk_ht k tb) idx c' = Some h /\ ht_used h = zlen (concat tb) /\ tbl_ok k (<[Z.to_nat idx := c']> tb) /\
       set_used h (ht_used h + zlen c' - zlen c) = mk_ht k (<[Z.to_nat idx := c']> tb) /\
       (zlen c' = zlen c -> h = mk_ht k (<[Z.to_nat idx := c']> tb)) /\ tb !! Z.to_nat idx = Some c).
  { intros k tb Hok Hbk Hlk Hck. rewrite bucket_mk in Hbk by done. rewrite (set_bucket_mk k tb idx c) by done.
    eexists. split; [done|]. split; [done|]. split; [apply tbl_ok_insert; [done|]; by rewrite Z2Nat.id by done|].
    split; [apply (set_used_mk k tb idx c); (done || cbn [ht_used]; lia)|]. split; [|done].
    intros E. unfold mk_ht. f_equal. rewrite (length_concat_insert _ _ c) by done. lia. }
  destruct Hs as [it|k tb it Hok|k0 t0 k1 t1 i it Hok0 Hok1 Hi He], t; try done; cbn [ht ht0 ht1] in Hb, Hc' |- *;
    rewrite ?length_app in Hl.
  - destruct (Hgo k tb Hok Hb Hl Hc') as (h & -> & Hu & Hok' & Hset & Hsame & Hlk). exists h, (concat (<[Z.to_nat idx := c']> tb)).
    cbn [set_ht ht0 ht1 rehashidx iterators]. rewrite Hset. split; [done|]. split; [done|]. split; [by constructor|].
    split; [intros E; rewrite (Hsame E); by constructor|by apply concat_insert].
  - destruct (Hgo k1 t1 Hok1 Hb ltac:(lia) Hc') as (h & -> & Hu & Hok' & Hset & Hsame & Hlk).
    exists h, (concat t0 ++ concat (<[Z.to_nat idx := c']> t1)). cbn [set_ht ht0 ht1 rehashidx iterators]. rewrite Hset.
    split; [done|]. split; [done|]. split; [by constructor|]. split; [intros E; rewrite (Hsame E); by constructor|].
    rewrite <-!app_assoc. by rewrite (concat_insert t1 _ c c' Hlk).
  - destruct (Hgo k0 t0 Hok0 Hb ltac:(lia) Hc') as (h & -> & Hu & Hok' & Hset & Hsame & Hlk).
    exists h, (concat (<[Z.to_nat idx := c']> t0) ++ concat t1). cbn [set_ht ht0 ht1 rehashidx iterators]. rewrite Hset.
    assert (He' : forall j, Z.of_nat j < i -> (<[Z.to_nat idx := c']> t0) !! j = Some []).
    { intros j Hj. destruct (decide (j = Z.to_nat idx)) as [->|]; [|by rewrite list_lookup_insert_ne by done; apply He].
      rewrite (He _ Hj) in Hlk. injection Hlk as <-. destruct Hne as [?|Hr]; [done|].
      unfold dictIsRehashing in Hr. cbn in Hr. destruct (Z.eqb_spec i (-1)); [lia|done]. }
    split; [done|]. split; [done|]. split; [by constructor|]. split; [intros E; rewrite (Hsame E); by constructor|].
    pose proof (concat_insert t0 _ c c' Hlk) as Hp.
    transitivity ((concat (<[Z.to_nat idx := c']> t0) ++ c) ++ concat t1); [solve_Permutation|]. rewrite Hp. solve_Permutation.
Qed.
End Invariant.

(** ** Expansion *)

Lemma next_power_loop_spec fuel : forall size j,
  2 <= j <= 63 -> 63 - j < Z.of_nat fuel -> size <= 2 ^ 63 -> (j = 2 \/ 2 ^ (j - 1) < size) ->
  exists k, next_power_loop fuel size (2 ^ j) = Some (2 ^ k) /\ j <= k <= 63 /\ size <= 2 ^ k /\ (k = 2 \/ 2 ^ (k - 1) < size).
Proof.
  induction fuel as [|fuel IH]; intros size j Hj Hf Hs Hm; [lia|]. cbn [next_power_loop].
  destruct (Z.leb_spec size (2 ^ j)); [by exists j; split_and!; try lia|].
  assert (j <> 63) by (intros ->; lia).
  assert (E : 2 ^ j * 2 = 2 ^ (j + 1)) by (rewrite Z.pow_add_r by lia; lia).
  assert (2 ^ (j + 1) <= 2 ^ 63) by (apply Z.pow_le_mono_r; lia). assert (0 < 2 ^ (j + 1)) by (apply Z.pow_pos_nonneg; lia).
  rewrite E, u64_small by lia. destruct (IH size (j + 1)) as (k & Hk & ? & ? & ?); [lia|lia|done| |].
  - right. by replace (j + 1 - 1) with j by lia.
  - exists k. split; [done|]. split; [lia|done].
Qed.

(** The least power of two from 4 on that is not below the size. *)
Lemma _dictNextPower_spec size : size < LLONG_MAX ->
  exists k, _dictNextPower size = Some (2 ^ k) /\ 2 <= k <= 63 /\ size <= 2 ^ k /\ (k = 2 \/ 2 ^ (k - 1) < size).
Proof.
  intros Hs. unfold _dictNextPower. zfalse (LLONG_MAX <=? size). change DICT_HT_INITIAL_SIZE with (2 ^ 2).
  apply next_power_loop_spec; [lia|lia| |by left]. unfold LLONG_MAX in Hs. lia.
Qed.

Section Expand.
  Context {K V : Type} (hashFunction : K -> Z).
  Abbreviation shape := (@shape K V hashFunction).

Lemma concat_replicate_nil n : concat (replicate n (@nil (K * V))) = [].
Proof. by induction n. Qed.

Lemma calloc_table_ok k : 2 <= k <= 31 ->
  tbl_ok hashFunction k (@calloc_table K V (2 ^ k)) /\ concat (@calloc_table K V (2 ^ k)) = [] /\
  mkHt (Some (@calloc_table K V (2 ^ k))) (2 ^ k) (u64 (2 ^ k - 1)) 0 = mk_ht k (calloc_table (2 ^ k)).
Proof.
  intros Hk. pose proof (pow_bits k Hk). assert (E : concat (@calloc_table K V (2 ^ k)) = []) by apply concat_replicate_nil.
  split; [split|split; [done|]].
  - done.
  - unfold calloc_table. rewrite length_replicate, u64_small by lia. rewrite Z.div_mul by lia. lia.
  - intros i c Hc. unfold calloc_table in Hc. apply lookup_replicate in Hc as [-> _]. constructor.
  - unfold mk_ht. rewrite E, u64_small by lia. done.
Qed.

(** dictExpand fails, changing nothing, while rehashing, when the size is
    below the number of entries, and when the table has the wanted size;
    otherwise it makes the first table or starts rehashing. *)
Lemma dictExpand_shape d es size :
  shape d es -> 0 <= size <= 2 ^ 31 ->
  exists k d' r, dictExpand d size = Some (d', r) /\ 2 <= k <= 31 /\ size <= 2 ^ k /\ (k = 2 \/ 2 ^ (k - 1) < size) /\
    shape d' es /\ iterators d' = iterators d /\
    if dictIsRehashing d || (size <? ht_used (ht0 d)) || (2 ^ k =? ht_size (ht0 d)) then r = DICT_ERR /\ d' = d
    else r = DICT_OK /\ ht_table (ht0 d') <> None /\
         match ht_table (ht0 d) with
         | None => d' = mkDict (mk_ht k (calloc_table (2 ^ k))) (ht1 d) (-1) (iterators d)
         | Some _ => d' = mkDict (ht0 d) (mk_ht k (calloc_table (2 ^ k))) 0 (iterators d)
         end.
Proof.
  intros Hs Hsz. destruct (_dictNextPower_spec size) as (k & Hp & Hk & Hle & Hmin); [unfold LLONG_MAX; lia|].
  assert (Hk31 : 2 <= k <= 31).
  { split; [lia|]. destruct Hmin as [->|Hmin]; [lia|]. destruct (Z.le_gt_cases k 31); [done|].
    assert (2 ^ 31 <= 2 ^ (k - 1)) by (apply Z.pow_le_mono_r; lia). lia. }
  destruct (calloc_table_ok k Hk31) as (Hok & Hnil & Hmk).
  unfold dictExpand. rewrite Hp. cbn [mbind option_bind].
  destruct (dictIsRehashing d || (size <? ht_used (ht0 d))) eqn:E1; cbn [orb]; [by exists k, d, DICT_ERR|].
  destruct (Z.eqb_spec (2 ^ k) (ht_size (ht0 d))) as [E2|E2].
  { exists k, d, DICT_ERR. rewrite E2, Z.eqb_refl. split; [done|]. split; [done|]. split; [lia|]. by split_and!. }
  cbv zeta. rewrite Hmk. apply Z.eqb_neq in E2.
  destruct Hs as [it|k0 t it Hok0|k0 t0 k1 t1 i it Hok0 Hok1 Hi He].
  - eexists k, _, _. rewrite E2. split; [done|]. split; [done|]. split; [done|]. split; [done|]. split; [|done].
    rewrite <-Hnil. by constructor.
  - eexists k, _, _. rewrite E2. split; [done|]. split; [done|]. split; [done|]. split; [done|]. split; [|done]. cbn [ht0 ht1 iterators].
    rewrite <-(app_nil_r (concat t)), <-Hnil. pose proof (pow_bits k0 (tbl_bits _ _ _ Hok0)). constructor; (done || lia).
  - unfold dictIsRehashing in E1. cbn in E1. destruct (Z.eqb_spec i (-1)); [lia|done].
Qed.

Lemma shape_used d es : shape d es -> 0 <= ht_used (ht0 d) <= zlen es.
Proof. destruct 1; cbn; rewrite ?length_app; lia. Qed.

Lemma _dictExpandIfNeeded_shape can_resize d es :
  shape d es -> zlen es <= 2 ^ 30 ->
  exists d', _dictExpandIfNeeded can_resize d = Some (d', DICT_OK) /\ shape d' es /\ iterators d' = iterators d /\
    ht_table (ht0 d') <> None.
Proof.
  intros Hs Hl. assert (Hs' := Hs). unfold _dictExpandIfNeeded. pose proof (shape_used d es Hs) as Hu.
  destruct Hs as [it|k t it Hok|k0 t0 k1 t1 i it Hok0 Hok1 Hi He].
  - destruct (dictExpand_shape _ [] DICT_HT_INITIAL_SIZE Hs') as (k & d' & r & Hrun & Hk & _ & _ & Hsh & Hit & Hr); [by vm_compute|].
    cbn [dictIsRehashing rehashidx ht_size ht0 _dictReset]. change (negb (-1 =? -1)) with false. change (0 =? 0) with true. cbv iota.
    rewrite Hrun. change (dictIsRehashing _) with false in Hr. cbn in Hr. pose proof (pow_bits k Hk).
    destruct (Z.eqb_spec (2 ^ k) 0); [lia|]. destruct Hr as (-> & Hne & _). by exists d'.
  - cbn [dictIsRehashing rehashidx ht_size ht_used ht0 mk_ht] in *. change (negb (-1 =? -1)) with false. cbv iota.
    pose proof (pow_bits k (tbl_bits _ _ _ Hok)). destruct (Z.eqb_spec (2 ^ k) 0); [lia|].
    destruct (Z.leb_spec (2 ^ k) (zlen (concat t))) as [Hge|]; [|by exists (mkDict (mk_ht k t) _dictReset (-1) it)]. cbn [andb].
    destruct (can_resize || _); [|by exists (mkDict (mk_ht k t) _dictReset (-1) it)].
    rewrite u64_small by lia.
    destruct (dictExpand_shape _ _ (zlen (concat t) * 2) Hs') as (k' & d' & r & Hrun & Hk & Hle & _ & Hsh & Hit & Hr); [lia|].
    rewrite Hrun. change (dictIsRehashing _) with false in Hr. cbn in Hr. revert Hr.
    destruct (Z.ltb_spec (zlen (concat t) * 2) (zlen (concat t))); [lia|]. destruct (Z.eqb_spec (2 ^ k') (2 ^ k)); [lia|]. cbn.
    intros (-> & Hne & _). by exists d'.
  - assert (E : dictIsRehashing (mkDict (mk_ht k0 t0) (mk_ht k1 t1) i it) = true).
    { unfold dictIsRehashing. cbn. destruct (Z.eqb_spec i (-1)); [lia|done]. }
    rewrite E. by exists (mkDict (mk_ht k0 t0) (mk_ht k1 t1) i it).
Qed.
End Expand.

(** ** Searching and storing *)

Section Client.
  Context {K V : Type}.
  Context (hashFunction : K -> Z) (keyCompare : K -> K -> bool) (unset : V).
  (** Keys are compared by content. *)
  Context (Hcompare : forall a b, keyCompare a b = true <-> a = b).
  Abbreviation shape := (@shape K V hashFunction).
  Abbreviation dict := (dict K V).

Lemma chain_find_spec key (c : list (K * V)) :
  match chain_find keyCompare key c with
  | Some pos => exists v, c !! pos = Some (key, v)
  | None => key ∉ (c.*1)
  end.
Proof.
  induction c as [|[k v] c IH]; cbn [chain_find]; [apply not_elem_of_nil|]. cbn [fst].
  destruct (keyCompare key k) eqn:E; [apply Hcompare in E as ->; by exists v|].
  assert (Hne : key <> k) by (intros ->; pose proof (proj2 (Hcompare k k) eq_refl); congruence).
  destruct (chain_find keyCompare key c) as [pos|]; cbn; [done|]. by apply not_elem_of_cons.
Qed.

(** A key is in its bucket or nowhere. *)
Lemma not_in_bucket k (t : list (list (K * V))) key c :
  tbl_ok hashFunction k t -> t !! Z.to_nat (slot hashFunction k key) = Some c -> (key ∉ c.*1) -> key ∉ (concat t).*1.
Proof.
  intros Hok Hc Hn (e & -> & He)%list_elem_of_fmap. destruct (elem_in_slot hashFunction k t e Hok He) as (c' & Hc' & Hin).
  rewrite Hc in Hc'. injection Hc' as <-. apply Hn. by apply list_elem_of_fmap_2.
Qed.

Lemma search_spec d es key :
  shape d es -> ht_table (ht0 d) <> None ->
  exists idx p, search keyCompare d key (u32 (hashFunction key)) = Some (idx, p) /\
    match p with
    | Some pl => exists v, entry_at d pl = Some (key, v)
    | None => (key ∉ es.*1) /\ idx = hashFunction key mod ht_size (ht d (dictIsRehashing d)) /\ 0 <= idx < 2 ^ 31 /\
              exists c, bucket (ht d (dictIsRehashing d)) idx = Some c
    end.
Proof.
  intros Hs Hne. unfold search.
  assert (Hidx : forall k (t : list (list (K * V))), tbl_ok hashFunction k t -> exists c : list (K * V),
     u32 (Z.land (u32 (hashFunction key)) (2 ^ k - 1)) = slot hashFunction k key /\ 0 <= slot hashFunction k key < 2 ^ 31 /\
     t !! Z.to_nat (slot hashFunction k key) = Some c /\ bucket (mk_ht k t) (slot hashFunction k key) = Some c).
  { intros k t Hok. destruct (bucket_slot hashFunction k t key Hok) as (c & Hc & Hb). exists c.
    pose proof (slot_range hashFunction k t key Hok). pose proof (tbl_size _ _ _ Hok). pose proof (pow_bits k (tbl_bits _ _ _ Hok)).
    split; [apply index_slot, Hok|]. split; [lia|done]. }
  destruct Hs as [it|k t it Hok|k0 t0 k1 t1 i it Hok0 Hok1 Hi He]; [done|..].
  - cbn [ht0 ht_sizemask mk_ht]. destruct (Hidx k t Hok) as (c & -> & Hb & Hlk & Hbk).
    change (mkHt (Some t) (2 ^ k) (2 ^ k - 1) (zlen (concat t))) with (mk_ht k t). rewrite Hbk. cbn [mbind option_bind].
    assert (Hf := chain_find_spec key c). destruct (chain_find keyCompare key c) as [pos|].
    + destruct Hf as [v Hv]. eexists _, _. split; [done|]. exists v. unfold entry_at. cbn [ht ht0]. by rewrite Hbk.
    + change (dictIsRehashing _) with false. cbn [negb ht ht0]. eexists _, _. split; [done|]. split; [by eapply not_in_bucket|].
      split; [done|]. split; [done|by eexists].
  - cbn [ht0 ht1 ht_sizemask mk_ht]. destruct (Hidx k0 t0 Hok0) as (c & -> & _ & Hlk & Hbk).
    change (mkHt (Some t0) (2 ^ k0) (2 ^ k0 - 1) (zlen (concat t0))) with (mk_ht k0 t0). rewrite Hbk. cbn [mbind option_bind].
    assert (Hf := chain_find_spec key c). destruct (chain_find keyCompare key c) as [pos|].
    + destruct Hf as [v Hv]. eexists _, _. split; [done|]. exists v. unfold entry_at. cbn [ht ht0]. by rewrite Hbk.
    + assert (E : dictIsRehashing (mkDict (mk_ht k0 t0) (mk_ht k1 t1) i it) = true).
      { unfold dictIsRehashing. cbn. destruct (Z.eqb_spec i (-1)); [lia|done]. }
      rewrite E. cbn [negb ht]. destruct (Hidx k1 t1 Hok1) as (c1 & -> & Hb1 & Hlk1 & Hbk1).
      change (mkHt (Some t1) (2 ^ k1) (2 ^ k1 - 1) (zlen (concat t1))) with (mk_ht k1 t1). rewrite Hbk1. cbn [mbind option_bind].
      assert (Hf1 := chain_find_spec key c1). destruct (chain_find keyCompare key c1) as [pos|].
      * destruct Hf1 as [v Hv]. eexists _, _. split; [done|]. exists v. unfold entry_at. cbn [ht ht1]. by rewrite Hbk1.
      * eexists _, _. split; [done|]. cbn [ht1]. split; [|split; [done|split; [done|by eexists]]].
        rewrite fmap_app, not_elem_of_app. split; by eapply not_in_bucket.
Qed.

Lemma entry_at_spec (d : dict) t idx pos e :
  entry_at d (t, idx, pos) = Some e -> exists c, bucket (ht d t) idx = Some c /\ c !! pos = Some e.
Proof. unfold entry_at. destruct (bucket (ht d t) idx) as [c|]; [|done]. by exists c. Qed.

Lemma entry_at_elem d es p e : shape d es -> entry_at d p = Some e -> e ∈ es.
Proof.
  intros Hs He. destruct p as [[t idx] pos]. apply entry_at_spec in He as (c & Hb & Hc).
  apply (bucket_placed hashFunction d es t idx c Hs Hb). by eapply list_elem_of_lookup_2.
Qed.

Lemma zlen_bucket d es t idx c : shape d es -> bucket (ht d t) idx = Some c -> zlen c <= zlen es.
Proof.
  intros Hs Hb. destruct (bucket_placed hashFunction d es t idx c Hs Hb) as (H0 & _ & _).
  assert (Hgo : forall k (tb : list (list (K * V))), bucket (mk_ht k tb) idx = Some c -> zlen c <= zlen (concat tb)).
  { intros k tb Hbk. rewrite bucket_mk in Hbk by done. pose proof (length_concat_insert tb _ c [] Hbk) as E. cbn [length] in E. lia. }
  destruct Hs as [it|k tb it Hok|k0 t0 k1 t1 i it Hok0 Hok1 Hi He], t; try done; cbn [ht ht0 ht1] in Hb; rewrite ?length_app;
    apply Hgo in Hb; lia.
Qed.

(** dictSetVal replaces the value of one entry. *)
Lemma dictSetVal_shape d es p key v val :
  shape d es -> zlen es < 2 ^ 31 -> entry_at d p = Some (key, v) ->
  exists d' es' rest, dictSetVal d p val = Some d' /\ shape d' es' /\ iterators d' = iterators d /\
    es ≡ₚ (key, v) :: rest /\ es' ≡ₚ (key, val) :: rest.
Proof.
  intros Hs Hl He. destruct p as [[t idx] pos]. apply entry_at_spec in He as (c & Hb & Hc).
  destruct (bucket_placed hashFunction d es t idx c Hs Hb) as (_ & Hp & _). pose proof (zlen_bucket d es t idx c Hs Hb).
  assert (Hsplit := take_drop_middle c pos _ Hc). assert (Hpos := lookup_lt_Some _ _ _ Hc).
  destruct (update_spec hashFunction d es t idx c (<[pos := (key, val)]> c) Hs Hb) as (h & es' & Hset & _ & _ & Hsame & Hperm).
  - apply Forall_insert; [done|]. exact (proj1 (list.Forall_lookup _ _) Hp _ _ Hc).
  - left. by intros ->.
  - done.
  - rewrite length_insert. lia.
  - unfold dictSetVal. rewrite Hb. cbn [mbind option_bind]. rewrite Hc. cbn [mbind option_bind fst]. rewrite Hset. cbn [mbind option_bind].
    rewrite length_insert in Hsame.
    rewrite insert_take_drop in Hperm by done. rewrite <-Hsplit in Hperm at 1.
    assert (exists rest, es ≡ₚ (key, v) :: rest) as [rest Hrest].
    { apply elem_of_Permutation. apply (bucket_placed hashFunction d es t idx c Hs Hb). by eapply list_elem_of_lookup_2. }
    exists (set_ht d t h), es', rest. split; [done|]. split; [by apply Hsame|]. split; [by destruct t|]. split; [done|].
    apply (Permutation_app_inv_r (take pos c ++ (key, v) :: drop (S pos) c)). rewrite Hperm, Hrest. solve_Permutation.
Qed.

(** Unlinking one entry. *)
Lemma unlink_shape d es t idx pos c he :
  shape d es -> zlen es < 2 ^ 31 -> bucket (ht d t) idx = Some c -> c !! pos = Some he ->
  exists h es', set_bucket (ht d t) idx (delete pos c) = Some h /\
    shape (set_ht d t (set_used h (ht_used h - 1))) es' /\ es ≡ₚ he :: es'.
Proof.
  intros Hs Hl Hb Hc. destruct (bucket_placed hashFunction d es t idx c Hs Hb) as (_ & Hp & _).
  pose proof (zlen_bucket d es t idx c Hs Hb). assert (Hsplit := take_drop_middle c pos _ Hc). assert (Hpos := lookup_lt_Some _ _ _ Hc).
  assert (Hd : zlen (delete pos c) = zlen c - 1) by (rewrite length_delete; [lia|by eexists]).
  destruct (update_spec hashFunction d es t idx c (delete pos c) Hs Hb) as (h & es' & Hset & _ & Hsh & _ & Hperm).
  - by apply Forall_delete.
  - left. by intros ->.
  - done.
  - lia.
  - exists h, es'. split; [done|]. split; [by replace (ht_used h - 1) with (ht_used h + zlen (delete pos c) - zlen c) by lia|].
    rewrite delete_take_drop in Hperm. rewrite <-Hsplit in Hperm at 1.
    apply (Permutation_app_inv_r (take pos c ++ drop (S pos) c)). rewrite <-Hperm. solve_Permutation.
Qed.
End Client.
