(* ===== verification/DictMap.v ===== *)
(** dict.c: dictionaries are finite maps.

    Every sequence of calls, with rehashing at any stage and resizing allowed
    or not, answers as a finite map does; dictEmpty frees each entry once;
    rehashing ends. *)

From S2P Require Import Prelude Dict.
From stdpp Require Import gmap.
#[local] Open Scope Z_scope.

Section Map.
  Context {K V : Type} `{Countable K}.
  Context (hashFunction : K -> Z) (keyCompare : K -> K -> bool) (unset : V).
  Context (Hcompare : forall a b, keyCompare a b = true <-> a = b).
  Abbreviation shape := (@shape K V hashFunction).
  Abbreviation dict := (dict K V).

(** The dictionary holds the entries of the map. *)
Definition dict_rep (d : dict) (m : gmap K V) : Prop :=
  exists es, shape d es /\ NoDup es.*1 /\ (list_to_map es : gmap K V) = m.

Lemma rep_elem (m : gmap K V) es : NoDup es.*1 -> list_to_map es = m -> forall k v, m !! k = Some v <-> (k, v) ∈ es.
Proof. intros Hnd <- k v. symmetry. by apply elem_of_list_to_map. Qed.

Lemma zlen_map (es : list (K * V)) (m : gmap K V) : NoDup es.*1 -> list_to_map es = m -> zlen es = Z.of_nat (size m).
Proof. intros Hnd <-. f_equal. by rewrite map_size_list_to_map. Qed.

Lemma set_bucket_get (h h' : dictht K V) idx c : set_bucket h idx c = Some h' -> bucket h' idx = Some c.
Proof.
  unfold set_bucket, bucket. destruct (ht_table h) as [t|]; [|done]. cbn [mbind option_bind].
  destruct (Z.leb_spec 0 idx); [|done]. destruct (t !! Z.to_nat idx) as [b|] eqn:E; [|done]. cbn [mbind option_bind].
  intros [= <-]. cbn. apply list_lookup_insert_eq. by eapply lookup_lt_Some.
Qed.

(** ** Single operations *)

Lemma dictAddRaw_shape can d es key :
  shape d es -> NoDup es.*1 -> zlen es <= 2 ^ 30 ->
  exists d' entry existing es', dictAddRaw hashFunction keyCompare unset can d key = Some (d', entry, existing) /\
    shape d' es' /\ NoDup es'.*1 /\ iterators d' = iterators d /\
    ((entry = None /\ es' ≡ₚ es /\ exists p v, existing = Some p /\ entry_at d' p = Some (key, v)) \/
     ((key ∉ es.*1) /\ existing = None /\ es' ≡ₚ (key, unset) :: es /\ exists p, entry = Some p /\ entry_at d' p = Some (key, unset))).
Proof.
  intros Hs Hnd Hl. unfold dictAddRaw, _dictKeyIndex.
  destruct (rehash_some_shape hashFunction d es Hs) as (d1 & es1 & -> & Hs1 & Hp1 & Hi1); [lia|]. cbn [mbind option_bind].
  assert (Hl1 : zlen es1 = zlen es) by by rewrite Hp1.
  destruct (_dictExpandIfNeeded_shape hashFunction can d1 es1 Hs1) as (d2 & -> & Hs2 & Hi2 & Hne); [lia|]. cbn [mbind option_bind].
  change (DICT_OK =? DICT_ERR) with false. cbv iota.
  destruct (search_spec hashFunction keyCompare Hcompare d2 es1 key Hs2 Hne) as (idx & p & -> & Hp). cbn [mbind option_bind].
  destruct p as [pl|].
  { destruct Hp as [v Hv]. change (-1 =? -1) with true. cbv iota.
    exists d2, None, (Some pl), es1. split; [done|]. split; [done|]. split; [by rewrite Hp1|]. split; [congruence|].
    left. split; [done|]. split; [done|]. by exists pl, v. }
  destruct Hp as (Hn & Hidx & Hb & c & Hc). rewrite i32_small by lia. zfalse (idx =? -1).
  rewrite Hc. cbn [mbind option_bind].
  pose proof (zlen_bucket hashFunction d2 es1 _ idx c Hs2 Hc).
  destruct (update_spec hashFunction d2 es1 (dictIsRehashing d2) idx c ((key, unset) :: c) Hs2 Hc)
    as (h & es2 & Hset & _ & Hsh & _ & Hperm).
  - constructor; [done|]. by apply (bucket_placed hashFunction d2 es1 _ idx c Hs2 Hc).
  - by right.
  - lia.
  - cbn [length]. lia.
  - rewrite Hset. cbn [mbind option_bind length] in *.
    replace (ht_used h + Z.of_nat (S (length c)) - zlen c) with (ht_used h + 1) in Hsh by lia.
    assert (Hp2 : es2 ≡ₚ (key, unset) :: es).
    { apply (Permutation_app_inv_r c). rewrite Hperm, Hp1. solve_Permutation. }
    rewrite Hp1 in Hn.
    eexists _, _, _, es2. split; [done|]. split; [exact Hsh|]. split.
    { rewrite Hp2. cbn. by constructor. }
    split; [destruct (dictIsRehashing d2); cbn; congruence|]. right. split; [done|]. split; [done|]. split; [done|].
    eexists. split; [done|]. unfold entry_at. assert (Hg := set_bucket_get _ _ _ _ Hset).
    destruct (dictIsRehashing d2); cbn [set_ht ht ht0 ht1]; unfold bucket, set_used in *; cbn [ht_table]; by rewrite Hg.
Qed.

Lemma rep_intro d es es0 (m : gmap K V) :
  shape d es -> es ≡ₚ es0 -> NoDup es0.*1 -> list_to_map es0 = m -> dict_rep d m.
Proof.
  intros Hs Hp Hnd Hm. exists es. split; [done|]. assert (Hnd' : NoDup es.*1) by by rewrite Hp.
  split; [done|]. rewrite <-Hm. by apply list_to_map_proper.
Qed.

Lemma in_keys (m : gmap K V) es key v : NoDup es.*1 -> list_to_map es = m -> (key, v) ∈ es -> m !! key = Some v.
Proof. intros Hnd Hm Hin. by apply (rep_elem m es). Qed.

Lemma set_value (m : gmap K V) es rest key v val :
  NoDup es.*1 -> list_to_map es = m -> es ≡ₚ (key, v) :: rest ->
  NoDup ((key, val) :: rest).*1 /\ list_to_map ((key, val) :: rest) = <[key := val]> m.
Proof.
  intros Hnd Hm Hp. assert (Hnd' : NoDup ((key, v) :: rest).*1) by by rewrite <-Hp.
  split; [done|]. rewrite <-Hm, (list_to_map_proper es ((key, v) :: rest)) by done. cbn. by rewrite insert_insert_eq.
Qed.

Lemma drop_key (m : gmap K V) es rest key v :
  NoDup es.*1 -> list_to_map es = m -> es ≡ₚ (key, v) :: rest ->
  NoDup rest.*1 /\ list_to_map rest = delete key m.
Proof.
  intros Hnd Hm Hp. assert (Hnd' : NoDup ((key, v) :: rest).*1) by by rewrite <-Hp.
  rewrite <-Hm, (list_to_map_proper es ((key, v) :: rest)) by done. cbn in *. apply NoDup_cons in Hnd' as [Hn Hnd'].
  split; [done|]. rewrite delete_insert_id; [done|]. by apply not_elem_of_list_to_map_1.
Qed.

(** dictAdd adds a key that is new, dictReplace sets its value anyway. *)
Lemma dictAddRaw_set can d m key val :
  dict_rep d m -> Z.of_nat (size m) <= 2 ^ 30 ->
  exists d' entry existing, dictAddRaw hashFunction keyCompare unset can d key = Some (d', entry, existing) /\
    iterators d' = iterators d /\
    match m !! key with
    | Some v => entry = None /\ dict_rep d' m /\
        exists p d2, existing = Some p /\ entry_at d' p = Some (key, v) /\ dictSetVal d' p val = Some d2 /\ iterators d2 = iterators d /\
          dict_rep d2 (<[key := val]> m)
    | None => existing = None /\
        exists p d2, entry = Some p /\ entry_at d' p = Some (key, unset) /\ dictSetVal d' p val = Some d2 /\ iterators d2 = iterators d /\
          dict_rep d2 (<[key := val]> m)
    end.
Proof.
  intros (es & Hs & Hnd & Hm) Hb. rewrite <-(zlen_map es m Hnd Hm) in Hb.
  destruct (dictAddRaw_shape can d es key Hs Hnd Hb) as (d' & entry & existing & es' & Hrun & Hs' & Hnd' & Hi & Hcase).
  exists d', entry, existing. split; [done|]. split; [done|].
  assert (Hset : forall p v (m' : gmap K V), entry_at d' p = Some (key, v) -> zlen es' < 2 ^ 31 -> list_to_map es' = m' ->
     exists d2, dictSetVal d' p val = Some d2 /\ iterators d2 = iterators d /\ dict_rep d2 (<[key := val]> m')).
  { intros p v m' He Hl Hm'. destruct (dictSetVal_shape hashFunction d' es' p key v val Hs' Hl He)
      as (d2 & es2 & rest & -> & Hs2 & Hi2 & Hp & Hp2). exists d2. split; [done|]. split; [congruence|].
    destruct (set_value m' es' rest key v val Hnd' Hm' Hp) as [? ?]. by apply (rep_intro d2 es2 ((key, val) :: rest)). }
  destruct Hcase as [(-> & Hp & p & v & -> & He)|(Hn & -> & Hp & p & -> & He)].
  - assert (Hin := entry_at_elem hashFunction d' es' p _ Hs' He). assert (Hin' := Hin). rewrite Hp in Hin'.
    rewrite (in_keys m es key v Hnd Hm Hin'). assert (Hm' : list_to_map es' = m) by (rewrite <-Hm; by apply list_to_map_proper).
    split; [done|]. split; [by exists es'|]. destruct (Hset p v m He) as (d2 & ? & ? & ?); [rewrite Hp; lia|done|]. by exists p, d2.
  - assert (Hm0 : m !! key = None) by (rewrite <-Hm; by apply not_elem_of_list_to_map_1). rewrite Hm0.
    split; [done|]. assert (Hm' : list_to_map es' = <[key := unset]> m).
    { rewrite (list_to_map_proper es' ((key, unset) :: es)) by done. cbn. by rewrite Hm. }
    destruct (Hset p unset (<[key := unset]> m) He) as (d2 & ? & ? & Hd2); [rewrite Hp; cbn [length]; lia|done|].
    rewrite insert_insert_eq in Hd2. by exists p, d2.
Qed.

Lemma used_total d es : shape d es -> ht_used (ht0 d) + ht_used (ht1 d) = zlen es /\ 0 <= ht_used (ht0 d) /\ 0 <= ht_used (ht1 d).
Proof. destruct 1; cbn; rewrite ?length_app; lia. Qed.

Lemma not_new d es : shape d es -> es <> [] -> ht_table (ht0 d) <> None.
Proof. by destruct 1. Qed.

(** A search in a dictionary that is not empty, after a step of rehashing. *)
Lemma lookup_step d es key :
  shape d es -> NoDup es.*1 -> zlen es < 2 ^ 31 -> es <> [] ->
  exists d' es' idx p, rehash_some hashFunction d = Some d' /\ shape d' es' /\ es' ≡ₚ es /\ iterators d' = iterators d /\
    search keyCompare d' key (u32 (hashFunction key)) = Some (idx, p) /\
    match p with
    | Some pl => exists v, entry_at d' pl = Some (key, v) /\ (list_to_map es : gmap K V) !! key = Some v
    | None => (key ∉ es.*1) /\ (list_to_map es : gmap K V) !! key = None
    end.
Proof.
  intros Hs Hnd Hl Hne. destruct (rehash_some_shape hashFunction d es Hs Hl) as (d' & es' & Hr & Hs' & Hp & Hi).
  destruct (search_spec hashFunction keyCompare Hcompare d' es' key Hs') as (idx & p & Hsearch & Hpl).
  { apply (not_new d' es' Hs'). intros ->. by apply Permutation_nil_l in Hp. }
  exists d', es', idx, p. split_and!; try done. destruct p as [pl|].
  - destruct Hpl as [v Hv]. exists v. split; [done|]. assert (Hin := entry_at_elem hashFunction d' es' pl _ Hs' Hv).
    rewrite Hp in Hin. by apply elem_of_list_to_map.
  - destruct Hpl as [Hn _]. rewrite Hp in Hn. split; [done|]. by apply not_elem_of_list_to_map_1.
Qed.

Lemma dictGenericDelete_rep d m key :
  dict_rep d m -> Z.of_nat (size m) < 2 ^ 31 ->
  exists d', dictGenericDelete hashFunction keyCompare d key = Some (d', pair key <$> m !! key) /\
    dict_rep d' (delete key m) /\ iterators d' = iterators d.
Proof.
  intros (es & Hs & Hnd & Hm) Hb. rewrite <-(zlen_map es m Hnd Hm) in Hb. unfold dictGenericDelete.
  destruct (used_total d es Hs) as (Hu & Hu0 & Hu1).
  destruct (decide (es = [])) as [->|Hne].
  { cbn [length] in Hu. ztrue (ht_used (ht0 d) =? 0). ztrue (ht_used (ht1 d) =? 0). cbn [andb].
    assert (m = ∅) as -> by by rewrite <-Hm. exists d. rewrite lookup_empty, delete_empty. split; [done|]. split; [|done]. by exists []. }
  assert ((ht_used (ht0 d) =? 0) && (ht_used (ht1 d) =? 0) = false) as ->.
  { destruct (Z.eqb_spec (ht_used (ht0 d)) 0), (Z.eqb_spec (ht_used (ht1 d)) 0); try done. destruct es; [done|simpl in Hu; lia]. }
  destruct (lookup_step d es key Hs Hnd Hb Hne) as (d' & es' & idx & p & -> & Hs' & Hp & Hi & Hsearch & Hpl).
  cbn [mbind option_bind]. rewrite Hsearch. cbn [mbind option_bind]. rewrite <-Hm. destruct p as [[[t i] pos]|].
  - destruct Hpl as (v & Hv & ->). apply entry_at_spec in Hv as (c & Hb' & Hc). rewrite Hb'. cbn [mbind option_bind]. rewrite Hc. cbn [mbind option_bind].
    destruct (unlink_shape hashFunction d' es' t i pos c (key, v) Hs') as (h & es2 & -> & Hs2 & Hp2); [by rewrite Hp|done..|].
    cbn [mbind option_bind]. eexists. split; [done|]. split; [|by destruct t].
    destruct (drop_key m es es2 key v Hnd Hm) as [? ?]; [by rewrite <-Hp|]. by exists es2; rewrite Hm.
  - destruct Hpl as [Hn ->]. exists d'. split; [done|]. split; [|done].
    rewrite delete_id by by apply not_elem_of_list_to_map_1. by apply (rep_intro d' es' es).
Qed.

Lemma dictFetchValue_rep d m key :
  dict_rep d m -> Z.of_nat (size m) < 2 ^ 31 ->
  exists d', dictFetchValue hashFunction keyCompare d key = Some (d', m !! key) /\ dict_rep d' m /\ iterators d' = iterators d.
Proof.
  intros (es & Hs & Hnd & Hm) Hb. rewrite <-(zlen_map es m Hnd Hm) in Hb. unfold dictFetchValue, dictFind, dictSize.
  destruct (used_total d es Hs) as (Hu & Hu0 & Hu1). rewrite Hu, u64_small by lia.
  destruct (decide (es = [])) as [->|Hne].
  { cbn [length]. cbn. assert (m = ∅) as -> by by rewrite <-Hm. exists d. rewrite lookup_empty. split; [done|]. split; [|done]. by exists []. }
  destruct (Z.eqb_spec (zlen es) 0); [by destruct es|].
  destruct (lookup_step d es key Hs Hnd Hb Hne) as (d' & es' & idx & p & -> & Hs' & Hp & Hi & Hsearch & Hpl).
  cbn [mbind option_bind]. rewrite Hsearch. cbn [mbind option_bind]. rewrite <-Hm.
  assert (Hrep : dict_rep d' (list_to_map es)) by (by apply (rep_intro d' es' es)).
  destruct p as [pl|]; [destruct Hpl as (v & -> & ->)|destruct Hpl as [_ ->]]; cbn [mbind option_bind]; by exists d'.
Qed.

Lemma dictExpand_rep d m n : dict_rep d m -> 0 <= n <= 2 ^ 31 ->
  exists d' r, dictExpand d n = Some (d', r) /\ dict_rep d' m /\ iterators d' = iterators d.
Proof.
  intros (es & Hs & Hnd & Hm) Hn. destruct (dictExpand_shape hashFunction d es n Hs Hn) as (k & d' & r & Hrun & _ & _ & _ & Hs' & Hi & _).
  exists d', r. split; [done|]. split; [|done]. by exists es.
Qed.

Lemma dictResize_rep can d m : dict_rep d m -> Z.of_nat (size m) < 2 ^ 31 ->
  exists d' r, dictResize can d = Some (d', r) /\ dict_rep d' m /\ iterators d' = iterators d.
Proof.
  intros Hr Hb. unfold dictResize. destruct (negb can || dictIsRehashing d); [by exists d, DICT_ERR|].
  apply dictExpand_rep; [done|]. destruct Hr as (es & Hs & Hnd & Hm). rewrite <-(zlen_map es m Hnd Hm) in Hb.
  pose proof (shape_used hashFunction d es Hs). rewrite i32_small by lia. destruct (Z.ltb_spec (ht_used (ht0 d)) DICT_HT_INITIAL_SIZE).
  - by vm_compute.
  - unfold DICT_HT_INITIAL_SIZE in *. lia.
Qed.

Lemma dictRehash_rep d m n : dict_rep d m -> Z.of_nat (size m) < 2 ^ 31 ->
  exists d' r, dictRehash hashFunction d (S n) = Some (d', r) /\ dict_rep d' m /\ iterators d' = iterators d.
Proof.
  intros (es & Hs & Hnd & Hm) Hb. rewrite <-(zlen_map es m Hnd Hm) in Hb. destruct (dictIsRehashing d) eqn:E.
  - destruct (dictRehash_shape hashFunction d es n Hs Hb E) as (d' & r & es' & Hrun & Hs' & Hp & Hi & _).
    exists d', r. split; [done|]. split; [|done]. by apply (rep_intro d' es' es).
  - unfold dictRehash. rewrite E. cbn [negb]. exists d, 0. split; [done|]. split; [|done]. by exists es.
Qed.

(** ** Emptying *)

Lemma clear_loop_spec k (t : list (list (K * V))) n : forall i,
  (n + i = length t)%nat -> zlen (concat (drop i t)) < 2 ^ 31 ->
  clear_loop n (mk_ht k t) (Z.of_nat i) (zlen (concat (drop i t))) = Some (concat (drop i t)).
Proof.
  induction n as [|n IH]; intros i Hi Hl; cbn [clear_loop].
  { by rewrite drop_ge by lia. }
  rewrite Z.gtb_ltb. destruct (Z.ltb_spec 0 (zlen (concat (drop i t)))).
  - destruct (lookup_lt_is_Some_2 t i) as [c Hc]; [lia|]. rewrite bucket_mk, Nat2Z.id, Hc by lia. cbn [mbind option_bind].
    rewrite (drop_S t c i Hc) in *. cbn [concat] in *. rewrite length_app in *.
    rewrite u64_small by lia. replace (Z.of_nat (length c + length (concat (drop (S i) t))) - zlen c) with (zlen (concat (drop (S i) t))) by lia.
    replace (Z.of_nat i + 1) with (Z.of_nat (S i)) by lia. by rewrite IH by lia.
  - by destruct (concat (drop i t)); [|simpl in *; lia].
Qed.

Lemma _dictClear_mk k (t : list (list (K * V))) : tbl_ok hashFunction k t -> zlen (concat t) < 2 ^ 31 ->
  _dictClear (mk_ht k t) = Some (_dictReset, concat t).
Proof.
  intros Hok Hl. unfold _dictClear. cbn [ht_size ht_used mk_ht].
  assert (HC := clear_loop_spec k t (Z.to_nat (2 ^ k)) 0). rewrite drop_0 in HC.
  change (mkHt (Some t) (2 ^ k) (2 ^ k - 1) (zlen (concat t))) with (mk_ht k t).
  change (Z.of_nat 0) with 0 in HC. rewrite HC; [done| |done]. pose proof (tbl_size _ _ _ Hok). lia.
Qed.

Lemma dictEmpty_shape d es : shape d es -> zlen es < 2 ^ 31 -> dictEmpty d = Some (dictCreate, es).
Proof.
  intros Hs Hl. unfold dictEmpty. assert (Hreset : _dictClear (@_dictReset K V) = Some (_dictReset, [])) by done.
  destruct Hs as [it|k t it Hok|k0 t0 k1 t1 i it Hok0 Hok1 Hi He]; cbn [ht0 ht1]; rewrite ?length_app in Hl.
  - by rewrite Hreset.
  - rewrite _dictClear_mk by done. cbn [mbind option_bind]. rewrite Hreset. cbn [mbind option_bind]. by rewrite app_nil_r.
  - rewrite !_dictClear_mk by (done || lia). done.
Qed.

(** ** Rehashing to the end *)

Lemma rehash_ms_loop_shape fuel : forall late i d es rehashes,
  shape d es -> zlen es < 2 ^ 31 -> (dictIsRehashing d = true -> ht_size (ht0 d) - rehashidx d < Z.of_nat fuel) -> (0 < fuel)%nat ->
  exists d' r es', rehash_ms_loop hashFunction fuel late i d rehashes = Some (d', r) /\ shape d' es' /\ es' ≡ₚ es /\
    iterators d' = iterators d /\ ((forall j, late j = false) -> dictIsRehashing d' = false).
Proof.
  induction fuel as [|fuel IH]; intros late i d es rehashes Hs Hl Hf H0; [lia|]. cbn [rehash_ms_loop].
  destruct (dictIsRehashing d) eqn:E.
  - destruct (dictRehash_shape hashFunction d es 99 Hs Hl E) as (d' & r & es' & -> & Hs' & Hp & Hi & Hcase). cbn [mbind option_bind].
    destruct Hcase as [[-> Hno]|(-> & Hyes & Hsz & Hidx)].
    + change (0 =? 0) with true. cbv iota. exists d', rehashes, es'. by split_and!.
    + change (1 =? 0) with false. cbv iota zeta. specialize (Hf eq_refl). destruct (late i) eqn:El.
      * exists d', (i32 (rehashes + 100)), es'. split_and!; [done..|]. intros Hlate. by rewrite Hlate in El.
      * destruct (IH late (S i) d' es' (i32 (rehashes + 100)) Hs') as (d2 & r & es2 & -> & Hs2 & Hp2 & Hi2 & Hend); [by rewrite Hp|lia|lia|].
        exists d2, r, es2. split_and!; [done|done|by rewrite Hp2|congruence|done].
  - unfold dictRehash. rewrite E. cbn [negb mbind option_bind]. change (0 =? 0) with true. cbv iota.
    exists d, rehashes, es. by split_and!.
Qed.

(** ** Sequences of calls *)

Inductive dict_call :=
  | Add (key : K) (val : V) | Replace (key : K) (val : V) | Delete (key : K) | Unlink (key : K) | FetchValue (key : K)
  | Resize | Expand (n : Z) | Rehash (n : nat) | RehashMs (late : nat -> bool) | Empty
  | EnableResize | DisableResize
  | Iterators (n : Z).  (* safe iterators come and go *)

Inductive answer := AInt (z : Z) | AValue (v : option V) | AEntry (e : option (K * V)) | ADone.

(** The dictionary and dict_can_resize. *)
Definition dict_step (s : dict * bool) (c : dict_call) : option (dict * bool * answer) :=
  let '(d, can) := s in
  match c with
  | Add k v => '(d, r) ← dictAdd hashFunction keyCompare unset can d k v; Some (d, can, AInt r)
  | Replace k v => '(d, r) ← dictReplace hashFunction keyCompare unset can d k v; Some (d, can, AInt r)
  | Delete k => '(d, r) ← dictDelete hashFunction keyCompare d k; Some (d, can, AInt r)
  | Unlink k => '(d, e) ← dictUnlink hashFunction keyCompare d k; Some (d, can, AEntry e)
  | FetchValue k => '(d, v) ← dictFetchValue hashFunction keyCompare d k; Some (d, can, AValue v)
  | Resize => '(d, _) ← dictResize can d; Some (d, can, ADone)
  | Expand n => '(d, _) ← dictExpand d n; Some (d, can, ADone)
  | Rehash n => '(d, _) ← dictRehash hashFunction d n; Some (d, can, ADone)
  | RehashMs late => '(d, _) ← dictRehashMilliseconds hashFunction late d; Some (d, can, ADone)
  | Empty => '(d, _) ← dictEmpty d; Some (d, can, ADone)
  | EnableResize => Some (d, true, ADone)
  | DisableResize => Some (d, false, ADone)
  | Iterators n => Some (mkDict (ht0 d) (ht1 d) (rehashidx d) n, can, ADone)
  end.

Fixpoint dict_run (s : dict * bool) (cs : list dict_call) : option (list answer) :=
  match cs with
  | [] => Some []
  | c :: cs => '(s, a) ← dict_step s c; l ← dict_run s cs; Some (a :: l)
  end.

(** The same calls on a finite map. *)
Definition map_step (m : gmap K V) (c : dict_call) : gmap K V * answer :=
  match c with
  | Add k v => match m !! k with Some _ => (m, AInt DICT_ERR) | None => (<[k := v]> m, AInt DICT_OK) end
  | Replace k v => (<[k := v]> m, AInt match m !! k with Some _ => 0 | None => 1 end)
  | Delete k => (delete k m, AInt match m !! k with Some _ => DICT_OK | None => DICT_ERR end)
  | Unlink k => (delete k m, AEntry (pair k <$> m !! k))
  | FetchValue k => (m, AValue (m !! k))
  | Empty => (∅, ADone)
  | _ => (m, ADone)
  end.

Fixpoint map_run (m : gmap K V) (cs : list dict_call) : list answer :=
  match cs with
  | [] => []
  | c :: cs => let '(m, a) := map_step m c in a :: map_run m cs
  end.

(** Sizes within the range of the tables modelled; a step of rehashing visits
    at least one bucket. *)
Definition call_ok (c : dict_call) : Prop :=
  match c with
  | Expand n => 0 <= n <= 2 ^ 31
  | Rehash n => 1 <= Z.of_nat n <= 100000000
  | _ => True
  end.

Lemma dictRehashMilliseconds_rep late d m : dict_rep d m -> Z.of_nat (size m) < 2 ^ 31 ->
  exists d' r, dictRehashMilliseconds hashFunction late d = Some (d', r) /\ dict_rep d' m /\ iterators d' = iterators d /\
    ((forall j, late j = false) -> dictIsRehashing d' = false).
Proof.
  intros (es & Hs & Hnd & Hm) Hb. rewrite <-(zlen_map es m Hnd Hm) in Hb. unfold dictRehashMilliseconds.
  destruct (rehash_ms_loop_shape (S (Z.to_nat (ht_size (ht0 d)))) late 0 d es 0 Hs Hb) as (d' & r & es' & Hrun & Hs' & Hp & Hi & Hend); [|lia|].
  { intros Hr. destruct Hs as [it|k t it Hok|k0 t0 k1 t1 i it Hok0 Hok1 Hi He]; [done|done|]. cbn [ht_size ht0 mk_ht rehashidx]. lia. }
  exists d', r. split; [done|]. split; [by apply (rep_intro d' es' es)|done].
Qed.

Lemma map_step_size m c : (size (map_step m c).1 <= S (size m))%nat.
Proof.
  assert (Hi : forall k v, (size (<[k := v]> m) <= S (size m))%nat) by (intros k v; rewrite map_size_insert; destruct (m !! k); cbn; lia).
  assert (Hd : forall k, (size (delete k m) <= S (size m))%nat) by (intros k; rewrite map_size_delete; destruct (m !! k); cbn; lia).
  destruct c; cbn [map_step fst]; auto; try lia; [destruct (m !! key); cbn; auto|rewrite map_size_empty; lia].
Qed.

Lemma dict_step_refines d can m c :
  dict_rep d m -> Z.of_nat (size m) <= 2 ^ 30 -> call_ok c ->
  exists d' can', dict_step (d, can) c = Some (d', can', (map_step m c).2) /\ dict_rep d' (map_step m c).1.
Proof.
  intros Hr Hb Hok. destruct c; cbn [dict_step map_step call_ok] in *.
  - unfold dictAdd. destruct (dictAddRaw_set can d m key val Hr Hb) as (d1 & en & ex & -> & _ & Hcase). cbn [mbind option_bind].
    destruct (m !! key) as [v|].
    + destruct Hcase as (-> & Hr1 & _). by exists d1, can.
    + destruct Hcase as (-> & p & d2 & -> & _ & -> & _ & Hr2). by exists d2, can.
  - unfold dictReplace. destruct (dictAddRaw_set can d m key val Hr Hb) as (d1 & en & ex & -> & _ & Hcase). cbn [mbind option_bind].
    destruct (m !! key) as [v|].
    + destruct Hcase as (-> & _ & p & d2 & -> & _ & Hset & _ & Hr2). cbn [mbind option_bind]. rewrite Hset. by exists d2, can.
    + destruct Hcase as (-> & p & d2 & -> & _ & -> & _ & Hr2). by exists d2, can.
  - unfold dictDelete. destruct (dictGenericDelete_rep d m key Hr) as (d' & -> & Hr' & _); [lia|]. cbn [mbind option_bind].
    exists d', can. split; [|done]. by destruct (m !! key).
  - unfold dictUnlink. destruct (dictGenericDelete_rep d m key Hr) as (d' & -> & Hr' & _); [lia|]. by exists d', can.
  - destruct (dictFetchValue_rep d m key Hr) as (d' & -> & Hr' & _); [lia|]. by exists d', can.
  - destruct (dictResize_rep can d m Hr) as (d' & r & -> & Hr' & _); [lia|]. by exists d', can.
  - destruct (dictExpand_rep d m n Hr Hok) as (d' & r & -> & Hr' & _). by exists d', can.
  - destruct n as [|n]; [lia|]. destruct (dictRehash_rep d m n Hr) as (d' & r & -> & Hr' & _); [lia|]. by exists d', can.
  - destruct (dictRehashMilliseconds_rep late d m Hr) as (d' & r & -> & Hr' & _); [lia|]. by exists d', can.
  - destruct Hr as (es & Hs & Hnd & Hm). rewrite (dictEmpty_shape d es Hs) by (rewrite (zlen_map es m) by done; lia).
    exists dictCreate, can. split; [done|]. exists []. split; [constructor|]. split; [constructor|done].
  - by exists d, true.
  - by exists d, false.
  - eexists _, can. split; [done|]. destruct Hr as (es & Hs & Hnd & Hm). exists es. split; [|done].
    destruct Hs; by constructor.
Qed.

Lemma dict_run_refines cs : forall d can m,
  dict_rep d m -> Forall call_ok cs -> Z.of_nat (size m) + zlen cs <= 2 ^ 30 ->
  dict_run (d, can) cs = Some (map_run m cs).
Proof.
  induction cs as [|c cs IH]; intros d can m Hr Hok Hb; [done|].
  apply Forall_cons_1 in Hok as [Hc Hok]. cbn [length dict_run map_run] in *.
  destruct (dict_step_refines d can m c Hr) as (d' & can' & -> & Hr'); [lia|done|]. cbn [mbind option_bind].
  pose proof (map_step_size m c). destruct (map_step m c) as [m' a]. cbn [fst snd] in *.
  rewrite (IH d' can' m' Hr' Hok) by lia. done.
Qed.
End Map.

(** ** Properties *)

Section Theorems.
  Context {K V : Type} `{Countable K}.
  Context (hashFunction : K -> Z) (keyCompare : K -> K -> bool) (unset : V).

(** C32. A new dictionary answers every sequence of calls as a finite map does:
    additions, replacements, deletions and lookups, with resizing allowed or
    not, rehashing started, advanced, finished or held up by safe iterators at
    any point between them.  No call leaves the tables or fails an assert. *)
Theorem dict_refines_map (cs : list (@dict_call K V)) :
  (forall a b, keyCompare a b = true <-> a = b) -> Forall call_ok cs -> zlen cs <= 2 ^ 30 ->
  dict_run hashFunction keyCompare unset (dictCreate, true) cs = Some (map_run ∅ cs).
Proof.
  intros Hcmp Hok Hb. apply dict_run_refines; [done| |done|rewrite map_size_empty; lia].
  exists []. split; [constructor|]. split; [constructor|done].
Qed.

(** Rehashing ends: each call of dictRehash that returns 1 has moved the
    index forward, so dictRehashMilliseconds, given the time, returns with the
    rehashing complete, after at most as many calls as the table has buckets,
    and the same entries. *)
Theorem dictRehash_terminates late (d : dict K V) (m : gmap K V) :
  dict_rep hashFunction d m -> Z.of_nat (size m) < 2 ^ 31 ->
  exists d' r, dictRehashMilliseconds hashFunction late d = Some (d', r) /\ dict_rep hashFunction d' m /\
    ((forall j, late j = false) -> dictIsRehashing d' = false) /\
    forall n d1, dictRehash hashFunction d (S n) = Some (d1, 1) ->
      dictIsRehashing d1 = true /\ rehashidx d < rehashidx d1 <= ht_size (ht0 d).
Proof.
  intros Hr Hb. destruct (dictRehashMilliseconds_rep hashFunction late d m Hr Hb) as (d' & r & Hrun & Hr' & _ & Hend).
  exists d', r. split; [done|]. split; [done|]. split; [done|]. intros n d1 H1.
  destruct Hr as (es & Hs & Hnd & Hm). rewrite <-(zlen_map es m Hnd Hm) in Hb.
  destruct (dictIsRehashing d) eqn:E.
  - destruct (dictRehash_shape hashFunction d es n Hs Hb E) as (d2 & r2 & es2 & Hrun2 & _ & _ & _ & Hcase).
    rewrite Hrun2 in H1. injection H1 as -> ->. by destruct Hcase as [[? _]|(_ & ? & _ & ?)].
  - unfold dictRehash in H1. by rewrite E in H1.
Qed.

(** dictEmpty frees every entry exactly once, whatever the stage of
    rehashing, and leaves a dictionary as new. *)
Theorem dictEmpty_correct (d : dict K V) (m : gmap K V) :
  dict_rep hashFunction d m -> Z.of_nat (size m) < 2 ^ 31 ->
  exists freed, dictEmpty d = Some (dictCreate, freed) /\ NoDup freed.*1 /\
    forall k v, (k, v) ∈ freed <-> m !! k = Some v.
Proof.
  intros (es & Hs & Hnd & Hm) Hb. rewrite <-(zlen_map es m Hnd Hm) in Hb. exists es.
  split; [by apply dictEmpty_shape with hashFunction|]. split; [done|]. intros k v. symmetry. by apply rep_elem.
Qed.

(** dictExpand takes the least power of two, from 4 on, that is not below
    the size.  It refuses, changing nothing, while a rehashing is in progress,
    when there are more elements than that, and when the table already has
    that size; otherwise it creates the first table, or a second one and
    starts rehashing.  The entries stay. *)
Theorem dictExpand_correct (d : dict K V) (m : gmap K V) size :
  dict_rep hashFunction d m -> 0 <= size <= 2 ^ 31 ->
  exists k d' r, dictExpand d size = Some (d', r) /\ dict_rep hashFunction d' m /\
    2 <= k <= 31 /\ size <= 2 ^ k /\ (k = 2 \/ 2 ^ (k - 1) < size) /\
    (r = DICT_ERR <-> dictIsRehashing d = true \/ size < ht_used (ht0 d) \/ 2 ^ k = ht_size (ht0 d)) /\
    (r = DICT_ERR -> d' = d) /\
    (r <> DICT_ERR -> r = DICT_OK /\
       match ht_table (ht0 d) with
       | Some _ => ht0 d' = ht0 d /\ ht_size (ht1 d') = 2 ^ k /\ rehashidx d' = 0
       | None => ht_size (ht0 d') = 2 ^ k /\ dictIsRehashing d' = false
       end).
Proof.
  intros (es & Hs & Hnd & Hm) Hsz.
  destruct (dictExpand_shape hashFunction d es size Hs Hsz) as (k & d' & r & Hrun & Hk & Hle & Hmin & Hs' & _ & Hr).
  exists k, d', r. split; [done|]. split; [by exists es|]. split; [done|]. split; [done|]. split; [done|].
  destruct (dictIsRehashing d) eqn:E1, (Z.ltb_spec size (ht_used (ht0 d))), (Z.eqb_spec (2 ^ k) (ht_size (ht0 d)));
    cbn [orb] in Hr; destruct Hr as [-> Hd]; try (split; [tauto|split; [done|done]]).
  destruct Hd as [_ Hd]. split; [|split; [done|]].
  - split; [done|]. intros [?|[?|?]]; done || lia.
  - intros _. split; [done|]. destruct (ht_table (ht0 d)); by subst d'.
Qed.
End Theorems.

(** ** Instances: numbers hashed by themselves *)

Lemma Zeqb_compare a b : Z.eqb a b = true <-> a = b.
Proof. apply Z.eqb_eq. Qed.

Definition sample_calls : list (@dict_call Z Z) :=
  [Add 1 10; Add 5 50; Add 9 90; Add 13 130; Add 2 20; Add 1 11; Iterators 1; Replace 9 91; Iterators 0; Delete 5;
   FetchValue 9; FetchValue 5; Rehash 1; DisableResize; Expand 64; RehashMs (fun _ => false); Unlink 13; Resize; Empty; FetchValue 1].

Lemma dict_refines_map_witness :
  dict_run id Z.eqb 0 (dictCreate, true) sample_calls = Some (map_run ∅ sample_calls).
Proof.
  apply dict_refines_map; [apply Zeqb_compare| |by vm_compute].
  repeat constructor; done || (cbn; lia).
Defined.

(** Five entries, the fifth of which starts rehashing from 4 to 8 buckets. *)
Definition sample_dict : dict Z Z :=
  mkDict (mk_ht 2 [[]; [(9, 90); (5, 50); (1, 10)]; [(2, 20)]; []])
         (mk_ht 3 [[]; []; []; []; []; [(13, 130)]; []; []]) 0 0.
Definition sample_map : gmap Z Z := list_to_map [(9, 90); (5, 50); (1, 10); (2, 20); (13, 130)].

Lemma sample_rep : dict_rep id sample_dict sample_map.
Proof.
  exists [(9, 90); (5, 50); (1, 10); (2, 20); (13, 130)]. split; [|split; [|done]].
  - apply (shape_two id 2 [[]; [(9, 90); (5, 50); (1, 10)]; [(2, 20)]; []] 3 [[]; []; []; []; []; [(13, 130)]; []; []] 0 0);
      [| |lia|intros j Hj; lia].
    all: split; [lia|done|]; intros i c Hc; repeat (destruct i as [|i]; [injection Hc as <-; repeat constructor|]); done.
  - by apply (bool_decide_unpack _).
Qed.

Lemma dictRehash_terminates_witness :
  exists d' r, dictRehashMilliseconds id (fun _ => false) sample_dict = Some (d', r) /\ dict_rep id d' sample_map /\
    ((forall j : nat, (fun _ => false) j = false) -> dictIsRehashing d' = false) /\
    forall n d1, dictRehash id sample_dict (S n) = Some (d1, 1) ->
      dictIsRehashing d1 = true /\ rehashidx sample_dict < rehashidx d1 <= ht_size (ht0 sample_dict).
Proof. apply (dictRehash_terminates id); [apply sample_rep|by vm_compute]. Defined.

Lemma dictEmpty_correct_witness :
  exists freed, dictEmpty sample_dict = Some (dictCreate, freed) /\ NoDup freed.*1 /\
    forall k v, (k, v) ∈ freed <-> sample_map !! k = Some v.
Proof. apply (dictEmpty_correct id); [apply sample_rep|by vm_compute]. Defined.

Lemma dictExpand_correct_witness :
  exists k d' r, dictExpand sample_dict 20 = Some (d', r) /\ dict_rep id d' sample_map /\
    2 <= k <= 31 /\ 20 <= 2 ^ k /\ (k = 2 \/ 2 ^ (k - 1) < 20) /\
    (r = DICT_ERR <-> dictIsRehashing sample_dict = true \/ 20 < ht_used (ht0 sample_dict) \/ 2 ^ k = ht_size (ht0 sample_dict)) /\
    (r = DICT_ERR -> d' = sample_dict) /\
    (r <> DICT_ERR -> r = DICT_OK /\
       match ht_table (ht0 sample_dict) with
       | Some _ => ht0 d' = ht0 sample_dict /\ ht_size (ht1 d') = 2 ^ k /\ rehashidx d' = 0
       | None => ht_size (ht0 d') = 2 ^ k /\ dictIsRehashing d' = false
       end).
Proof. apply (dictExpand_correct id); [apply sample_rep|lia]. Defined.
