(* ===== verification/DictScan.v ===== *)
(** dict.c: dictScan, the stateless iteration behind SCAN.

    The cursor is incremented in the order of its reversed bits, which lets
    the tables change size between two calls.  The model returns the entries
    passed to the callback [fn], in order, and the next cursor; [bucketfn],
    which only active defragmentation uses, is NULL. *)

From S2P Require Import Prelude Dict DictMap.
From stdpp Require Import gmap.
#[local] Open Scope Z_scope.

(** ** Definitions *)

(** The while loop of [rev]: [s] halves from 64, so seven turns are enough. *)
Fixpoint rev_loop (fuel : nat) (s mask v : Z) : Z :=
  match fuel with
  | O => v
  | S f =>
      let s := Z.shiftr s 1 in
      if s >? 0 then
        let mask := Z.lxor mask (u64 (Z.shiftl mask s)) in
        let v := Z.lor (Z.land (Z.shiftr v s) mask) (Z.land (u64 (Z.shiftl v s)) (u64 (Z.lnot mask))) in
        rev_loop f s mask v
      else v
  end.
Definition rev (v : Z) : Z := rev_loop 7 (8 * 8) (u64 (-1)) v.

Section Scan.
  Context {K V : Type}.
  Abbreviation dictht := (dictht K V).
  Abbreviation dict := (dict K V).

(** The do loop over the expansions of the cursor in the larger table. *)
Fixpoint scan_expansions (fuel : nat) (t1 : dictht) (m0 m1 v : Z) : option (list (K * V) * Z) :=
  match fuel with
  | O => None
  | S f =>
      de ← bucket t1 (Z.land v m1);
      let v := Z.lor (Z.land (u64 (Z.lor v m0 + 1)) (u64 (Z.lnot m0))) (Z.land v m0) in
      if Z.land v (Z.lxor m0 m1) =? 0 then Some (de, v) else
      '(l, v) ← scan_expansions f t1 m0 m1 v;
      Some (de ++ l, v)
  end.

Definition dictScan (d : dict) (v : Z) : option (list (K * V) * Z) :=
  if dictSize d =? 0 then Some ([], 0) else
  '(emitted, v, m0) ← (
    if negb (dictIsRehashing d) then
      let m0 := ht_sizemask (ht0 d) in
      de ← bucket (ht0 d) (Z.land v m0);
      Some (de, v, m0)
    else
      let '(t0, t1) := if ht_size (ht0 d) >? ht_size (ht1 d) then (ht1 d, ht0 d) else (ht0 d, ht1 d) in
      let m0 := ht_sizemask t0 in
      let m1 := ht_sizemask t1 in
      de ← bucket t0 (Z.land v m0);
      '(l, v) ← scan_expansions (Z.to_nat (ht_size t1)) t1 m0 m1 v;
      Some (de ++ l, v, m0));
  let v := Z.lor v (u64 (Z.lnot m0)) in
  let v := rev v in
  let v := u64 (v + 1) in
  let v := rev v in
  Some (emitted, v).

(** A scan: one call in each of the states [ds] that the dictionary has at the
    calls, each from the cursor the one before returned. *)
Fixpoint scan_run (ds : list dict) (v : Z) : option (list (K * V) * Z) :=
  match ds with
  | [] => Some ([], v)
  | d :: ds => '(l, v) ← dictScan d v; '(l', v) ← scan_run ds v; Some (l ++ l', v)
  end.
End Scan.

(** ** Bit reversal *)

Definition rev_step (s M v : Z) : Z :=
  Z.lor (Z.land (Z.shiftr v s) M) (Z.land (u64 (Z.shiftl v s)) (u64 (Z.lnot M))).

Definition M32 : Z := 0x00000000FFFFFFFF.
Definition M16 : Z := 0x0000FFFF0000FFFF.
Definition M8 : Z := 0x00FF00FF00FF00FF.
Definition M4 : Z := 0x0F0F0F0F0F0F0F0F.
Definition M2 : Z := 0x3333333333333333.
Definition M1 : Z := 0x5555555555555555.

Lemma rev_unfold v :
  rev v = rev_step 1 M1 (rev_step 2 M2 (rev_step 4 M4 (rev_step 8 M8 (rev_step 16 M16 (rev_step 32 M32 v))))).
Proof. reflexivity. Qed.

Lemma u64_testbit x i : 0 <= i < 64 -> Z.testbit (u64 x) i = Z.testbit x i.
Proof. intros Hi. unfold u64. change 18446744073709551616 with (2 ^ 64). apply Z.mod_pow2_bits_low. lia. Qed.

Lemma u64_range x : in_u64 (u64 x).
Proof. unfold in_u64, u64. apply Z.mod_pos_bound. lia. Qed.

(** The bits of a mask of a step: those at positions without the bit of [s]. *)
Definition mask_ok (s M : Z) : bool :=
  forallb (fun i => Bool.eqb (Z.testbit M i) (Z.land i s =? 0) && (0 <=? Z.lxor i s) && (Z.lxor i s <? 64) &&
                    (Z.lxor i s =? if Z.land i s =? 0 then i + s else i - s)) (seqZ 0 64).

Lemma rev_step_spec s M v i : mask_ok s M = true -> 0 <= s < 64 -> 0 <= i < 64 ->
  Z.testbit (rev_step s M v) i = Z.testbit v (Z.lxor i s) /\ 0 <= Z.lxor i s < 64.
Proof.
  intros HM Hs Hi. apply (forall_below 64 _) with (i := i) in HM; [|done].
  rewrite !andb_true_iff in HM. destruct HM as [[[HM H1] H2] H3].
  apply Bool.eqb_prop in HM. apply Z.leb_le in H1. apply Z.ltb_lt in H2. apply Z.eqb_eq in H3. split; [|lia].
  unfold rev_step. rewrite Z.lor_spec, !Z.land_spec, Z.shiftr_spec by lia. rewrite !u64_testbit by lia.
  rewrite Z.shiftl_spec, Z.lnot_spec by lia. rewrite HM, H3. destruct (Z.land i s =? 0); cbn [negb].
  - by rewrite andb_true_r, andb_false_r, orb_false_r.
  - by rewrite andb_false_r, andb_true_r, orb_false_l.
Qed.

(** One step of the reversal, from the last to the first. *)
Ltac rev_bit :=
  match goal with |- Z.testbit (rev_step ?s ?M ?w) ?j = _ =>
    let H := fresh "H" in destruct (rev_step_spec s M w j) as [-> H]; [by vm_compute|lia|assumption|]
  end.

Lemma rev_spec v i : 0 <= i < 64 -> Z.testbit (rev v) i = Z.testbit v (63 - i).
Proof.
  intros Hi. rewrite rev_unfold. do 6 rev_bit. f_equal.
  assert (Hall : forallb (fun i => Z.lxor (Z.lxor (Z.lxor (Z.lxor (Z.lxor (Z.lxor i 1) 2) 4) 8) 16) 32 =? 63 - i) (seqZ 0 64) = true)
    by by vm_compute.
  by apply Z.eqb_eq, (forall_below 64 _ Hall i).
Qed.

Lemma u64_high x i : in_u64 x -> 64 <= i -> Z.testbit x i = false.
Proof.
  intros [H0 H1] Hi. destruct (Z.eq_dec x 0) as [->|]; [apply Z.testbit_0_l|].
  apply Z.bits_above_log2; [done|]. apply Z.log2_lt_pow2; [lia|].
  assert (2 ^ 64 <= 2 ^ i) by (apply Z.pow_le_mono_r; lia). change (2 ^ 64) with 18446744073709551616 in *. lia.
Qed.

Lemma u64_bits_eq x y : in_u64 x -> in_u64 y -> (forall i, 0 <= i < 64 -> Z.testbit x i = Z.testbit y i) -> x = y.
Proof.
  intros Hx Hy H. apply Z.bits_inj'. intros i Hi. destruct (Z.lt_ge_cases i 64); [by apply H|].
  by rewrite !u64_high.
Qed.

Lemma rev_range v : in_u64 (rev v).
Proof.
  assert (E : u64 (rev v) = rev v); [|rewrite <-E; apply u64_range].
  apply Z.bits_inj'. intros i Hi. destruct (Z.lt_ge_cases i 64); [by apply u64_testbit|].
  rewrite (u64_high (u64 _)) by (done || apply u64_range). rewrite rev_unfold. unfold rev_step at 1.
  rewrite Z.lor_spec, !Z.land_spec, (u64_high M1), (u64_high (u64 (Z.shiftl _ _))) by (done || apply u64_range).
  by rewrite andb_false_r.
Qed.

Lemma rev_involutive v : in_u64 v -> rev (rev v) = v.
Proof.
  intros Hv. apply u64_bits_eq; [apply rev_range|done|]. intros i Hi. rewrite !rev_spec by lia. f_equal. lia.
Qed.

(** The low bits of a number are the high bits of its reversal. *)
Lemma rev_high k v i : 0 <= k <= 64 -> 0 <= i ->
  Z.testbit (rev v / 2 ^ (64 - k)) i = if i <? k then Z.testbit v (k - 1 - i) else false.
Proof.
  intros Hk Hi. rewrite <-Z.shiftr_div_pow2, Z.shiftr_spec by lia. destruct (Z.ltb_spec i k).
  - rewrite rev_spec by lia. f_equal. lia.
  - apply u64_high; [apply rev_range|lia].
Qed.

Lemma rev_same_low k v w : 0 <= k <= 64 ->
  rev v / 2 ^ (64 - k) = rev w / 2 ^ (64 - k) <-> v mod 2 ^ k = w mod 2 ^ k.
Proof.
  intros Hk. split; intros H.
  - apply Z.bits_inj'. intros i Hi. destruct (Z.lt_ge_cases i k).
    + rewrite !Z.mod_pow2_bits_low by lia. assert (Hv := rev_high k v (k - 1 - i) Hk ltac:(lia)).
      assert (Hw := rev_high k w (k - 1 - i) Hk ltac:(lia)). revert Hv Hw. ztrue (k - 1 - i <? k).
      replace (k - 1 - (k - 1 - i)) with i by lia. congruence.
    + by rewrite !Z.mod_pow2_bits_high by lia.
  - apply Z.bits_inj'. intros i Hi. rewrite !rev_high by lia. destruct (Z.ltb_spec i k); [|done].
    rewrite <-(Z.mod_pow2_bits_low v k), <-(Z.mod_pow2_bits_low w k) by lia. by rewrite H.
Qed.

(** Setting the bits that the mask does not cover. *)
Lemma rev_unmasked k v : 0 <= k <= 64 -> in_u64 v ->
  rev (Z.lor v (u64 (Z.lnot (2 ^ k - 1)))) = rev v / 2 ^ (64 - k) * 2 ^ (64 - k) + (2 ^ (64 - k) - 1).
Proof.
  intros Hk Hv. set (w := Z.lor v (u64 (Z.lnot (2 ^ k - 1)))).
  assert (Hmask : forall i, 0 <= i < 64 -> Z.testbit w i = (Z.testbit v i || (k <=? i))).
  { intros i Hi. unfold w. rewrite Z.lor_spec, u64_testbit, Z.lnot_spec by lia. f_equal.
    replace (2 ^ k - 1) with (Z.ones k) by (rewrite Z.ones_equiv; lia). destruct (Z.leb_spec k i).
    - by rewrite Z.ones_spec_high by lia.
    - by rewrite Z.ones_spec_low by lia. }
  assert (Hlow : w mod 2 ^ k = v mod 2 ^ k).
  { apply Z.bits_inj'. intros i Hi. destruct (Z.lt_ge_cases i k).
    - rewrite !Z.mod_pow2_bits_low, Hmask by lia. zfalse (k <=? i). by rewrite orb_false_r.
    - by rewrite !Z.mod_pow2_bits_high by lia. }
  apply rev_same_low in Hlow; [|done].
  assert (Hmod : rev w mod 2 ^ (64 - k) = 2 ^ (64 - k) - 1).
  { replace (2 ^ (64 - k) - 1) with (Z.ones (64 - k)) by (rewrite Z.ones_equiv; lia).
    apply Z.bits_inj'. intros i Hi. destruct (Z.lt_ge_cases i (64 - k)).
    - rewrite Z.mod_pow2_bits_low, Z.ones_spec_low, rev_spec, Hmask by lia. ztrue (k <=? 63 - i). apply orb_true_r.
    - by rewrite Z.mod_pow2_bits_high, Z.ones_spec_high by lia. }
  assert (0 < 2 ^ (64 - k)) by (apply Z.pow_pos_nonneg; lia).
  rewrite (Z.div_mod (rev w) (2 ^ (64 - k))) at 1 by lia. rewrite Hmod, <-Hlow. lia.
Qed.

(** From here on only the bits of a reversal matter. *)
#[local] Opaque rev.

(** ** The next cursor *)

(** What a call with a mask of [k] bits does to the cursor. *)
Definition next_cursor (k v : Z) : Z := rev (u64 (rev (Z.lor v (u64 (Z.lnot (2 ^ k - 1)))) + 1)).

(** In reversed order the cursor moves to the end of the interval of the
    numbers with its [k] low bits, or is 0 when that is the last one. *)
Lemma next_cursor_spec k v : 0 <= k <= 63 -> in_u64 v ->
  let q := 2 ^ (64 - k) in
  in_u64 (next_cursor k v) /\ 0 <= next_cursor k v < 2 ^ k /\
  rev (next_cursor k v) = ((rev v / q + 1) mod 2 ^ k) * q /\ 0 <= rev v / q < 2 ^ k.
Proof.
  intros Hk Hv q. assert (Hq : 0 < q) by (apply Z.pow_pos_nonneg; lia).
  assert (Hkq : 2 ^ k * q = 2 ^ 64) by (unfold q; rewrite <-Z.pow_add_r by lia; f_equal; lia).
  assert (0 < 2 ^ k) by (apply Z.pow_pos_nonneg; lia).
  assert (Hx : 0 <= rev v / q < 2 ^ k).
  { destruct (rev_range v) as [H0 H1]. split; [apply Z.div_pos; lia|]. apply Z.div_lt_upper_bound; [done|].
    rewrite Z.mul_comm, Hkq. done. }
  assert (E : rev (next_cursor k v) = ((rev v / q + 1) mod 2 ^ k) * q).
  { unfold next_cursor. rewrite rev_involutive by apply u64_range. rewrite rev_unmasked by (done || lia).
    fold q. replace (rev v / q * q + (q - 1) + 1) with ((rev v / q + 1) * q) by lia. unfold u64.
    change 18446744073709551616 with (2 ^ 64). rewrite <-Hkq. rewrite Z.mul_mod_distr_r by lia. done. }
  split; [apply rev_range|]. split; [|done].
  assert (Hlow : next_cursor k v mod 2 ^ k = next_cursor k v).
  { assert (Hr : in_u64 (next_cursor k v)) by apply rev_range. apply u64_bits_eq; [|done|].
    - pose proof (Z.mod_pos_bound (next_cursor k v) (2 ^ k) ltac:(lia)). unfold in_u64 in *.
      assert (2 ^ k <= 2 ^ 63) by (apply Z.pow_le_mono_r; lia). lia.
    - intros i Hi. destruct (Z.lt_ge_cases i k); [by apply Z.mod_pow2_bits_low; lia|].
      rewrite Z.mod_pow2_bits_high by lia. rewrite <-(rev_involutive (next_cursor k v)) by done.
      rewrite rev_spec by lia. rewrite E. unfold q. symmetry. apply Z.mul_pow2_bits_low. lia. }
  rewrite <-Hlow. apply Z.mod_pos_bound. lia.
Qed.

Lemma next_cursor_low k v w : 0 <= k <= 63 -> v mod 2 ^ k = w mod 2 ^ k -> in_u64 v -> in_u64 w -> next_cursor k v = next_cursor k w.
Proof.
  intros Hk H Hv Hw. unfold next_cursor. apply rev_same_low in H; [|lia].
  rewrite !rev_unmasked by (done || lia). by rewrite H.
Qed.

(** ** The expansions of a cursor *)

Lemma land_mask k v : 0 <= k -> Z.land v (2 ^ k - 1) = v mod 2 ^ k.
Proof. intros Hk. replace (2 ^ k - 1) with (Z.ones k) by (rewrite Z.ones_equiv; lia). by apply Z.land_ones. Qed.

Lemma u64_mod k x : 0 <= k <= 64 -> u64 x mod 2 ^ k = x mod 2 ^ k.
Proof.
  intros Hk. unfold u64. change 18446744073709551616 with (2 ^ 64). apply Z.mod_mod_divide.
  exists (2 ^ (64 - k)). rewrite <-Z.pow_add_r by lia. f_equal. lia.
Qed.

(** Incrementing the bits that the smaller mask does not cover. *)
Lemma expand_next k v : 0 <= k <= 31 -> in_u64 v ->
  Z.lor (Z.land (u64 (Z.lor v (2 ^ k - 1) + 1)) (u64 (Z.lnot (2 ^ k - 1)))) (Z.land v (2 ^ k - 1)) = u64 (v + 2 ^ k).
Proof.
  intros Hk Hv. assert (Hp : 0 < 2 ^ k) by (apply Z.pow_pos_nonneg; lia).
  assert (Hor : Z.lor v (2 ^ k - 1) = v / 2 ^ k * 2 ^ k + (2 ^ k - 1)).
  { replace (2 ^ k - 1) with (Z.ones k) by (rewrite Z.ones_equiv; lia).
    rewrite <-Z.shiftr_div_pow2, <-Z.shiftl_mul_pow2 by lia.
    assert (Hz : Z.land (Z.shiftl (Z.shiftr v k) k) (Z.ones k) = 0).
    { rewrite Z.land_ones, Z.shiftl_mul_pow2 by lia. apply Z.mod_mul. lia. }
    rewrite Z.add_nocarry_lxor, Z.lxor_lor by done. apply Z.bits_inj'. intros i Hi.
    rewrite !Z.lor_spec, Z.shiftl_spec by lia. destruct (Z.lt_ge_cases i k).
    - by rewrite Z.ones_spec_low, !orb_true_r by lia.
    - rewrite Z.ones_spec_high, !orb_false_r, Z.shiftr_spec by lia. f_equal. lia. }
  rewrite Hor. replace (v / 2 ^ k * 2 ^ k + (2 ^ k - 1) + 1) with (Z.shiftl (v / 2 ^ k + 1) k) by (rewrite Z.shiftl_mul_pow2; lia).
  assert (Hadd : v + 2 ^ k = Z.lor (Z.shiftl (v / 2 ^ k + 1) k) (v mod 2 ^ k)).
  { assert (Hz : Z.land (Z.shiftl (v / 2 ^ k + 1) k) (v mod 2 ^ k) = 0).
    { apply Z.bits_inj'. intros i Hi. rewrite Z.land_spec, Z.bits_0. destruct (Z.lt_ge_cases i k).
      - by rewrite Z.shiftl_spec_low by lia.
      - by rewrite Z.mod_pow2_bits_high, andb_false_r by lia. }
    rewrite <-Z.lxor_lor, <-Z.add_nocarry_lxor, Z.shiftl_mul_pow2 by (done || lia). pose proof (Z.div_mod v (2 ^ k)). lia. }
  rewrite Hadd, land_mask by lia. apply Z.bits_inj'. intros i Hi.
  destruct (Z.lt_ge_cases i 64).
  - rewrite (u64_testbit (Z.lor _ _)), !Z.lor_spec, Z.land_spec, !u64_testbit, Z.lnot_spec by lia.
    replace (2 ^ k - 1) with (Z.ones k) by (rewrite Z.ones_equiv; lia). f_equal. destruct (Z.lt_ge_cases i k).
    + by rewrite Z.ones_spec_low, andb_false_r, Z.shiftl_spec_low by lia.
    + by rewrite Z.ones_spec_high, andb_true_r by lia.
  - rewrite Z.lor_spec, Z.land_spec, !(u64_high (u64 _)) by (done || apply u64_range).
    by rewrite Z.mod_pow2_bits_high by lia.
Qed.

(** The test of the do loop: are the bits between the masks zero? *)
Lemma expand_test k0 k1 v : 0 <= k0 <= k1 ->
  Z.land v (Z.lxor (2 ^ k0 - 1) (2 ^ k1 - 1)) = v mod 2 ^ k1 / 2 ^ k0 * 2 ^ k0.
Proof.
  intros Hk. rewrite <-Z.shiftr_div_pow2, <-Z.shiftl_mul_pow2 by lia.
  replace (2 ^ k0 - 1) with (Z.ones k0) by (rewrite Z.ones_equiv; lia).
  replace (2 ^ k1 - 1) with (Z.ones k1) by (rewrite Z.ones_equiv; lia).
  apply Z.bits_inj'. intros i Hi. rewrite Z.land_spec, Z.lxor_spec. destruct (Z.lt_ge_cases i k0).
  - rewrite !Z.ones_spec_low, Z.shiftl_spec_low by lia. apply andb_false_r.
  - rewrite (Z.ones_spec_high k0), Z.shiftl_spec, Z.shiftr_spec by lia. replace (i - k0 + k0) with i by lia.
    destruct (Z.lt_ge_cases i k1).
    + rewrite Z.ones_spec_low, Z.mod_pow2_bits_low by lia. apply andb_true_r.
    + rewrite Z.ones_spec_high, Z.mod_pow2_bits_high by lia. apply andb_false_r.
Qed.

Section ScanSpec.
  Context {K V : Type}.
  Context (hashFunction : K -> Z).
  Abbreviation dict := (dict K V).
  Abbreviation shape := (@shape K V hashFunction).

Lemma scan_expansions_spec k0 k1 (t1 : list (list (K * V))) lo fuel : forall i v,
  tbl_ok hashFunction k1 t1 -> 0 <= k0 <= k1 -> 0 <= lo < 2 ^ k0 ->
  0 <= i < 2 ^ (k1 - k0) -> v mod 2 ^ k1 = i * 2 ^ k0 + lo -> in_u64 v -> 2 ^ (k1 - k0) - i <= Z.of_nat fuel ->
  exists l v', scan_expansions fuel (mk_ht k1 t1) (2 ^ k0 - 1) (2 ^ k1 - 1) v = Some (l, v') /\ in_u64 v' /\ v' mod 2 ^ k0 = lo /\
    forall j c, i <= j < 2 ^ (k1 - k0) -> t1 !! Z.to_nat (j * 2 ^ k0 + lo) = Some c -> forall e, e ∈ c -> e ∈ l.
Proof.
  induction fuel as [|fuel IH]; intros i v Hok Hk Hlo Hi Hv Hu Hf; [lia|]. cbn [scan_expansions].
  pose proof (tbl_bits _ _ _ Hok). assert (Hp0 : 0 < 2 ^ k0) by (apply Z.pow_pos_nonneg; lia).
  assert (Hk1 : 2 ^ (k1 - k0) * 2 ^ k0 = 2 ^ k1) by (rewrite <-Z.pow_add_r by lia; f_equal; lia).
  rewrite (land_mask k1), Hv by lia. destruct (bucket_some hashFunction k1 t1 (i * 2 ^ k0 + lo) Hok) as [c Hc]; [nia|].
  rewrite bucket_mk, Hc by lia. cbn [mbind option_bind]. rewrite expand_next by (done || lia).
  assert (Hnext : u64 (v + 2 ^ k0) mod 2 ^ k1 = if i + 1 <? 2 ^ (k1 - k0) then (i + 1) * 2 ^ k0 + lo else lo).
  { rewrite u64_mod by lia. rewrite <-Zplus_mod_idemp_l, Hv. destruct (Z.ltb_spec (i + 1) (2 ^ (k1 - k0))).
    - rewrite Z.mod_small by nia. lia.
    - replace (i * 2 ^ k0 + lo + 2 ^ k0) with (lo + 1 * 2 ^ k1) by nia. rewrite Z.mod_add by nia. apply Z.mod_small. nia. }
  assert (Hlow : u64 (v + 2 ^ k0) mod 2 ^ k0 = lo).
  { rewrite u64_mod by lia. replace (v + 2 ^ k0) with (v + 1 * 2 ^ k0) by lia. rewrite Z.mod_add by lia.
    rewrite <-(Z.mod_mod_divide v (2 ^ k1) (2 ^ k0)) by (by exists (2 ^ (k1 - k0))). rewrite Hv.
    rewrite Z.add_comm, Z.mod_add by lia. by apply Z.mod_small. }
  rewrite expand_test, Hnext by lia. destruct (Z.ltb_spec (i + 1) (2 ^ (k1 - k0))).
  - rewrite Z.div_add_l, (Z.div_small lo), Z.add_0_r by lia. destruct (Z.eqb_spec ((i + 1) * 2 ^ k0) 0); [nia|].
    destruct (IH (i + 1) (u64 (v + 2 ^ k0)) Hok Hk Hlo) as (l & v' & -> & Hu' & Hlo' & Hin); [lia| |apply u64_range|lia|].
    { rewrite Hnext. by ztrue (i + 1 <? 2 ^ (k1 - k0)). }
    cbn [mbind option_bind]. exists (c ++ l), v'. split; [done|]. split; [done|]. split; [done|].
    intros j c' Hj Hc' e He. apply elem_of_app. destruct (decide (j = i)) as [->|].
    + left. rewrite Hc in Hc'. by injection Hc' as ->.
    + right. apply (Hin j c'); (done || lia).
  - rewrite (Z.div_small lo) by lia. change (0 * 2 ^ k0 =? 0) with true. cbv iota.
    exists c, (u64 (v + 2 ^ k0)). split; [done|]. split; [apply u64_range|]. split; [done|].
    intros j c' Hj Hc' e He. assert (j = i) as -> by lia. rewrite Hc in Hc'. by injection Hc' as ->.
Qed.

(** The smaller table of a dictionary that is rehashing, or its only one. *)
Definition small (d : dict) : Z :=
  if dictIsRehashing d then Z.min (ht_size (ht0 d)) (ht_size (ht1 d)) else ht_size (ht0 d).

Lemma scan_two ka kb (ta tb : list (list (K * V))) v :
  tbl_ok hashFunction ka ta -> tbl_ok hashFunction kb tb -> ka <= kb -> in_u64 v -> v < 2 ^ ka ->
  exists l v', (de ← bucket (mk_ht ka ta) (Z.land v (2 ^ ka - 1));
      '(l, v) ← scan_expansions (Z.to_nat (2 ^ kb)) (mk_ht kb tb) (2 ^ ka - 1) (2 ^ kb - 1) v;
      Some (de ++ l, v, 2 ^ ka - 1)) = Some (l, v', 2 ^ ka - 1) /\ in_u64 v' /\ v' mod 2 ^ ka = v mod 2 ^ ka /\
    forall e, e ∈ concat ta ++ concat tb -> hashFunction e.1 mod 2 ^ ka = v mod 2 ^ ka -> e ∈ l.
Proof.
  intros Ha Hb Hle Hu Hv. pose proof (tbl_bits _ _ _ Ha). pose proof (tbl_bits _ _ _ Hb).
  assert (0 < 2 ^ ka) by (apply Z.pow_pos_nonneg; lia). unfold in_u64 in Hu.
  assert (Hvk : v mod 2 ^ ka = v) by (apply Z.mod_small; lia). rewrite land_mask, Hvk by lia.
  destruct (bucket_some hashFunction ka ta v Ha) as [c Hc]; [lia|]. rewrite bucket_mk, Hc by lia. cbn [mbind option_bind].
  assert (Hkb : 2 ^ (kb - ka) * 2 ^ ka = 2 ^ kb) by (rewrite <-Z.pow_add_r by lia; f_equal; lia).
  assert (0 < 2 ^ (kb - ka)) by (apply Z.pow_pos_nonneg; lia).
  destruct (scan_expansions_spec ka kb tb v (Z.to_nat (2 ^ kb)) 0 v Hb) as (l & v' & -> & Hu' & Hlow & Hin); [lia|lia|lia| |done|nia|].
  { apply Z.mod_small. nia. }
  cbn [mbind option_bind]. exists (c ++ l), v'. split; [done|]. split; [done|]. split; [congruence|].
  intros e He Hh. apply elem_of_app. apply elem_of_app in He as [He|He].
  - left. destruct (elem_in_slot hashFunction ka ta e Ha He) as (c' & Hc' & Hin'). unfold slot in Hc'. rewrite Hh, Hc in Hc'.
    by injection Hc' as ->.
  - right. destruct (elem_in_slot hashFunction kb tb e Hb He) as (c' & Hc' & Hin'). unfold slot in Hc'.
    set (h := hashFunction e.1) in *. assert (Hhm : h mod 2 ^ kb mod 2 ^ ka = v).
    { rewrite Z.mod_mod_divide by (by exists (2 ^ (kb - ka))). done. }
    pose proof (Z.mod_pos_bound h (2 ^ kb) ltac:(lia)). pose proof (Z.div_mod (h mod 2 ^ kb) (2 ^ ka) ltac:(lia)) as Hdm.
    apply (Hin (h mod 2 ^ kb / 2 ^ ka) c').
    + split; [apply Z.div_pos; lia|]. apply Z.div_lt_upper_bound; nia.
    + rewrite <-Hc'. do 2 f_equal. lia.
    + done.
Qed.

(** One call: it returns the entries whose reversed hash is in the interval of
    the reversed cursor. *)
Lemma dictScan_step d es v :
  shape d es -> zlen es < 2 ^ 31 -> es <> [] -> in_u64 v -> (dictIsRehashing d = true -> v < small d) ->
  exists k l, 2 <= k <= 31 /\ small d = 2 ^ k /\ dictScan d v = Some (l, next_cursor k v) /\
    forall e, e ∈ es -> rev (u64 (hashFunction e.1)) / 2 ^ (64 - k) = rev v / 2 ^ (64 - k) -> e ∈ l.
Proof.
  intros Hs Hl Hne Hu Hgap. unfold dictScan, dictSize. destruct (used_total hashFunction d es Hs) as (Hused & _).
  rewrite Hused, u64_small by lia. destruct (Z.eqb_spec (zlen es) 0); [by destruct es|]. unfold small in *.
  assert (Hsel : forall k key, 2 <= k <= 31 -> rev (u64 (hashFunction key)) / 2 ^ (64 - k) = rev v / 2 ^ (64 - k) ->
     hashFunction key mod 2 ^ k = v mod 2 ^ k).
  { intros k key Hk H. apply rev_same_low in H; [|lia]. by rewrite u64_mod in H by lia. }
  destruct Hs as [it|k t it Hok|k0 t0 k1 t1 i it Hok0 Hok1 Hi He]; [done|..].
  - change (dictIsRehashing _) with false. cbn [negb ht0 ht_sizemask ht_size mk_ht]. pose proof (tbl_bits _ _ _ Hok) as Hk.
    assert (0 < 2 ^ k) by (apply Z.pow_pos_nonneg; lia). pose proof (Z.mod_pos_bound v (2 ^ k) ltac:(lia)).
    change (mkHt (Some t) (2 ^ k) (2 ^ k - 1) (zlen (concat t))) with (mk_ht k t). rewrite land_mask by lia.
    destruct (bucket_some hashFunction k t (v mod 2 ^ k) Hok) as [c Hc]; [lia|]. rewrite bucket_mk, Hc by lia. cbn [mbind option_bind].
    exists k, c. split; [done|]. split; [done|]. split; [reflexivity|]. intros e He Hr. apply Hsel in Hr; [|done].
    destruct (elem_in_slot hashFunction k t e Hok He) as (c' & Hc' & Hin). unfold slot in Hc'. rewrite Hr, Hc in Hc'. by injection Hc' as ->.
  - assert (E : dictIsRehashing (mkDict (mk_ht k0 t0) (mk_ht k1 t1) i it) = true).
    { unfold dictIsRehashing. cbn. destruct (Z.eqb_spec i (-1)); [lia|done]. }
    rewrite E in *. specialize (Hgap eq_refl). cbn [negb ht0 ht1 ht_size ht_sizemask mk_ht] in *.
    change (mkHt (Some t0) (2 ^ k0) (2 ^ k0 - 1) (zlen (concat t0))) with (mk_ht k0 t0).
    change (mkHt (Some t1) (2 ^ k1) (2 ^ k1 - 1) (zlen (concat t1))) with (mk_ht k1 t1).
    pose proof (tbl_bits _ _ _ Hok0). pose proof (tbl_bits _ _ _ Hok1).
    assert (Hfin : forall k v', 2 <= k <= 31 -> in_u64 v' -> v' mod 2 ^ k = v mod 2 ^ k ->
       rev (u64 (rev (Z.lor v' (u64 (Z.lnot (2 ^ k - 1)))) + 1)) = next_cursor k v).
    { intros k v' Hk Hu' Hlow. exact (next_cursor_low k v' v ltac:(lia) Hlow Hu' Hu). }
    rewrite Z.gtb_ltb. destruct (Z.ltb_spec (2 ^ k1) (2 ^ k0)) as [Hlt|Hge]; cbn [ht_sizemask ht_size mk_ht].
    + apply Z.pow_lt_mono_r_iff in Hlt; [|lia..].
      destruct (scan_two k1 k0 t1 t0 v Hok1 Hok0) as (l & v' & Hrun & Hu' & Hlow & Hin); [lia|done|rewrite Z.min_r in Hgap; [done|apply Z.pow_le_mono_r; lia]|].
      exists k1, l. split; [done|]. split; [apply Z.min_r, Z.pow_le_mono_r; lia|].
      unfold mk_ht in Hrun at 1. cbn [ht_sizemask ht_size] in Hrun.
      split; [|intros e He' Hr; apply Hin; [|by apply Hsel]; apply elem_of_app in He' as [?|?]; apply elem_of_app; tauto].
      transitivity ('(emitted, v, m0) ← Some (l, v', 2 ^ k1 - 1); Some (emitted, rev (u64 (rev (Z.lor v (u64 (Z.lnot m0))) + 1)))).
      { rewrite <-Hrun. by destruct (bucket _ _) as [?|]; [destruct (scan_expansions _ _ _ _ _) as [[? ?]|]|]. }
      cbn [mbind option_bind]. rewrite (Hfin k1 v' ltac:(lia) Hu' Hlow). reflexivity.
    + apply Z.pow_le_mono_r_iff in Hge; [|lia..].
      destruct (scan_two k0 k1 t0 t1 v Hok0 Hok1) as (l & v' & Hrun & Hu' & Hlow & Hin); [lia|done|rewrite Z.min_l in Hgap; [done|apply Z.pow_le_mono_r; lia]|].
      exists k0, l. split; [done|]. split; [apply Z.min_l, Z.pow_le_mono_r; lia|].
      split; [|intros e He' Hr; apply Hin; [|by apply Hsel]; done].
      transitivity ('(emitted, v, m0) ← Some (l, v', 2 ^ k0 - 1); Some (emitted, rev (u64 (rev (Z.lor v (u64 (Z.lnot m0))) + 1)))).
      { rewrite <-Hrun. by destruct (bucket _ _) as [?|]; [destruct (scan_expansions _ _ _ _ _) as [[? ?]|]|]. }
      cbn [mbind option_bind]. rewrite (Hfin k0 v' ltac:(lia) Hu' Hlow). reflexivity.
Qed.

(** No call meets a rehashing whose smaller table is smaller than the table the
    call before it scanned by. *)
Fixpoint no_shrink (prev : Z) (ds : list dict) : Prop :=
  match ds with
  | [] => True
  | d :: ds => (dictIsRehashing d = true -> prev <= small d) /\ no_shrink (small d) ds
  end.

(** The state has an entry for the key. *)
Definition has_key `{Countable K} (key : K) (d : dict) : Prop :=
  exists m : gmap K V, dict_rep hashFunction d m /\ Z.of_nat (size m) < 2 ^ 31 /\ is_Some (m !! key).

Lemma has_key_shape `{Countable K} key d : has_key key d ->
  exists es v, shape d es /\ zlen es < 2 ^ 31 /\ es <> [] /\ (key, v) ∈ es.
Proof.
  intros (m & (es & Hs & Hnd & Hm) & Hb & v & Hv). exists es, v. rewrite <-(zlen_map es m Hnd Hm) in Hb.
  apply (rep_elem m es Hnd Hm) in Hv. split; [done|]. split; [done|]. split; [|done]. intros ->. by apply elem_of_nil in Hv.
Qed.

Lemma scan_run_covers `{Countable K} key ds : forall v prev,
  in_u64 v -> v < Z.max prev 1 -> Forall (has_key key) ds -> no_shrink prev ds ->
  exists l v', scan_run ds v = Some (l, v') /\
    (v' = 0 -> ds <> [] -> rev v <= rev (u64 (hashFunction key)) -> key ∈ l.*1).
Proof.
  induction ds as [|d ds IH]; intros v prev Hu Hv Hk Hns; cbn [scan_run]; [by exists [], v|].
  apply Forall_cons_1 in Hk as [Hd Hk]. destruct Hns as [Hgap Hns].
  destruct (has_key_shape key d Hd) as (es & val & Hs & Hl & Hne & Hin).
  destruct (dictScan_step d es v Hs Hl Hne Hu) as (k & l & Hk31 & Hsm & -> & Hsel).
  { intros Hr. specialize (Hgap Hr). assert (0 < small d); [|lia]. unfold small in *. destruct Hs as [|k0 t it Hok|k0 t0 k1 t1 i it Hok0 Hok1 Hi He];
      [done|done|]. rewrite Hr. cbn. apply Z.min_glb_lt; apply Z.pow_pos_nonneg; (lia || pose proof (tbl_bits _ _ _ Hok0); pose proof (tbl_bits _ _ _ Hok1); lia). }
  cbn [mbind option_bind]. set (q := 2 ^ (64 - k)) in *.
  assert (Hq : 0 < q) by (apply Z.pow_pos_nonneg; lia).
  destruct (next_cursor_spec k v ltac:(lia) Hu) as (Hu' & Hlt & Hrev & Hx). fold q in Hrev, Hx.
  destruct (IH (next_cursor k v) (small d)) as (l' & v' & Hrun & Hcov); [done|lia|done|done|].
  rewrite Hrun. cbn [mbind option_bind]. exists (l ++ l'), v'. split; [done|]. intros Hv' _ Hle.
  set (P := rev (u64 (hashFunction key))) in *. rewrite fmap_app. apply elem_of_app.
  destruct (decide (P / q = rev v / q)) as [E|E].
  { left. apply (list_elem_of_fmap_2 fst l (key, val)). by apply Hsel. }
  right. assert (Hdiv : rev v / q <= P / q) by (apply Z.div_le_mono; lia).
  destruct (next_cursor_spec k (u64 (hashFunction key)) ltac:(lia) (u64_range _)) as (_ & _ & _ & HP). fold q P in HP.
  rewrite Z.mod_small in Hrev by lia. apply Hcov; [done| |].
  - intros ->. cbn in Hrun. injection Hrun as _ <-. rewrite Hv' in Hrev. change (rev 0) with 0 in Hrev. nia.
  - rewrite Hrev. pose proof (Z.mul_div_le P q Hq). nia.
Qed.

Lemma scan_run_same d es k : shape d es -> zlen es < 2 ^ 31 -> es <> [] -> small d = 2 ^ k -> 2 <= k <= 31 -> forall n v j,
  in_u64 v -> v < 2 ^ k -> rev v = j * 2 ^ (64 - k) -> 0 <= j < 2 ^ k ->
  exists l v', scan_run (replicate n d) v = Some (l, v') /\ in_u64 v' /\ v' < 2 ^ k /\
    rev v' = (j + Z.of_nat n) mod 2 ^ k * 2 ^ (64 - k).
Proof.
  intros Hs Hl Hne Hsm Hk n. assert (Hq : 0 < 2 ^ (64 - k)) by (apply Z.pow_pos_nonneg; lia).
  induction n as [|n IH]; intros v j Hu Hv Hr Hj; cbn [replicate scan_run].
  { exists [], v. split; [done|]. split; [done|]. split; [done|]. by rewrite Z.add_0_r, Z.mod_small. }
  destruct (dictScan_step d es v Hs Hl Hne Hu) as (k' & l & Hk' & Hsm' & -> & _); [lia|].
  assert (k' = k) as -> by (apply (Z.pow_inj_r 2); lia). cbn [mbind option_bind].
  destruct (next_cursor_spec k v ltac:(lia) Hu) as (Hu' & Hlt & Hrev & _). rewrite Hr, Z.div_mul in Hrev by lia.
  pose proof (Z.mod_pos_bound (j + 1) (2 ^ k) ltac:(lia)).
  destruct (IH (next_cursor k v) ((j + 1) mod 2 ^ k) Hu' ltac:(lia) Hrev) as (l' & v' & -> & Hu2 & Hv2 & Hr2); [lia|].
  cbn [mbind option_bind]. exists (l ++ l'), v'. split; [done|]. split; [done|]. split; [done|].
  rewrite Hr2. f_equal. rewrite Z.add_mod_idemp_l by lia. f_equal. lia.
Qed.
End ScanSpec.

(** ** Properties *)

Section Theorems.
  Context {K V : Type} `{Countable K} (hashFunction : K -> Z).

Lemma scan_covers_key (ds : list (dict K V)) key :
  Forall (has_key hashFunction key) ds -> no_shrink 0 ds -> ds <> [] ->
  exists l v, scan_run ds 0 = Some (l, v) /\ (v = 0 -> key ∈ l.*1).
Proof.
  intros Hk Hns Hne. destruct (scan_run_covers hashFunction key ds 0 0) as (l & v & Hrun & Hcov); [by split|lia|done|done|].
  exists l, v. split; [done|]. intros Hv. apply Hcov; [done|done|]. change (rev 0) with 0. apply rev_range.
Qed.

(** C36. A scan that starts and ends at cursor 0 returns every key that was in
    the dictionary at each of its calls, although entries come and go and the
    tables grow, or shrink and finish rehashing, between the calls: it is
    enough that no call meets a rehashing towards a table smaller than the one
    it last scanned by. *)
Theorem dictScan_complete (ds : list (dict K V)) key :
  Forall (has_key hashFunction key) ds -> no_shrink 0 ds -> ds <> [] ->
  exists l v, scan_run ds 0 = Some (l, v) /\ (v = 0 -> key ∈ l.*1).
Proof. apply scan_covers_key. Qed.

(** C40. A scan of a dictionary that does not change ends after one call for
    each bucket of its smaller table, not earlier, and returns every key. *)
Theorem dictScan_terminates (d : dict K V) (m : gmap K V) :
  dict_rep hashFunction d m -> Z.of_nat (size m) < 2 ^ 31 -> m <> ∅ ->
  (exists l, scan_run (replicate (Z.to_nat (small d)) d) 0 = Some (l, 0) /\ forall key, is_Some (m !! key) -> key ∈ l.*1) /\
  forall n, 0 < Z.of_nat n < small d -> exists l v, scan_run (replicate n d) 0 = Some (l, v) /\ v <> 0.
Proof.
  intros Hrep Hb Hm. assert (Hrep' := Hrep). destruct Hrep as (es & Hs & Hnd & Hes). assert (Hl := Hb). rewrite <-(zlen_map es m Hnd Hes) in Hl.
  assert (Hne : es <> []) by (intros ->; by subst m).
  destruct (dictScan_step hashFunction d es 0 Hs Hl Hne) as (k & l0 & Hk & Hsm & _ & _); [by split| |].
  { intros Hr. unfold small. rewrite Hr. destruct Hs as [|k0 t it Hok|k0 t0 k1 t1 i it Hok0 Hok1 Hi He]; [done|done|].
    cbn. pose proof (tbl_bits _ _ _ Hok0). pose proof (tbl_bits _ _ _ Hok1). apply Z.min_glb_lt; apply Z.pow_pos_nonneg; lia. }
  assert (Hrun := scan_run_same hashFunction d es k Hs Hl Hne Hsm Hk). assert (0 < 2 ^ k) by (apply Z.pow_pos_nonneg; lia).
  assert (Hq : 0 < 2 ^ (64 - k)) by (apply Z.pow_pos_nonneg; lia). rewrite Hsm.
  specialize (fun n => Hrun n 0 0 ltac:(by split) ltac:(lia) eq_refl ltac:(lia)).
  assert (Hzero : forall v, in_u64 v -> (rev v = 0 <-> v = 0)).
  { intros v Hu. split; [|by intros ->]. intros E. rewrite <-(rev_involutive v Hu), E. done. }
  split.
  - destruct (Hrun (Z.to_nat (2 ^ k))) as (l & v & Hr & Hu & _ & Hrev). rewrite Z2Nat.id, Z.add_0_l, Z.mod_same in Hrev by lia.
    apply Hzero in Hrev as ->; [|done]. exists l. split; [done|]. intros key Hkey.
    destruct (scan_covers_key (replicate (Z.to_nat (2 ^ k)) d) key) as (l' & v' & Hr' & Hin).
    + apply Forall_replicate. by exists m.
    + assert (Hns : forall n prev, prev <= small d -> no_shrink prev (replicate n d)).
      { intros n. induction n as [|n IH]; intros prev Hp; cbn [replicate no_shrink]; [done|]. split; [done|]. apply IH. lia. }
      apply Hns. lia.
    + destruct (Z.to_nat (2 ^ k)) eqn:E; [lia|done].
    + rewrite Hr in Hr'. injection Hr' as <- <-. by apply Hin.
  - intros n Hn. destruct (Hrun n) as (l & v & Hr & Hu & _ & Hrev). exists l, v. split; [done|]. intros ->.
    change (rev 0) with 0 in Hrev. rewrite Z.mod_small in Hrev by lia. nia.
Qed.
End Theorems.

(** ** Instances *)

(** Four states of a scan, one for each bucket of the smaller table: the
    dictionary is first rehashing, then has moved every entry. *)
Definition rehashed_sample : dict Z Z :=
  mkDict (mk_ht 3 [[]; [(1, 10); (9, 90)]; [(2, 20)]; []; []; [(5, 50); (13, 130)]; []; []]) _dictReset (-1) 0.

Lemma rehashed_sample_rep : dict_rep id rehashed_sample sample_map.
Proof.
  exists (concat [[]; [(1, 10); (9, 90)]; [(2, 20)]; []; []; [(5, 50); (13, 130)]; []; []]). split; [|split].
  - apply (shape_one id 3). split; [lia|done|].
    intros i c Hc; repeat (destruct i as [|i]; [injection Hc as <-; repeat constructor|]); done.
  - by apply (bool_decide_unpack _).
  - by vm_compute.
Qed.

Definition sample_scan : list (dict Z Z) := [sample_dict; sample_dict; rehashed_sample; rehashed_sample; rehashed_sample; rehashed_sample].

Lemma dictScan_complete_witness :
  exists l v, scan_run sample_scan 0 = Some (l, v) /\ (v = 0 -> 13 ∈ l.*1).
Proof.
  apply (dictScan_complete id); [|by vm_compute|done]. pose proof sample_rep. pose proof rehashed_sample_rep.
  repeat constructor; (exists sample_map; split; [assumption|]; split; [by vm_compute|by eexists]).
Defined.

Lemma dictScan_terminates_witness :
  (exists l, scan_run (replicate (Z.to_nat (small sample_dict)) sample_dict) 0 = Some (l, 0) /\
     forall key, is_Some (sample_map !! key) -> key ∈ l.*1) /\
  forall n, 0 < Z.of_nat n < small sample_dict -> exists l v, scan_run (replicate n sample_dict) 0 = Some (l, v) /\ v <> 0.
Proof. apply (dictScan_terminates id); [apply sample_rep|by vm_compute|by vm_compute]. Defined.

(** ** A scan across the start of a shrink *)

(** A table of 16 buckets with the keys 4 and 1, and the same dictionary once
    dictResize has started to move it into one of 4 buckets. *)
Definition wide_and_shrinking : option (dict Z Z * dict Z Z) :=
  '(d, _) ← dictExpand dictCreate 16;
  '(d, _) ← dictAdd id Z.eqb 0 true d 4 40;
  '(d, _) ← dictAdd id Z.eqb 0 true d 1 10;
  '(d', _) ← dictResize true d;
  Some (d, d').

(** The scan can miss an element when a shrink starts in its middle.  One
    call on the wide table returns the cursor 8; the calls on the shrinking
    table from there end at cursor 0, and none of them returns the key 4, which
    both tables hold: the expansions of the cursor 8 in the larger table are
    visited in numeric order from 8, so that the bucket 4, which the reversed
    order puts after 8, is never visited. *)
Theorem dictScan_misses :
  exists d d' l1 l2, wide_and_shrinking = Some (d, d') /\
    dictScan d 0 = Some (l1, 8) /\ scan_run (replicate 4 d') 8 = Some (l2, 0) /\
    option_map snd (dictFetchValue id Z.eqb d 4) = Some (Some 40) /\
    option_map snd (dictFetchValue id Z.eqb d' 4) = Some (Some 40) /\ (4 ∉ (l1 ++ l2).*1).
Proof. eexists _, _, _, _. repeat (split; [vm_compute; reflexivity|]). by apply (bool_decide_unpack _). Qed.
