(* ===== verification/Ziplist.v ===== *)
(** ziplist.c: lists of strings and integers in one memory block, walked in both
    directions without pointers.

    The block is a list of bytes and a pointer into it is an offset; memory that
    zrealloc adds is [junk].  [None] is an access outside the block, a panic or a
    failed assertion.  unsigned int is 32 bits wide, size_t 64; the host is
    little-endian, so the intrevNifbe and memrevNifbe macros are the identity. *)

From S2P Require Import Prelude Decimal Util.
#[local] Open Scope Z_scope.

Definition ZIP_END : Z := 255.
Definition ZIP_BIG_PREVLEN : Z := 254.
Definition ZIP_STR_MASK : Z := 0xc0.
Definition ZIP_STR_06B : Z := 0.
Definition ZIP_STR_14B : Z := 64.
Definition ZIP_STR_32B : Z := 128.
Definition ZIP_INT_16B : Z := 0xc0.
Definition ZIP_INT_32B : Z := 0xd0.
Definition ZIP_INT_64B : Z := 0xe0.
Definition ZIP_INT_24B : Z := 0xf0.
Definition ZIP_INT_8B : Z := 0xfe.
Definition ZIP_INT_IMM_MASK : Z := 0x0f.
Definition ZIP_INT_IMM_MIN : Z := 0xf1.
Definition ZIP_INT_IMM_MAX : Z := 0xfd.
Definition UINT16_MAX : Z := 65535.
Definition UCHAR_MAX : Z := 255.
Definition ZIPLIST_HEADER_SIZE : Z := 10.
Definition ZIPLIST_END_SIZE : Z := 1.
Definition ZIPLIST_HEAD : Z := 0.
Definition ZIPLIST_TAIL : Z := 1.

Definition ZIP_IS_STR (enc : Z) : bool := Z.land enc ZIP_STR_MASK <? ZIP_STR_MASK.

Record zlentry := mkEntry {
  prevrawlensize : Z; prevrawlen : Z; lensize : Z; len : Z; headersize : Z; encoding : Z; zp : Z
}.

(** The fields of the header, read and written. *)
Definition get (n : nat) (b : list Z) (off : Z) : option Z := bs ← bread b off (Z.of_nat n); Some (le_decode bs).
Definition put (n : nat) (b : list Z) (off v : Z) : option (list Z) := bwrite b off (le_encode n v).
Definition ZIPLIST_BYTES (zl : list Z) : option Z := get 4 zl 0.
Definition ZIPLIST_TAIL_OFFSET (zl : list Z) : option Z := get 4 zl 4.
Definition ZIPLIST_LENGTH (zl : list Z) : option Z := get 2 zl 8.
Definition set_BYTES (zl : list Z) (v : Z) : option (list Z) := put 4 zl 0 v.
Definition set_TAIL_OFFSET (zl : list Z) (v : Z) : option (list Z) := put 4 zl 4 v.
Definition set_LENGTH (zl : list Z) (v : Z) : option (list Z) := put 2 zl 8 v.
Definition ZIPLIST_ENTRY_END (zl : list Z) : option Z := n ← ZIPLIST_BYTES zl; Some (n - 1).

Definition ZIPLIST_INCR_LENGTH (zl : list Z) (incr : Z) : option (list Z) :=
  n ← ZIPLIST_LENGTH zl;
  if n <? UINT16_MAX then set_LENGTH zl (u16 (n + incr)) else Some zl.

(** ** Entries *)

Definition ZIP_ENTRY_ENCODING (b : list Z) (p : Z) : option Z :=
  c ← bget b p; Some (if c <? ZIP_STR_MASK then Z.land c ZIP_STR_MASK else c).

Definition zipIntSize (enc : Z) : option Z :=
  if enc =? ZIP_INT_8B then Some 1 else
  if enc =? ZIP_INT_16B then Some 2 else
  if enc =? ZIP_INT_24B then Some 3 else
  if enc =? ZIP_INT_32B then Some 4 else
  if enc =? ZIP_INT_64B then Some 8 else
  if (ZIP_INT_IMM_MIN <=? enc) && (enc <=? ZIP_INT_IMM_MAX) then Some 0 else None.

(** The first [len] bytes of [buf]; [zipStoreEntryEncoding] with p == NULL is
    their number. *)
Definition entry_encoding (enc rawlen : Z) : list Z :=
  if ZIP_IS_STR enc then
    if rawlen <=? 0x3f then [Z.lor ZIP_STR_06B rawlen]
    else if rawlen <=? 0x3fff then [Z.lor ZIP_STR_14B (Z.land (Z.shiftr rawlen 8) 0x3f); Z.land rawlen 0xff]
    else [ZIP_STR_32B; Z.land (Z.shiftr rawlen 24) 0xff; Z.land (Z.shiftr rawlen 16) 0xff; Z.land (Z.shiftr rawlen 8) 0xff; Z.land rawlen 0xff]
  else [enc].
Definition zipStoreEntryEncoding_size (enc rawlen : Z) : Z := zlen (entry_encoding enc rawlen).
Definition zipStoreEntryEncoding (b : list Z) (p enc rawlen : Z) : option (Z * list Z) :=
  b ← bwrite b p (entry_encoding enc rawlen); Some (zlen (entry_encoding enc rawlen), b).

(** encoding, lensize and len. *)
Definition ZIP_DECODE_LENGTH (b : list Z) (p : Z) : option (Z * Z * Z) :=
  enc ← ZIP_ENTRY_ENCODING b p;
  if enc <? ZIP_STR_MASK then
    c0 ← bget b p;
    if enc =? ZIP_STR_06B then Some (enc, 1, Z.land c0 0x3f) else
    if enc =? ZIP_STR_14B then c1 ← bget b (p + 1); Some (enc, 2, Z.lor (Z.shiftl (Z.land c0 0x3f) 8) c1) else
    if enc =? ZIP_STR_32B then
      c1 ← bget b (p + 1); c2 ← bget b (p + 2); c3 ← bget b (p + 3); c4 ← bget b (p + 4);
      Some (enc, 5, u32 (Z.lor (Z.lor (Z.lor (Z.shiftl c1 24) (Z.shiftl c2 16)) (Z.shiftl c3 8)) c4))
    else None
  else len ← zipIntSize enc; Some (enc, 1, len).

Definition zipStorePrevEntryLengthLarge (b : list Z) (p len : Z) : option (list Z) :=
  b ← bset b p ZIP_BIG_PREVLEN; bwrite b (p + 1) (le_encode 4 len).

(** With p == NULL, and with a pointer. *)
Definition zipStorePrevEntryLength_size (len : Z) : Z := if len <? ZIP_BIG_PREVLEN then 1 else 5.
Definition zipStorePrevEntryLength (b : list Z) (p len : Z) : option (Z * list Z) :=
  if len <? ZIP_BIG_PREVLEN then b ← bset b p len; Some (1, b)
  else b ← zipStorePrevEntryLengthLarge b p len; Some (5, b).

Definition ZIP_DECODE_PREVLENSIZE (b : list Z) (p : Z) : option Z :=
  c ← bget b p; Some (if c <? ZIP_BIG_PREVLEN then 1 else 5).

(** prevlensize and prevlen. *)
Definition ZIP_DECODE_PREVLEN (b : list Z) (p : Z) : option (Z * Z) :=
  size ← ZIP_DECODE_PREVLENSIZE b p;
  if size =? 1 then c ← bget b p; Some (size, c) else n ← get 4 b (p + 1); Some (size, n).

Definition zipPrevLenByteDiff (b : list Z) (p len : Z) : option Z :=
  size ← ZIP_DECODE_PREVLENSIZE b p; Some (i32 (zipStorePrevEntryLength_size len - size)).

Definition zipRawEntryLength (b : list Z) (p : Z) : option Z :=
  prevlensize ← ZIP_DECODE_PREVLENSIZE b p;
  '(_, lensize, len) ← ZIP_DECODE_LENGTH b (p + prevlensize);
  Some (u32 (prevlensize + lensize + len)).

Definition zipEntry (b : list Z) (p : Z) : option zlentry :=
  '(prevrawlensize, prevrawlen) ← ZIP_DECODE_PREVLEN b p;
  '(enc, lensize, len) ← ZIP_DECODE_LENGTH b (p + prevrawlensize);
  Some (mkEntry prevrawlensize prevrawlen lensize len (prevrawlensize + lensize) enc p).

(** *v and *encoding, if the result is 1. *)
Definition zipTryEncoding (entry : list Z) (entrylen : Z) : option (option (Z * Z)) :=
  if (32 <=? entrylen) || (entrylen =? 0) then Some None else
  r ← string2ll entry entrylen;
  match r with
  | None => Some None
  | Some value =>
      let enc :=
        if (0 <=? value) && (value <=? 12) then ZIP_INT_IMM_MIN + value
        else if (-128 <=? value) && (value <=? 127) then ZIP_INT_8B
        else if (-32768 <=? value) && (value <=? 32767) then ZIP_INT_16B
        else if (-8388608 <=? value) && (value <=? 8388607) then ZIP_INT_24B
        else if (-2147483648 <=? value) && (value <=? 2147483647) then ZIP_INT_32B
        else ZIP_INT_64B in
      Some (Some (value, enc))
  end.

Definition zipSaveInteger (b : list Z) (p value enc : Z) : option (list Z) :=
  if enc =? ZIP_INT_8B then bset b p (u8 value) else
  if enc =? ZIP_INT_16B then bwrite b p (le_encode 2 value) else
  if enc =? ZIP_INT_24B then bwrite b p (drop 1 (le_encode 4 (i32 (Z.shiftl value 8)))) else
  if enc =? ZIP_INT_32B then bwrite b p (le_encode 4 value) else
  if enc =? ZIP_INT_64B then bwrite b p (le_encode 8 value) else
  if (ZIP_INT_IMM_MIN <=? enc) && (enc <=? ZIP_INT_IMM_MAX) then Some b else None.

Definition zipLoadInteger (b : list Z) (p enc : Z) : option Z :=
  if enc =? ZIP_INT_8B then v ← get 1 b p; Some (i8 v) else
  if enc =? ZIP_INT_16B then v ← get 2 b p; Some (i16 v) else
  if enc =? ZIP_INT_32B then v ← get 4 b p; Some (i32 v) else
  if enc =? ZIP_INT_24B then bs ← bread b p 3; Some (Z.shiftr (i32 (le_decode (0 :: bs))) 8) else
  if enc =? ZIP_INT_64B then v ← get 8 b p; Some (i64 v) else
  if (ZIP_INT_IMM_MIN <=? enc) && (enc <=? ZIP_INT_IMM_MAX) then Some (Z.land enc ZIP_INT_IMM_MASK - 1) else None.

(** ** The list *)

Section Ziplist.
  (** The contents of fresh memory. *)
  Context (junk : Z -> Z).

Definition ziplistNew : option (list Z) :=
  let bytes := ZIPLIST_HEADER_SIZE + 1 in
  let zl := zrealloc junk [] bytes in
  zl ← set_BYTES zl bytes;
  zl ← set_TAIL_OFFSET zl ZIPLIST_HEADER_SIZE;
  zl ← set_LENGTH zl 0;
  bset zl (bytes - 1) ZIP_END.

Definition ziplistResize (zl : list Z) (len : Z) : option (list Z) :=
  let zl := zrealloc junk zl len in
  zl ← set_BYTES zl len;
  bset zl (u32 (len - 1)) ZIP_END.

(** The turns of the loop: an entry each, fewer than there are bytes. *)
Fixpoint cascade_loop (fuel : nat) (zl : list Z) (p curlen : Z) : option (list Z) :=
  match fuel with
  | O => None
  | S fuel =>
      c ← bget zl p;
      if c =? ZIP_END then Some zl else
      cur ← zipEntry zl p;
      let rawlen := u32 (headersize cur + len cur) in
      let rawlensize := zipStorePrevEntryLength_size rawlen in
      c ← bget zl (p + rawlen);
      if c =? ZIP_END then Some zl else
      next ← zipEntry zl (p + rawlen);
      if prevrawlen next =? rawlen then Some zl else
      if prevrawlensize next <? rawlensize then
        let offset := p in
        let extra := rawlensize - prevrawlensize next in
        zl ← ziplistResize zl (u32 (curlen + extra));
        let p := offset in
        let np := p + rawlen in
        let noffset := np in
        tail ← ZIPLIST_TAIL_OFFSET zl;
        zl ← (if negb (tail =? np) then set_TAIL_OFFSET zl (u32 (tail + extra)) else Some zl);
        zl ← bmove zl (np + rawlensize) (np + prevrawlensize next) (curlen - noffset - prevrawlensize next - 1);
        '(_, zl) ← zipStorePrevEntryLength zl np rawlen;
        cascade_loop fuel zl (p + rawlen) (curlen + extra)
      else if rawlensize <? prevrawlensize next then zipStorePrevEntryLengthLarge zl (p + rawlen) rawlen
      else '(_, zl) ← zipStorePrevEntryLength zl (p + rawlen) rawlen; Some zl
  end.
Definition __ziplistCascadeUpdate (zl : list Z) (p : Z) : option (list Z) :=
  curlen ← ZIPLIST_BYTES zl;
  cascade_loop (length zl) zl p curlen.

(** The entries from [p] on that are deleted: the pointer behind them and their
    number. *)
Fixpoint delete_loop (fuel : nat) (zl : list Z) (p num i : Z) : option (Z * Z) :=
  match fuel with
  | O => None
  | S fuel =>
      c ← bget zl p;
      if negb (c =? ZIP_END) && (i <? num) then n ← zipRawEntryLength zl p; delete_loop fuel zl (p + n) num (i + 1)
      else Some (p, i)
  end.

Definition __ziplistDelete (zl : list Z) (p num : Z) : option (list Z) :=
  first ← zipEntry zl p;
  '(p, deleted) ← delete_loop (length zl) zl p num 0;
  let totlen := u32 (p - zp first) in
  if 0 <? totlen then
    c ← bget zl p;
    '(zl, nextdiff) ←
      (if negb (c =? ZIP_END) then
         nextdiff ← zipPrevLenByteDiff zl p (prevrawlen first);
         let p := p - nextdiff in
         '(_, zl) ← zipStorePrevEntryLength zl p (prevrawlen first);
         tail_offset ← ZIPLIST_TAIL_OFFSET zl;
         zl ← set_TAIL_OFFSET zl (u32 (tail_offset - totlen));
         tail ← zipEntry zl p;
         c ← bget zl (p + u32 (headersize tail + len tail));
         zl ← (if negb (c =? ZIP_END) then t ← ZIPLIST_TAIL_OFFSET zl; set_TAIL_OFFSET zl (u32 (t + nextdiff)) else Some zl);
         bytes ← ZIPLIST_BYTES zl;
         zl ← bmove zl (zp first) p (bytes - p - 1);
         Some (zl, nextdiff)
       else zl ← set_TAIL_OFFSET zl (u32 (zp first - prevrawlen first)); Some (zl, 0));
    let offset := zp first in
    bytes ← ZIPLIST_BYTES zl;
    zl ← ziplistResize zl (u32 (bytes - totlen + nextdiff));
    zl ← ZIPLIST_INCR_LENGTH zl (u32 (- deleted));
    if negb (nextdiff =? 0) then __ziplistCascadeUpdate zl offset else Some zl
  else Some zl.

(** The prevlen of an entry that is inserted at [p]. *)
Definition insert_prevlen (zl : list Z) (p : Z) : option Z :=
  c ← bget zl p;
  if negb (c =? ZIP_END) then '(_, prevlen) ← ZIP_DECODE_PREVLEN zl p; Some prevlen
  else
    ptail ← ZIPLIST_TAIL_OFFSET zl;
    c ← bget zl ptail;
    if negb (c =? ZIP_END) then zipRawEntryLength zl ptail else Some 0.

(** The memory move, the prevlen of the next entry and the tail offset. *)
Definition insert_gap (zl : list Z) (p curlen reqlen nextdiff : Z) (forcelarge : bool) : option (list Z) :=
  c ← bget zl p;
  if negb (c =? ZIP_END) then
    zl ← bmove zl (p + reqlen) (p - nextdiff) (curlen - p - 1 + nextdiff);
    zl ← (if forcelarge then zipStorePrevEntryLengthLarge zl (p + reqlen) (u32 reqlen)
          else '(_, zl) ← zipStorePrevEntryLength zl (p + reqlen) (u32 reqlen); Some zl);
    t ← ZIPLIST_TAIL_OFFSET zl;
    zl ← set_TAIL_OFFSET zl (u32 (t + reqlen));
    tail ← zipEntry zl (p + reqlen);
    c ← bget zl (p + (reqlen + headersize tail + len tail));
    if negb (c =? ZIP_END) then t ← ZIPLIST_TAIL_OFFSET zl; set_TAIL_OFFSET zl (u32 (t + nextdiff)) else Some zl
  else set_TAIL_OFFSET zl (u32 p).

Definition write_entry (zl : list Z) (p prevlen : Z) (s : list Z) (slen value enc : Z) : option (list Z) :=
  '(n, zl) ← zipStorePrevEntryLength zl p prevlen;
  let p := p + n in
  '(n, zl) ← zipStoreEntryEncoding zl p enc slen;
  let p := p + n in
  if ZIP_IS_STR enc then bs ← bread s 0 slen; bwrite zl p bs else zipSaveInteger zl p value enc.

(** reqlen is a size_t; the functions that take it as an unsigned int truncate it. *)
Definition __ziplistInsert (zl : list Z) (p : Z) (s : list Z) (slen : Z) : option (list Z) :=
  curlen ← ZIPLIST_BYTES zl;
  prevlen ← insert_prevlen zl p;
  r ← zipTryEncoding s slen;
  let '(value, enc) := default (123456789, 0) r in
  reqlen ← (if bool_decide (is_Some r) then zipIntSize enc else Some slen);
  let reqlen := reqlen + zipStorePrevEntryLength_size prevlen in
  let reqlen := reqlen + zipStoreEntryEncoding_size enc slen in
  c ← bget zl p;
  nextdiff ← (if negb (c =? ZIP_END) then zipPrevLenByteDiff zl p (u32 reqlen) else Some 0);
  let forcelarge := (nextdiff =? -4) && (reqlen <? 4) in
  let nextdiff := if forcelarge then 0 else nextdiff in
  zl ← ziplistResize zl (u32 (curlen + reqlen + nextdiff));
  zl ← insert_gap zl p curlen reqlen nextdiff forcelarge;
  zl ← (if negb (nextdiff =? 0) then __ziplistCascadeUpdate zl (p + reqlen) else Some zl);
  zl ← write_entry zl p prevlen s slen value enc;
  ZIPLIST_INCR_LENGTH zl 1.

(** The two lists are different objects, neither is NULL.  The result is the
    larger one, reallocated, and whether that is the first; the caller's pointer to
    the other one becomes NULL. *)
Definition ziplistMerge (first second : list Z) : option (bool * list Z) :=
  first_bytes ← ZIPLIST_BYTES first;
  first_len ← ZIPLIST_LENGTH first;
  second_bytes ← ZIPLIST_BYTES second;
  second_len ← ZIPLIST_LENGTH second;
  let append := second_len <=? first_len in
  let '(target, target_bytes, source, source_bytes) :=
    if append then (first, first_bytes, second, second_bytes) else (second, second_bytes, first, first_bytes) in
  let zlbytes := first_bytes + second_bytes - ZIPLIST_HEADER_SIZE - ZIPLIST_END_SIZE in
  let zllength := first_len + second_len in
  let zllength := if zllength <? UINT16_MAX then zllength else UINT16_MAX in
  first_offset ← ZIPLIST_TAIL_OFFSET first;
  second_offset ← ZIPLIST_TAIL_OFFSET second;
  let target := zrealloc junk target zlbytes in
  target ←
    (if (append : bool) then
       bs ← bread source ZIPLIST_HEADER_SIZE (source_bytes - ZIPLIST_HEADER_SIZE);
       bwrite target (target_bytes - ZIPLIST_END_SIZE) bs
     else
       target ← bmove target (source_bytes - ZIPLIST_END_SIZE) ZIPLIST_HEADER_SIZE (target_bytes - ZIPLIST_HEADER_SIZE);
       bs ← bread source 0 (source_bytes - ZIPLIST_END_SIZE);
       bwrite target 0 bs);
  target ← set_BYTES target (u32 zlbytes);
  target ← set_LENGTH target (u16 zllength);
  target ← set_TAIL_OFFSET target (u32 ((first_bytes - ZIPLIST_END_SIZE) + (second_offset - ZIPLIST_HEADER_SIZE)));
  target ← __ziplistCascadeUpdate target first_offset;
  Some (append, target).

Definition ziplistPush (zl s : list Z) (slen where_ : Z) : option (list Z) :=
  p ← (if where_ =? ZIPLIST_HEAD then Some ZIPLIST_HEADER_SIZE else ZIPLIST_ENTRY_END zl);
  __ziplistInsert zl p s slen.

(** The loops of ziplistIndex: the pointer and the index as they are at exit. *)
Fixpoint index_back (fuel : nat) (zl : list Z) (p prevlen index : Z) : option (Z * Z) :=
  match fuel with
  | O => None
  | S fuel =>
      if negb (0 <? prevlen) then Some (p, index) else
      if index =? 0 then Some (p, i32 (index - 1)) else
      let p := p - prevlen in
      '(_, prevlen) ← ZIP_DECODE_PREVLEN zl p;
      index_back fuel zl p prevlen (i32 (index - 1))
  end.
Fixpoint index_forth (fuel : nat) (zl : list Z) (p index : Z) : option (Z * Z) :=
  match fuel with
  | O => None
  | S fuel =>
      c ← bget zl p;
      if c =? ZIP_END then Some (p, index) else
      if index =? 0 then Some (p, i32 (index - 1)) else
      n ← zipRawEntryLength zl p;
      index_forth fuel zl (p + n) (i32 (index - 1))
  end.
(** The inner [None] is NULL. *)
Definition ziplistIndex (zl : list Z) (index : Z) : option (option Z) :=
  '(p, index) ←
    (if index <? 0 then
       let index := i32 (i32 (- index) - 1) in
       p ← ZIPLIST_TAIL_OFFSET zl;
       c ← bget zl p;
       if negb (c =? ZIP_END) then
         '(_, prevlen) ← ZIP_DECODE_PREVLEN zl p;
         index_back (length zl) zl p prevlen index
       else Some (p, index)
     else index_forth (length zl) zl ZIPLIST_HEADER_SIZE index);
  c ← bget zl p;
  Some (if (c =? ZIP_END) || (0 <? index) then None else Some p).

Definition ziplistNext (zl : list Z) (p : Z) : option (option Z) :=
  c ← bget zl p;
  if c =? ZIP_END then Some None else
  n ← zipRawEntryLength zl p;
  c ← bget zl (p + n);
  Some (if c =? ZIP_END then None else Some (p + n)).

Definition ziplistPrev (zl : list Z) (p : Z) : option (option Z) :=
  c ← bget zl p;
  if c =? ZIP_END then
    p ← ZIPLIST_TAIL_OFFSET zl;
    c ← bget zl p;
    Some (if c =? ZIP_END then None else Some p)
  else if p =? ZIPLIST_HEADER_SIZE then Some None
  else
    '(_, prevlen) ← ZIP_DECODE_PREVLEN zl p;
    if 0 <? prevlen then Some (Some (p - prevlen)) else None.

(** *sstr, as an offset, with *slen, or *sval; both pointers are given. *)
Inductive zget := GStr (sstr slen : Z) | GInt (sval : Z).
(** The inner [None] is the result 0; a NULL [p] is the outer one of [p]. *)
Definition ziplistGet (zl : list Z) (p : option Z) : option (option zget) :=
  match p with
  | None => Some None
  | Some p =>
      c ← bget zl p;
      if c =? ZIP_END then Some None else
      entry ← zipEntry zl p;
      if ZIP_IS_STR (encoding entry) then Some (Some (GStr (p + headersize entry) (len entry)))
      else v ← zipLoadInteger zl (p + headersize entry) (encoding entry); Some (Some (GInt v))
  end.

Definition ziplistInsert (zl : list Z) (p : Z) (s : list Z) (slen : Z) : option (list Z) := __ziplistInsert zl p s slen.

(** The list and *p. *)
Definition ziplistDelete (zl : list Z) (p : Z) : option (list Z * Z) :=
  let offset := p in
  zl ← __ziplistDelete zl p 1;
  Some (zl, offset).

Definition ziplistDeleteRange (zl : list Z) (index num : Z) : option (list Z) :=
  p ← ziplistIndex zl index;
  match p with None => Some zl | Some p => __ziplistDelete zl p num end.

(** memcmp(a,b,n) == 0 *)
Definition same_bytes (a : list Z) (p : Z) (b : list Z) (q n : Z) : option bool :=
  x ← bread a p n; y ← bread b q n; Some (bool_decide (x = y)).

Definition ziplistCompare (zl : list Z) (p : Z) (sstr : list Z) (slen : Z) : option bool :=
  c ← bget zl p;
  if c =? ZIP_END then Some false else
  entry ← zipEntry zl p;
  if ZIP_IS_STR (encoding entry) then
    if len entry =? slen then same_bytes zl (p + headersize entry) sstr 0 slen else Some false
  else
    r ← zipTryEncoding sstr slen;
    match r with
    | Some (sval, _) => zval ← zipLoadInteger zl (p + headersize entry) (encoding entry); Some (zval =? sval)
    | None => Some false
    end.

(** The comparison of ziplistFind with the entry whose data are at [q]: the
    result, vll and vencoding. *)
Definition find_here (zl : list Z) (q enc len : Z) (vstr : list Z) (vlen vll vencoding : Z) : option (bool * Z * Z) :=
  if ZIP_IS_STR enc then
    if len =? vlen then same ← same_bytes zl q vstr 0 vlen; Some (same, vll, vencoding) else Some (false, vll, vencoding)
  else
    '(vll, vencoding) ←
      (if vencoding =? 0 then r ← zipTryEncoding vstr vlen; Some (default (vll, UCHAR_MAX) r) else Some (vll, vencoding));
    if vencoding =? 0 then None else
    if negb (vencoding =? UCHAR_MAX) then ll ← zipLoadInteger zl q enc; Some (ll =? vll, vll, vencoding)
    else Some (false, vll, vencoding).
Fixpoint find_loop (fuel : nat) (zl : list Z) (p : Z) (vstr : list Z) (vlen skip skipcnt vll vencoding : Z) : option (option Z) :=
  match fuel with
  | O => None
  | S fuel =>
      c ← bget zl p;
      if c =? ZIP_END then Some None else
      prevlensize ← ZIP_DECODE_PREVLENSIZE zl p;
      '(enc, lensize, len) ← ZIP_DECODE_LENGTH zl (p + prevlensize);
      let q := p + prevlensize + lensize in
      if skipcnt =? 0 then
        '(found, vll, vencoding) ← find_here zl q enc len vstr vlen vll vencoding;
        if (found : bool) then Some (Some p)
        else find_loop fuel zl (q + len) vstr vlen skip (i32 skip) vll vencoding
      else find_loop fuel zl (q + len) vstr vlen skip (i32 (skipcnt - 1)) vll vencoding
  end.
Definition ziplistFind (zl : list Z) (p : Z) (vstr : list Z) (vlen skip : Z) : option (option Z) :=
  find_loop (S (length zl)) zl p vstr vlen skip 0 0 0.

Fixpoint len_loop (fuel : nat) (zl : list Z) (p n : Z) : option Z :=
  match fuel with
  | O => None
  | S fuel =>
      c ← bget zl p;
      if c =? ZIP_END then Some n else m ← zipRawEntryLength zl p; len_loop fuel zl (p + m) (u32 (n + 1))
  end.
(** The length, and the list, in which it may be stored. *)
Definition ziplistLen (zl : list Z) : option (Z * list Z) :=
  n ← ZIPLIST_LENGTH zl;
  if n <? UINT16_MAX then Some (n, zl) else
  n ← len_loop (length zl) zl ZIPLIST_HEADER_SIZE 0;
  zl ← (if n <? UINT16_MAX then set_LENGTH zl n else Some zl);
  Some (n, zl).

Definition ziplistBlobLen (zl : list Z) : option Z := ZIPLIST_BYTES zl.
End Ziplist.

(** ** Examples *)

(** The list of the comment at the top of ziplist.c, and what it says of it. *)
Definition two_and_five : list Z := [15; 0; 0; 0; 12; 0; 0; 0; 2; 0; 0; 243; 2; 246; 255].
Example doc_example : (zl ← ziplistNew (fun _ => 165); zl ← ziplistPush (fun _ => 165) zl (str "2") 1 ZIPLIST_TAIL; ziplistPush (fun _ => 165) zl (str "5") 1 ZIPLIST_TAIL) = Some two_and_five.
Proof. by vm_compute. Qed.
Example doc_example_hello : drop 14 <$> ziplistPush (fun _ => 165) two_and_five (str "Hello World") 11 ZIPLIST_TAIL = Some ([2; 11] ++ str "Hello World" ++ [255]).
Proof. by vm_compute. Qed.
(** The comment says that a length of 254 takes one byte; it takes five, the first
    of which is 254. *)
Example prevlen_254 : zipStorePrevEntryLength (replicate 5 0) 0 254 = Some (5, [254; 254; 0; 0; 0]).
Proof. by vm_compute. Qed.
(** Merging with an empty second list leaves the offset of the tail at the end of
    the list, where the next push takes the length of the entry before it from. *)
Definition merge_empty : option (list Z) :=
  zl ← ziplistNew (fun _ => 165); '(_, zl) ← ziplistMerge (fun _ => 165) two_and_five zl; ziplistPush (fun _ => 165) zl (str "7") 1 ZIPLIST_TAIL.
Example merge_empty_ex : drop 10 <$> merge_empty = Some [0; 243; 2; 246; 0; 248; 255].
Proof. by vm_compute. Qed.
