(* ===== verification/ZipRep.v ===== *)
(** What the bytes of a ziplist stand for: entries laid out one after the other,
    each with the length of the one before it, and that the macros and functions
    of Ziplist that read an entry decode it. *)

From S2P Require Import Prelude Decimal Util Ziplist.
#[local] Open Scope Z_scope.

(** A value: a string, or an integer with its encoding.  An entry: whether the
    length of the one before it takes five bytes although it need not, and its
    value. *)
Inductive zval := ZStr (c : list Z) | ZInt (enc v : Z).
Abbreviation ent := (bool * zval)%type.

Definition int_bytes (enc v : Z) : list Z :=
  if enc =? ZIP_INT_8B then le_encode 1 v else
  if enc =? ZIP_INT_16B then le_encode 2 v else
  if enc =? ZIP_INT_24B then le_encode 3 v else
  if enc =? ZIP_INT_32B then le_encode 4 v else
  if enc =? ZIP_INT_64B then le_encode 8 v else [].

(** The integers of an encoding. *)
Definition int_ok (enc v : Z) : Prop :=
  enc = ZIP_INT_8B /\ -128 <= v < 128 \/
  enc = ZIP_INT_16B /\ -32768 <= v < 32768 \/
  enc = ZIP_INT_24B /\ -8388608 <= v < 8388608 \/
  enc = ZIP_INT_32B /\ -2147483648 <= v < 2147483648 \/
  enc = ZIP_INT_64B /\ in_i64 v \/
  ZIP_INT_IMM_MIN <= enc <= ZIP_INT_IMM_MAX /\ v = enc - ZIP_INT_IMM_MIN.

Definition val_ok (z : zval) : Prop :=
  match z with ZStr c => bytes_ok c /\ zlen c < 2 ^ 32 | ZInt enc v => int_ok enc v end.
Definition is_str (z : zval) : bool := match z with ZStr _ => true | ZInt _ _ => false end.

(** The encoding as zipEntry returns it, the bytes of the encoding and of the data. *)
Definition val_enc (z : zval) : Z :=
  match z with
  | ZStr c => if zlen c <=? 0x3f then ZIP_STR_06B else if zlen c <=? 0x3fff then ZIP_STR_14B else ZIP_STR_32B
  | ZInt enc _ => enc
  end.
Definition header (z : zval) : list Z := match z with ZStr c => entry_encoding 0 (zlen c) | ZInt enc _ => [enc] end.
Definition data (z : zval) : list Z := match z with ZStr c => c | ZInt enc v => int_bytes enc v end.

Definition prev_bytes (big : bool) (prev : Z) : list Z := if big then ZIP_BIG_PREVLEN :: le_encode 4 prev else [prev].
Definition psize (big : bool) : Z := if big then 5 else 1.
Definition value_size (z : zval) : Z := zlen (header z) + zlen (data z).
Definition rawlen (e : ent) : Z := psize e.1 + value_size e.2.
Definition ebytes (prev : Z) (e : ent) : list Z := prev_bytes e.1 prev ++ header e.2 ++ data e.2.

Fixpoint lay (prev : Z) (es : list ent) : list Z :=
  match es with [] => [] | e :: es => ebytes prev e ++ lay (rawlen e) es end.

(** The length before an entry fits its field. *)
Definition prev_fits (big : bool) (prev : Z) : Prop := 0 <= prev < 2 ^ 32 /\ (big = false -> prev < ZIP_BIG_PREVLEN).
Fixpoint fits (prev : Z) (es : list ent) : Prop :=
  match es with [] => True | e :: es => prev_fits e.1 prev /\ val_ok e.2 /\ fits (rawlen e) es end.

(** The bytes [l] are at [p]. *)
Definition at_ (b : list Z) (p : Z) (l : list Z) : Prop := exists pre post, b = pre ++ l ++ post /\ p = zlen pre.

Lemma at_app b p l1 l2 : at_ b p (l1 ++ l2) -> at_ b p l1 /\ at_ b (p + zlen l1) l2.
Proof.
  intros (pre & post & -> & ->). split; [exists pre, (l2 ++ post)|exists (pre ++ l1), post].
  - by rewrite <-!app_assoc.
  - rewrite <-!app_assoc, length_app. split; [done|lia].
Qed.
Lemma at_head b p x l : at_ b p (x :: l) -> bget b p = Some x.
Proof. intros (pre & post & -> & ->). apply bget_mid. Qed.
Lemma at_cons b p x l : at_ b p (x :: l) -> bget b p = Some x /\ at_ b (p + 1) l.
Proof. intros H. split; [by eapply at_head|]. by apply (at_app b p [x] l) in H as [_ H]. Qed.
Lemma at_read b p l n : at_ b p l -> n = zlen l -> bread b p n = Some l.
Proof. intros (pre & post & -> & ->) ->. by apply bread_app. Qed.
Lemma at_get b p n v : at_ b p (le_encode n v) -> get n b p = Some (v mod 2 ^ (8 * Z.of_nat n)).
Proof.
  intros H. unfold get. rewrite (at_read b p _ (Z.of_nat n) H) by (by rewrite length_le_encode). cbn. by rewrite le_decode_encode.
Qed.
Lemma at_mid pre l post p : p = zlen pre -> at_ (pre ++ l ++ post) p l.
Proof. intros ->. by exists pre, post. Qed.
Lemma at_tail b p l : at_ b p l -> zlen b = p + zlen l -> exists pre, b = pre ++ l /\ p = zlen pre.
Proof.
  intros (pre & post & -> & ->) Hl. rewrite !length_app in Hl. assert (post = []) as -> by (destruct post; [done|cbn in Hl; lia]).
  exists pre. by rewrite app_nil_r.
Qed.

(** ** Bits of the encodings *)

Lemma str_byte c : 0 <= c < 192 -> Z.land c 0xC0 = c / 64 * 64 /\ Z.land c 0x3F = c mod 64.
Proof.
  intros Hc. assert (H : forallb (fun c => (Z.land c 0xC0 =? c / 64 * 64) && (Z.land c 0x3F =? c mod 64)) (seqZ 0 192) = true) by by vm_compute.
  apply (forall_below 192 _ H) in Hc. by rewrite andb_true_iff, !Z.eqb_eq in Hc.
Qed.
Lemma int_byte enc v : int_ok enc v -> ZIP_STR_MASK <= enc < 255 /\ ZIP_IS_STR enc = false.
Proof.
  intros H. assert (Hr : 192 <= enc < 255) by (unfold int_ok, ZIP_INT_8B, ZIP_INT_16B, ZIP_INT_24B, ZIP_INT_32B, ZIP_INT_64B, ZIP_INT_IMM_MIN, ZIP_INT_IMM_MAX in H; lia).
  split; [done|]. assert (Hb : forallb (fun i => negb (ZIP_IS_STR (192 + i))) (seqZ 0 63) = true) by by vm_compute.
  assert (Hn := forall_below 63 _ Hb (enc - 192) ltac:(lia)). apply negb_true_iff in Hn. by replace (192 + (enc - 192)) with enc in Hn by lia.
Qed.
(** An unsigned number in big endian order. *)
Lemma lor_be4 a b c d : 0 <= a < 256 -> 0 <= b < 256 -> 0 <= c < 256 -> 0 <= d < 256 ->
  Z.lor (Z.lor (Z.lor (Z.shiftl a 24) (Z.shiftl b 16)) (Z.shiftl c 8)) d = ((a * 256 + b) * 256 + c) * 256 + d.
Proof.
  intros Ha Hb Hc Hd. assert (H : forall x y, 0 <= y < 256 -> Z.lor (Z.shiftl x 8) y = x * 256 + y).
  { intros x y Hy. rewrite Z.lor_comm, lor_add by lia. lia. }
  replace (Z.shiftl a 24) with (Z.shiftl (Z.shiftl a 8) 16) by (by rewrite Z.shiftl_shiftl). rewrite <-Z.shiftl_lor, H by done.
  replace 16 with (8 + 8) by lia. rewrite <-Z.shiftl_shiftl, <-Z.shiftl_lor, H by lia. by rewrite H.
Qed.
Lemma byte_part n k : 0 <= k -> Z.land (Z.shiftr n k) 0xff = (n / 2 ^ k) mod 256.
Proof. intros Hk. rewrite (Z.land_ones _ 8) by lia. by rewrite Z.shiftr_div_pow2. Qed.

(** ** Decoding *)

Lemma entry_encoding_cases n : 0 <= n < 2 ^ 32 ->
  (n <= 0x3f /\ entry_encoding 0 n = [n]) \/
  (0x3f < n <= 0x3fff /\ entry_encoding 0 n = [64 + n / 256; n mod 256]) \/
  (0x3fff < n /\ entry_encoding 0 n = [128; n / 2 ^ 24; (n / 2 ^ 16) mod 256; (n / 2 ^ 8) mod 256; n mod 256]).
Proof.
  intros Hn. unfold entry_encoding. change (ZIP_IS_STR 0) with true. cbv iota.
  destruct (Z.leb_spec n 0x3f); [by left|right]. destruct (Z.leb_spec n 0x3fff); [left|right; split; [done|]].
  - split; [lia|]. change 0x3f with (Z.ones 6). change 0xff with (Z.ones 8). rewrite !Z.land_ones, Z.shiftr_div_pow2 by lia. change (2 ^ 6) with 64. change (2 ^ 8) with 256.
    do 2 f_equal. rewrite Z.mod_small by dlia. unfold ZIP_STR_14B. change 64 with (Z.shiftl 1 6) at 1. rewrite Z.lor_comm, lor_add by dlia. lia.
  - rewrite !byte_part by lia. change 0xff with (Z.ones 8). rewrite Z.land_ones by lia. do 2 f_equal. apply Z.mod_small. pow_consts. dlia.
Qed.

Lemma int_cases enc v (P : Prop) : int_ok enc v ->
  (enc = ZIP_INT_8B -> -128 <= v < 128 -> P) -> (enc = ZIP_INT_16B -> -32768 <= v < 32768 -> P) -> (enc = ZIP_INT_24B -> -8388608 <= v < 8388608 -> P) ->
  (enc = ZIP_INT_32B -> -2147483648 <= v < 2147483648 -> P) -> (enc = ZIP_INT_64B -> in_i64 v -> P) ->
  (enc = ZIP_INT_IMM_MIN + v -> 0 <= v <= 12 -> P) -> P.
Proof.
  intros [[? ?]|[[? ?]|[[? ?]|[[? ?]|[[? ?]|[Hr ->]]]]]] H1 H2 H3 H4 H5 H6; [by apply H1|by apply H2|by apply H3|by apply H4|by apply H5|].
  unfold ZIP_INT_IMM_MIN, ZIP_INT_IMM_MAX in *. apply H6; lia.
Qed.

(** An immediate integer is none of the others. *)
Lemma imm_tests v : 0 <= v <= 12 -> let enc := ZIP_INT_IMM_MIN + v in
  (enc =? ZIP_INT_8B) = false /\ (enc =? ZIP_INT_16B) = false /\ (enc =? ZIP_INT_24B) = false /\ (enc =? ZIP_INT_32B) = false /\ (enc =? ZIP_INT_64B) = false /\
  (ZIP_INT_IMM_MIN <=? enc) && (enc <=? ZIP_INT_IMM_MAX) = true.
Proof.
  unfold ZIP_INT_8B, ZIP_INT_16B, ZIP_INT_24B, ZIP_INT_32B, ZIP_INT_64B, ZIP_INT_IMM_MIN, ZIP_INT_IMM_MAX. intros Hv. rewrite andb_true_iff, !Z.eqb_neq, !Z.leb_le. lia.
Qed.

Lemma zipIntSize_data enc v : int_ok enc v -> zipIntSize enc = Some (zlen (int_bytes enc v)).
Proof.
  intros H. apply (int_cases enc v _ H); intros -> Hv; try done. destruct (imm_tests v Hv) as (E1 & E2 & E3 & E4 & E5 & E6).
  unfold zipIntSize, int_bytes. by rewrite E1, E2, E3, E4, E5, E6.
Qed.

Lemma psize_pos big : 1 <= psize big <= 5.
Proof. by destruct big. Qed.
Lemma zlen_prev_bytes big prev : zlen (prev_bytes big prev) = psize big.
Proof. by destruct big. Qed.
Lemma decode_prevlensize b p big prev : at_ b p (prev_bytes big prev) -> prev_fits big prev -> ZIP_DECODE_PREVLENSIZE b p = Some (psize big).
Proof.
  intros H [Hp Hs]. unfold ZIP_DECODE_PREVLENSIZE. destruct big; cbn in H; apply at_head in H; rewrite H; cbn [mbind option_bind]; [done|].
  by ztrue (prev <? ZIP_BIG_PREVLEN).
Qed.
Lemma decode_prevlen b p big prev : at_ b p (prev_bytes big prev) -> prev_fits big prev -> ZIP_DECODE_PREVLEN b p = Some (psize big, prev).
Proof.
  intros H Hp. unfold ZIP_DECODE_PREVLEN. rewrite (decode_prevlensize b p big prev H Hp). cbn [mbind option_bind]. destruct big; cbn [prev_bytes psize] in *.
  - apply at_cons in H as [_ H]. cbn [Z.eqb]. rewrite (at_get b _ 4 prev H). cbn. rewrite Z.mod_small by (destruct Hp as [Hp _]; exact Hp). done.
  - apply at_head in H. cbn. by rewrite H.
Qed.

(** The bytes of the header are the encoding, its size and the length. *)
Lemma decode_header b p z : at_ b p (header z) -> val_ok z -> ZIP_DECODE_LENGTH b p = Some (val_enc z, zlen (header z), zlen (data z)).
Proof.
  intros H Hok. unfold ZIP_DECODE_LENGTH, ZIP_ENTRY_ENCODING. destruct z as [c|enc v].
  - destruct Hok as [_ Hl]. cbn [header data val_enc] in *. set (n := zlen c) in *.
    destruct (entry_encoding_cases n) as [[Hn E]|[[Hn E]|[Hn E]]]; [lia|..]; rewrite E in *; apply at_cons in H as [H0 H]; rewrite H0; cbn [mbind option_bind].
    + destruct (str_byte n) as [E1 E2]; [lia|]. unfold ZIP_STR_MASK. ztrue (n <? 192). rewrite E1, Z.div_small by lia. cbn. rewrite E2, Z.mod_small by lia. by ztrue (n <=? 63).
    + apply at_cons in H as [H1 _]. destruct (str_byte (64 + n / 256)) as [E1 E2]; [dlia|]. unfold ZIP_STR_MASK. ztrue (64 + n / 256 <? 192).
      rewrite E1. replace ((64 + n / 256) / 64 * 64) with 64 by dlia. cbn -[Z.shiftl]. rewrite H1. cbn -[Z.shiftl]. rewrite E2. zfalse (n <=? 63). ztrue (n <=? 16383). do 2 f_equal.
      rewrite Z.lor_comm, lor_add by dlia. dlia.
    + apply at_cons in H as [H1 H]. apply at_cons in H as [H2 H]. apply at_cons in H as [H3 H]. apply at_cons in H as [H4 _].
      replace (p + 1 + 1) with (p + 2) in * by lia. replace (p + 2 + 1) with (p + 3) in * by lia. replace (p + 3 + 1) with (p + 4) in * by lia.
      cbn -[Z.shiftl]. rewrite H1. cbn -[Z.shiftl]. rewrite H2. cbn -[Z.shiftl]. rewrite H3. cbn -[Z.shiftl]. rewrite H4. cbn -[Z.shiftl].
      zfalse (n <=? 63). zfalse (n <=? 16383). rewrite lor_be4 by dlia. rewrite u32_small by dlia. do 2 f_equal. dlia.
  - destruct (int_byte enc v Hok) as [He _]. cbn [header data val_enc] in *. apply at_head in H. rewrite H. cbn [mbind option_bind]. zfalse (enc <? ZIP_STR_MASK). cbn [mbind option_bind].
    zfalse (enc <? ZIP_STR_MASK). by rewrite (zipIntSize_data enc v Hok).
Qed.

Lemma zipEntry_spec b p prev e : at_ b p (ebytes prev e) -> prev_fits e.1 prev -> val_ok e.2 ->
  zipEntry b p = Some (mkEntry (psize e.1) prev (zlen (header e.2)) (zlen (data e.2)) (psize e.1 + zlen (header e.2)) (val_enc e.2) p).
Proof.
  intros H Hp Hv. unfold ebytes in H. apply at_app in H as [Hpb H]. apply at_app in H as [Hh _].
  unfold zipEntry. rewrite (decode_prevlen b p e.1 prev Hpb Hp). cbn [mbind option_bind]. rewrite zlen_prev_bytes in Hh. by rewrite (decode_header b _ e.2 Hh Hv).
Qed.

Lemma zipRawEntryLength_spec b p prev e : at_ b p (ebytes prev e) -> prev_fits e.1 prev -> val_ok e.2 -> rawlen e < 2 ^ 32 ->
  zipRawEntryLength b p = Some (rawlen e).
Proof.
  intros H Hp Hv Hr. unfold ebytes in H. apply at_app in H as [Hpb H]. apply at_app in H as [Hh _]. rewrite zlen_prev_bytes in Hh.
  unfold zipRawEntryLength. rewrite (decode_prevlensize b p e.1 prev Hpb Hp). cbn [mbind option_bind]. rewrite (decode_header b _ e.2 Hh Hv). cbn [mbind option_bind].
  unfold rawlen, value_size in *. pose proof (psize_pos e.1). rewrite u32_small by lia. f_equal. lia.
Qed.

(** The data of an entry. *)
Lemma at_data b p prev e : at_ b p (ebytes prev e) -> at_ b (p + (psize e.1 + zlen (header e.2))) (data e.2).
Proof.
  intros H. unfold ebytes in H. apply at_app in H as [_ H]. apply at_app in H as [_ H]. rewrite zlen_prev_bytes in H. by replace (p + (psize e.1 + zlen (header e.2))) with (p + psize e.1 + zlen (header e.2)) by lia.
Qed.
Lemma zipLoadInteger_spec b p enc v : at_ b p (int_bytes enc v) -> int_ok enc v -> zipLoadInteger b p enc = Some v.
Proof.
  intros H Hok. unfold zipLoadInteger. apply (int_cases enc v _ Hok); intros -> Hv.
  1: cbn -[get]; rewrite (at_get b p 1 v H). 2: cbn -[get]; rewrite (at_get b p 2 v H). 4: cbn -[get]; rewrite (at_get b p 4 v H). 5: cbn -[get]; rewrite (at_get b p 8 v H).
  1,2,4,5: cbn [mbind option_bind]; pow_consts; f_equal; mlia.
  - cbn -[bread]. change (at_ b p (le_encode 3 v)) in H. rewrite (at_read b p _ 3 H) by done. cbn [mbind option_bind]. f_equal.
    change (le_decode (0 :: le_encode 3 v)) with (256 * le_decode (le_encode 3 v)). rewrite le_decode_encode. rewrite Z.shiftr_div_pow2 by lia. cbn. mlia.
  - destruct (imm_tests v Hv) as (-> & -> & -> & -> & -> & ->). f_equal. assert (Hb : forallb (fun i => Z.land (ZIP_INT_IMM_MIN + i) ZIP_INT_IMM_MASK - 1 =? i) (seqZ 0 13) = true) by by vm_compute.
    apply Z.eqb_eq, (forall_below 13 _ Hb v). lia.
Qed.

(** ** The layout of a list *)

Fixpoint sizes (es : list ent) : Z := match es with [] => 0 | e :: es => rawlen e + sizes es end.
(** The length of the last entry, [prev] when there is none. *)
Fixpoint last_len (prev : Z) (es : list ent) : Z := match es with [] => prev | e :: es => last_len (rawlen e) es end.
(** Where the last entry is, from the first. *)
Fixpoint tail_off (es : list ent) : Z := match es with [] => 0 | e :: es => match es with [] => 0 | _ => rawlen e + tail_off es end end.

Lemma header_size z : 1 <= zlen (header z) <= 5.
Proof. destruct z as [c|enc v]; [|done]. unfold header, entry_encoding. change (ZIP_IS_STR 0) with true. cbv iota. by repeat destruct (_ <=? _). Qed.
Lemma value_size_pos z : 1 <= value_size z.
Proof. unfold value_size. pose proof (header_size z). lia. Qed.
Lemma rawlen_pos e : 2 <= rawlen e.
Proof. unfold rawlen. pose proof (value_size_pos e.2). pose proof (psize_pos e.1). lia. Qed.
Lemma zlen_ebytes prev e : zlen (ebytes prev e) = rawlen e.
Proof. unfold ebytes, rawlen, value_size. pose proof (zlen_prev_bytes e.1 prev). rewrite !length_app. lia. Qed.
Lemma zlen_lay prev es : zlen (lay prev es) = sizes es.
Proof. revert prev. induction es as [|e es IH]; intros prev; [done|]. cbn [lay sizes]. rewrite length_app, Nat2Z.inj_add, zlen_ebytes, IH. done. Qed.
Lemma sizes_nonneg es : 0 <= sizes es.
Proof. induction es as [|e es IH]; cbn; [done|]. pose proof (rawlen_pos e). lia. Qed.
Lemma sizes_app es1 es2 : sizes (es1 ++ es2) = sizes es1 + sizes es2.
Proof. induction es1 as [|e es1 IH]; cbn; [done|]. rewrite IH. lia. Qed.
Lemma sizes_length es : 2 * zlen es <= sizes es.
Proof. induction es as [|e es IH]; cbn [length sizes]; [done|]. pose proof (rawlen_pos e). lia. Qed.
Lemma lay_app prev es1 es2 : lay prev (es1 ++ es2) = lay prev es1 ++ lay (last_len prev es1) es2.
Proof. revert prev. induction es1 as [|e es1 IH]; intros prev; [done|]. cbn [lay last_len app]. by rewrite IH, app_assoc. Qed.
Lemma fits_app prev es1 es2 : fits prev (es1 ++ es2) <-> fits prev es1 /\ fits (last_len prev es1) es2.
Proof. revert prev. induction es1 as [|e es1 IH]; intros prev; cbn [fits last_len app]; [tauto|]. rewrite IH. tauto. Qed.
Lemma last_len_app prev es1 es2 : last_len prev (es1 ++ es2) = last_len (last_len prev es1) es2.
Proof. revert prev. induction es1 as [|e es1 IH]; intros prev; [done|]. cbn. apply IH. Qed.
Lemma last_len_snoc prev es e : last_len prev (es ++ [e]) = rawlen e.
Proof. by rewrite last_len_app. Qed.
Lemma tail_off_app es1 es2 : es2 <> [] -> tail_off (es1 ++ es2) = sizes es1 + tail_off es2.
Proof.
  intros H. induction es1 as [|e es1 IH]; [done|]. cbn [tail_off sizes app]. destruct (es1 ++ es2) eqn:E; [by apply app_eq_nil in E as [_ ?]|]. rewrite IH. lia.
Qed.
Lemma tail_off_snoc es e : tail_off (es ++ [e]) = sizes es.
Proof. rewrite tail_off_app by done. cbn. lia. Qed.
Lemma tail_off_le es : 0 <= tail_off es <= sizes es.
Proof. induction es as [|e es IH]; cbn; [done|]. pose proof (rawlen_pos e). pose proof (sizes_nonneg es). destruct es; [cbn in *; lia|lia]. Qed.

(** No entry begins with the byte that ends a list. *)
Lemma entry_not_end b p prev e : at_ b p (ebytes prev e) -> prev_fits e.1 prev -> exists c, bget b p = Some c /\ (c =? ZIP_END) = false.
Proof.
  intros H [Hp Hf]. unfold ebytes in H. apply at_app in H as [H _]. destruct e as [[] z]; cbn [fst prev_bytes] in *; apply at_head in H.
  - by exists ZIP_BIG_PREVLEN.
  - exists prev. split; [done|]. apply Z.eqb_neq. specialize (Hf eq_refl). unfold ZIP_BIG_PREVLEN, ZIP_END in *. lia.
Qed.

(** ** The header *)

Definition head (b t n : Z) : list Z := le_encode 4 b ++ le_encode 4 t ++ le_encode 2 n.

Lemma zlen_head b t n : zlen (head b t n) = 10.
Proof. done. Qed.
Lemma head_bytes b t n l : 0 <= b < 2 ^ 32 -> ZIPLIST_BYTES (head b t n ++ l) = Some b.
Proof.
  intros H. unfold ZIPLIST_BYTES. rewrite (at_get _ 0 4 b); [by rewrite Z.mod_small|]. unfold head. rewrite <-!app_assoc. by apply (at_mid []).
Qed.
Lemma head_tail b t n l : 0 <= t < 2 ^ 32 -> ZIPLIST_TAIL_OFFSET (head b t n ++ l) = Some t.
Proof.
  intros H. unfold ZIPLIST_TAIL_OFFSET. rewrite (at_get _ 4 4 t); [by rewrite Z.mod_small|]. unfold head. rewrite <-!app_assoc. by apply at_mid.
Qed.
Lemma head_length b t n l : 0 <= n < 65536 -> ZIPLIST_LENGTH (head b t n ++ l) = Some n.
Proof.
  intros H. unfold ZIPLIST_LENGTH. rewrite (at_get _ 8 2 n); [by rewrite Z.mod_small|]. unfold head. rewrite <-!app_assoc. rewrite (app_assoc (le_encode 4 b)). by apply at_mid.
Qed.
Lemma head_set_bytes b t n l b' : set_BYTES (head b t n ++ l) b' = Some (head b' t n ++ l).
Proof. unfold set_BYTES, put, head. rewrite <-!app_assoc. by apply bwrite_0. Qed.
Lemma head_set_tail b t n l t' : set_TAIL_OFFSET (head b t n ++ l) t' = Some (head b t' n ++ l).
Proof. unfold set_TAIL_OFFSET, put, head. rewrite <-!app_assoc. by apply bwrite_app. Qed.
Lemma head_set_length b t n l n' : set_LENGTH (head b t n ++ l) n' = Some (head b t n' ++ l).
Proof.
  unfold set_LENGTH, put, head. rewrite <-!app_assoc, (app_assoc (le_encode 4 b)). rewrite (bwrite_app (le_encode 4 b ++ le_encode 4 t)) by done. by rewrite <-app_assoc.
Qed.
