(* ===== verification/ZipUpdate.v ===== *)
(** How a ziplist's block is resized and moved, and that __ziplistCascadeUpdate
    makes the lengths of the previous entries true again, from an entry whose size
    has changed on. *)

From S2P Require Import Prelude Decimal Util Ziplist ZipRep.
#[local] Open Scope Z_scope.

(** The goal and [H] make the same calls one after the other, and [H] says that
    all of them succeed. *)
Ltac innermost t := match t with @mbind _ _ _ _ _ ?x => innermost x | _ => t end.
Ltac same_call H :=
  match goal with
  | |- @mbind option _ _ _ _ ?x = _ =>
      let t := innermost x in
      first [let a := fresh "a" in let b := fresh "b" in destruct t as [[a b]|]; [|done] | let a := fresh "a" in destruct t as [a|]; [|done]];
      cbn [mbind option_bind] in H |- *
  end.

(** ** Blocks of bytes *)

Lemma take_z_app {A} (l1 l2 : list A) n : n = zlen l1 -> take (Z.to_nat n) (l1 ++ l2) = l1.
Proof. intros ->. by rewrite Nat2Z.id, take_app_length. Qed.
Lemma drop_z_app {A} (l1 l2 : list A) n : n = zlen l1 -> drop (Z.to_nat n) (l1 ++ l2) = l2.
Proof. intros ->. by rewrite Nat2Z.id, drop_app_length. Qed.

(** The bytes [V] are moved to the right by [k]; what they leave stays as it was. *)
Lemma move_right (A V W : list Z) p k n : p = zlen A -> n = zlen V -> 0 <= k <= zlen W ->
  bmove (A ++ V ++ W) (p + k) p n = Some (A ++ take (Z.to_nat k) (V ++ W) ++ V ++ drop (Z.to_nat k) W).
Proof.
  intros -> -> Hk. unfold bmove. rewrite (bread_app A V W) by done. cbn [mbind option_bind].
  rewrite <-(take_drop (Z.to_nat k) (V ++ W)) at 1. set (J := take _ (V ++ W)). assert (HJ : zlen J = k) by (unfold J; rewrite length_take, length_app; lia).
  assert (E : exists M, drop (Z.to_nat k) (V ++ W) = M ++ drop (Z.to_nat k) W /\ zlen M = zlen V).
  { exists (take (length V) (drop (Z.to_nat k) (V ++ W))). split; [|rewrite length_take, length_drop, length_app; lia].
    rewrite <-(take_drop (length V) (drop (Z.to_nat k) (V ++ W))) at 1. f_equal. rewrite drop_drop, (Nat.add_comm (Z.to_nat k)), <-drop_drop, drop_app_length. done. }
  destruct E as (M & -> & HM). rewrite app_assoc. rewrite (bwrite_app (A ++ J)) by (rewrite ?length_app; lia). by rewrite <-app_assoc.
Qed.
(** To the left, over [J]. *)
Lemma move_left (A J V W : list Z) p q n : p = zlen A -> q = p + zlen J -> n = zlen V ->
  exists J', zlen J' = zlen J /\ bmove (A ++ J ++ V ++ W) p q n = Some (A ++ V ++ J' ++ W).
Proof.
  intros -> -> ->. unfold bmove. rewrite (app_assoc A). rewrite (bread_app (A ++ J) V W) by (rewrite ?length_app; lia). cbn [mbind option_bind]. rewrite <-app_assoc.
  rewrite (app_assoc J). set (M := J ++ V). exists (drop (length V) M). split; [unfold M; rewrite length_drop, length_app; lia|].
  rewrite <-(take_drop (length V) M) at 1. rewrite <-app_assoc. apply bwrite_app; [done|]. unfold M. rewrite length_take, length_app. lia.
Qed.

Lemma store_large (A X R : list Z) p l : p = zlen A -> zlen X = 5 -> zipStorePrevEntryLengthLarge (A ++ X ++ R) p l = Some (A ++ prev_bytes true l ++ R).
Proof.
  intros -> HX. destruct X as [|x X]; [done|]. unfold zipStorePrevEntryLengthLarge. cbn [app]. rewrite bset_app by done. cbn [mbind option_bind].
  rewrite (cons_middle ZIP_BIG_PREVLEN A), app_assoc. rewrite bwrite_app; [by rewrite <-app_assoc|rewrite length_app; cbn; lia|rewrite length_le_encode; cbn [length] in HX; lia].
Qed.
Definition big_for (l : Z) : bool := negb (l <? ZIP_BIG_PREVLEN).
Lemma size_for l : zipStorePrevEntryLength_size l = psize (big_for l).
Proof. unfold zipStorePrevEntryLength_size, big_for. by destruct (l <? _). Qed.
Lemma big_for_fits l : 0 <= l < 2 ^ 32 -> prev_fits (big_for l) l.
Proof. intros H. split; [done|]. unfold big_for. destruct (Z.ltb_spec l ZIP_BIG_PREVLEN); done. Qed.
Lemma store_prev (A X R : list Z) p l : p = zlen A -> zlen X = psize (big_for l) ->
  zipStorePrevEntryLength (A ++ X ++ R) p l = Some (psize (big_for l), A ++ prev_bytes (big_for l) l ++ R).
Proof.
  intros -> HX. unfold zipStorePrevEntryLength, big_for in *. destruct (Z.ltb_spec l ZIP_BIG_PREVLEN); cbn [negb] in *.
  - destruct X as [|x [|]]; [done| |cbn in HX; lia]. cbn [app]. by rewrite bset_app.
  - by rewrite (store_large A X R) by done.
Qed.

Section Update.
  Context (junk : Z -> Z).

Lemma resize_grow b t n Y l : 11 + zlen Y <= l < 2 ^ 32 ->
  exists F, zlen F = l - 11 - zlen Y /\ ziplistResize junk (head b t n ++ Y) l = Some (head l t n ++ Y ++ F ++ [ZIP_END]).
Proof.
  intros Hl. unfold ziplistResize. destruct (zrealloc_grow junk (head b t n ++ Y) l) as (F & -> & HF); [rewrite length_app, Nat2Z.inj_add, zlen_head; lia|].
  rewrite length_app, Nat2Z.inj_add, zlen_head in HF. destruct F as [|f F _] using rev_ind; [cbn in HF; lia|]. exists F. rewrite length_app in HF. cbn in HF. split; [lia|].
  rewrite <-!app_assoc, head_set_bytes. cbn [mbind option_bind]. rewrite u32_small by lia.
  rewrite (app_assoc Y), (app_assoc (head l t n)). rewrite bset_app; [by rewrite <-!app_assoc|]. rewrite !length_app, !Nat2Z.inj_add, zlen_head. lia.
Qed.
Lemma resize_shrink b t n X x W l : l = 11 + zlen X -> l < 2 ^ 32 -> ziplistResize junk (head b t n ++ X ++ x :: W) l = Some (head l t n ++ X ++ [ZIP_END]).
Proof.
  intros -> Hl. unfold ziplistResize. rewrite (cons_middle x), (app_assoc X), (app_assoc (head b t n)). rewrite zrealloc_shrink by (rewrite !length_app, !Nat2Z.inj_add, zlen_head; cbn; lia).
  rewrite head_set_bytes. cbn [mbind option_bind]. rewrite u32_small by lia. rewrite app_assoc, bset_app; [by rewrite <-app_assoc|]. rewrite length_app, Nat2Z.inj_add, zlen_head. lia.
Qed.

(** ** The cascade *)

(** The entries after one of size [prev], the fields widened that do not hold the
    size of the entry before them. *)
Fixpoint widen (prev : Z) (es : list ent) : list ent :=
  match es with
  | [] => []
  | (b, z) :: es => if b || (prev <? ZIP_BIG_PREVLEN) then (b, z) :: es else (true, z) :: widen (rawlen (true, z)) es
  end.

(** What all of them would take with fields of five bytes. *)
Fixpoint cap (es : list ent) : Z := match es with [] => 0 | e :: es => 5 + value_size e.2 + cap es end.

Lemma cap_app es1 es2 : cap (es1 ++ es2) = cap es1 + cap es2.
Proof. induction es1 as [|e es1 IH]; cbn; [done|]. rewrite IH. lia. Qed.
Lemma sizes_cap es : sizes es <= cap es.
Proof. induction es as [|e es IH]; cbn; [done|]. unfold rawlen. pose proof (psize_pos e.1). lia. Qed.
Lemma widen_cap prev es : cap (widen prev es) = cap es.
Proof. revert prev. induction es as [|[b z] es IH]; intros prev; [done|]. cbn [widen]. destruct (_ || _); [done|]. cbn. by rewrite IH. Qed.
Lemma widen_values prev es : (widen prev es).*2 = es.*2.
Proof. revert prev. induction es as [|[b z] es IH]; intros prev; [done|]. cbn [widen]. destruct (_ || _); [done|]. cbn. f_equal. apply IH. Qed.
Lemma widen_length prev es : length (widen prev es) = length es.
Proof. pose proof (f_equal length (widen_values prev es)) as H. by rewrite !length_fmap in H. Qed.
Lemma widen_fits_id prev es : fits prev es -> widen prev es = es.
Proof.
  destruct es as [|[b z] es]; [done|]. intros [[_ H] _]. cbn [fst] in H. cbn [widen]. destruct b; [done|]. specialize (H eq_refl). by ztrue (prev <? ZIP_BIG_PREVLEN).
Qed.

(** The entries fit whatever is before them, but for the first field. *)
Definition tail_fits (es : list ent) : Prop := match es with [] => True | e :: es => val_ok e.2 /\ fits (rawlen e) es end.
Lemma fits_tail prev es : fits prev es -> tail_fits es.
Proof. destruct es; [done|]. by intros (_ & H). Qed.
Lemma widen_fits prev es : 0 <= prev < 2 ^ 32 -> cap es < 2 ^ 32 -> tail_fits es -> fits prev (widen prev es).
Proof.
  revert prev. induction es as [|[b z] es IH]; intros prev Hp Hc H; [done|]. cbn [tail_fits fst snd] in H. destruct H as [Hv H]. cbn [cap snd] in Hc. cbn [widen].
  destruct b; cbn [orb].
  - split; [by split|by split].
  - destruct (Z.ltb_spec prev ZIP_BIG_PREVLEN); cbn [orb].
    + split; [by split|by split].
    + split; [by split|]. split; [done|]. cbn [snd] in *. pose proof (sizes_cap es). pose proof (sizes_nonneg es). pose proof (value_size_pos z).
      apply IH; [|lia|by eapply fits_tail]. unfold rawlen. cbn [fst snd psize]. lia.
Qed.

(** The entry [e] at the end of [A], which is followed by the entries [es] laid
    out for a size [r] of it. *)
Definition tail_of (A : list Z) (e : ent) (es : list ent) : Z := 10 + zlen A + tail_off (e :: es).

Lemma tail_of_cons A q e f es : tail_of A e (f :: es) = tail_of (A ++ ebytes q e) f es.
Proof. unfold tail_of. rewrite length_app, Nat2Z.inj_add, zlen_ebytes. cbn [tail_off]. lia. Qed.

Lemma tail_of_widened A e z es : tail_of A e ((true, z) :: es) = tail_of A e ((false, z) :: es) + match es with [] => 0 | _ => 4 end.
Proof. unfold tail_of. cbn [tail_off]. destruct es; [lia|]. unfold rawlen. cbn [fst snd psize]. lia. Qed.
Lemma tail_of_next A e z es : (tail_of A e ((false, z) :: es) =? 10 + zlen A + rawlen e) = match es with [] => true | _ => false end.
Proof.
  unfold tail_of. cbn [tail_off]. destruct es as [|f es]; [apply Z.eqb_eq; lia|apply Z.eqb_neq]. pose proof (rawlen_pos (false, z)). pose proof (tail_off_le (f :: es)). cbn [tail_off] in *. lia.
Qed.

(** A step of the loop: the field of the next entry is widened. *)
Lemma widen_step A q e r z es n b t : let rl := rawlen e in
  b = 11 + zlen A + rl + sizes ((false, z) :: es) -> b + 4 < 2 ^ 32 -> t = tail_of A e ((false, z) :: es) -> big_for rl = true ->
  (zl ← ziplistResize junk (head b t n ++ A ++ ebytes q e ++ lay r ((false, z) :: es) ++ [ZIP_END]) (u32 (b + 4));
   tail ← ZIPLIST_TAIL_OFFSET zl;
   zl ← (if negb (tail =? 10 + zlen A + rl) then set_TAIL_OFFSET zl (u32 (tail + 4)) else Some zl);
   zl ← bmove zl (10 + zlen A + rl + 5) (10 + zlen A + rl + 1) (b - (10 + zlen A + rl) - 1 - 1);
   zipStorePrevEntryLength zl (10 + zlen A + rl) rl) =
  Some (5, head (b + 4) (tail_of A e ((true, z) :: es)) n ++ A ++ ebytes q e ++ ebytes rl (true, z) ++ lay (rawlen (false, z)) es ++ [ZIP_END]).
Proof.
  intros rl Hb Hlt -> Hbig. assert (Hrl := rawlen_pos e). assert (Hv := value_size_pos z). assert (Hes := sizes_nonneg es). assert (Ht := tail_off_le (e :: (true, z) :: es)).
  cbn [sizes] in Hb, Ht. unfold rawlen at 1 in Hb. unfold rawlen at 2 in Ht. cbn [fst snd psize] in Hb, Ht. fold rl in Hb, Hrl, Ht.
  assert (Ht' : tail_of A e ((true, z) :: es) < b + 4) by (unfold tail_of; lia). assert (Htp : 0 <= tail_of A e ((false, z) :: es)) by (unfold tail_of; pose proof (tail_off_le (e :: (false, z) :: es)); lia).
  rewrite tail_of_widened in Ht'. cbn [lay]. unfold ebytes at 2. cbn [fst snd prev_bytes]. set (V := (header z ++ data z) ++ lay (rawlen (false, z)) es).
  assert (HV : zlen V = value_size z + sizes es) by (unfold V; rewrite !length_app, !Nat2Z.inj_add, zlen_lay; unfold value_size; lia).
  replace (head b (tail_of A e ((false, z) :: es)) n ++ A ++ ebytes q e ++ (([r] ++ header z ++ data z) ++ lay (rawlen (false, z)) es) ++ [ZIP_END])
    with (head b (tail_of A e ((false, z) :: es)) n ++ (A ++ ebytes q e ++ [r] ++ V ++ [ZIP_END])) by (unfold V; by rewrite <-!app_assoc).
  rewrite u32_small by lia. destruct (resize_grow b (tail_of A e ((false, z) :: es)) n (A ++ ebytes q e ++ [r] ++ V ++ [ZIP_END]) (b + 4)) as (F & HF & ->).
  { rewrite !length_app, !Nat2Z.inj_add, zlen_ebytes. cbn. fold rl. lia. }
  rewrite !length_app, !Nat2Z.inj_add, zlen_ebytes in HF. cbn [length] in HF. fold rl in HF. cbn [mbind option_bind].
  rewrite head_tail by (destruct es; lia). cbn [mbind option_bind]. subst rl. rewrite tail_of_next. rewrite tail_of_widened. set (rl := rawlen e) in *.
  assert (E : forall t, (zl ← bmove (head (b + 4) t n ++ (A ++ ebytes q e ++ [r] ++ V ++ [ZIP_END]) ++ F ++ [ZIP_END]) (10 + zlen A + rl + 5) (10 + zlen A + rl + 1) (b - (10 + zlen A + rl) - 1 - 1);
      zipStorePrevEntryLength zl (10 + zlen A + rl) rl) = Some (5, head (b + 4) t n ++ A ++ ebytes q e ++ ebytes rl (true, z) ++ lay (rawlen (false, z)) es ++ [ZIP_END])).
  { intros t. set (P := head (b + 4) t n ++ A ++ ebytes q e). assert (HP : zlen P = 10 + zlen A + rl) by (unfold P; rewrite !length_app, !Nat2Z.inj_add, zlen_ebytes, zlen_head; lia).
    set (W := [ZIP_END] ++ F ++ [ZIP_END]). assert (HW : zlen W = 5) by (unfold W; rewrite !length_app, !Nat2Z.inj_add; cbn; lia).
    replace (head (b + 4) t n ++ (A ++ ebytes q e ++ [r] ++ V ++ [ZIP_END]) ++ F ++ [ZIP_END]) with ((P ++ [r]) ++ V ++ W) by (unfold P, W; by rewrite <-!app_assoc).
    replace (10 + zlen A + rl + 5) with (10 + zlen A + rl + 1 + 4) by lia. rewrite move_right; [|rewrite length_app, Nat2Z.inj_add, HP; done|lia|lia]. cbn [mbind option_bind].
    replace (drop (Z.to_nat 4) W) with [ZIP_END].
    2: { unfold W. rewrite app_assoc, drop_z_app; [done|]. rewrite length_app. cbn. lia. }
    rewrite <-(app_assoc P). rewrite (app_assoc [r]). rewrite store_prev; [|lia|rewrite Hbig; cbn [psize]; rewrite !length_app, length_take, length_app; cbn [length]; lia]. rewrite Hbig. cbn [psize]. do 2 f_equal.
    unfold P, V, ebytes at 3. cbn [fst snd]. by rewrite <-!app_assoc. }
  destruct es as [|f es]; cbn [negb mbind option_bind].
  - rewrite Z.add_0_r. apply E.
  - rewrite head_set_tail. cbn [mbind option_bind]. rewrite u32_small by lia. apply E.
Qed.

(** The header and the entries when the entry [e], which is at the end of [A], is
    followed by [es] laid out for the size [r]. *)
Definition laid (A : list Z) (q : Z) (e : ent) (r : Z) (es : list ent) (n : Z) : list Z :=
  head (11 + zlen A + rawlen e + sizes es) (tail_of A e es) n ++ A ++ ebytes q e ++ lay r es ++ [ZIP_END].

Lemma laid_next A q e r f es n : laid (A ++ ebytes q e) r f (rawlen f) es n = laid A q e r (f :: es) n.
Proof.
  unfold laid. rewrite (tail_of_cons A q). cbn [lay sizes]. rewrite <-!app_assoc, length_app, Nat2Z.inj_add, zlen_ebytes. do 2 f_equal. lia.
Qed.

Lemma widen_laid A q e r z es n : let rl := rawlen e in let b := 11 + zlen A + rl + sizes ((false, z) :: es) in b + 4 < 2 ^ 32 -> big_for rl = true ->
  (zl ← ziplistResize junk (laid A q e r ((false, z) :: es) n) (u32 (b + 4));
   tail ← ZIPLIST_TAIL_OFFSET zl;
   zl ← (if negb (tail =? 10 + zlen A + rl) then set_TAIL_OFFSET zl (u32 (tail + 4)) else Some zl);
   zl ← bmove zl (10 + zlen A + rl + 5) (10 + zlen A + rl + 1) (b - (10 + zlen A + rl) - 1 - 1);
   zipStorePrevEntryLength zl (10 + zlen A + rl) rl) =
  Some (5, laid (A ++ ebytes q e) rl (true, z) (rawlen (false, z)) es n).
Proof.
  intros rl b Hb Hbig. etrans; [exact (widen_step A q e r z es n b _ eq_refl Hb eq_refl Hbig)|]. do 2 f_equal.
  unfold laid. rewrite (tail_of_cons A q), <-!app_assoc. f_equal. f_equal. unfold b, rl. rewrite length_app, Nat2Z.inj_add, zlen_ebytes. cbn [sizes]. unfold rawlen. cbn [fst snd psize]. lia.
Qed.

(** Only the field of the next entry depends on the size it was laid out for. *)
Lemma laid_split A q e b z es n : exists P R, zlen P = 10 + zlen A + rawlen e /\ forall r, laid A q e r ((b, z) :: es) n = P ++ prev_bytes b r ++ R.
Proof.
  exists (head (11 + zlen A + rawlen e + sizes ((b, z) :: es)) (tail_of A e ((b, z) :: es)) n ++ A ++ ebytes q e), (header z ++ data z ++ lay (rawlen (b, z)) es ++ [ZIP_END]). split.
  - rewrite !length_app, !Nat2Z.inj_add, zlen_ebytes, zlen_head. lia.
  - intros r. unfold laid. cbn [lay]. unfold ebytes at 2. cbn [fst snd]. by rewrite <-!app_assoc.
Qed.

Lemma at_entry H A q e l p : p = zlen H + zlen A -> at_ (H ++ A ++ ebytes q e ++ l) p (ebytes q e).
Proof. intros ->. rewrite app_assoc. apply at_mid. rewrite length_app. lia. Qed.
Lemma at_next H A q e l p x : p = zlen H + zlen A + rawlen e -> at_ (H ++ A ++ ebytes q e ++ x ++ l) p x.
Proof. intros ->. rewrite app_assoc, (app_assoc (H ++ A)). apply at_mid. rewrite !length_app, !Nat2Z.inj_add, zlen_ebytes. lia. Qed.
Lemma raw_of_entry e : 2 <= rawlen e < 2 ^ 32 -> u32 (psize e.1 + zlen (header e.2) + zlen (data e.2)) = rawlen e.
Proof. unfold rawlen, value_size. intros. rewrite u32_small by lia. lia. Qed.

Lemma cascade_loop_spec fuel : forall A q e r es n, (length es < fuel)%nat -> prev_fits e.1 q -> val_ok e.2 -> fits r es -> 11 + zlen A + cap (e :: es) < 2 ^ 32 ->
  cascade_loop junk fuel (laid A q e r es n) (10 + zlen A) (11 + zlen A + rawlen e + sizes es) = Some (laid A q e (rawlen e) (widen (rawlen e) es) n).
Proof.
  induction fuel as [|fuel IH]; intros A q e r es n Hf Hq Hv Hr Hc; [lia|]. cbn [cap] in Hc. assert (Hcs := sizes_cap es). assert (Hsn := sizes_nonneg es). assert (Hrp := rawlen_pos e).
  assert (Hrl : rawlen e <= 5 + value_size e.2) by (unfold rawlen; pose proof (psize_pos e.1); lia).
  assert (He : at_ (laid A q e r es n) (10 + zlen A) (ebytes q e)) by (by apply at_entry).
  cbn [cascade_loop]. destruct (entry_not_end _ _ _ _ He Hq) as (c & -> & Hc'). cbn [mbind option_bind]. rewrite Hc'.
  rewrite (zipEntry_spec _ _ q e He Hq Hv). cbn [mbind option_bind headersize len]. rewrite raw_of_entry by lia. rewrite size_for.
  destruct es as [|[b z] es].
  { assert (Hend : at_ (laid A q e r [] n) (10 + zlen A + rawlen e) [ZIP_END]) by (unfold laid; cbn [lay app]; rewrite <-(app_nil_r [ZIP_END]); by apply at_next).
    rewrite (at_head _ _ _ _ Hend). cbn [mbind option_bind]. by rewrite Z.eqb_refl. }
  destruct Hr as (Hr & Hz & Hes). cbn [fst snd] in Hr, Hz.
  assert (Hn : at_ (laid A q e r ((b, z) :: es) n) (10 + zlen A + rawlen e) (ebytes r (b, z))) by (unfold laid; cbn [lay]; rewrite <-app_assoc; by apply at_next).
  destruct (entry_not_end _ _ _ _ Hn Hr) as (c' & -> & Hc''). cbn [mbind option_bind]. rewrite Hc''. rewrite (zipEntry_spec _ _ r (b, z) Hn Hr Hz). cbn [mbind option_bind prevrawlen prevrawlensize fst snd].
  destruct (Z.eqb_spec r (rawlen e)) as [->|Hne]; [by rewrite widen_fits_id|].
  destruct (Z.ltb_spec (psize b) (psize (big_for (rawlen e)))) as [Hlt|Hge].
  - assert (b = false /\ big_for (rawlen e) = true) as [-> Hbig] by (by destruct b, (big_for (rawlen e)); cbn in Hlt; try lia).
    rewrite Hbig. assert (Hlen := zlen_ebytes q e). assert (Hfz : rawlen (true, z) = rawlen (false, z) + 4) by (unfold rawlen; cbn [fst snd psize]; lia).
    cbn [cap snd] in *. assert (Hcz : rawlen (true, z) = 5 + value_size z) by done. assert (Hsc := sizes_cap es). cbn [length] in Hf.
    assert (Hs := widen_laid A q e r z es n). cbv zeta in Hs. specialize (Hs ltac:(cbn [sizes] in *; lia) Hbig).
    change (psize true - psize false) with 4. cbn [psize widen orb]. replace (rawlen e <? ZIP_BIG_PREVLEN) with false by (unfold big_for in Hbig; by destruct (rawlen e <? _)).
    do 4 same_call Hs. rewrite Hs. cbn [mbind option_bind].
    specialize (IH (A ++ ebytes q e) (rawlen e) (true, z) (rawlen (false, z)) es n ltac:(lia)). rewrite length_app, Nat2Z.inj_add, Hlen in IH. rewrite <-(laid_next A q e (rawlen e) (true, z)).
    rewrite <-IH; [f_equal; cbn [sizes]; lia|by split; [lia|]|done|done|cbn [cap snd]; lia].
  - destruct (laid_split A q e b z es n) as (P & R & HP & E). rewrite !E. pose proof (zlen_prev_bytes b r) as Hx. pose proof (big_for_fits (rawlen e) ltac:(lia)) as [_ Hbf].
    assert (Hw : widen (rawlen e) ((b, z) :: es) = (b, z) :: es).
    { cbn [widen]. destruct b; [done|]. cbn [orb]. rewrite (proj2 (Z.ltb_lt _ _)); [done|]. apply Hbf. by destruct (big_for (rawlen e)). }
    rewrite Hw, E. destruct (Z.ltb_spec (psize (big_for (rawlen e))) (psize b)) as [Hlt|Hle].
    + assert (b = true) as -> by (destruct b, (big_for (rawlen e)); cbn in Hlt; try lia; done). rewrite store_large; [done|lia|done].
    + assert (b = big_for (rawlen e)) as -> by (destruct b, (big_for (rawlen e)); cbn in Hle, Hge; try lia; done). rewrite store_prev; [done|lia|done].
Qed.

(** The list after an entry whose size has changed. *)
Lemma cascade_spec A q e r es n : prev_fits e.1 q -> val_ok e.2 -> fits r es -> 11 + zlen A + cap (e :: es) < 2 ^ 32 ->
  __ziplistCascadeUpdate junk (laid A q e r es n) (10 + zlen A) = Some (laid A q e (rawlen e) (widen (rawlen e) es) n).
Proof.
  intros Hq Hv Hr Hc. unfold __ziplistCascadeUpdate. assert (Hcs := sizes_cap (e :: es)). assert (Hsn := sizes_nonneg es). assert (Hrp := rawlen_pos e). cbn [sizes] in Hcs.
  assert (E : ZIPLIST_BYTES (laid A q e r es n) = Some (11 + zlen A + rawlen e + sizes es)) by (unfold laid; apply head_bytes; lia). rewrite E. cbn [mbind option_bind]. apply cascade_loop_spec; try done.
  unfold laid. rewrite !length_app. pose proof (zlen_lay r es). pose proof (sizes_length es). cbn [length]. lia.
Qed.
End Update.
