(* ===== verification/ZipInsert.v ===== *)
(** __ziplistInsert: what a string is encoded as, how the gap for the new entry is
    opened in front of the next one, whose field for the length of the new entry
    may take more or less room, and the list afterwards. *)

From S2P Require Import Prelude Decimal Util Ziplist ZipRep ZipUpdate.
#[local] Open Scope Z_scope.

(** ** Values *)

(** A value stands for the string that was stored. *)
Definition denotes (z : zval) (s : list Z) : Prop := match z with ZStr c => c = s | ZInt _ v => is_sdec s v end.

(** The value that a string is stored as. *)
Definition value_of (s : list Z) : zval :=
  match zipTryEncoding s (zlen s) with Some (Some (v, enc)) => ZInt enc v | _ => ZStr s end.
Definition encoded (z : zval) : option (Z * Z) := match z with ZInt enc v => Some (v, enc) | ZStr _ => None end.

Lemma zipTryEncoding_spec s : zipTryEncoding s (zlen s) = Some (encoded (value_of s)) /\ denotes (value_of s) s /\
  (bytes_ok s -> zlen s < 2 ^ 32 -> val_ok (value_of s)) /\ (forall v, is_sdec s v -> in_i64 v -> exists enc, value_of s = ZInt enc v).
Proof.
  unfold value_of, zipTryEncoding. destruct (string2ll_spec s []) as (r & Hr & Hn). rewrite app_nil_r in Hr.
  destruct ((32 <=? zlen s) || (zlen s =? 0)) eqn:E.
  { split; [done|]. split; [done|]. split; [done|]. intros v Hv H64. exfalso. pose proof (is_sdec_nonempty s v Hv). pose proof (sdec_length s v H64 Hv).
    apply orb_true_iff in E. rewrite Z.leb_le, Z.eqb_eq in E. lia. }
  rewrite Hr. cbn [mbind option_bind]. destruct r as [v|].
  2: { split; [done|]. split; [done|]. split; [done|]. intros v Hv H64. exfalso. by assert (None = Some v) as [=] by by apply Hn. }
  destruct (proj1 (Hn v) eq_refl) as [Hv H64]. set (enc := if (0 <=? v) && (v <=? 12) then _ else _). cbn [encoded denotes].
  split; [done|]. split; [done|]. split.
  - intros _ _. unfold val_ok, int_ok, enc. unfold ZIP_INT_IMM_MIN, ZIP_INT_IMM_MAX.
    destruct ((0 <=? v) && (v <=? 12)) eqn:E1; [rewrite andb_true_iff, !Z.leb_le in E1; lia|].
    destruct ((-128 <=? v) && (v <=? 127)) eqn:E2; [rewrite andb_true_iff, !Z.leb_le in E2; lia|].
    destruct ((-32768 <=? v) && (v <=? 32767)) eqn:E3; [rewrite andb_true_iff, !Z.leb_le in E3; lia|].
    destruct ((-8388608 <=? v) && (v <=? 8388607)) eqn:E4; [rewrite andb_true_iff, !Z.leb_le in E4; lia|].
    destruct ((-2147483648 <=? v) && (v <=? 2147483647)) eqn:E5; [rewrite andb_true_iff, !Z.leb_le in E5; lia|]. tauto.
  - intros w Hw _. exists enc. f_equal. by eapply is_sdec_value.
Qed.

Lemma denotes_inj z s t : denotes z s -> denotes z t -> s = t.
Proof. destruct z; cbn; [by intros -> ->|apply is_sdec_inj]. Qed.

Lemma value_enc s : let '(v, enc) := default (123456789, 0) (encoded (value_of s)) in
  bytes_ok s -> zlen s < 2 ^ 32 -> entry_encoding enc (zlen s) = header (value_of s) /\ ZIP_IS_STR enc = is_str (value_of s) /\
  (if bool_decide (is_Some (encoded (value_of s))) then zipIntSize enc else Some (zlen s)) = Some (zlen (data (value_of s))).
Proof.
  destruct (zipTryEncoding_spec s) as (_ & Hd & Hok & _). destruct (value_of s) as [c|enc v]; cbn [encoded default denotes header is_str data] in *.
  - by subst c.
  - intros Hb Hl. specialize (Hok Hb Hl). destruct (int_byte enc v Hok) as [_ Hi]. unfold entry_encoding. rewrite Hi. split; [done|]. split; [done|].
    rewrite bool_decide_true by (by eexists). by apply zipIntSize_data.
Qed.

(** ** Writing the entry *)

Lemma zipSaveInteger_spec A X R p enc v : int_ok enc v -> p = zlen A -> zlen X = zlen (int_bytes enc v) -> zipSaveInteger (A ++ X ++ R) p v enc = Some (A ++ int_bytes enc v ++ R).
Proof.
  intros Hok -> HX. assert (HX' : length (int_bytes enc v) = length X) by lia. unfold zipSaveInteger. apply (int_cases enc v _ Hok); intros -> Hv.
  1,2,4,5: apply bwrite_app; [done|exact HX'].
  - change (bwrite (A ++ X ++ R) (zlen A) (drop 1 (le_encode 4 (i32 (Z.shiftl v 8)))) = Some (A ++ le_encode 3 v ++ R)).
    replace (drop 1 (le_encode 4 (i32 (Z.shiftl v 8)))) with (le_encode 3 v); [by apply bwrite_app|]. rewrite Z.shiftl_mul_pow2 by lia. change (2 ^ 8) with 256. rewrite i32_small by lia.
    change (le_encode 3 v = le_encode 3 (v * 256 / 256)). by rewrite Z.div_mul.
  - destruct (imm_tests v Hv) as (E1 & E2 & E3 & E4 & E5 & E6). unfold int_bytes in *. rewrite E1, E2, E3, E4, E5 in *. rewrite E6. destruct X; [done|done].
Qed.

(** The entry goes into the room [G]. *)
Lemma split_len {A} (l : list A) n : 0 <= n <= zlen l -> exists x y, l = x ++ y /\ zlen x = n.
Proof. intros H. exists (take (Z.to_nat n) l), (drop (Z.to_nat n) l). rewrite take_drop, length_take. split; [done|lia]. Qed.

Lemma write_entry_spec P G R prevlen s : bytes_ok s -> zlen s < 2 ^ 32 -> let e := (big_for prevlen, value_of s) in zlen G = rawlen e ->
  let '(v, enc) := default (123456789, 0) (encoded (value_of s)) in
  write_entry (P ++ G ++ R) (zlen P) prevlen s (zlen s) v enc = Some (P ++ ebytes prevlen e ++ R).
Proof.
  intros Hb Hl e HG. pose proof (value_enc s) as Hv. destruct (default (123456789, 0) (encoded (value_of s))) as [v enc] eqn:Er.
  destruct (Hv Hb Hl) as (Eh & Es & _). destruct (zipTryEncoding_spec s) as (_ & Hd & Hok & _). specialize (Hok Hb Hl). unfold rawlen in HG. cbn [fst snd e] in HG. unfold value_size in HG.
  destruct (split_len G (psize (big_for prevlen))) as (G1 & G' & -> & HG1); [pose proof (psize_pos (big_for prevlen)); lia|]. rewrite length_app in HG.
  destruct (split_len G' (zlen (header (value_of s)))) as (G2 & G3 & -> & HG2); [lia|]. rewrite length_app in HG.
  unfold write_entry. rewrite <-!app_assoc. rewrite store_prev by (done || lia). cbn [mbind option_bind]. unfold zipStoreEntryEncoding. rewrite Eh.
  pose proof (zlen_prev_bytes (big_for prevlen) prevlen) as Hpb. rewrite (app_assoc P). rewrite bwrite_app by (rewrite ?length_app; lia). cbn [mbind option_bind]. rewrite Es.
  unfold ebytes, e. cbn [fst snd]. rewrite <-!app_assoc. rewrite (app_assoc P), (app_assoc (P ++ _)). set (Q := (P ++ _) ++ _). assert (HQ : zlen P + psize (big_for prevlen) + zlen (header (value_of s)) = zlen Q) by (unfold Q; rewrite !length_app; lia). rewrite HQ.
  destruct (value_of s) as [c|enc' v']; cbn [is_str denotes encoded default data] in *.
  - subst c. rewrite bread_all. cbn [mbind option_bind]. rewrite bwrite_app by lia. unfold Q. by rewrite <-!app_assoc.
  - injection Er as <- <-. rewrite zipSaveInteger_spec by (done || lia). unfold Q. by rewrite <-!app_assoc.
Qed.

(** ** The gap *)

(** Whether the field of the next entry is large, when it was [b], and the new
    entry takes [reqlen] bytes. *)
Definition next_big (b : bool) (reqlen : Z) : bool := big_for reqlen || (b && (reqlen <? 4)).

Lemma move_gap P b prev V F reqlen curlen : let nb := next_big b reqlen in let nd := psize nb - psize b in
  4 <= zlen P -> 2 <= reqlen -> zlen F = reqlen + nd -> curlen - zlen P - 1 = psize b + zlen V ->
  exists G X, zlen G = reqlen /\ zlen X = psize nb /\
    bmove (P ++ prev_bytes b prev ++ V ++ F ++ [ZIP_END]) (zlen P + reqlen) (zlen P - nd) (curlen - zlen P - 1 + nd) = Some (P ++ G ++ X ++ V ++ [ZIP_END]).
Proof.
  intros nb nd HP Hq HF ->. pose proof (zlen_prev_bytes b prev) as Hpb.
  assert (Hd : forall k, k = zlen F -> drop (Z.to_nat k) (F ++ [ZIP_END]) = [ZIP_END]) by (intros; by apply drop_z_app).
  assert (HW : zlen (F ++ [ZIP_END]) = zlen F + 1) by (rewrite length_app; cbn [length]; lia).
  assert (Hcase : nd = 0 \/ b = false /\ nb = true \/ b = true /\ nb = false /\ 4 <= reqlen).
  { unfold nd, nb, next_big in *. destruct b, (big_for reqlen); cbn; try lia; auto. destruct (Z.ltb_spec reqlen 4); cbn; [lia|auto]. }
  assert (Hdef : nd = psize nb - psize b) by done. clearbody nb nd. destruct Hcase as [Hnd|[[-> Hnb]|(-> & Hnb & H4)]].
  - assert (psize nb = psize b) by lia. rewrite Hnd in *. rewrite Z.sub_0_r, Z.add_0_r.
    pose proof (move_right P (prev_bytes b prev ++ V) (F ++ [ZIP_END]) (zlen P) reqlen (psize b + zlen V) eq_refl ltac:(rewrite length_app; lia) ltac:(lia)) as E.
    rewrite <-!app_assoc in E. rewrite E, Hd by lia. eexists _, _. split; [|split; [|reflexivity]]; [|lia]. rewrite length_take, !length_app. cbn [length]. lia.
  - rewrite Hnb in *. cbn [psize] in *. destruct (split_len P (zlen P - 4)) as (P0 & P4 & -> & HP0); [lia|]. rewrite length_app in HP, HP0 |- *. assert (nd = 4) as -> by lia. clear Hdef.
    pose proof (move_right P0 (P4 ++ prev_bytes false prev ++ V) (F ++ [ZIP_END]) (zlen P0) (reqlen + 4) (1 + zlen V + 4) eq_refl ltac:(rewrite !length_app; lia) ltac:(lia)) as E.
    repeat rewrite <-app_assoc in E. repeat rewrite <-app_assoc. replace (Z.of_nat (length P0 + length P4) - 4) with (zlen P0) by lia. replace (Z.of_nat (length P0 + length P4) + reqlen) with (zlen P0 + (reqlen + 4)) by lia.
    rewrite E, Hd by lia. replace (Z.to_nat (reqlen + 4)) with (length P4 + Z.to_nat reqlen)%nat by lia. rewrite take_app_add, <-app_assoc.
    exists (take (Z.to_nat reqlen) (prev_bytes false prev ++ V ++ F ++ [ZIP_END])), (P4 ++ prev_bytes false prev). rewrite <-!app_assoc. split; [|split; [|reflexivity]].
    + rewrite length_take, !length_app. cbn [length]. lia.
    + rewrite length_app. cbn [psize]. lia.
  - rewrite Hnb in *. cbn [psize] in *. destruct (split_len (prev_bytes true prev) 4) as (X4 & X1 & EX & HX4); [lia|]. rewrite EX in *. rewrite length_app in Hpb.
    pose proof (move_right (P ++ X4) (X1 ++ V) (F ++ [ZIP_END]) (zlen P + 4) (reqlen - 4) (5 + zlen V - 4) ltac:(rewrite length_app; lia) ltac:(rewrite !length_app; lia) ltac:(lia)) as E.
    repeat rewrite <-app_assoc in E. repeat rewrite <-app_assoc. replace (zlen P - nd) with (zlen P + 4) by lia. replace (zlen P + reqlen) with (zlen P + 4 + (reqlen - 4)) by lia. replace (5 + zlen V + nd) with (5 + zlen V - 4) by lia.
    rewrite E, Hd by lia. eexists (X4 ++ _), X1. rewrite <-app_assoc. split; [|split; [|reflexivity]]; [|lia]. rewrite length_app, length_take, !length_app. cbn [length]. lia.
Qed.

(** The next entry after its field has changed. *)
Definition refield (b : bool) (w : zval) (l : Z) : ent := (next_big b l, w).
Definition shift_of (b : bool) (l : Z) : Z := psize (next_big b l) - psize b.

Lemma refield_fits b w l : 0 <= l < 2 ^ 32 -> prev_fits (refield b w l).1 l.
Proof. intros H. split; [done|]. cbn [refield fst]. unfold next_big. destruct (big_for_fits l H) as [_ Hf]. intros [E _]%orb_false_iff. by apply Hf. Qed.
Lemma shift_room b l : 2 <= l -> 0 <= l + shift_of b l.
Proof. intros H. unfold shift_of, next_big. destruct b, (big_for l); cbn [orb andb psize]; try lia. destruct (Z.ltb_spec l 4); cbn [psize]; lia. Qed.
Lemma refield_len b w l : rawlen (refield b w l) = rawlen (b, w) + shift_of b l.
Proof. unfold rawlen, refield, shift_of. cbn [fst snd]. lia. Qed.

(** What __ziplistInsert calls nextdiff and forcelarge. *)
Lemma nextdiff_of b l : let nextdiff := psize (big_for l) - psize b in let forcelarge := (nextdiff =? -4) && (l <? 4) in
  (if forcelarge then 0 else nextdiff) = shift_of b l /\ (forcelarge = false -> next_big b l = big_for l) /\ (forcelarge = true -> next_big b l = true).
Proof.
  cbv zeta. unfold shift_of, next_big. destruct b, (big_for l) eqn:E; cbn [psize orb andb]; try done.
  change (1 - 5 =? -4) with true. destruct (l <? 4); cbn; done.
Qed.

Lemma laid_after H A q e l r es n : zlen H = 10 -> H = head (11 + zlen A + rawlen e + sizes es) (tail_of A e es) n -> l = ebytes q e ++ lay r es ++ [ZIP_END] ->
  H ++ A ++ l = laid A q e r es n.
Proof. by intros _ -> ->. Qed.

(** The gap is opened in a list whose block has been resized to [l]. *)
Lemma insert_gap_spec A b w prev reqlen es n F : 2 <= reqlen -> prev_fits b prev -> val_ok w -> fits (rawlen (b, w)) es -> zlen F = reqlen + shift_of b reqlen ->
  let e := refield b w reqlen in let l := 11 + zlen A + reqlen + rawlen e + sizes es in 11 + zlen A + reqlen + 5 + value_size w + sizes es < 2 ^ 32 ->
  let forcelarge := (psize (big_for reqlen) - psize b =? -4) && (reqlen <? 4) in
  exists G, zlen G = reqlen /\
    insert_gap (head l (10 + zlen A + tail_off ((b, w) :: es)) n ++ A ++ ebytes prev (b, w) ++ lay (rawlen (b, w)) es ++ F ++ [ZIP_END])
      (10 + zlen A) (11 + zlen A + rawlen (b, w) + sizes es) reqlen (shift_of b reqlen) forcelarge = Some (laid (A ++ G) reqlen e (rawlen (b, w)) es n).
Proof.
  intros Hq Hp Hw Hes HF e l Hl fl. destruct (nextdiff_of b reqlen) as (_ & Hff & Hft). fold fl in Hff, Hft.
  assert (Hrb := rawlen_pos (b, w)). assert (Hre := rawlen_pos e). assert (Hel : rawlen e = rawlen (b, w) + shift_of b reqlen) by apply refield_len. assert (Hs := sizes_nonneg es).
  set (t := 10 + zlen A + tail_off ((b, w) :: es)). set (P := head l t n ++ A). assert (HP : zlen P = 10 + zlen A) by (unfold P; rewrite length_app, Nat2Z.inj_add, zlen_head; lia).
  unfold insert_gap. set (zl0 := head l t n ++ A ++ _). assert (H0 : at_ zl0 (10 + zlen A) (ebytes prev (b, w))) by (by apply at_entry).
  destruct (entry_not_end _ _ _ _ H0 Hp) as (c & -> & Hc). cbn [mbind option_bind]. rewrite Hc. cbn [negb].
  set (V := (header w ++ data w) ++ lay (rawlen (b, w)) es). assert (HV : zlen V = value_size w + sizes es) by (unfold V; rewrite !length_app, !Nat2Z.inj_add, zlen_lay; unfold value_size; lia).
  assert (E0 : zl0 = P ++ prev_bytes b prev ++ V ++ F ++ [ZIP_END]) by (unfold zl0, P, V, ebytes; cbn [fst snd]; by rewrite <-!app_assoc). rewrite E0.
  destruct (move_gap P b prev V F reqlen (11 + zlen A + rawlen (b, w) + sizes es)) as (G & X & HG & HX & Em); [lia|done|done|rewrite HP, HV; unfold rawlen; cbn [fst snd]; lia|].
  exists G. split; [done|]. rewrite HP in Em. fold (shift_of b reqlen) in Em. rewrite Em. cbn [mbind option_bind]. rewrite (app_assoc P).
  assert (Est : (if fl then zipStorePrevEntryLengthLarge ((P ++ G) ++ X ++ V ++ [ZIP_END]) (10 + zlen A + reqlen) (u32 reqlen)
      else '(_, zl) ← zipStorePrevEntryLength ((P ++ G) ++ X ++ V ++ [ZIP_END]) (10 + zlen A + reqlen) (u32 reqlen); Some zl) =
      Some ((P ++ G) ++ prev_bytes (next_big b reqlen) reqlen ++ V ++ [ZIP_END])).
  { rewrite u32_small by lia. destruct fl eqn:Efl.
    - rewrite (Hft eq_refl) in *. cbn [psize] in HX. by rewrite store_large by (rewrite ?length_app; lia).
    - rewrite (Hff eq_refl) in *. by rewrite store_prev by (rewrite ?length_app; lia). }
  rewrite Est. cbn [mbind option_bind].
  assert (Heb : rawlen e <= 5 + value_size w) by (unfold rawlen, e, refield; cbn [fst snd]; pose proof (psize_pos (next_big b reqlen)); lia).
  assert (Hbb : rawlen (b, w) <= 5 + value_size w) by (unfold rawlen; cbn [fst snd]; pose proof (psize_pos b); lia).
  pose proof (tail_off_le ((b, w) :: es)) as Hto. cbn [sizes] in Hto. pose proof (tail_off_le (e :: es)) as Hto'. cbn [sizes] in Hto'.
  unfold P. rewrite <-!app_assoc, head_tail by (unfold t; lia). cbn [mbind option_bind]. rewrite head_set_tail. cbn [mbind option_bind]. rewrite u32_small by (unfold t; lia).
  set (zl1 := head l (t + reqlen) n ++ _). assert (H1 : zl1 = head l (t + reqlen) n ++ (A ++ G) ++ ebytes reqlen e ++ lay (rawlen (b, w)) es ++ [ZIP_END]).
  { unfold zl1, V, ebytes, e, refield. cbn [fst snd]. by rewrite <-!app_assoc. }
  assert (Hz : zlen (A ++ G) = zlen A + reqlen) by (rewrite length_app; lia).
  assert (He : at_ zl1 (10 + zlen A + reqlen) (ebytes reqlen e)) by (rewrite H1; apply at_entry; rewrite Hz, zlen_head; lia).
  rewrite (zipEntry_spec _ _ reqlen e He) by (done || by apply refield_fits; lia). cbn [mbind option_bind headersize len].
  replace (10 + zlen A + (reqlen + (psize e.1 + zlen (header e.2)) + zlen (data e.2))) with (10 + zlen (A ++ G) + rawlen e) by (unfold rawlen, value_size; lia).
  assert (Htl : 10 + zlen (A ++ G) + tail_off (e :: es) = t + reqlen + match es with [] => 0 | _ => shift_of b reqlen end).
  { unfold t. cbn [tail_off]. destruct es; [lia|]. rewrite Hel. lia. }
  assert (Hres : forall t', t' = tail_of (A ++ G) e es -> head l t' n ++ (A ++ G) ++ ebytes reqlen e ++ lay (rawlen (b, w)) es ++ [ZIP_END] = laid (A ++ G) reqlen e (rawlen (b, w)) es n).
  { intros t' ->. unfold laid, l. f_equal. f_equal. lia. }
  destruct es as [|f es].
  - assert (Hend : at_ zl1 (10 + zlen (A ++ G) + rawlen e) [ZIP_END]) by (rewrite H1; cbn [lay app]; rewrite <-(app_nil_r [ZIP_END]); by apply at_next).
    rewrite (at_head _ _ _ _ Hend). cbn [mbind option_bind]. rewrite Z.eqb_refl, H1. cbn [negb]. f_equal. apply Hres. unfold tail_of. lia.
  - assert (Hn : at_ zl1 (10 + zlen (A ++ G) + rawlen e) (ebytes (rawlen (b, w)) f)) by (rewrite H1; cbn [lay]; rewrite <-(app_assoc (ebytes (rawlen (b, w)) f)); by apply at_next).
    destruct (entry_not_end _ _ _ _ Hn (proj1 Hes)) as (c' & -> & Hc'). cbn [mbind option_bind]. rewrite Hc'. cbn [negb]. rewrite H1, head_tail by (unfold t; lia). cbn [mbind option_bind].
    rewrite head_set_tail. f_equal. apply Hres. unfold tail_of. rewrite u32_small by (cbn [tail_off] in *; lia). lia.
Qed.

(** ** The whole list *)

Definition block (es : list ent) (n : Z) : list Z := head (11 + sizes es) (10 + tail_off es) n ++ lay 0 es ++ [ZIP_END].

Lemma block_laid es1 e es2 n : block (es1 ++ e :: es2) n = laid (lay 0 es1) (last_len 0 es1) e (rawlen e) es2 n.
Proof.
  unfold block, laid, tail_of. rewrite sizes_app, tail_off_app, lay_app, zlen_lay by done. cbn [sizes lay]. rewrite <-!app_assoc. do 2 f_equal; lia.
Qed.
Lemma at_block es1 e es2 n : at_ (block (es1 ++ e :: es2) n) (10 + sizes es1) (ebytes (last_len 0 es1) e).
Proof. rewrite block_laid. apply at_entry. by rewrite zlen_lay. Qed.
Lemma at_block_end es n : at_ (block es n) (10 + sizes es) [ZIP_END].
Proof. unfold block. rewrite app_assoc, <-(app_nil_r [ZIP_END]). apply at_mid. rewrite length_app, Nat2Z.inj_add, zlen_lay, zlen_head. lia. Qed.
Lemma fits_mid es1 e es2 : fits 0 (es1 ++ e :: es2) -> prev_fits e.1 (last_len 0 es1) /\ val_ok e.2 /\ fits (rawlen e) es2.
Proof. intros H%fits_app. apply H. Qed.
Lemma rawlen_cap e : rawlen e <= 5 + value_size e.2.
Proof. unfold rawlen. pose proof (psize_pos e.1). lia. Qed.
Lemma cap_nonneg es : 0 <= cap es.
Proof. pose proof (sizes_cap es). pose proof (sizes_nonneg es). lia. Qed.
Lemma last_len_range es l : 0 <= l -> 11 + cap es < 2 ^ 32 -> l < 2 ^ 32 -> 0 <= last_len l es < 2 ^ 32.
Proof.
  revert l. induction es as [|e es IH]; intros l H0 Hc Hl; [done|]. cbn [last_len cap] in *. pose proof (rawlen_cap e). pose proof (rawlen_pos e). pose proof (cap_nonneg es). pose proof (value_size_pos e.2). apply IH; lia.
Qed.

Lemma block_bytes es n : 11 + cap es < 2 ^ 32 -> ZIPLIST_BYTES (block es n) = Some (11 + sizes es).
Proof. intros. pose proof (sizes_cap es). pose proof (sizes_nonneg es). apply head_bytes. lia. Qed.
Lemma block_tail es n : 11 + cap es < 2 ^ 32 -> ZIPLIST_TAIL_OFFSET (block es n) = Some (10 + tail_off es).
Proof. intros. pose proof (sizes_cap es). pose proof (tail_off_le es). apply head_tail. lia. Qed.

Lemma insert_prevlen_spec es1 es2 n : fits 0 (es1 ++ es2) -> 11 + cap (es1 ++ es2) < 2 ^ 32 ->
  insert_prevlen (block (es1 ++ es2) n) (10 + sizes es1) = Some (last_len 0 es1).
Proof.
  intros Hf Hc. unfold insert_prevlen. destruct es2 as [|e es2].
  - rewrite app_nil_r in *. rewrite (at_head _ _ _ _ (at_block_end es1 n)). cbn [mbind option_bind]. rewrite Z.eqb_refl. cbn [negb].
    rewrite block_tail by done. cbn [mbind option_bind].
    destruct es1 as [|e es1 _] using rev_ind; [done|]. rewrite tail_off_snoc. pose proof (at_block es1 e [] n) as Ha. destruct (fits_mid es1 e [] Hf) as (Hp & Hv & _).
    destruct (entry_not_end _ _ _ _ Ha Hp) as (c & -> & Hc'). cbn [mbind option_bind]. rewrite Hc'. cbn [negb]. rewrite (zipRawEntryLength_spec _ _ _ _ Ha Hp Hv).
    + by rewrite last_len_snoc.
    + rewrite cap_app in Hc. cbn [cap] in Hc. pose proof (rawlen_cap e). pose proof (cap_nonneg es1). lia.
  - destruct (fits_mid es1 e es2 Hf) as (Hp & _ & _). pose proof (at_block es1 e es2 n) as Ha. destruct (entry_not_end _ _ _ _ Ha Hp) as (c & -> & Hc'). cbn [mbind option_bind]. rewrite Hc'. cbn [negb].
    unfold ebytes in Ha. apply at_app in Ha as [Ha _]. by rewrite (decode_prevlen _ _ _ _ Ha Hp).
Qed.

(** The entries behind one of size [l] that has been put in front of them. *)
Definition after_insert (l : Z) (es : list ent) : list ent :=
  match es with [] => [] | (b, w) :: es => refield b w l :: widen (rawlen (refield b w l)) es end.
Definition count_up (n : Z) : Z := if n <? UINT16_MAX then n + 1 else n.

Lemma incr_length_spec b t n l : 0 <= n <= UINT16_MAX -> ZIPLIST_INCR_LENGTH (head b t n ++ l) 1 = Some (head b t (count_up n) ++ l).
Proof.
  unfold UINT16_MAX. intros H. unfold ZIPLIST_INCR_LENGTH, count_up. rewrite head_length by lia. cbn [mbind option_bind]. destruct (Z.ltb_spec n UINT16_MAX); [|done].
  rewrite head_set_length, u16_small; [done|]. unfold UINT16_MAX in *. lia.
Qed.

Section Insert.
  Context (junk : Z -> Z).

Lemma resize_room b t n X l : 11 + zlen X <= l < 2 ^ 32 ->
  exists F, zlen F = l - 11 - zlen X /\ ziplistResize junk (head b t n ++ X ++ [ZIP_END]) l = Some (head l t n ++ X ++ F ++ [ZIP_END]).
Proof.
  intros Hl. destruct (decide (l = 11 + zlen X)) as [E|E].
  - exists []. split; [cbn [length]; lia|]. by apply (resize_shrink junk b t n X ZIP_END []); [|lia].
  - destruct (resize_grow junk b t n (X ++ [ZIP_END]) l) as (F & HF & ->); [rewrite length_app; cbn [length]; lia|]. rewrite length_app in HF. cbn [length] in HF.
    exists (ZIP_END :: F). split; [cbn [length]; lia|]. by rewrite <-!app_assoc.
Qed.

(** The list with room for an entry of [l] bytes in front of [es2], the room being
    [G]. *)
Definition roomy (es1 es2 : list ent) (l n : Z) (G : list Z) : list Z :=
  head (11 + sizes es1 + l + sizes (after_insert l es2))
    (10 + match after_insert l es2 with [] => sizes es1 | es => sizes es1 + l + tail_off es end) n ++
  lay 0 es1 ++ G ++ lay l (after_insert l es2) ++ [ZIP_END].

Lemma roomy_block es1 es2 e n : roomy es1 es2 (rawlen e) n (ebytes (last_len 0 es1) e) = block (es1 ++ e :: after_insert (rawlen e) es2) n.
Proof.
  unfold roomy, block. rewrite sizes_app, tail_off_app, lay_app by done. cbn [sizes lay tail_off]. rewrite <-!app_assoc. do 2 f_equal; [lia|].
  destruct (after_insert (rawlen e) es2); [lia|]. cbn [tail_off]. lia.
Qed.
Lemma roomy_laid es1 b w es l n G : zlen G = l -> let e := refield b w l in
  laid (lay 0 es1 ++ G) l e (rawlen e) (widen (rawlen e) es) n = roomy es1 ((b, w) :: es) l n G.
Proof.
  intros HG e. unfold laid, roomy, tail_of. cbn [after_insert lay sizes]. fold e. rewrite length_app, Nat2Z.inj_add, zlen_lay, HG, <-!app_assoc. do 2 f_equal; lia.
Qed.

(** From the resizing to the cascade. *)
Lemma make_room es1 es2 n l : 2 <= l -> fits 0 (es1 ++ es2) -> 11 + cap (es1 ++ es2) + l < 2 ^ 32 ->
  exists G, zlen G = l /\
  (c ← bget (block (es1 ++ es2) n) (10 + sizes es1);
   nextdiff ← (if negb (c =? ZIP_END) then zipPrevLenByteDiff (block (es1 ++ es2) n) (10 + sizes es1) (u32 l) else Some 0);
   let forcelarge := (nextdiff =? -4) && (l <? 4) in
   let nextdiff := if forcelarge then 0 else nextdiff in
   zl ← ziplistResize junk (block (es1 ++ es2) n) (u32 (11 + sizes (es1 ++ es2) + l + nextdiff));
   zl ← insert_gap zl (10 + sizes es1) (11 + sizes (es1 ++ es2)) l nextdiff forcelarge;
   if negb (nextdiff =? 0) then __ziplistCascadeUpdate junk zl (10 + sizes es1 + l) else Some zl) = Some (roomy es1 es2 l n G).
Proof.
  intros Hl Hf Hc. pose proof (sizes_cap (es1 ++ es2)) as Hsc. pose proof (sizes_nonneg es1) as H1. pose proof (sizes_nonneg es2) as H2. rewrite cap_app in Hc. pose proof (cap_nonneg es1) as Hc1.
  pose proof (sizes_cap es1) as Hsc1. rewrite cap_app, sizes_app in Hsc. destruct es2 as [|[b w] es].
  - rewrite !app_nil_r in *. rewrite (at_head _ _ _ _ (at_block_end es1 n)). cbn [mbind option_bind]. rewrite Z.eqb_refl. cbn [negb mbind option_bind]. cbv zeta.
    change ((0 =? -4) && (l <? 4)) with false. cbv iota. cbn [cap sizes] in *. rewrite u32_small by lia.
    destruct (resize_grow junk (11 + sizes es1) (10 + tail_off es1) n (lay 0 es1 ++ [ZIP_END]) (11 + sizes es1 + l + 0)) as (F & HF & E); [rewrite length_app, Nat2Z.inj_add, zlen_lay; cbn [length]; lia|].
    unfold block. rewrite E. cbn [mbind option_bind]. rewrite length_app, Nat2Z.inj_add, zlen_lay in HF. cbn [length] in HF.
    unfold insert_gap. assert (Hend : at_ (head (11 + sizes es1 + l + 0) (10 + tail_off es1) n ++ (lay 0 es1 ++ [ZIP_END]) ++ F ++ [ZIP_END]) (10 + sizes es1) [ZIP_END]).
    { rewrite <-app_assoc, app_assoc. apply at_mid. rewrite length_app, Nat2Z.inj_add, zlen_lay, zlen_head. lia. }
    rewrite (at_head _ _ _ _ Hend). cbn [mbind option_bind]. change (ZIP_END =? ZIP_END) with true. change (0 =? 0) with true. cbn [negb]. rewrite head_set_tail. cbn [mbind option_bind]. exists ([ZIP_END] ++ F). split; [rewrite length_app; cbn [length]; lia|]. f_equal. unfold roomy. cbn [after_insert lay sizes app].
    rewrite u32_small by lia. rewrite <-!app_assoc. cbn [app]. do 2 f_equal.
  - destruct (fits_mid es1 (b, w) es Hf) as (Hp & Hw & Hes). cbn [fst snd] in Hp, Hw. pose proof (at_block es1 (b, w) es n) as Ha. cbn [cap snd sizes] in *.
    destruct (entry_not_end _ _ _ _ Ha Hp) as (c & -> & Hc'). cbn [mbind option_bind]. rewrite Hc'. cbn [negb].
    unfold zipPrevLenByteDiff. pose proof Ha as Ha'. unfold ebytes in Ha'. apply at_app in Ha' as [Ha' _]. rewrite (decode_prevlensize _ _ _ _ Ha' Hp). cbn [mbind option_bind fst]. clear Ha'.
    pose proof (cap_nonneg es) as Hce. pose proof (value_size_pos w) as Hvw. rewrite (u32_small l), size_for by lia. rewrite i32_small by (pose proof (psize_pos (big_for l)); pose proof (psize_pos b); lia).
    destruct (nextdiff_of b l) as (End & _ & _). cbv zeta in End |- *. rewrite End. set (fl := (psize (big_for l) - psize b =? -4) && (l <? 4)) in *.
    assert (Hsh : 0 <= l + shift_of b l) by (by apply shift_room). pose proof (rawlen_cap (refield b w l)) as Hre. rewrite refield_len in Hre. cbn [refield snd] in Hre. pose proof (sizes_cap es) as Hses.
    pose proof (rawlen_pos (b, w)) as Hrp. rewrite sizes_app. cbn [sizes]. rewrite u32_small by lia. rewrite block_laid. unfold laid.
    set (X := lay 0 es1 ++ ebytes (last_len 0 es1) (b, w) ++ lay (rawlen (b, w)) es). assert (HX : zlen X = sizes es1 + rawlen (b, w) + sizes es) by (unfold X; rewrite !length_app, !Nat2Z.inj_add, !zlen_lay, zlen_ebytes; lia).
    set (l' := 11 + (sizes es1 + (rawlen (b, w) + sizes es)) + l + shift_of b l).
    destruct (resize_room (11 + zlen (lay 0 es1) + rawlen (b, w) + sizes es) (tail_of (lay 0 es1) (b, w) es) n X l') as (F & HF & E); [unfold l'; lia|].
    unfold X in E at 1. rewrite <-!app_assoc in E. rewrite E. cbn [mbind option_bind].
    destruct (insert_gap_spec (lay 0 es1) b w (last_len 0 es1) l es n F) as (G & HG & Eg); [done|done|done|done|unfold l' in HF; lia|rewrite zlen_lay; lia|].
    exists G. split; [done|]. rewrite zlen_lay, refield_len in Eg. fold fl in Eg.
    replace (11 + sizes es1 + l + (rawlen (b, w) + shift_of b l) + sizes es) with l' in Eg by (unfold l'; lia). unfold tail_of, X. rewrite zlen_lay, <-!app_assoc.
    replace (11 + (sizes es1 + (rawlen (b, w) + sizes es))) with (11 + sizes es1 + rawlen (b, w) + sizes es) by lia. rewrite Eg. cbn [mbind option_bind].
    rewrite <-(roomy_laid es1 b w es l n G HG). pose proof (refield_fits b w l ltac:(lia)) as Hrf. destruct (Z.eqb_spec (shift_of b l) 0) as [H0|H0]; cbn [negb].
    + replace (rawlen (refield b w l)) with (rawlen (b, w)) by (rewrite refield_len; lia). by rewrite widen_fits_id.
    + replace (10 + sizes es1 + l) with (10 + zlen (lay 0 es1 ++ G)) by (rewrite length_app, Nat2Z.inj_add, zlen_lay; lia). apply cascade_spec; [done|done|done|].
      rewrite length_app, Nat2Z.inj_add, zlen_lay. cbn [cap refield snd]. lia.
Qed.

Lemma write_room es1 es2 n G s : bytes_ok s -> zlen s < 2 ^ 32 -> 0 <= n <= UINT16_MAX -> let e := (big_for (last_len 0 es1), value_of s) in zlen G = rawlen e ->
  let '(v, enc) := default (123456789, 0) (encoded (value_of s)) in
  (zl ← write_entry (roomy es1 es2 (rawlen e) n G) (10 + sizes es1) (last_len 0 es1) s (zlen s) v enc; ZIPLIST_INCR_LENGTH zl 1) =
  Some (block (es1 ++ e :: after_insert (rawlen e) es2) (count_up n)).
Proof.
  intros Hb Hl Hn e HG. unfold roomy. set (H := head _ _ n). set (R := lay (rawlen e) _ ++ [ZIP_END]).
  pose proof (write_entry_spec (H ++ lay 0 es1) G R (last_len 0 es1) s Hb Hl HG) as Hw. destruct (default (123456789, 0) (encoded (value_of s))) as [v enc].
  rewrite length_app, Nat2Z.inj_add, zlen_lay in Hw. unfold H in Hw at 2. rewrite zlen_head, <-!app_assoc in Hw. rewrite Hw. cbn [mbind option_bind]. unfold H.
  rewrite incr_length_spec by done. rewrite <-roomy_block. unfold roomy. done.
Qed.

(** __ziplistInsert puts the string in front of the entries [es2]. *)
Lemma ziplistInsert_spec es1 es2 n s : bytes_ok s -> zlen s < 2 ^ 32 -> fits 0 (es1 ++ es2) -> 0 <= n <= UINT16_MAX ->
  let e := (big_for (last_len 0 es1), value_of s) in 11 + cap (es1 ++ e :: es2) < 2 ^ 32 ->
  __ziplistInsert junk (block (es1 ++ es2) n) (10 + sizes es1) s (zlen s) = Some (block (es1 ++ e :: after_insert (rawlen e) es2) (count_up n)).
Proof.
  intros Hb Hl Hf Hn e Hc. pose proof (rawlen_cap e) as Hre. pose proof (rawlen_pos e) as Hrp. rewrite cap_app in Hc. cbn [cap] in Hc. pose proof (cap_app es1 es2) as Hc'.
  assert (0 <= last_len 0 es1 < 2 ^ 32) as Hll by (apply last_len_range; pose proof (cap_nonneg es2); lia).
  unfold __ziplistInsert. rewrite block_bytes by lia. cbn [mbind option_bind]. rewrite insert_prevlen_spec by (done || lia). cbn [mbind option_bind].
  destruct (zipTryEncoding_spec s) as (-> & _). cbn [mbind option_bind]. pose proof (value_enc s) as Hv. destruct (make_room es1 es2 n (rawlen e)) as (G & HG & Hm); [done|done|lia|].
  pose proof (write_room es1 es2 n G s Hb Hl Hn HG) as Hw. fold e in Hw. destruct (default (123456789, 0) (encoded (value_of s))) as [v enc]. destruct (Hv Hb Hl) as (Eh & _ & Es).
  rewrite Es. cbn [mbind option_bind]. unfold zipStoreEntryEncoding_size. rewrite Eh, size_for.
  replace (zlen (data (value_of s)) + psize (big_for (last_len 0 es1)) + zlen (header (value_of s))) with (rawlen e) by (unfold rawlen, value_size, e; cbn [fst snd]; lia).
  do 2 same_call Hm. cbv zeta in Hm |- *. do 2 same_call Hm.
  rewrite Hm. cbn [mbind option_bind]. exact Hw.
Qed.

Lemma after_insert_cap l es : cap (after_insert l es) = cap es.
Proof. destruct es as [|[b w] es]; [done|]. cbn [after_insert cap refield snd]. by rewrite widen_cap. Qed.
Lemma after_insert_values l es : (after_insert l es).*2 = es.*2.
Proof. destruct es as [|[b w] es]; [done|]. cbn [after_insert fmap list_fmap refield snd]. f_equal. apply widen_values. Qed.
Lemma after_insert_fits l es : 0 <= l < 2 ^ 32 -> 11 + cap es < 2 ^ 32 -> tail_fits es -> fits l (after_insert l es).
Proof.
  intros Hl Hc H. destruct es as [|[b w] es]; [done|]. destruct H as [Hw H]. cbn [cap snd] in *. split; [by apply refield_fits|]. split; [done|].
  pose proof (rawlen_cap (refield b w l)) as Hr. pose proof (rawlen_pos (refield b w l)). cbn [refield snd] in Hr. pose proof (cap_nonneg es). pose proof (value_size_pos w).
  apply widen_fits; [unfold refield in *; lia|lia|by eapply fits_tail].
Qed.
End Insert.
