(* ===== verification/ZipDelete.v ===== *)
(** __ziplistDelete: the entries that go, the next entry's field, which may take
    more or less room than before, and the list afterwards. *)

From S2P Require Import Prelude Decimal Util Ziplist ZipRep ZipUpdate ZipInsert.
#[local] Open Scope Z_scope.

Lemma fits_raw prev es e : fits prev es -> e ∈ es -> val_ok e.2.
Proof.
  revert prev. induction es as [|f es IH]; intros prev Hf He; [by apply not_elem_of_nil in He|]. destruct Hf as (_ & Hv & Hf).
  apply elem_of_cons in He as [->|He]; [done|by eapply IH].
Qed.

Lemma raw_at es1 e es2 n : fits 0 (es1 ++ e :: es2) -> 11 + cap (es1 ++ e :: es2) < 2 ^ 32 ->
  zipRawEntryLength (block (es1 ++ e :: es2) n) (10 + sizes es1) = Some (rawlen e).
Proof.
  intros Hf Hc. destruct (fits_mid es1 e es2 Hf) as (Hp & Hv & _). apply (zipRawEntryLength_spec _ _ (last_len 0 es1)); [apply at_block|done|done|].
  rewrite cap_app in Hc. cbn [cap] in Hc. pose proof (rawlen_cap e). pose proof (cap_nonneg es1). pose proof (cap_nonneg es2). lia.
Qed.
Lemma not_end_at es1 e es2 n : fits 0 (es1 ++ e :: es2) -> exists c, bget (block (es1 ++ e :: es2) n) (10 + sizes es1) = Some c /\ (c =? ZIP_END) = false.
Proof. intros Hf. destruct (fits_mid es1 e es2 Hf) as (Hp & _ & _). apply (entry_not_end _ _ (last_len 0 es1) e); [apply at_block|done]. Qed.
Lemma end_at es n : bget (block es n) (10 + sizes es) = Some ZIP_END.
Proof. apply (at_head _ _ _ _ (at_block_end es n)). Qed.
Lemma block_length es n : zlen (block es n) = 11 + sizes es.
Proof. unfold block. rewrite !length_app, !Nat2Z.inj_add, zlen_lay, zlen_head. cbn [length]. lia. Qed.
Lemma block_fuel es n : (length es < length (block es n))%nat.
Proof. pose proof (block_length es n). pose proof (sizes_length es). lia. Qed.

Lemma delete_range_spec fuel : forall rest es1 n num i, (length rest < fuel)%nat -> fits 0 (es1 ++ rest) -> 11 + cap (es1 ++ rest) < 2 ^ 32 -> 0 <= i <= num ->
  delete_loop fuel (block (es1 ++ rest) n) (10 + sizes es1) num i =
  Some (10 + sizes es1 + sizes (take (Z.to_nat (num - i)) rest), i + zlen (take (Z.to_nat (num - i)) rest)).
Proof.
  induction fuel as [|fuel IH]; intros rest es1 n num i Hl Hf Hc Hi; [lia|]. cbn [delete_loop]. destruct rest as [|e rest].
  - rewrite app_nil_r, end_at, take_nil. cbn [mbind option_bind]. rewrite Z.eqb_refl. cbn [negb andb sizes length]. do 2 f_equal; lia.
  - destruct (not_end_at es1 e rest n Hf) as (c & -> & Hc'). cbn [mbind option_bind]. rewrite Hc'. cbn [negb andb]. destruct (Z.ltb_spec i num).
    + rewrite raw_at by done. cbn [mbind option_bind]. specialize (IH rest (es1 ++ [e]) n num (i + 1)). rewrite <-app_assoc, sizes_app in IH. cbn [app sizes length] in *.
      replace (10 + (sizes es1 + (rawlen e + 0))) with (10 + sizes es1 + rawlen e) in IH by lia. rewrite IH by (done || lia).
      replace (Z.to_nat (num - i)) with (S (Z.to_nat (num - (i + 1)))) by lia. cbn [take sizes length]. do 2 f_equal; lia.
    + replace (Z.to_nat (num - i)) with O by lia. rewrite take_0. cbn [sizes length]. do 2 f_equal; lia.
Qed.

(** The entries behind the deleted ones, the one in front being of size [l]. *)
Definition after_delete (l : Z) (es : list ent) : list ent :=
  match es with [] => [] | (b, w) :: es => (big_for l, w) :: widen (rawlen (big_for l, w)) es end.
Definition count_down (n k : Z) : Z := if n <? UINT16_MAX then n - k else n.

(** The count does not fall below zero. *)
Definition countable (n k : Z) : Prop := 0 <= n <= UINT16_MAX /\ 0 <= k /\ (n < UINT16_MAX -> k <= n).

Lemma decr_length_spec b t n k l : countable n k -> ZIPLIST_INCR_LENGTH (head b t n ++ l) (u32 (- k)) = Some (head b t (count_down n k) ++ l).
Proof.
  unfold countable, UINT16_MAX. intros (Hn & Hk & H). unfold ZIPLIST_INCR_LENGTH, count_down. rewrite head_length by lia. cbn [mbind option_bind]. unfold UINT16_MAX. destruct (Z.ltb_spec n 65535); [|done].
  specialize (H ltac:(lia)). rewrite head_set_length. do 3 f_equal. mlia.
Qed.

(** The field of the next entry is written in front of it, over the end of [D] if
    it needs more room. *)
Lemma refit D b pl V nb l P : big_for l = nb -> (nb = true -> b = false -> 4 <= zlen D) ->
  exists J, zlen J = zlen D - (psize nb - psize b) /\
    zipStorePrevEntryLength (P ++ D ++ prev_bytes b pl ++ V) (zlen P + zlen D - (psize nb - psize b)) l = Some (psize nb, P ++ J ++ prev_bytes nb l ++ V).
Proof.
  intros <- Hd. pose proof (zlen_prev_bytes b pl) as Hb. pose proof (psize_pos (big_for l)) as Hnb.
  destruct (split_len (D ++ prev_bytes b pl) (zlen D - (psize (big_for l) - psize b))) as (J & X & E & HJ).
  { rewrite length_app. destruct b, (big_for l); cbn [psize] in *; try specialize (Hd eq_refl eq_refl); lia. }
  exists J. split; [done|]. rewrite (app_assoc D), E, <-app_assoc. pose proof (f_equal length E) as El. rewrite !length_app in El.
  rewrite (app_assoc P). rewrite store_prev; [by rewrite <-app_assoc|rewrite length_app; lia|lia].
Qed.

Section Delete.
  Context (junk : Z -> Z).

(** The case that no entry is left behind the deleted ones. *)
Lemma delete_tail es1 ds n k : ds <> [] -> 11 + cap (es1 ++ ds) < 2 ^ 32 -> countable n k ->
  (zl ← set_TAIL_OFFSET (block (es1 ++ ds) n) (u32 (10 + sizes es1 - last_len 0 es1));
   bytes ← ZIPLIST_BYTES zl;
   zl ← ziplistResize junk zl (u32 (bytes - sizes ds + 0));
   ZIPLIST_INCR_LENGTH zl (u32 (- k))) = Some (block es1 (count_down n k)).
Proof.
  intros Hds Hc Hk. pose proof (sizes_cap (es1 ++ ds)) as Hs. pose proof (sizes_nonneg es1) as H1. pose proof (sizes_nonneg ds) as H2. pose proof (sizes_app es1 ds) as Ha.
  unfold block. rewrite head_set_tail. cbn [mbind option_bind]. rewrite head_bytes by lia. cbn [mbind option_bind].
  assert (Ht : 10 + sizes es1 - last_len 0 es1 = 10 + tail_off es1).
  { destruct es1 as [|e es1 _] using rev_ind; [done|]. rewrite last_len_snoc, sizes_app, tail_off_snoc. cbn [sizes]. lia. }
  rewrite Ht. pose proof (tail_off_le es1). rewrite (u32_small (10 + tail_off es1)), (u32_small (11 + sizes (es1 ++ ds) - sizes ds + 0)) by lia. rewrite lay_app, <-app_assoc. set (D := lay (last_len 0 es1) ds). assert (HD : zlen D = sizes ds) by apply zlen_lay.
  destruct D as [|x D]. { destruct ds as [|e ds]; [done|]. cbn [sizes length] in HD. pose proof (rawlen_pos e). pose proof (sizes_nonneg ds). lia. }
  cbn [app]. rewrite (resize_shrink junk _ _ n (lay 0 es1) x (D ++ [ZIP_END])) by (rewrite ?zlen_lay; lia). cbn [mbind option_bind].
  rewrite decr_length_spec by done. do 3 f_equal. lia.
Qed.

Lemma refield_step b w l : rawlen (big_for l, w) = rawlen (b, w) + (psize (big_for l) - psize b).
Proof. unfold rawlen. cbn [fst snd]. lia. Qed.

(** The case that an entry follows. *)
Lemma delete_inner es1 ds b w es n k : ds <> [] -> fits 0 (es1 ++ ds ++ (b, w) :: es) -> 11 + cap (es1 ++ ds ++ (b, w) :: es) < 2 ^ 32 -> countable n k ->
  let prev := last_len 0 es1 in let zl := block (es1 ++ ds ++ (b, w) :: es) n in let first := 10 + sizes es1 in let p := first + sizes ds in let totlen := sizes ds in
  exists nextdiff,
  (nextdiff ← zipPrevLenByteDiff zl p prev;
   let p := p - nextdiff in
   '(_, zl) ← zipStorePrevEntryLength zl p prev;
   tail_offset ← ZIPLIST_TAIL_OFFSET zl;
   zl ← set_TAIL_OFFSET zl (u32 (tail_offset - totlen));
   tail ← zipEntry zl p;
   c ← bget zl (p + u32 (headersize tail + len tail));
   zl ← (if negb (c =? ZIP_END) then t ← ZIPLIST_TAIL_OFFSET zl; set_TAIL_OFFSET zl (u32 (t + nextdiff)) else Some zl);
   bytes ← ZIPLIST_BYTES zl;
   zl ← bmove zl first p (bytes - p - 1);
   bytes ← ZIPLIST_BYTES zl;
   zl ← ziplistResize junk zl (u32 (bytes - totlen + nextdiff));
   zl ← ZIPLIST_INCR_LENGTH zl (u32 (- k));
   Some (zl, nextdiff)) = Some (laid (lay 0 es1) prev (big_for prev, w) (rawlen (b, w)) es (count_down n k), nextdiff) /\
  (nextdiff = 0 -> rawlen (big_for prev, w) = rawlen (b, w)).
Proof.
  intros Hds Hf Hc Hk prev zl first p totlen. set (nb := big_for prev). set (nd := psize nb - psize b). exists nd.
  assert (Hrf : rawlen (nb, w) = rawlen (b, w) + nd) by apply refield_step. split; [|intros H0; rewrite Hrf; lia].
  rewrite app_assoc in Hf, Hc. pose proof (at_block (es1 ++ ds) (b, w) es n) as Ha. rewrite sizes_app, <-app_assoc in Ha. destruct (fits_mid _ _ _ Hf) as (Hp & Hw & Hes). cbn [fst snd] in Hp, Hw.
  rewrite <-app_assoc in Hf, Hc. rewrite !cap_app in Hc. cbn [cap snd] in Hc. pose proof (cap_nonneg es1) as Hc1. pose proof (cap_nonneg es) as Hc3. pose proof (sizes_cap es1) as Hs1. pose proof (sizes_cap ds) as Hs2. pose proof (sizes_cap es) as Hs3.
  pose proof (sizes_nonneg es1) as H1. pose proof (sizes_nonneg ds) as H2. pose proof (sizes_nonneg es) as H3. pose proof (value_size_pos w) as Hvw. pose proof (rawlen_cap (b, w)) as Hrb. pose proof (rawlen_cap (nb, w)) as Hrn. pose proof (rawlen_pos (nb, w)) as Hrn'. pose proof (rawlen_pos (b, w)) as Hrb'. cbn [snd] in Hrb, Hrn.
  assert (Hprev : 0 <= prev < 2 ^ 32) by (apply last_len_range; lia). pose proof (big_for_fits prev Hprev) as Hpf. fold nb in Hpf.
  assert (Hroom : nb = true -> b = false -> 4 <= zlen (lay prev ds)).
  { intros Enb _. rewrite zlen_lay. destruct ds as [|d ds]; [done|]. apply fits_app in Hf as [_ [[_ Hd] _]]. fold prev in Hd. cbn [sizes]. pose proof (sizes_nonneg ds). unfold rawlen. pose proof (value_size_pos d.2).
    destruct d.1; cbn [psize]; [lia|]. specialize (Hd eq_refl). unfold nb, big_for in Enb. by rewrite (proj2 (Z.ltb_lt _ _) Hd) in Enb. }
  set (B := 11 + sizes es1 + sizes ds + rawlen (b, w) + sizes es). set (T := 10 + sizes es1 + sizes ds + tail_off ((b, w) :: es)). set (V := (header w ++ data w) ++ lay (rawlen (b, w)) es).
  assert (HV : zlen V = value_size w + sizes es) by (unfold V; rewrite !length_app, !Nat2Z.inj_add, zlen_lay; unfold value_size; lia).
  set (pl := last_len prev ds). assert (Ezl : forall t, head B t n ++ lay 0 es1 ++ lay prev ds ++ prev_bytes b pl ++ V ++ [ZIP_END] = head B t n ++ lay 0 (es1 ++ ds ++ (b, w) :: es) ++ [ZIP_END]).
  { intros t. rewrite !lay_app. fold prev. cbn [lay]. fold pl. unfold V, ebytes. cbn [fst snd]. by rewrite <-!app_assoc. }
  assert (EB : zl = head B T n ++ lay 0 es1 ++ lay prev ds ++ prev_bytes b pl ++ V ++ [ZIP_END]).
  { rewrite Ezl. unfold zl, block. rewrite !sizes_app, !tail_off_app by (by destruct ds). cbn [sizes]. unfold B, T. do 2 f_equal; lia. }
  (* the field of the next entry *)
  assert (Ed : zipPrevLenByteDiff zl p prev = Some nd).
  { unfold zipPrevLenByteDiff. unfold ebytes in Ha. apply at_app in Ha as [Ha _]. unfold zl, p, first. rewrite <-Z.add_assoc. rewrite (decode_prevlensize _ _ _ _ Ha Hp). cbn [mbind option_bind fst].
    rewrite size_for. fold nb nd. rewrite i32_small; [done|]. unfold nd. pose proof (psize_pos nb). pose proof (psize_pos b). lia. }
  rewrite Ed. cbn [mbind option_bind]. set (P := head B T n ++ lay 0 es1). assert (HP : zlen P = first) by (unfold P; rewrite length_app, Nat2Z.inj_add, zlen_lay, zlen_head; done).
  destruct (refit (lay prev ds) b pl (V ++ [ZIP_END]) nb prev P eq_refl Hroom) as (J & HJ & Est). rewrite zlen_lay, HP in Est. rewrite zlen_lay in HJ. fold nd in HJ, Est.
  rewrite EB. unfold P in Est. rewrite <-!app_assoc in Est. unfold p, totlen. rewrite Est. cbn [mbind option_bind].
  (* the offset of the tail *)
  pose proof (tail_off_le ((b, w) :: es)) as Hto. pose proof (tail_off_le ((nb, w) :: es)) as Hto'. cbn [sizes] in Hto, Hto'.
  rewrite head_tail by (unfold T; lia). cbn [mbind option_bind]. rewrite head_set_tail. cbn [mbind option_bind]. rewrite (u32_small (T - sizes ds)) by (unfold T; lia).
  set (zl1 := head B (T - sizes ds) n ++ _). assert (E1 : zl1 = head B (T - sizes ds) n ++ (lay 0 es1 ++ J) ++ ebytes prev (nb, w) ++ lay (rawlen (b, w)) es ++ [ZIP_END]).
  { unfold zl1, V, ebytes. cbn [fst snd]. by rewrite <-!app_assoc. }
  assert (He : at_ zl1 (first + sizes ds - nd) (ebytes prev (nb, w))) by (rewrite E1; apply at_entry; rewrite length_app, Nat2Z.inj_add, zlen_lay, zlen_head; unfold first; lia).
  rewrite (zipEntry_spec _ _ prev (nb, w) He Hpf Hw). cbn [mbind option_bind headersize len]. rewrite raw_of_entry by lia.
  assert (Ht' : 10 + sizes es1 + tail_off ((nb, w) :: es) = T - sizes ds + match es with [] => 0 | _ => nd end) by (unfold T; cbn [tail_off]; destruct es; lia).
  set (zl2 := head B (10 + sizes es1 + tail_off ((nb, w) :: es)) n ++ lay 0 es1 ++ J ++ (prev_bytes nb prev ++ V) ++ [ZIP_END]).
  assert (Etail : (c ← bget zl1 (first + sizes ds - nd + rawlen (nb, w)); if negb (c =? ZIP_END) then t ← ZIPLIST_TAIL_OFFSET zl1; set_TAIL_OFFSET zl1 (u32 (t + nd)) else Some zl1) = Some zl2).
  { assert (Hres : zl2 = head B (T - sizes ds + match es with [] => 0 | _ => nd end) n ++ lay 0 es1 ++ J ++ (prev_bytes nb prev ++ V) ++ [ZIP_END]) by (unfold zl2; by rewrite Ht').
    assert (Hnext : forall x l, lay (rawlen (b, w)) es ++ [ZIP_END] = x ++ l -> at_ zl1 (first + sizes ds - nd + rawlen (nb, w)) x).
    { intros x l E. rewrite E1, E. apply at_next. rewrite length_app, Nat2Z.inj_add, zlen_lay, zlen_head. unfold first. lia. }
    rewrite Hres. destruct es as [|f es].
    - rewrite (at_head _ _ _ _ (Hnext [ZIP_END] [] eq_refl)). cbn [mbind option_bind]. rewrite Z.eqb_refl, Z.add_0_r. cbn [negb]. unfold zl1. by rewrite <-!app_assoc.
    - assert (Hn' := Hnext (ebytes (rawlen (b, w)) f) (lay (rawlen f) es ++ [ZIP_END]) ltac:(cbn [lay]; by rewrite <-app_assoc)).
      destruct (entry_not_end _ _ _ _ Hn' (proj1 Hes)) as (c & -> & Hc'). cbn [mbind option_bind]. rewrite Hc'. cbn [negb]. unfold zl1. rewrite head_tail by (unfold T; lia). cbn [mbind option_bind].
      rewrite head_set_tail, u32_small by lia. by rewrite <-!app_assoc. }
  destruct (bget zl1 _) as [c|]; [|done]. cbn [mbind option_bind] in Etail |- *. rewrite Etail. cbn [mbind option_bind].
  (* the move and the new size *)
  unfold zl2. rewrite head_bytes by (unfold B; lia). cbn [mbind option_bind]. rewrite (app_assoc (head _ _ n)).
  set (Q := prev_bytes nb prev ++ V). assert (HQ : zlen Q = rawlen (nb, w) + sizes es) by (unfold Q; rewrite length_app, Nat2Z.inj_add, zlen_prev_bytes, HV; unfold rawlen; cbn [fst snd]; lia).
  destruct (move_left (head B (10 + sizes es1 + tail_off ((nb, w) :: es)) n ++ lay 0 es1) J Q [ZIP_END] first (first + sizes ds - nd) (B - (first + sizes ds - nd) - 1)) as (J' & HJ' & Em).
  { rewrite length_app, Nat2Z.inj_add, zlen_lay, zlen_head. done. }
  { lia. }
  { unfold B, first. lia. }
  rewrite Em. cbn [mbind option_bind]. rewrite <-app_assoc, head_bytes by (unfold B; lia). cbn [mbind option_bind]. rewrite (u32_small (B - sizes ds + nd)) by (unfold B; lia).
  assert (exists x W, J' ++ [ZIP_END] = x :: W) as (x & W & ->) by (destruct J'; by eexists _, _). rewrite (app_assoc (lay 0 es1)).
  rewrite resize_shrink by (rewrite ?length_app, ?Nat2Z.inj_add, ?zlen_lay; unfold B; lia). cbn [mbind option_bind]. rewrite decr_length_spec by done. cbn [mbind option_bind].
  do 2 f_equal. unfold laid, tail_of. rewrite zlen_lay, <-!app_assoc. unfold Q, V, ebytes. cbn [fst snd]. rewrite <-!app_assoc. do 2 f_equal. unfold B. lia.
Qed.

(** __ziplistDelete removes at most [num] entries behind [es1]. *)
Lemma ziplistDelete_spec es1 e rest n num : let ds := take (Z.to_nat num) (e :: rest) in
  1 <= num -> fits 0 (es1 ++ e :: rest) -> 11 + cap (es1 ++ e :: rest) < 2 ^ 32 -> countable n (zlen ds) ->
  __ziplistDelete junk (block (es1 ++ e :: rest) n) (10 + sizes es1) num =
  Some (block (es1 ++ after_delete (last_len 0 es1) (drop (Z.to_nat num) (e :: rest))) (count_down n (zlen ds))).
Proof.
  intros ds Hnum Hf Hc Hk. set (es2 := drop _ (e :: rest)). assert (Er : e :: rest = ds ++ es2) by (symmetry; apply take_drop).
  assert (Hds : ds <> []) by (unfold ds; by replace (Z.to_nat num) with (S (Z.to_nat num - 1)) by lia).
  destruct (fits_mid es1 e rest Hf) as (Hp & Hv & _). unfold __ziplistDelete. rewrite (zipEntry_spec _ _ _ _ (at_block es1 e rest n) Hp Hv). cbn [mbind option_bind zp prevrawlen].
  rewrite delete_range_spec; [|pose proof (block_fuel (es1 ++ e :: rest) n) as Hb; rewrite length_app in Hb; cbn [length] in *; lia|done|done|lia].
  rewrite Z.sub_0_r. fold ds. rewrite Z.add_0_l. cbn [mbind option_bind]. rewrite Er in *. clear Er.
  pose proof (sizes_cap (es1 ++ ds ++ es2)) as Hs. rewrite !sizes_app in Hs. pose proof (sizes_nonneg es1). pose proof (sizes_nonneg es2).
  assert (Hpos : 2 <= sizes ds) by (destruct ds as [|d ds']; [done|]; cbn [sizes]; pose proof (rawlen_pos d); pose proof (sizes_nonneg ds'); lia).
  replace (10 + sizes es1 + sizes ds - (10 + sizes es1)) with (sizes ds) by lia. rewrite (u32_small (sizes ds)) by lia. ztrue (0 <? sizes ds).
  destruct es2 as [|[b w] es]; cbn [after_delete].
  - pose proof (delete_tail es1 ds n (zlen ds) Hds) as Ht. rewrite !app_nil_r in *. specialize (Ht Hc Hk). pose proof (end_at (es1 ++ ds) n) as He. rewrite sizes_app, Z.add_assoc in He.
    rewrite He. cbn [mbind option_bind]. rewrite Z.eqb_refl. cbn [negb].
    do 3 same_call Ht. by rewrite Ht.
  - destruct (delete_inner es1 ds b w es n (zlen ds) Hds Hf Hc Hk) as (nd & Hi & Hz). cbv zeta in Hi. rewrite app_assoc in Hf |- *.
    destruct (not_end_at (es1 ++ ds) (b, w) es n Hf) as (c & E & Hc'). rewrite sizes_app, Z.add_assoc in E. rewrite E. cbn [mbind option_bind]. rewrite Hc'. cbn [negb]. rewrite <-app_assoc.
    do 12 same_call Hi. injection Hi as -> ->. rewrite block_laid. set (e' := (big_for (last_len 0 es1), w)) in *.
    destruct (fits_mid _ _ _ Hf) as (_ & Hw & Hes). cbn [snd] in Hw. rewrite !cap_app in Hc. cbn [cap snd] in Hc. pose proof (cap_nonneg es1). pose proof (cap_nonneg ds). pose proof (cap_nonneg es). pose proof (value_size_pos w).
    assert (Hpf : prev_fits e'.1 (last_len 0 es1)) by (apply big_for_fits, last_len_range; lia).
    destruct (Z.eqb_spec nd 0) as [Hnd|Hnd]; cbn [negb].
    + specialize (Hz Hnd). rewrite Hz. by rewrite widen_fits_id.
    + replace (10 + sizes es1) with (10 + zlen (lay 0 es1)) by (by rewrite zlen_lay). apply cascade_spec; [done|done|done|]. rewrite zlen_lay. pose proof (sizes_cap es1). cbn [cap snd e']. lia.
Qed.

Lemma after_delete_cap l es : cap (after_delete l es) = cap es.
Proof. destruct es as [|[b w] es]; [done|]. cbn [after_delete cap snd]. by rewrite widen_cap. Qed.
Lemma after_delete_values l es : (after_delete l es).*2 = es.*2.
Proof. destruct es as [|[b w] es]; [done|]. cbn [after_delete fmap list_fmap snd]. f_equal. apply widen_values. Qed.
Lemma after_delete_fits l es : 0 <= l < 2 ^ 32 -> 11 + cap es < 2 ^ 32 -> tail_fits es -> fits l (after_delete l es).
Proof.
  intros Hl Hc H. destruct es as [|[b w] es]; [done|]. destruct H as [Hw H]. cbn [cap snd] in *. split; [by apply big_for_fits|]. split; [done|].
  pose proof (rawlen_cap (big_for l, w)) as Hr. pose proof (rawlen_pos (big_for l, w)). cbn [snd] in Hr. pose proof (cap_nonneg es). pose proof (value_size_pos w).
  apply widen_fits; [lia|lia|by eapply fits_tail].
Qed.
End Delete.
