(* ===== verification/ZipList.v ===== *)
(** A ziplist is a list of strings: [zrep], and what each operation of ziplist.c
    does to the list or reads from it. *)

From S2P Require Import Prelude Decimal Util Ziplist ZipRep ZipUpdate ZipInsert ZipDelete.
#[local] Open Scope Z_scope.

Implicit Types (zl s : list Z) (L : list (list Z)) (es : list ent).

(** The bytes that a list takes at most. *)
Fixpoint room L : Z := match L with [] => 0 | s :: L => 5 + value_size (value_of s) + room L end.

(** The count in the header is that of the entries, or the largest number. *)
Definition count_ok (n : Z) (k : nat) : Prop := 0 <= n <= UINT16_MAX /\ (n < UINT16_MAX -> n = Z.of_nat k).

(** The block of the entries [es] holds the strings [L]. *)
Record holds (es : list ent) (n : Z) L : Prop := mkHolds {
  h_fits : fits 0 es;
  h_values : es.*2 = value_of <$> L;
  h_count : count_ok n (length L);
  h_room : 11 + room L < 2 ^ 32
}.
Definition zrep zl L : Prop := exists es n, zl = block es n /\ holds es n L.
(** The same, and [p] is the pointer to entry [i], or to the end. *)
Definition zrep_at zl L (i : nat) (p : Z) : Prop :=
  exists es n, zl = block es n /\ holds es n L /\ (i <= length L)%nat /\ p = 10 + sizes (take i es).

Lemma holds_length es n L : holds es n L -> length es = length L.
Proof. intros H. pose proof (f_equal length (h_values _ _ _ H)) as E. by rewrite !length_fmap in E. Qed.
Lemma holds_cap es n L : holds es n L -> cap es = room L.
Proof.
  intros H. pose proof (h_values _ _ _ H) as E. clear H. revert L E. induction es as [|e es IH]; intros [|s L] E; try done. cbn in E. injection E as E1 E. cbn [cap room]. rewrite E1, (IH L E). done.
Qed.
Lemma holds_cap_lt es n L : holds es n L -> 11 + cap es < 2 ^ 32.
Proof. intros H. rewrite (holds_cap _ _ _ H). apply (h_room _ _ _ H). Qed.
Lemma room_app L1 L2 : room (L1 ++ L2) = room L1 + room L2.
Proof. induction L1 as [|s L1 IH]; cbn [room app]; [done|]. rewrite IH. lia. Qed.
Lemma room_nonneg L : 0 <= room L.
Proof. induction L as [|s L IH]; cbn [room]; [done|]. pose proof (value_size_pos (value_of s)). lia. Qed.

(** Entry [i] of the block. *)
Lemma holds_lookup es n L i s : holds es n L -> L !! i = Some s ->
  exists es1 e es2, es = es1 ++ e :: es2 /\ es1 = take i es /\ drop i es = e :: es2 /\ e.2 = value_of s /\ prev_fits e.1 (last_len 0 es1) /\ val_ok e.2 /\ rawlen e < 2 ^ 32.
Proof.
  intros H Hs. assert (exists e, es !! i = Some e /\ e.2 = value_of s) as (e & He & Ev).
  { pose proof (f_equal (lookup i) (h_values _ _ _ H)) as E. rewrite !list_lookup_fmap, Hs in E. cbn in E. destruct (es !! i) as [e|]; [|done]. injection E as E. by exists e. }
  exists (take i es), e, (drop (S i) es). pose proof (take_drop_middle _ _ _ He) as Es. split; [done|]. split; [done|]. split; [by apply drop_S|]. split; [done|].
  pose proof (h_fits _ _ _ H) as Hf. pose proof (holds_cap_lt _ _ _ H) as Hc. rewrite <-Es in Hf, Hc. destruct (fits_mid _ _ _ Hf) as (Hp & Hv & _). split; [done|]. split; [done|].
  rewrite cap_app in Hc. cbn [cap] in Hc. pose proof (rawlen_cap e). pose proof (cap_nonneg (take i es)). pose proof (cap_nonneg (drop (S i) es)). lia.
Qed.

(** ** New lists, insertion *)

Lemma count_up_ok n k : count_ok n k -> count_ok (count_up n) (S k).
Proof. unfold count_ok, count_up, UINT16_MAX. intros [H E]. destruct (Z.ltb_spec n 65535); [specialize (E ltac:(lia)); lia|lia]. Qed.
Lemma count_down_ok n k j : count_ok n k -> (j <= k)%nat -> count_ok (count_down n (Z.of_nat j)) (k - j).
Proof. unfold count_ok, count_down, UINT16_MAX. intros [H E] Hj. destruct (Z.ltb_spec n 65535); [specialize (E ltac:(lia)); lia|lia]. Qed.

Lemma zrep_at_rep zl L i p : zrep_at zl L i p -> zrep zl L.
Proof. intros (es & n & -> & H & _). by exists es, n. Qed.

Lemma ziplistNew_spec junk : exists zl, ziplistNew junk = Some zl /\ zrep zl [].
Proof.
  exists (block [] 0). split; [|exists [], 0; split; [done|by repeat split]]. unfold ziplistNew. destruct (zrealloc_grow junk [] 11) as (F & E & HF); [done|].
  change (ZIPLIST_HEADER_SIZE + 1) with 11. rewrite E. cbn [app length] in *. destruct (split_len F 10) as (F1 & F2 & -> & H1); [lia|]. rewrite length_app in HF. destruct F2 as [|f [|]]; cbn [length] in HF; [lia| |lia].
  do 11 (destruct F1 as [|? F1]; [by try (cbn in H1; lia)|]). cbn [length] in H1. lia.
Qed.

Section Ops.
  Context (junk : Z -> Z).

Lemma insert_at zl L i p s : zrep_at zl L i p -> bytes_ok s -> zlen s < 2 ^ 32 -> 11 + room (take i L ++ s :: drop i L) < 2 ^ 32 ->
  exists zl', ziplistInsert junk zl p s (zlen s) = Some zl' /\ zrep_at zl' (take i L ++ s :: drop i L) i p.
Proof.
  intros (es & n & -> & H & Hi & ->) Hb Hl Hr. pose proof (holds_length _ _ _ H) as Hlen. set (e := (big_for (last_len 0 (take i es)), value_of s)).
  assert (Ht : forall a b, cap (a ++ b) = cap a + cap b) by apply cap_app. pose proof (holds_cap _ _ _ H) as Hcap. rewrite <-(take_drop i es), cap_app in Hcap. rewrite <-(take_drop i L), room_app in Hcap.
  assert (Hc : 11 + cap (take i es ++ e :: drop i es) < 2 ^ 32) by (rewrite cap_app; rewrite room_app in Hr; cbn [cap room e snd] in *; lia).
  pose proof (h_fits _ _ _ H) as Hf. rewrite <-(take_drop i es) in Hf. pose proof (ziplistInsert_spec junk (take i es) (drop i es) n s Hb Hl Hf (proj1 (h_count _ _ _ H)) Hc) as E. rewrite take_drop in E.
  unfold ziplistInsert. rewrite E. fold e. eexists. split; [done|]. exists (take i es ++ e :: after_insert (rawlen e) (drop i es)), (count_up n).
  assert (Hti : length (take i es) = i) by (rewrite length_take; lia). split; [done|]. apply fits_app in Hf as [Hf1 Hf2]. rewrite cap_app in Hc. cbn [cap e snd] in Hc.
  pose proof (cap_nonneg (take i es)) as Hn1. pose proof (cap_nonneg (drop i es)) as Hn2. pose proof (value_size_pos (value_of s)) as Hv. pose proof (rawlen_cap e) as Hre. pose proof (rawlen_pos e) as Hrp. cbn [e snd] in Hre. fold e in Hre.
  split; [split|split].
  - apply fits_app. split; [done|]. split; [apply big_for_fits, last_len_range; lia|]. split; [by apply (zipTryEncoding_spec s)|]. apply after_insert_fits; [lia|lia|by eapply fits_tail].
  - rewrite !fmap_app, !fmap_cons. rewrite after_insert_values. pose proof (h_values _ _ _ H) as Hvs. rewrite !fmap_take, !fmap_drop, Hvs. done.
  - pose proof (count_up_ok _ _ (h_count _ _ _ H)) as Hcu. rewrite length_app. cbn [length]. rewrite length_take, length_drop. replace (i `min` length L + S (length L - i))%nat with (S (length L)) by lia. done.
  - done.
  - rewrite length_app, length_take. cbn [length]. lia.
  - f_equal. f_equal. rewrite take_app_le by lia. by rewrite take_take, Nat.min_id.
Qed.

(** ** Deletion *)

Lemma delete_at zl L i p num : zrep_at zl L i p -> (i < length L)%nat -> 1 <= num ->
  exists zl', __ziplistDelete junk zl p num = Some zl' /\ zrep_at zl' (take i L ++ drop (i + Z.to_nat num) L) i p.
Proof.
  intros (es & n & -> & H & Hi & ->) Hlt Hnum. pose proof (holds_length _ _ _ H) as Hlen. destruct (lookup_lt_is_Some_2 L i Hlt) as [s Hs].
  destruct (holds_lookup _ _ _ _ _ H Hs) as (es1 & e & es2 & Ees & E1 & E2 & _). set (k := Z.to_nat num). set (ds := take k (e :: es2)).
  pose proof (h_fits _ _ _ H) as Hf. pose proof (holds_cap_lt _ _ _ H) as Hc. destruct (h_count _ _ _ H) as [Hn0 Hn]. assert (Hle : length (e :: es2) = (length L - i)%nat) by (rewrite <-E2, length_drop; lia).
  assert (Hk : countable n (zlen ds)) by (split; [done|]; split; [lia|]; intros Hu; specialize (Hn Hu); unfold ds; rewrite length_take, Hle; lia).
  assert (H1 : length es1 = i) by (rewrite E1, length_take; lia).
  pose proof (ziplistDelete_spec junk es1 e es2 n num Hnum) as E. cbv zeta in E. fold k ds in E. rewrite <-Ees in E. rewrite <-E1, (E Hf Hc Hk). rewrite <-E2, drop_drop. eexists. split; [done|].
  exists (es1 ++ after_delete (last_len 0 es1) (drop (i + k) es)), (count_down n (zlen ds)). split; [done|].
  rewrite <-(take_drop (i + k) es) in Hc. rewrite cap_app in Hc. pose proof (cap_nonneg (take (i + k) es)) as Hc1. pose proof (cap_nonneg (drop (i + k) es)) as Hc2.
  assert (Hf2 : tail_fits (drop (i + k) es)) by (rewrite <-(take_drop (i + k) es) in Hf; apply fits_app in Hf as [_ Hf]; by eapply fits_tail).
  assert (Hcap1 : cap es1 <= cap (take (i + k) es)).
  { rewrite Ees, <-H1. rewrite take_app_add, cap_app. pose proof (cap_nonneg (take k (e :: es2))). lia. }
  split; [split|split].
  - apply fits_app. split; [rewrite Ees in Hf; by apply fits_app in Hf as [Hf _]|]. apply after_delete_fits; [apply last_len_range; lia|lia|done].
  - rewrite !fmap_app, after_delete_values, E1. rewrite !fmap_take, !fmap_drop, (h_values _ _ _ H). done.
  - unfold ds. rewrite length_app, !length_take, length_drop, Hle. pose proof (count_down_ok n (length L) (k `min` (length L - i)) (conj Hn0 Hn) ltac:(lia)) as Hcd.
    replace (i `min` length L + (length L - (i + k)))%nat with (length L - k `min` (length L - i))%nat by lia. done.
  - pose proof (h_room _ _ _ H) as Hr. rewrite room_app. rewrite <-(take_drop (i + k) L), room_app in Hr. rewrite <-(take_drop i (take (i + k) L)), room_app, take_take, Nat.min_l in Hr by lia.
    pose proof (room_nonneg (drop i (take (i + k) L))). lia.
  - rewrite length_app, length_take, length_drop. lia.
  - f_equal. f_equal. by rewrite <-H1, take_app_length.
Qed.

Lemma ziplistDelete_at zl L i p : zrep_at zl L i p -> (i < length L)%nat ->
  exists zl', ziplistDelete junk zl p = Some (zl', p) /\ zrep_at zl' (delete i L) i p.
Proof.
  intros H Hi. destruct (delete_at zl L i p 1 H Hi) as (zl' & E & H'); [lia|]. exists zl'. unfold ziplistDelete. rewrite E. split; [done|].
  rewrite delete_take_drop. by replace (i + Z.to_nat 1)%nat with (S i) in H' by lia.
Qed.
End Ops.

(** ** Reading *)

Lemma zrep_at_entry zl L i p s : zrep_at zl L i p -> L !! i = Some s ->
  exists b prev, let e := (b, value_of s) in at_ zl p (ebytes prev e) /\ prev_fits b prev /\ val_ok (value_of s) /\ rawlen e < 2 ^ 32 /\ zrep_at zl L (S i) (p + rawlen e).
Proof.
  intros (es & n & -> & H & Hi & ->) Hs. destruct (holds_lookup _ _ _ _ _ H Hs) as (es1 & [b z] & es2 & Ees & E1 & E2 & Ev & Hp & Hv & Hr). cbn [fst snd] in *. subst z.
  exists b, (last_len 0 es1). rewrite <-E1. split; [rewrite Ees; apply at_block|]. do 3 (split; [done|]). exists es, n. split; [done|]. split; [done|]. split; [by apply lookup_lt_Some in Hs|].
  assert (Ei : es !! i = Some (b, value_of s)) by (by rewrite <-(Nat.add_0_r i), <-lookup_drop, E2). rewrite (take_S_r _ _ _ Ei), sizes_app, <-E1. cbn [sizes]. lia.
Qed.
Lemma zrep_at_end zl L p : zrep_at zl L (length L) p -> bget zl p = Some ZIP_END.
Proof.
  intros (es & n & -> & H & _ & ->). pose proof (holds_length _ _ _ H). rewrite take_ge by lia. apply end_at.
Qed.
Lemma zrep_at_not_end zl L i p : zrep_at zl L i p -> (i < length L)%nat -> exists c, bget zl p = Some c /\ (c =? ZIP_END) = false.
Proof.
  intros H Hi. destruct (lookup_lt_is_Some_2 L i Hi) as [s Hs]. destruct (zrep_at_entry _ _ _ _ _ H Hs) as (b & prev & Ha & Hp & _). by eapply entry_not_end.
Qed.
(** The pointer is at the end exactly when its index is. *)
Lemma zrep_at_test zl L i p : zrep_at zl L i p -> exists c, bget zl p = Some c /\ (c =? ZIP_END) = bool_decide (i = length L).
Proof.
  intros H. destruct (decide (i = length L)) as [E|E].
  - subst i. exists ZIP_END. rewrite bool_decide_true by done. split; [by apply zrep_at_end with L|done].
  - pose proof H as (es & n & _ & _ & Hi & _). rewrite bool_decide_false by done. apply (zrep_at_not_end zl L i p H). lia.
Qed.
Lemma zrep_at_next zl L i p : zrep_at zl L i p -> (i < length L)%nat -> exists m, zipRawEntryLength zl p = Some m /\ zrep_at zl L (S i) (p + m).
Proof.
  intros Hz Hi. destruct (lookup_lt_is_Some_2 L i Hi) as [s Hs]. destruct (zrep_at_entry _ _ _ _ _ Hz Hs) as (b & prev & Ha & Hp & Hv & Hr & Hn).
  exists (rawlen (b, value_of s)). split; [by eapply zipRawEntryLength_spec|done].
Qed.

(** The size of the entry before, which its field holds. *)
Lemma zrep_at_prev zl L i p : zrep_at zl L i p -> (i < length L)%nat -> exists size m, ZIP_DECODE_PREVLEN zl p = Some (size, m) /\
  (i = O -> m = 0) /\ ((0 < i)%nat -> 0 < m /\ zrep_at zl L (pred i) (p - m)).
Proof.
  intros Hz Hi. pose proof Hz as (es & n & Ezl & H & _ & Ep). destruct (lookup_lt_is_Some_2 L i Hi) as [s Hs]. destruct (holds_lookup _ _ _ _ _ H Hs) as (es1 & e & es2 & Ees & E1 & _ & _ & Hp & _).
  exists (psize e.1), (last_len 0 es1). split.
  - pose proof (at_block es1 e es2 n) as Ha. rewrite <-Ees, <-Ezl, E1, <-Ep in Ha. rewrite <-E1 in Ha. unfold ebytes in Ha. apply at_app in Ha as [Ha _]. by apply decode_prevlen.
  - pose proof (holds_length _ _ _ H) as Hlen. split; [intros ->; by rewrite E1|]. intros Hi0. destruct (lookup_lt_is_Some_2 es (pred i)) as [f Hf]; [lia|].
    pose proof (take_S_r es (pred i) f Hf) as Et. replace (S (pred i)) with i in Et by lia. rewrite E1, Et, last_len_snoc. pose proof (rawlen_pos f). split; [lia|].
    exists es, n. split; [done|]. split; [done|]. split; [lia|]. rewrite Ep, Et, sizes_app. cbn [sizes]. lia.
Qed.

Lemma zrep_first zl L : zrep zl L -> zrep_at zl L 0 10.
Proof. intros (es & n & -> & H). exists es, n. split; [done|]. split; [done|]. split; [lia|done]. Qed.
Lemma zrep_last zl L : zrep zl L -> exists t, ZIPLIST_TAIL_OFFSET zl = Some t /\ zrep_at zl L (pred (length L)) t.
Proof.
  intros (es & n & -> & H). exists (10 + tail_off es). split; [apply block_tail; by eapply holds_cap_lt|]. exists es, n. split; [done|]. split; [done|]. split; [lia|].
  rewrite <-(holds_length _ _ _ H). destruct es as [|e es _] using rev_ind; [done|]. rewrite tail_off_snoc, length_app. cbn [length]. replace (pred (length es + 1)) with (length es) by lia. by rewrite take_app_length.
Qed.
Lemma zrep_end zl L : zrep zl L -> exists p, ZIPLIST_ENTRY_END zl = Some p /\ zrep_at zl L (length L) p.
Proof.
  intros (es & n & -> & H). exists (10 + sizes es). pose proof (holds_length _ _ _ H). split.
  - unfold ZIPLIST_ENTRY_END. rewrite block_bytes by (by eapply holds_cap_lt). cbn. f_equal. lia.
  - exists es, n. split; [done|]. split; [done|]. split; [lia|]. by rewrite take_ge by lia.
Qed.

(** The entry that an index stands for, a negative one from the end. *)
Definition index_of (index : Z) L : option nat :=
  if 0 <=? index then if index <? zlen L then Some (Z.to_nat index) else None
  else if 0 <=? zlen L + index then Some (Z.to_nat (zlen L + index)) else None.

Lemma zrep_at_fuel zl L i p : zrep_at zl L i p -> (length L < length zl)%nat /\ zlen L < 2 ^ 31.
Proof.
  intros (es & n & -> & H & _). pose proof (holds_length _ _ _ H) as Hl. pose proof (block_fuel es n). split; [lia|].
  pose proof (sizes_length es). pose proof (sizes_cap es). pose proof (holds_cap_lt _ _ _ H). lia.
Qed.

Lemma index_forth_spec zl L : forall fuel i p index, zrep_at zl L i p -> (length L - i < fuel)%nat -> 0 <= index < 2 ^ 31 ->
  exists j q r, index_forth fuel zl p index = Some (q, r) /\ zrep_at zl L j q /\
    (if index <? zlen L - Z.of_nat i then j = (i + Z.to_nat index)%nat /\ r <= 0 else j = length L).
Proof.
  induction fuel as [|fuel IH]; intros i p index H Hf Hx; [lia|]. pose proof H as (_ & _ & _ & _ & Hi & _). cbn [index_forth].
  destruct (zrep_at_test _ _ _ _ H) as (c & -> & Hc). cbn [mbind option_bind]. rewrite Hc. destruct (decide (i = length L)) as [E|E].
  - rewrite bool_decide_true by done. exists i, p, index. split; [done|]. split; [done|]. by zfalse (index <? zlen L - Z.of_nat i).
  - rewrite bool_decide_false by done. destruct (Z.eqb_spec index 0) as [->|H0].
    + exists i, p, (-1). split; [done|]. split; [done|]. ztrue (0 <? zlen L - Z.of_nat i). split; lia.
    + destruct (zrep_at_next _ _ _ _ H) as (m & -> & Hn); [lia|]. cbn [mbind option_bind]. rewrite i32_small by lia.
      destruct (IH (S i) (p + m) (index - 1) Hn) as (j & q & r & E' & Hj & Hr); [lia|lia|]. exists j, q, r. split; [done|]. split; [done|].
      replace (index <? zlen L - Z.of_nat i) with (index - 1 <? zlen L - Z.of_nat (S i)) by (destruct (Z.ltb_spec (index - 1) (zlen L - Z.of_nat (S i))), (Z.ltb_spec index (zlen L - Z.of_nat i)); lia || done).
      destruct (index - 1 <? _); [|done]. split; lia.
Qed.

(** Backwards from entry [i], whose predecessor is [prevlen] bytes long. *)
Lemma index_back_spec zl L : forall fuel i p prevlen index, zrep_at zl L i p -> (i < fuel)%nat -> (i < length L)%nat -> 0 <= index < 2 ^ 31 ->
  (exists size, ZIP_DECODE_PREVLEN zl p = Some (size, prevlen)) ->
  exists j q r, index_back fuel zl p prevlen index = Some (q, r) /\ zrep_at zl L j q /\ (j < length L)%nat /\
    (if index <=? Z.of_nat i then Z.of_nat j = Z.of_nat i - index /\ r <= 0 else 0 < r).
Proof.
  induction fuel as [|fuel IH]; intros i p prevlen index H Hf Hi Hx (size & Hd); [lia|]. cbn [index_back].
  destruct (zrep_at_prev _ _ _ _ H Hi) as (size' & m & Hd' & Hm0 & Hm). rewrite Hd in Hd'. injection Hd' as <- <-. destruct (decide (i = O)) as [->|E].
  - rewrite (Hm0 eq_refl). cbn [Z.ltb Z.compare negb]. exists O, p, index. split; [done|]. split; [done|]. split; [done|]. destruct (Z.leb_spec index (Z.of_nat 0)); [split; lia|lia].
  - destruct (Hm ltac:(lia)) as [Hpos Hp]. ztrue (0 <? prevlen). cbn [negb]. destruct (Z.eqb_spec index 0) as [->|H0].
    + exists i, p, (-1). split; [done|]. split; [done|]. split; [done|]. ztrue (0 <=? Z.of_nat i). split; lia.
    + destruct (zrep_at_prev _ _ _ _ Hp) as (size2 & m2 & Hd2 & _ & _); [lia|]. rewrite Hd2. cbn [mbind option_bind]. rewrite i32_small by lia.
      destruct (IH (pred i) (p - prevlen) m2 (index - 1) Hp) as (j & q & r & E' & Hj & Hjl & Hr); [lia|lia|lia|by eexists|]. exists j, q, r. split; [done|]. split; [done|]. split; [done|].
      replace (index <=? Z.of_nat i) with (index - 1 <=? Z.of_nat (pred i)) by (destruct (Z.leb_spec (index - 1) (Z.of_nat (pred i))), (Z.leb_spec index (Z.of_nat i)); lia || done).
      destruct (index - 1 <=? _); [|done]. split; lia.
Qed.

Lemma ziplistIndex_spec zl L index : zrep zl L -> - 2 ^ 31 <= index < 2 ^ 31 ->
  exists r, ziplistIndex zl index = Some r /\ match index_of index L, r with Some i, Some p => zrep_at zl L i p /\ (i < length L)%nat | None, None => True | _, _ => False end.
Proof.
  intros H Hx. pose proof (zrep_first zl L H) as H0. destruct (zrep_at_fuel _ _ _ _ H0) as [Hfu Hlen]. unfold ziplistIndex, index_of. destruct (Z.ltb_spec index 0) as [Hneg|Hpos].
  - zfalse (0 <=? index). replace (i32 (i32 (- index) - 1)) with (- index - 1) by mlia. destruct (zrep_last zl L H) as (t & -> & Ht). cbn [mbind option_bind].
    destruct (zrep_at_test _ _ _ _ Ht) as (c & -> & Hc). cbn [mbind option_bind]. rewrite Hc. destruct L as [|s L'].
    + rewrite bool_decide_true by done. cbn [negb mbind option_bind]. rewrite (zrep_at_end zl [] t Ht). cbn [mbind option_bind]. rewrite Z.eqb_refl. exists None. split; [done|]. by zfalse (0 <=? zlen (@nil (list Z)) + index).
    + set (L := s :: L') in *. rewrite bool_decide_false by (cbn [length L]; lia). cbn [negb]. destruct (zrep_at_prev _ _ _ _ Ht) as (size & m & Hd & _); [cbn [length L]; lia|]. rewrite Hd. cbn [mbind option_bind].
      destruct (index_back_spec zl L (length zl) (pred (length L)) t m (- index - 1) Ht) as (j & q & r & -> & Hj & Hjl & Hr); [lia|cbn [length L]; lia|lia|by eexists|]. cbn [mbind option_bind].
      destruct (zrep_at_not_end _ _ _ _ Hj Hjl) as (c' & -> & Hc'). cbn [mbind option_bind]. rewrite Hc'. cbn [orb]. assert (HL : (0 < length L)%nat) by (cbn [length L]; lia).
      destruct (Z.leb_spec (- index - 1) (Z.of_nat (pred (length L)))).
      * zfalse (0 <? r). ztrue (0 <=? zlen L + index). exists (Some q). split; [done|]. replace (Z.to_nat (zlen L + index)) with j by lia. done.
      * ztrue (0 <? r). zfalse (0 <=? zlen L + index). by exists None.
  - ztrue (0 <=? index). destruct (index_forth_spec zl L (length zl) 0 10 index H0) as (j & q & r & E & Hj & Hr); [lia|lia|]. unfold ZIPLIST_HEADER_SIZE. rewrite E. cbn [mbind option_bind].
    rewrite Z.sub_0_r in Hr. destruct (Z.ltb_spec index (zlen L)).
    + destruct Hr as [-> Hr]. destruct (zrep_at_not_end _ _ _ _ Hj) as (c & -> & Hc); [lia|]. cbn [mbind option_bind]. rewrite Hc. zfalse (0 <? r). exists (Some q). split; [done|]. split; [done|lia].
    + subst j. rewrite (zrep_at_end _ _ _ Hj). cbn [mbind option_bind]. rewrite Z.eqb_refl. by exists None.
Qed.

Lemma ziplistNext_spec zl L i p : zrep_at zl L i p ->
  exists r, ziplistNext zl p = Some r /\ match r with Some q => zrep_at zl L (S i) q /\ (S i < length L)%nat | None => (length L <= S i)%nat end.
Proof.
  intros H. unfold ziplistNext. destruct (zrep_at_test _ _ _ _ H) as (c & -> & Hc). cbn [mbind option_bind]. rewrite Hc. pose proof H as (_ & _ & _ & _ & Hi & _).
  destruct (decide (i = length L)) as [E|E]; [rewrite bool_decide_true by done; exists None; split; [done|lia]|rewrite bool_decide_false by done].
  destruct (zrep_at_next _ _ _ _ H) as (m & -> & Hn); [lia|]. cbn [mbind option_bind]. destruct (zrep_at_test _ _ _ _ Hn) as (c' & -> & Hc'). cbn [mbind option_bind]. rewrite Hc'.
  destruct (decide (S i = length L)) as [E'|E']; [rewrite bool_decide_true by done; exists None; split; [done|lia]|rewrite bool_decide_false by done]. eexists. split; [done|]. split; [done|lia].
Qed.

Lemma zrep_at_zero zl L i p : zrep_at zl L i p -> (p =? ZIPLIST_HEADER_SIZE) = bool_decide (i = O).
Proof.
  intros (es & n & -> & H & Hi & ->). pose proof (holds_length _ _ _ H). unfold ZIPLIST_HEADER_SIZE. destruct i as [|i].
  - rewrite take_0. by rewrite bool_decide_true.
  - rewrite bool_decide_false by done. apply Z.eqb_neq. pose proof (sizes_length (take (S i) es)) as Hs. rewrite length_take in Hs. lia.
Qed.
Lemma ziplistPrev_spec zl L i p : zrep_at zl L i p ->
  exists r, ziplistPrev zl p = Some r /\ match r with Some q => (0 < i)%nat /\ zrep_at zl L (pred i) q | None => i = O end.
Proof.
  intros H. unfold ziplistPrev. destruct (zrep_at_test _ _ _ _ H) as (c & -> & Hc). cbn [mbind option_bind]. rewrite Hc. pose proof H as (_ & _ & _ & _ & Hi & _).
  destruct (decide (i = length L)) as [E|E]; [rewrite bool_decide_true by done|rewrite bool_decide_false by done].
  - destruct (zrep_last zl L (zrep_at_rep _ _ _ _ H)) as (t & -> & Ht). cbn [mbind option_bind]. destruct (zrep_at_test _ _ _ _ Ht) as (c' & -> & Hc'). cbn [mbind option_bind]. rewrite Hc'.
    destruct (decide (pred (length L) = length L)) as [E'|E']; [rewrite bool_decide_true by done; exists None; split; [done|lia]|rewrite bool_decide_false by done].
    eexists. split; [done|]. subst i. split; [lia|done].
  - rewrite (zrep_at_zero _ _ _ _ H). destruct (decide (i = O)) as [E'|E']; [rewrite bool_decide_true by done; by exists None|rewrite bool_decide_false by done].
    destruct (zrep_at_prev _ _ _ _ H) as (size & m & -> & _ & Hm); [lia|]. cbn [mbind option_bind]. destruct Hm as [Hm Hp]; [lia|]. ztrue (0 <? m). eexists. split; [done|]. split; [lia|done].
Qed.

(** What ziplistGet returns stands for the string [s]. *)
Definition stands_for zl (r : zget) s : Prop := match r with GStr off n => bread zl off n = Some s | GInt v => is_sdec s v /\ in_i64 v end.

Lemma int_ok_i64 enc v : int_ok enc v -> in_i64 v.
Proof. intros H. apply (int_cases enc v _ H); intros _ ?; mlia. Qed.
Lemma str_byte_enc c : ZIP_IS_STR (val_enc (ZStr c)) = true.
Proof. cbn [val_enc]. by repeat destruct (_ <=? _). Qed.
Lemma is_str_enc z : val_ok z -> ZIP_IS_STR (val_enc z) = is_str z.
Proof. destruct z as [c|enc v]; [intros _; apply str_byte_enc|]. intros H. by apply (int_byte enc v). Qed.

Lemma ziplistGet_spec zl L i p s : zrep_at zl L i p -> L !! i = Some s -> exists r, ziplistGet zl (Some p) = Some (Some r) /\ stands_for zl r s.
Proof.
  intros H Hs. destruct (zrep_at_entry _ _ _ _ _ H Hs) as (b & prev & Ha & Hp & Hv & _). cbn [ziplistGet]. destruct (entry_not_end _ _ _ _ Ha Hp) as (c & -> & Hc). cbn [mbind option_bind]. rewrite Hc.
  rewrite (zipEntry_spec _ _ _ _ Ha Hp Hv). cbn [mbind option_bind encoding headersize len fst snd]. rewrite is_str_enc by done. pose proof (at_data _ _ _ _ Ha) as Hd. cbn [fst snd] in Hd.
  destruct (zipTryEncoding_spec s) as (_ & Hden & _). destruct (value_of s) as [c'|enc v]; cbn [is_str data denotes val_enc] in *.
  - subst c'. eexists. split; [done|]. cbn [stands_for]. by apply at_read.
  - rewrite (zipLoadInteger_spec _ _ _ _ Hd Hv). cbn [mbind option_bind]. eexists. split; [done|]. split; [done|by apply (int_ok_i64 enc)].
Qed.

Lemma same_bytes_spec zl p c s : at_ zl p c -> zlen c = zlen s -> same_bytes zl p s 0 (zlen s) = Some (bool_decide (c = s)).
Proof. intros H E. unfold same_bytes. rewrite (at_read _ _ _ _ H) by done. cbn [mbind option_bind]. rewrite bread_all. done. Qed.
Lemma int_entry_eq s t enc v r : value_of s = ZInt enc v -> encoded (value_of t) = r -> bool_decide (s = t) = match r with Some (w, _) => v =? w | None => false end.
Proof.
  intros Es <-. destruct (zipTryEncoding_spec s) as (_ & Hs & _). destruct (zipTryEncoding_spec t) as (_ & Ht & _). rewrite Es in Hs. destruct (value_of t) as [c|enc' w] eqn:Et; cbn [encoded denotes] in *.
  - apply bool_decide_false. intros ->. by rewrite Es in Et.
  - destruct (Z.eqb_spec v w) as [->|Hne]; [apply bool_decide_true; by apply (is_sdec_inj _ _ w)|]. apply bool_decide_false. intros ->. apply Hne. by eapply is_sdec_value.
Qed.

Lemma ziplistCompare_spec zl L i p s t : zrep_at zl L i p -> L !! i = Some s -> ziplistCompare zl p t (zlen t) = Some (bool_decide (s = t)).
Proof.
  intros H Hs. destruct (zrep_at_entry _ _ _ _ _ H Hs) as (b & prev & Ha & Hp & Hv & _). unfold ziplistCompare. destruct (entry_not_end _ _ _ _ Ha Hp) as (c & -> & Hc). cbn [mbind option_bind]. rewrite Hc.
  rewrite (zipEntry_spec _ _ _ _ Ha Hp Hv). cbn [mbind option_bind encoding headersize len fst snd]. rewrite is_str_enc by done. pose proof (at_data _ _ _ _ Ha) as Hd. cbn [fst snd] in Hd.
  destruct (zipTryEncoding_spec s) as (_ & Hden & _). destruct (value_of s) as [c'|enc v] eqn:Ev; cbn [is_str data denotes val_enc] in *.
  - subst c'. destruct (Z.eqb_spec (zlen s) (zlen t)) as [E|E]; [by apply same_bytes_spec|]. rewrite bool_decide_false; [done|]. by intros ->.
  - destruct (zipTryEncoding_spec t) as (-> & _). cbn [mbind option_bind]. rewrite (int_entry_eq s t enc v _ Ev eq_refl). destruct (encoded (value_of t)) as [[w enc']|]; [|done].
    by rewrite (zipLoadInteger_spec _ _ _ _ Hd Hv).
Qed.

(** ** Searching *)

(** The index, counted from [i], of the first of every [skip + 1] strings that is
    [s]; the first [cnt] are not looked at. *)
Fixpoint find_from (s : list Z) (skip cnt : Z) (i : nat) L : option nat :=
  match L with
  | [] => None
  | x :: L => if cnt =? 0 then if bool_decide (x = s) then Some i else find_from s skip skip (S i) L else find_from s skip (cnt - 1) (S i) L
  end.

(** What ziplistFind knows about the string it looks for. *)
Definition known s (vll vencoding : Z) : Prop :=
  vencoding = 0 \/ vencoding = UCHAR_MAX /\ encoded (value_of s) = None \/ encoded (value_of s) = Some (vll, vencoding) /\ 0 < vencoding < UCHAR_MAX.

Lemma find_here_spec zl p x s vll vencoding : at_ zl p (data (value_of x)) -> val_ok (value_of x) -> (forall enc v, value_of s = ZInt enc v -> int_ok enc v) -> known s vll vencoding ->
  exists vll' vencoding', find_here zl p (val_enc (value_of x)) (zlen (data (value_of x))) s (zlen s) vll vencoding = Some (bool_decide (x = s), vll', vencoding') /\ known s vll' vencoding'.
Proof.
  intros Hd Hv Hs Hk. unfold find_here. rewrite is_str_enc by done. destruct (zipTryEncoding_spec x) as (_ & Hden & _). destruct (value_of x) as [c|enc v] eqn:Ev; cbn [is_str data denotes val_enc] in *.
  - subst c. exists vll, vencoding. split; [|done]. destruct (Z.eqb_spec (zlen x) (zlen s)) as [E|E]; [by rewrite (same_bytes_spec zl p x s)|]. rewrite bool_decide_false; [done|]. by intros ->.
  - assert (Hw : forall w enc', encoded (value_of s) = Some (w, enc') -> 0 < enc' < UCHAR_MAX).
    { intros w enc' E. destruct (value_of s) as [|e' v']; [done|]. injection E as -> ->. destruct (int_byte enc' w (Hs _ _ eq_refl)) as [He _]. unfold ZIP_STR_MASK, UCHAR_MAX in *. lia. }
    pose proof (zipLoadInteger_spec _ _ _ _ Hd Hv) as HL.
    destruct (zipTryEncoding_spec s) as (-> & _). cbn [mbind option_bind].
    destruct Hk as [->|[[-> En]|[En Hr]]].
    + cbn [Z.eqb mbind option_bind]. destruct (encoded (value_of s)) as [[w enc']|] eqn:E; cbn [default].
      * specialize (Hw _ _ eq_refl). unfold id. cbv beta iota. zfalse (enc' =? 0). zfalse (enc' =? UCHAR_MAX). cbn [negb]. exists w, enc'. rewrite HL. cbn [mbind option_bind]. rewrite (int_entry_eq x s enc v _ Ev E). split; [done|]. right; right. split; [exact E|exact Hw].
      * exists vll, UCHAR_MAX. rewrite (int_entry_eq x s enc v _ Ev E). split; [done|]. by right; left.
    + cbn [mbind option_bind]. exists vll, UCHAR_MAX. rewrite (int_entry_eq x s enc v _ Ev En). split; [done|]. by right; left.
    + zfalse (vencoding =? 0). cbn [mbind option_bind]. zfalse (vencoding =? 0). zfalse (vencoding =? UCHAR_MAX). cbn [negb]. exists vll, vencoding. rewrite HL. cbn [mbind option_bind]. rewrite (int_entry_eq x s enc v _ Ev En). split; [done|]. by right; right.
Qed.

Lemma find_loop_spec zl L s skip : bytes_ok s -> zlen s < 2 ^ 32 -> 0 <= skip < 2 ^ 31 -> forall fuel i p cnt vll vencoding,
  zrep_at zl L i p -> (length L - i < fuel)%nat -> 0 <= cnt < 2 ^ 31 -> known s vll vencoding ->
  exists r, find_loop fuel zl p s (zlen s) skip cnt vll vencoding = Some r /\
    match find_from s skip cnt i (drop i L), r with Some j, Some q => zrep_at zl L j q | None, None => True | _, _ => False end.
Proof.
  intros Hb Hl Hsk. assert (Hs : forall enc v, value_of s = ZInt enc v -> int_ok enc v).
  { intros enc v E. destruct (zipTryEncoding_spec s) as (_ & _ & Hok & _). specialize (Hok Hb Hl). by rewrite E in Hok. }
  induction fuel as [|fuel IH]; intros i p cnt vll vencoding H Hf Hc Hk; [lia|]. cbn [find_loop]. pose proof H as (_ & _ & _ & _ & Hi & _).
  destruct (decide (i = length L)) as [E|E].
  - subst i. rewrite (zrep_at_end _ _ _ H). cbn [mbind option_bind]. rewrite Z.eqb_refl, drop_all. by exists None.
  - destruct (lookup_lt_is_Some_2 L i) as [x Hx]; [lia|]. destruct (zrep_at_entry _ _ _ _ _ H Hx) as (b & prev & Ha & Hp & Hv & _ & Hn). destruct (entry_not_end _ _ _ _ Ha Hp) as (c & -> & Hc'). cbn [mbind option_bind]. rewrite Hc'.
    pose proof (at_data _ _ _ _ Ha) as Hd. pose proof Ha as Ha'. unfold ebytes in Ha'. apply at_app in Ha' as [Hpb Ha']. apply at_app in Ha' as [Hh _]. rewrite zlen_prev_bytes in Hh. cbn [fst snd] in *.
    rewrite (decode_prevlensize _ _ _ _ Hpb Hp). cbn [mbind option_bind]. rewrite (decode_header _ _ _ Hh Hv). cbn [mbind option_bind].
    replace (p + psize b + zlen (header (value_of x)) + zlen (data (value_of x))) with (p + rawlen (b, value_of x)) by (unfold rawlen, value_size; cbn [fst snd]; lia).
    replace (p + psize b + zlen (header (value_of x))) with (p + (psize b + zlen (header (value_of x)))) by lia. rewrite (drop_S _ _ _ Hx). cbn [find_from].
    destruct (Z.eqb_spec cnt 0) as [->|H0].
    + destruct (find_here_spec zl _ x s vll vencoding Hd Hv Hs Hk) as (vll' & venc' & -> & Hk'). cbn [mbind option_bind]. destruct (bool_decide (x = s)); [by exists (Some p)|].
      rewrite i32_small by lia. apply IH; [done|lia|lia|done].
    + rewrite i32_small by lia. apply IH; [done|lia|lia|done].
Qed.

Lemma ziplistFind_spec zl L i p s skip : zrep_at zl L i p -> bytes_ok s -> zlen s < 2 ^ 32 -> 0 <= skip < 2 ^ 31 ->
  exists r, ziplistFind zl p s (zlen s) skip = Some r /\
    match find_from s skip 0 i (drop i L), r with Some j, Some q => zrep_at zl L j q | None, None => True | _, _ => False end.
Proof. intros H Hb Hl Hs. apply find_loop_spec; [done|done|done|done| |lia|by left]. pose proof (zrep_at_fuel _ _ _ _ H). lia. Qed.

(** ** The length *)

Lemma len_loop_spec zl L : forall fuel i p k, zrep_at zl L i p -> (length L - i < fuel)%nat -> k = Z.of_nat i -> len_loop fuel zl p k = Some (zlen L).
Proof.
  induction fuel as [|fuel IH]; intros i p k H Hf ->; [lia|]. cbn [len_loop]. pose proof H as (_ & _ & _ & _ & Hi & _). destruct (zrep_at_test _ _ _ _ H) as (c & -> & Hc). cbn [mbind option_bind]. rewrite Hc.
  destruct (decide (i = length L)) as [E|E]; [rewrite bool_decide_true by done; by subst|rewrite bool_decide_false by done].
  destruct (zrep_at_next _ _ _ _ H) as (m & -> & Hn); [lia|]. cbn [mbind option_bind]. pose proof (zrep_at_fuel _ _ _ _ H). apply (IH (S i)); [done|lia|]. rewrite u32_small by lia. lia.
Qed.
Lemma ziplistLen_spec zl L : zrep zl L -> exists zl', ziplistLen zl = Some (zlen L, zl') /\ zrep zl' L.
Proof.
  intros H. pose proof (zrep_first zl L H) as H0. pose proof (zrep_at_fuel _ _ _ _ H0) as [Hfu _]. pose proof H as (es & n & -> & Hh). destruct (h_count _ _ _ Hh) as [Hn He]. unfold ziplistLen, UINT16_MAX in *.
  assert (E : ZIPLIST_LENGTH (block es n) = Some n) by (apply head_length; lia). rewrite E. cbn [mbind option_bind]. destruct (Z.ltb_spec n 65535).
  - rewrite (He ltac:(done)). exists (block es n). rewrite <-(He ltac:(done)). by split.
  - rewrite (len_loop_spec _ L _ 0 10 0 H0) by lia. cbn [mbind option_bind]. destruct (Z.ltb_spec (zlen L) 65535).
    + unfold block at 1. rewrite head_set_length. cbn [mbind option_bind]. eexists. split; [done|]. exists es, (zlen L). split; [done|]. destruct Hh as [Hf Hv _ Hr]. split; [done|done| |done]. by split; [unfold UINT16_MAX; lia|].
    + eexists. by split.
Qed.

(** ** Merging *)

Section Merge.
  Context (junk : Z -> Z).

Lemma zlen_body es : zlen (lay 0 es) = sizes es.
Proof. apply zlen_lay. Qed.

(** The entries of both lists in the block of the larger one. *)
Lemma merge_append es1 es2 n1 n2 :
  (bs ← bread (block es2 n2) 10 (11 + sizes es2 - 10);
   bwrite (zrealloc junk (block es1 n1) (11 + sizes es1 + (11 + sizes es2) - 10 - 1)) (11 + sizes es1 - 1) bs) =
  Some (head (11 + sizes es1) (10 + tail_off es1) n1 ++ lay 0 es1 ++ lay 0 es2 ++ [ZIP_END]).
Proof.
  pose proof (sizes_nonneg es1). pose proof (sizes_nonneg es2). pose proof (zlen_body es1) as L1. pose proof (zlen_body es2) as L2.
  destruct (zrealloc_grow junk (block es1 n1) (11 + sizes es1 + (11 + sizes es2) - 10 - 1)) as (F & -> & HF); [rewrite block_length; lia|]. rewrite block_length in HF.
  assert (at_ (block es2 n2) 10 (lay 0 es2 ++ [ZIP_END])) as Ha by (unfold block; eexists (head _ _ n2), []; by rewrite app_nil_r).
  rewrite (at_read _ _ _ _ Ha) by (rewrite length_app; cbn [length]; lia). cbn [mbind option_bind].
  unfold block. rewrite (app_assoc (head _ _ n1)), <-(app_assoc _ [ZIP_END]), <-(app_nil_r F), (app_assoc [ZIP_END]). rewrite bwrite_app.
  - by rewrite app_nil_r, <-!app_assoc.
  - rewrite length_app, Nat2Z.inj_add, zlen_head. lia.
  - rewrite !length_app. cbn [length]. lia.
Qed.
Lemma merge_prepend es1 es2 n1 n2 :
  (target ← bmove (zrealloc junk (block es2 n2) (11 + sizes es1 + (11 + sizes es2) - 10 - 1)) (11 + sizes es1 - 1) 10 (11 + sizes es2 - 10);
   bs ← bread (block es1 n1) 0 (11 + sizes es1 - 1);
   bwrite target 0 bs) =
  Some (head (11 + sizes es1) (10 + tail_off es1) n1 ++ lay 0 es1 ++ lay 0 es2 ++ [ZIP_END]).
Proof.
  pose proof (sizes_nonneg es1). pose proof (sizes_nonneg es2). pose proof (zlen_body es1) as L1. pose proof (zlen_body es2) as L2.
  destruct (zrealloc_grow junk (block es2 n2) (11 + sizes es1 + (11 + sizes es2) - 10 - 1)) as (F & -> & HF); [rewrite block_length; lia|]. rewrite block_length in HF.
  assert (HF' : zlen F = sizes es1) by lia. unfold block. rewrite <-app_assoc. replace (11 + sizes es1 - 1) with (10 + sizes es1) by lia.
  rewrite (move_right (head (11 + sizes es2) (10 + tail_off es2) n2) (lay 0 es2 ++ [ZIP_END]) F); [|by rewrite zlen_head|rewrite length_app; cbn [length]; lia|lia].
  cbn [mbind option_bind]. rewrite (drop_ge F) by lia. rewrite (app_assoc (head _ _ n1) (lay 0 es1)). rewrite bread_0 by (rewrite ?length_app, ?Nat2Z.inj_add, ?zlen_head; lia). cbn [mbind option_bind].
  rewrite app_nil_r. rewrite (app_assoc (head _ _ n2)). rewrite bwrite_0; [by rewrite <-!app_assoc|done|]. rewrite !length_app, length_take, !length_app. cbn [length].
  pose proof (zlen_head (11 + sizes es1) (10 + tail_off es1) n1). pose proof (zlen_head (11 + sizes es2) (10 + tail_off es2) n2). lia.
Qed.

Lemma merge_blocks es1 es2 n1 n2 : fits 0 es1 -> fits 0 es2 -> es2 <> [] -> 11 + cap (es1 ++ es2) < 2 ^ 32 -> 0 <= n1 <= UINT16_MAX -> 0 <= n2 <= UINT16_MAX ->
  ziplistMerge junk (block es1 n1) (block es2 n2) = Some (n2 <=? n1, block (es1 ++ widen (last_len 0 es1) es2) (Z.min (n1 + n2) UINT16_MAX)).
Proof.
  intros Hf1 Hf2 Hne Hc Hn1 Hn2. rewrite cap_app in Hc. pose proof (cap_nonneg es1). pose proof (cap_nonneg es2). pose proof (sizes_nonneg es1). pose proof (sizes_nonneg es2). pose proof (sizes_cap es1). pose proof (sizes_cap es2).
  pose proof (tail_off_le es1). pose proof (tail_off_le es2). unfold UINT16_MAX in *.
  assert (Hlen : forall es n, 0 <= n <= 65535 -> ZIPLIST_LENGTH (block es n) = Some n) by (intros; apply head_length; lia).
  unfold ziplistMerge. rewrite !block_bytes, !block_tail by lia. cbn [mbind option_bind]. rewrite !Hlen by lia. cbn [mbind option_bind].
  set (n' := Z.min (n1 + n2) 65535). replace (if n1 + n2 <? UINT16_MAX then n1 + n2 else UINT16_MAX) with n' by (unfold n', UINT16_MAX; destruct (Z.ltb_spec (n1 + n2) 65535); lia).
  assert (Htail : (target ← set_BYTES (head (11 + sizes es1) (10 + tail_off es1) n1 ++ lay 0 es1 ++ lay 0 es2 ++ [ZIP_END]) (u32 (11 + sizes es1 + (11 + sizes es2) - ZIPLIST_HEADER_SIZE - ZIPLIST_END_SIZE));
     target ← set_LENGTH target (u16 n');
     target ← set_TAIL_OFFSET target (u32 ((11 + sizes es1 - ZIPLIST_END_SIZE) + (10 + tail_off es2 - ZIPLIST_HEADER_SIZE)));
     target ← __ziplistCascadeUpdate junk target (10 + tail_off es1);
     Some (n2 <=? n1, target)) = Some (n2 <=? n1, block (es1 ++ widen (last_len 0 es1) es2) n')).
  { rewrite head_set_bytes. cbn [mbind option_bind]. rewrite head_set_length. cbn [mbind option_bind]. rewrite head_set_tail. cbn [mbind option_bind]. unfold ZIPLIST_END_SIZE, ZIPLIST_HEADER_SIZE.
    rewrite !u32_small, (u16_small n') by lia. destruct es1 as [|e1 es1 _] using rev_ind.
    - destruct es2 as [|e es2]; [done|]. pose proof Hf2 as (Hp & Hv & Hfe). cbn [tail_off last_len app] in *. rewrite widen_fits_id by done.
      pose proof (block_laid [] e es2 n') as Eb. pose proof (cascade_spec junk [] 0 e (rawlen e) es2 n' Hp Hv Hfe) as Ec. rewrite widen_fits_id in Ec by done. cbn [app lay last_len length] in Eb, Ec. rewrite <-Eb in Ec.
      replace (head _ _ n' ++ lay 0 [] ++ lay 0 (e :: es2) ++ [ZIP_END]) with (block (e :: es2) n') by (unfold block; cbn [app lay sizes tail_off]; do 2 f_equal; lia).
      change (10 + 0) with (10 + Z.of_nat 0). rewrite Ec by (cbn [cap] in *; lia). done.
    - rewrite last_len_snoc, tail_off_snoc, <-app_assoc. cbn [app]. apply fits_app in Hf1 as [_ (Hp & Hv & _)]. rewrite cap_app in *. cbn [cap] in *. rewrite sizes_app in *. cbn [sizes] in *.
      replace (head _ _ n' ++ lay 0 (es1 ++ [e1]) ++ lay 0 es2 ++ [ZIP_END]) with (laid (lay 0 es1) (last_len 0 es1) e1 0 es2 n').
      2: { unfold laid, tail_of. rewrite lay_app, zlen_lay. cbn [lay tail_off]. rewrite app_nil_r, <-!app_assoc. destruct es2 as [|e es2]; [done|]. do 2 f_equal; cbn [tail_off]; lia. }
      replace (10 + sizes es1) with (10 + zlen (lay 0 es1)) by (by rewrite zlen_lay). pose proof (sizes_cap es1). rewrite cascade_spec by (done || (rewrite zlen_lay; cbn [cap]; lia)). cbn [mbind option_bind]. by rewrite block_laid. }
  destruct (n2 <=? n1) eqn:E; cbn [mbind option_bind].
  - pose proof (merge_append es1 es2 n1 n2) as Hm. unfold ZIPLIST_HEADER_SIZE, ZIPLIST_END_SIZE in *. same_call Hm. rewrite Hm. cbn [mbind option_bind]. exact Htail.
  - pose proof (merge_prepend es1 es2 n1 n2) as Hm. unfold ZIPLIST_HEADER_SIZE, ZIPLIST_END_SIZE in *. do 2 same_call Hm. rewrite Hm. cbn [mbind option_bind]. exact Htail.
Qed.

Lemma ziplistMerge_spec zl1 zl2 L1 L2 : zrep zl1 L1 -> zrep zl2 L2 -> L2 <> [] -> 11 + room (L1 ++ L2) < 2 ^ 32 ->
  exists append zl, ziplistMerge junk zl1 zl2 = Some (append, zl) /\ zrep zl (L1 ++ L2).
Proof.
  intros (es1 & n1 & -> & H1) (es2 & n2 & -> & H2) Hne Hr. pose proof (holds_length _ _ _ H1) as Hl1. pose proof (holds_length _ _ _ H2) as Hl2.
  pose proof (holds_cap _ _ _ H1) as Hc1. pose proof (holds_cap _ _ _ H2) as Hc2. rewrite room_app in Hr. pose proof (room_nonneg L1). pose proof (room_nonneg L2).
  destruct (h_count _ _ _ H1) as [Hn1 He1]. destruct (h_count _ _ _ H2) as [Hn2 He2]. pose proof (last_len_range es1 0) as Hll.
  rewrite merge_blocks; [|apply (h_fits _ _ _ H1)|apply (h_fits _ _ _ H2)|by destruct es2, L2|rewrite cap_app; lia|done|done].
  do 2 eexists. split; [done|]. do 2 eexists. split; [done|]. split.
  - apply fits_app. split; [apply (h_fits _ _ _ H1)|]. apply widen_fits; [apply Hll; lia|lia|eapply fits_tail, (h_fits _ _ _ H2)].
  - rewrite !fmap_app, widen_values, (h_values _ _ _ H1), (h_values _ _ _ H2). done.
  - unfold count_ok, UINT16_MAX in *. rewrite length_app. lia.
  - rewrite room_app. lia.
Qed.
End Merge.
