(* ===== verification/ZipRefine.v ===== *)
(** A ziplist under any sequence of calls is a list of strings; merging two of
    them appends the lists. *)

From S2P Require Import Prelude Decimal Util Ziplist ZipRep ZipUpdate ZipInsert ZipDelete ZipList.
#[local] Open Scope Z_scope.

Implicit Types (zl s : list Z) (L : list (list Z)).

(** ** Calls *)

(** The calls that lists, hashes and sorted sets make: an entry is found by its
    index, a field of a hash by its name, its value is the next entry. *)
Inductive zcall :=
  | ZPush (s : list Z) (where_ : Z)
  | ZInsert (index : Z) (s : list Z)
  | ZDelete (index : Z)
  | ZDeleteRange (index num : Z)
  | ZGet (index : Z)
  | ZCompare (index : Z) (s : list Z)
  | ZField (s : list Z)
  | ZForward
  | ZBackward
  | ZLen.

Inductive zreply := RNone | RStr (s : list Z) | RBool (b : bool) | RList (l : list (list Z)) | RLen (n : Z).

(** The characters of an entry, an integer being printed. *)
Definition chars_of zl (r : zget) : option (list Z) :=
  match r with
  | GStr off n => bread zl off n
  | GInt v => '(n, buf) ← ll2string (replicate 32 0) 32 v; Some (take (Z.to_nat n) buf)
  end.
Definition read_at zl (p : option Z) : option (option (list Z)) :=
  r ← ziplistGet zl p;
  match r with None => Some None | Some r => s ← chars_of zl r; Some (Some s) end.

(** All entries from [p] on, in the direction of [step]. *)
Fixpoint walk_from (fuel : nat) (step : list Z -> Z -> option (option Z)) zl (p : option Z) : option (list (list Z)) :=
  match fuel with
  | O => None
  | S fuel =>
      s ← read_at zl p;
      match s, p with
      | Some s, Some p => p ← step zl p; l ← walk_from fuel step zl p; Some (s :: l)
      | _, _ => Some []
      end
  end.

Section Run.
  Context (junk : Z -> Z).

Definition zcall_run zl (c : zcall) : option (list Z * zreply) :=
  match c with
  | ZPush s where_ => zl ← ziplistPush junk zl s (zlen s) where_; Some (zl, RNone)
  | ZInsert index s =>
      p ← ziplistIndex zl index;
      match p with None => Some (zl, RNone) | Some p => zl ← ziplistInsert junk zl p s (zlen s); Some (zl, RNone) end
  | ZDelete index =>
      p ← ziplistIndex zl index;
      match p with None => Some (zl, RNone) | Some p => '(zl, _) ← ziplistDelete junk zl p; Some (zl, RNone) end
  | ZDeleteRange index num => zl ← ziplistDeleteRange junk zl index num; Some (zl, RNone)
  | ZGet index =>
      p ← ziplistIndex zl index;
      s ← read_at zl p;
      Some (zl, match s with None => RNone | Some s => RStr s end)
  | ZCompare index s =>
      p ← ziplistIndex zl index;
      match p with None => Some (zl, RNone) | Some p => b ← ziplistCompare zl p s (zlen s); Some (zl, RBool b) end
  | ZField s =>
      p ← ziplistIndex zl 0;
      match p with
      | None => Some (zl, RNone)
      | Some p =>
          p ← ziplistFind zl p s (zlen s) 1;
          match p with
          | None => Some (zl, RNone)
          | Some p => p ← ziplistNext zl p; s ← read_at zl p; Some (zl, match s with None => RNone | Some s => RStr s end)
          end
      end
  | ZForward => p ← ziplistIndex zl 0; l ← walk_from (S (length zl)) ziplistNext zl p; Some (zl, RList l)
  | ZBackward => p ← ziplistIndex zl (-1); l ← walk_from (S (length zl)) ziplistPrev zl p; Some (zl, RList l)
  | ZLen => '(n, zl) ← ziplistLen zl; Some (zl, RLen n)
  end.

Fixpoint zcalls_run zl (cs : list zcall) : option (list Z * list zreply) :=
  match cs with
  | [] => Some (zl, [])
  | c :: cs => '(zl, r) ← zcall_run zl c; '(zl, rs) ← zcalls_run zl cs; Some (zl, r :: rs)
  end.
End Run.

(** The same on lists. *)
Definition reply_at (i : option nat) L : zreply := match i ≫= (fun i => L !! i) with Some s => RStr s | None => RNone end.
Definition a_zcall L (c : zcall) : list (list Z) * zreply :=
  match c with
  | ZPush s where_ => (if where_ =? ZIPLIST_HEAD then s :: L else L ++ [s], RNone)
  | ZInsert index s => (match index_of index L with Some i => take i L ++ s :: drop i L | None => L end, RNone)
  | ZDelete index => (match index_of index L with Some i => delete i L | None => L end, RNone)
  | ZDeleteRange index num => (match index_of index L with Some i => take i L ++ drop (i + Z.to_nat num) L | None => L end, RNone)
  | ZGet index => (L, reply_at (index_of index L) L)
  | ZCompare index s => (L, match index_of index L ≫= (fun i => L !! i) with Some t => RBool (bool_decide (t = s)) | None => RNone end)
  | ZField s => (L, reply_at (S <$> find_from s 1 0 0 L) L)
  | ZForward => (L, RList L)
  | ZBackward => (L, RList (reverse L))
  | ZLen => (L, RLen (zlen L))
  end.
Fixpoint a_zcalls L (cs : list zcall) : list (list Z) * list zreply :=
  match cs with
  | [] => (L, [])
  | c :: cs => let '(L, r) := a_zcall L c in let '(L, rs) := a_zcalls L cs in (L, r :: rs)
  end.

(** The arguments, and the bytes that they may take: every string at most 14 more
    than its length. *)
Definition zcall_ok (c : zcall) : Prop :=
  match c with
  | ZPush s _ | ZField s => bytes_ok s
  | ZInsert index s => bytes_ok s /\ - 2 ^ 31 <= index < 2 ^ 31
  | ZCompare index _ | ZDelete index | ZGet index => - 2 ^ 31 <= index < 2 ^ 31
  | ZDeleteRange index num => - 2 ^ 31 <= index < 2 ^ 31 /\ 0 <= num < 2 ^ 32
  | _ => True
  end.
Definition zcall_cost (c : zcall) : Z := match c with ZPush s _ | ZInsert _ s | ZField s => 14 + zlen s | _ => 0 end.
Definition zcalls_cost (cs : list zcall) : Z := foldr (fun c n => zcall_cost c + n) 0 cs.

(** ** Reading *)

Lemma value_size_bound s : value_size (value_of s) <= 9 + zlen s.
Proof.
  destruct (zipTryEncoding_spec s) as (_ & Hd & _). unfold value_size. destruct (value_of s) as [c|enc v]; cbn [denotes header data length] in *.
  - subst c. pose proof (header_size (ZStr s)). cbn [header] in *. lia.
  - unfold int_bytes. repeat destruct (_ =? _); rewrite ?length_le_encode; cbn [length]; lia.
Qed.

Lemma chars_of_spec zl r s : stands_for zl r s -> chars_of zl r = Some s.
Proof.
  destruct r as [off n|v]; cbn [stands_for chars_of]; [done|]. intros [Hs Hv]. destruct (ll2string_spec (replicate 32 0) 32 v Hv) as (t & Ht & ->); [done|].
  assert (t = s) as -> by (by eapply is_sdec_inj). pose proof (sdec_length s v Hv Hs). ztrue (zlen s <? 32). cbn [mbind option_bind]. by rewrite Nat2Z.id, take_app_length.
Qed.

Lemma read_at_spec zl L i p : zrep_at zl L i p -> read_at zl (Some p) = Some (L !! i).
Proof.
  intros H. unfold read_at. destruct (L !! i) as [s|] eqn:Hs.
  - destruct (ziplistGet_spec _ _ _ _ _ H Hs) as (r & -> & Hr). cbn [mbind option_bind]. by rewrite (chars_of_spec _ _ _ Hr).
  - apply lookup_ge_None in Hs. pose proof H as (_ & _ & _ & _ & Hi & _). assert (i = length L) as -> by lia. cbn [ziplistGet]. by rewrite (zrep_at_end _ _ _ H).
Qed.

Lemma walk_forward zl L : forall fuel i p, zrep_at zl L i p -> (length L - i < fuel)%nat -> walk_from fuel ziplistNext zl (Some p) = Some (drop i L).
Proof.
  induction fuel as [|fuel IH]; intros i p H Hf; [lia|]. cbn [walk_from]. rewrite (read_at_spec _ _ _ _ H). cbn [mbind option_bind]. destruct (L !! i) as [s|] eqn:Hs.
  - destruct (ziplistNext_spec _ _ _ _ H) as (r & -> & Hr). cbn [mbind option_bind]. rewrite (drop_S _ _ _ Hs). destruct r as [q|].
    + destruct Hr as [Hr Hl]. by rewrite (IH (S i)) by (done || lia).
    + destruct fuel; [apply lookup_lt_Some in Hs; lia|]. cbn. by rewrite drop_ge by lia.
  - apply lookup_ge_None in Hs. by rewrite drop_ge by lia.
Qed.
Lemma walk_backward zl L : forall fuel i p, zrep_at zl L i p -> (i < length L)%nat -> (S i < fuel)%nat -> walk_from fuel ziplistPrev zl (Some p) = Some (reverse (take (S i) L)).
Proof.
  induction fuel as [|fuel IH]; intros i p H Hi Hf; [lia|]. destruct (lookup_lt_is_Some_2 L i Hi) as [s Hs]. cbn [walk_from]. rewrite (read_at_spec _ _ _ _ H), Hs. cbn [mbind option_bind].
  destruct (ziplistPrev_spec _ _ _ _ H) as (r & -> & Hr). cbn [mbind option_bind]. rewrite (take_S_r _ _ _ Hs), reverse_app, reverse_singleton. destruct r as [q|].
  - destruct Hr as [Hr0 Hr]. rewrite (IH (pred i)) by (done || lia). by replace (S (pred i)) with i by lia.
  - subst i. destruct fuel; [lia|]. done.
Qed.

(** ** Every call *)

(** The pointer that a lookup returns, NULL if there is no such entry. *)
Definition points zl L (i : option nat) (p : option Z) : Prop :=
  match i, p with Some i, Some p => zrep_at zl L i p /\ (i < length L)%nat | None, None => True | _, _ => False end.

Lemma read_points zl L i p : points zl L i p -> read_at zl p = Some (i ≫= (fun i => L !! i)).
Proof. destruct i as [i|], p as [p|]; try done. intros [H _]. by apply (read_at_spec zl L). Qed.
Lemma points_reply zl L i p : points zl L i p -> exists o, read_at zl p = Some o /\ match o with None => RNone | Some s => RStr s end = reply_at i L.
Proof. intros H. rewrite (read_points _ _ _ _ H). eexists. split; [done|]. done. Qed.
Lemma index_of_0 L : index_of 0 L = match L with [] => None | _ => Some O end.
Proof. unfold index_of. by destruct L. Qed.
Lemma index_of_last L : index_of (-1) L = match L with [] => None | _ => Some (pred (length L)) end.
Proof. unfold index_of. destruct L as [|s L]; [done|]. change (0 <=? -1) with false. cbv iota. ztrue (0 <=? zlen (s :: L) + -1). f_equal. cbn [length]. lia. Qed.

Lemma find_from_range s skip : forall L cnt i j, find_from s skip cnt i L = Some j -> (i <= j < i + length L)%nat.
Proof.
  induction L as [|x L IH]; intros cnt i j; [done|]. cbn [find_from length]. destruct (cnt =? 0); [destruct (bool_decide (x = s)); [intros [= <-]; lia|]|]; intros H%IH; lia.
Qed.

Section Refine.
  Context (junk : Z -> Z).

Lemma room_cut L i j : (i <= j)%nat -> room (take i L ++ drop j L) <= room L.
Proof.
  intros Hij. rewrite room_app. rewrite <-(take_drop j L) at 3. rewrite room_app, <-(take_drop i (take j L)), room_app, take_take, Nat.min_l by done. pose proof (room_nonneg (drop i (take j L))). lia.
Qed.

Lemma delete_nothing zl L i p : zrep_at zl L i p -> (i < length L)%nat -> __ziplistDelete junk zl p 0 = Some zl.
Proof.
  intros H Hi. destruct (lookup_lt_is_Some_2 L i Hi) as [t Ht]. destruct (zrep_at_entry _ _ _ _ _ H Ht) as (b & prev & Ha & Hp & Hv & _). unfold __ziplistDelete.
  rewrite (zipEntry_spec _ _ _ _ Ha Hp Hv). cbn [mbind option_bind zp]. destruct (zrep_at_fuel _ _ _ _ H) as [Hf _]. destruct (length zl); [lia|]. cbn [delete_loop].
  destruct (entry_not_end _ _ _ _ Ha Hp) as (c & -> & Hc). cbn [mbind option_bind]. rewrite Hc. cbn [negb andb Z.ltb Z.compare mbind option_bind]. by rewrite Z.sub_diag.
Qed.
Lemma delete_range zl L index num : zrep zl L -> - 2 ^ 31 <= index < 2 ^ 31 -> 0 <= num ->
  exists zl', ziplistDeleteRange junk zl index num = Some zl' /\ zrep zl' (a_zcall L (ZDeleteRange index num)).1.
Proof.
  intros H Hx Hn. unfold ziplistDeleteRange. destruct (ziplistIndex_spec zl L index H Hx) as (p & -> & Hp). cbn [mbind option_bind a_zcall fst]. destruct (index_of index L) as [i|], p as [p|]; try done; [|by exists zl].
  destruct Hp as [Hp Hi]. destruct (decide (num = 0)) as [->|Hn0].
  - rewrite (delete_nothing _ _ _ _ Hp Hi). exists zl. by rewrite Nat.add_0_r, take_drop.
  - destruct (delete_at junk zl L i p num Hp Hi) as (zl' & -> & Hz); [lia|]. exists zl'. split; [done|]. by eapply zrep_at_rep.
Qed.

Lemma field_value zl L s : zrep zl L -> bytes_ok s -> zlen s < 2 ^ 32 -> zcall_run junk zl (ZField s) = Some (zl, (a_zcall L (ZField s)).2).
Proof.
  intros H Hs Hl. cbn [zcall_run a_zcall snd]. destruct (ziplistIndex_spec zl L 0 H) as (p & -> & Hp); [lia|]. cbn [mbind option_bind]. rewrite index_of_0 in Hp.
  destruct L as [|x L], p as [p|]; try done. destruct Hp as [Hp _]. set (L0 := x :: L) in *. destruct (ziplistFind_spec zl L0 0 p s 1 Hp Hs Hl) as (r & -> & Hr); [lia|]. cbn [mbind option_bind]. rewrite drop_0 in Hr.
  destruct (find_from s 1 0 0 L0) as [j|] eqn:Ej, r as [q|]; try done. apply find_from_range in Ej. destruct (ziplistNext_spec _ _ _ _ Hr) as (r & -> & Hn). cbn [mbind option_bind fmap option_fmap option_map].
  assert (Hpt : points zl L0 (if decide (S j < length L0)%nat then Some (S j) else None) r).
  { destruct r as [q'|]; [destruct Hn as [Hn Hl']; rewrite decide_True by done; by split|]. by rewrite decide_False by lia. }
  destruct (points_reply _ _ _ _ Hpt) as (o & -> & Ho). cbn [mbind option_bind]. rewrite Ho. do 2 f_equal. unfold reply_at. destruct (decide _); cbn [mbind option_bind]; [done|]. by rewrite (lookup_ge_None_2 L0 (S j)) by lia.
Qed.

Lemma zcall_refines zl L c budget : zrep zl L -> zcall_ok c -> room L <= budget -> 11 + budget + zcall_cost c < 2 ^ 32 -> 0 <= budget ->
  exists zl', zcall_run junk zl c = Some (zl', (a_zcall L c).2) /\ zrep zl' (a_zcall L c).1 /\ room (a_zcall L c).1 <= budget + zcall_cost c.
Proof.
  intros H Hok Hr Hb H0. pose proof (zrep_first zl L H) as Hfirst. destruct (zrep_at_fuel _ _ _ _ Hfirst) as [Hfu Hlen].
  assert (Hidx : forall x, - 2 ^ 31 <= x < 2 ^ 31 -> exists p, ziplistIndex zl x = Some p /\ points zl L (index_of x L) p).
  { intros x Hx. destruct (ziplistIndex_spec zl L x H Hx) as (p & -> & Hp). exists p. split; [done|]. unfold points. by destruct (index_of x L), p. }
  assert (Hsame : room L <= budget + zcall_cost c) by (destruct c; cbn [zcall_cost]; lia).
  assert (Hput : forall i s, zcall_cost c = 14 + zlen s -> room (take i L ++ s :: drop i L) <= budget + zcall_cost c).
  { intros i s ->. rewrite room_app. cbn [room]. pose proof (value_size_bound s). rewrite <-(take_drop i L), room_app in Hr. lia. }
  destruct c as [s where_|index s|index|index num|index|index s|s| | |]; cbn [zcall_run a_zcall zcall_ok] in *.
  - unfold ziplistPush. destruct (Z.eqb_spec where_ ZIPLIST_HEAD) as [_|_]; cbn [mbind option_bind].
    + specialize (Hput O s eq_refl). rewrite take_0, drop_0 in Hput. destruct (insert_at junk zl L 0 10 s Hfirst Hok) as (zl' & E & Hz); [cbn [zcall_cost] in Hb; lia|rewrite take_0, drop_0; cbn [app] in *; lia|].
      unfold ziplistInsert, ZIPLIST_HEADER_SIZE in *. rewrite E. exists zl'. split; [done|]. rewrite take_0, drop_0 in Hz. split; [by eapply zrep_at_rep|done].
    + specialize (Hput (length L) s eq_refl). rewrite take_ge, drop_ge in Hput by done. destruct (zrep_end zl L H) as (p & -> & Hp). cbn [mbind option_bind].
      destruct (insert_at junk zl L (length L) p s Hp Hok) as (zl' & E & Hz); [cbn [zcall_cost] in Hb; lia|rewrite take_ge, drop_ge by done; lia|].
      unfold ziplistInsert in E. rewrite E. exists zl'. split; [done|]. rewrite take_ge, drop_ge in Hz by done. split; [by eapply zrep_at_rep|done].
  - destruct Hok as [Hs Hx]. destruct (Hidx index Hx) as (p & -> & Hp). cbn [mbind option_bind]. destruct (index_of index L) as [i|], p as [p|]; try done; [|by exists zl].
    destruct Hp as [Hp Hi]. specialize (Hput i s eq_refl). destruct (insert_at junk zl L i p s Hp Hs) as (zl' & -> & Hz); [cbn [zcall_cost] in Hb; lia|lia|]. exists zl'. split; [done|]. split; [by eapply zrep_at_rep|done].
  - destruct (Hidx index Hok) as (p & -> & Hp). cbn [mbind option_bind]. destruct (index_of index L) as [i|], p as [p|]; try done; [|by exists zl].
    destruct Hp as [Hp Hi]. destruct (ziplistDelete_at junk zl L i p Hp Hi) as (zl' & -> & Hz). exists zl'. split; [done|]. split; [by eapply zrep_at_rep|]. cbn [fst]. rewrite delete_take_drop. pose proof (room_cut L i (S i) ltac:(lia)). lia.
  - destruct Hok as [Hx Hn]. destruct (delete_range zl L index num H Hx) as (zl' & -> & Hz); [lia|]. cbn [mbind option_bind]. exists zl'. split; [done|]. split; [done|]. cbn [a_zcall fst].
    destruct (index_of index L) as [i|]; [|done]. pose proof (room_cut L i (i + Z.to_nat num) ltac:(lia)). lia.
  - destruct (Hidx index Hok) as (p & -> & Hp). cbn [mbind option_bind]. destruct (points_reply _ _ _ _ Hp) as (o & -> & Ho). cbn [mbind option_bind]. exists zl. rewrite Ho. by split.
  - destruct (Hidx index Hok) as (p & -> & Hp). cbn [mbind option_bind]. destruct (index_of index L) as [i|], p as [p|]; try done; [|by exists zl].
    destruct Hp as [Hp Hi]. destruct (lookup_lt_is_Some_2 L i Hi) as [t Ht]. rewrite (ziplistCompare_spec zl L i p t s Hp Ht). cbn [mbind option_bind]. rewrite Ht. exists zl. by split.
  - exists zl. split; [|by split]. apply (field_value zl L s H Hok). cbn [zcall_cost] in Hb. lia.
  - destruct (Hidx 0) as (p & -> & Hp); [lia|]. cbn [mbind option_bind]. rewrite index_of_0 in Hp. exists zl. split; [|by split]. destruct L as [|x L], p as [p|]; try done. destruct Hp as [Hp _].
    by rewrite (walk_forward zl (x :: L)) with (i := O) by (done || lia).
  - destruct (Hidx (-1)) as (p & -> & Hp); [lia|]. cbn [mbind option_bind]. rewrite index_of_last in Hp. exists zl. split; [|by split]. destruct L as [|x L], p as [p|]; try done. destruct Hp as [Hp Hi]. set (L0 := x :: L) in *.
    rewrite (walk_backward zl L0) with (i := pred (length L0)) by (done || lia). cbn [mbind option_bind]. by rewrite take_ge by lia.
  - destruct (ziplistLen_spec zl L H) as (zl' & -> & Hz). exists zl'. by split.
Qed.

Lemma zcalls_refine cs : forall zl L budget, zrep zl L -> Forall zcall_ok cs -> room L <= budget -> 0 <= budget -> 11 + budget + zcalls_cost cs < 2 ^ 32 ->
  exists zl', zcalls_run junk zl cs = Some (zl', (a_zcalls L cs).2) /\ zrep zl' (a_zcalls L cs).1.
Proof.
  induction cs as [|c cs IH]; intros zl L budget H Hok Hr H0 Hb; [by exists zl|]. apply Forall_cons in Hok as [Hc Hok]. cbn [zcalls_cost foldr] in Hb. fold (zcalls_cost cs) in Hb.
  assert (Hpos : forall cs, 0 <= zcalls_cost cs) by (induction cs0 as [|c0 cs0 IH0]; [done|]; cbn; unfold zcalls_cost in IH0; destruct c0; cbn; lia).
  assert (Hcp : 0 <= zcall_cost c) by (destruct c; cbn; lia). specialize (Hpos cs). destruct (zcall_refines zl L c budget H Hc Hr) as (zl' & E & Hz & Hr'); [lia|lia|]. cbn [zcalls_run a_zcalls]. rewrite E. cbn [mbind option_bind].
  destruct (a_zcall L c) as [L' r]. cbn [fst snd] in *. destruct (IH zl' L' (budget + zcall_cost c) Hz Hok Hr') as (zl'' & -> & Hz'); [lia|lia|]. destruct (a_zcalls L' cs) as [L'' rs]. by exists zl''.
Qed.
End Refine.

(** ** Properties *)

(** C33. Every sequence of calls on a new ziplist returns, stays inside its block and
    answers as a list of strings does: pushes at both ends, insertions and deletions
    at any index, lookups by index and by field, comparisons, both iterations and
    the length, whatever the encodings of the entries and the cascades of updates
    that changing one of them sets off. *)
Theorem ziplist_refines_list (junk : Z -> Z) (cs : list zcall) : Forall zcall_ok cs -> 11 + zcalls_cost cs < 2 ^ 32 ->
  exists zl, (zl ← ziplistNew junk; zcalls_run junk zl cs) = Some (zl, (a_zcalls [] cs).2).
Proof.
  intros Hok Hb. destruct (ziplistNew_spec junk) as (zl & -> & H). cbn [mbind option_bind]. destruct (zcalls_refine junk cs zl [] 0 H Hok) as (zl' & -> & _); [done|done|lia|]. by exists zl'.
Qed.

Lemma room_le_cost cs : forall L, room (a_zcalls L cs).1 <= room L + zcalls_cost cs.
Proof.
  induction cs as [|c cs IH]; intros L; [cbn; lia|]. cbn [a_zcalls zcalls_cost foldr]. fold (zcalls_cost cs). assert (H : room (a_zcall L c).1 <= room L + zcall_cost c).
  { destruct c as [s w|x s|x|x num|x|x s|s| | |]; cbn [a_zcall fst zcall_cost]; try lia.
    - pose proof (value_size_bound s). destruct (w =? ZIPLIST_HEAD); rewrite ?room_app; cbn [room]; lia.
    - destruct (index_of x L) as [i|]; [|lia]. rewrite room_app. cbn [room]. rewrite <-(take_drop i L) at 3. rewrite room_app. pose proof (value_size_bound s). lia.
    - destruct (index_of x L) as [i|]; [|lia]. rewrite delete_take_drop. pose proof (room_cut L i (S i)). lia.
    - destruct (index_of x L) as [i|]; [|lia]. pose proof (room_cut L i (i + Z.to_nat num)). lia. }
  specialize (IH (a_zcall L c).1). destruct (a_zcall L c) as [L1 r]. cbn [fst] in *. destruct (a_zcalls L1 cs). cbn [fst] in *. lia.
Qed.

(** ziplistMerge of two lists, the second of which is not empty, returns the
    larger block with the entries of the first list and then those of the second;
    every later call answers as for the appended list. *)
Theorem ziplistMerge_correct (junk : Z -> Z) (cs1 cs2 cs : list zcall) : Forall zcall_ok cs1 -> Forall zcall_ok cs2 -> Forall zcall_ok cs ->
  11 + zcalls_cost cs1 + zcalls_cost cs2 + zcalls_cost cs < 2 ^ 32 -> (a_zcalls [] cs2).1 <> [] ->
  exists append zl zl', (zl1 ← ziplistNew junk; '(zl1, _) ← zcalls_run junk zl1 cs1; zl2 ← ziplistNew junk; '(zl2, _) ← zcalls_run junk zl2 cs2; ziplistMerge junk zl1 zl2) = Some (append, zl) /\
    zcalls_run junk zl cs = Some (zl', (a_zcalls ((a_zcalls [] cs1).1 ++ (a_zcalls [] cs2).1) cs).2).
Proof.
  intros H1 H2 H Hb Hne. destruct (ziplistNew_spec junk) as (zl & -> & Hz). cbn [mbind option_bind].
  assert (Hpos : forall cs, 0 <= zcalls_cost cs) by (induction cs0 as [|c0 cs0 IH0]; [done|]; cbn; unfold zcalls_cost in IH0; destruct c0; cbn; lia).
  pose proof (Hpos cs1). pose proof (Hpos cs2). pose proof (Hpos cs). pose proof (room_le_cost cs1 []) as R1. pose proof (room_le_cost cs2 []) as R2. cbn [room] in R1, R2.
  destruct (zcalls_refine junk cs1 zl [] 0 Hz H1) as (zl1 & -> & Hz1); [done|done|lia|]. destruct (zcalls_refine junk cs2 zl [] 0 Hz H2) as (zl2 & -> & Hz2); [done|done|lia|]. cbn [mbind option_bind].
  destruct (ziplistMerge_spec junk zl1 zl2 _ _ Hz1 Hz2 Hne) as (append & zl3 & -> & Hz3); [rewrite room_app; lia|].
  destruct (zcalls_refine junk cs zl3 _ (zcalls_cost cs1 + zcalls_cost cs2) Hz3 H) as (zl' & E & _); [rewrite room_app; lia|lia|lia|]. exists append, zl3, zl'. by rewrite E.
Qed.

(** ** Examples *)

Definition old_memory (_ : Z) : Z := 165.

(** Three entries of 253 bytes; the one put in front of them is so long that the
    length of each of them must be widened. *)
Definition long_calls : list zcall :=
  [ZPush (replicate 250 97) ZIPLIST_TAIL; ZPush (replicate 250 98) ZIPLIST_TAIL; ZPush (replicate 250 99) ZIPLIST_TAIL; ZPush (str "-1234") ZIPLIST_TAIL;
   ZPush (replicate 300 100) ZIPLIST_HEAD; ZBackward; ZField (replicate 250 98); ZCompare (-1) (str "-1234"); ZDeleteRange 0 2; ZInsert 1 (str "70000"); ZForward; ZGet 1; ZDelete (-2); ZLen].
Definition zcall_okb (c : zcall) : bool :=
  let bytes s := forallb (fun b => (0 <=? b) && (b <? 256)) s in let int x := (- 2 ^ 31 <=? x) && (x <? 2 ^ 31) in
  match c with
  | ZPush s _ | ZField s => bytes s
  | ZInsert x s => bytes s && int x
  | ZCompare x _ | ZDelete x | ZGet x => int x
  | ZDeleteRange x num => int x && ((0 <=? num) && (num <? 2 ^ 32))
  | _ => true
  end.
Lemma zcall_okb_ok cs : forallb zcall_okb cs = true -> Forall zcall_ok cs.
Proof.
  rewrite forallb_forall. intros H. apply Forall_forall. intros c Hc. apply list_elem_of_In, H in Hc.
  assert (Hb : forall s, forallb (fun b => (0 <=? b) && (b <? 256)) s = true -> bytes_ok s).
  { intros s. rewrite forallb_forall. intros Hs. apply Forall_forall. intros b Hb. apply list_elem_of_In, Hs in Hb. rewrite andb_true_iff, Z.leb_le, Z.ltb_lt in Hb. exact Hb. }
  destruct c; cbn [zcall_okb zcall_ok] in *; rewrite ?andb_true_iff, ?Z.leb_le, ?Z.ltb_lt in Hc; auto; destruct Hc; auto.
Qed.

Example long_calls_run : (zl ← ziplistNew old_memory; '(zl, rs) ← zcalls_run old_memory zl long_calls; Some (zlen zl, drop 11 rs)) = Some (273, [RStr (str "70000"); RNone; RLen 3]).
Proof. by vm_compute. Qed.

Lemma ziplist_refines_list_witness : exists zl, (zl ← ziplistNew old_memory; zcalls_run old_memory zl long_calls) = Some (zl, (a_zcalls [] long_calls).2).
Proof. apply ziplist_refines_list; [by apply zcall_okb_ok|by vm_compute]. Defined.

Lemma ziplistMerge_correct_witness : exists append zl zl', (zl1 ← ziplistNew old_memory; '(zl1, _) ← zcalls_run old_memory zl1 long_calls;
    zl2 ← ziplistNew old_memory; '(zl2, _) ← zcalls_run old_memory zl2 long_calls; ziplistMerge old_memory zl1 zl2) = Some (append, zl) /\
  zcalls_run old_memory zl [ZForward; ZBackward] = Some (zl', (a_zcalls ((a_zcalls [] long_calls).1 ++ (a_zcalls [] long_calls).1) [ZForward; ZBackward]).2).
Proof. apply ziplistMerge_correct; [by apply zcall_okb_ok|by apply zcall_okb_ok|by apply zcall_okb_ok|by vm_compute|by vm_compute]. Defined.

(** After a merge with an empty second list and a push, the list can be read
    forward, and reading it from its end fails the assertion of ziplistPrev. *)
Example merge_empty_asserts : (zl ← merge_empty; '(zl, r) ← zcall_run old_memory zl ZForward; Some (r, zcall_run old_memory zl ZBackward)) =
  Some (RList [str "2"; str "5"; str "7"], None).
Proof. by vm_compute. Qed.
