(* ===== verification/Zskiplist.v ===== *)
(** t_zset.c: the skiplist of sorted sets.

    Nodes are objects in a store indexed by their address.  A node of the list
    has an array of levels, each with a forward pointer and the span, the number
    of elements it steps over; the header has all 32 levels.  Every operation
    returns an option: [None] is a NULL or dangling dereference, an access
    outside an array of levels, a failed serverAssert, or exhausted fuel.

    An element is the bytes of its sds.  Scores are doubles other than NaN, a
    type of which only the order is used: [key] maps it to the integers.  *)

From stdpp Require Import gmap.
From S2P Require Import Prelude Sds SdsString.
#[local] Open Scope Z_scope.

Definition ZSKIPLIST_MAXLEVEL : nat := 32.

(** [<] and [==] on doubles other than NaN are those of their keys. *)
Class Score (score : Type) := { key : score -> Z; zero : score }.
Definition score_lt {score} `{Score score} (a b : score) : bool := key a <? key b.
Definition score_eq {score} `{Score score} (a b : score) : bool := key a =? key b.

(** sdscmp on the contents of two strings. *)
Definition content_cmp (a b : list Z) : Z :=
  let n := Nat.min (length a) (length b) in
  let cmp := memcmp_list (take n a) (take n b) in
  if cmp =? 0 then i32 (u64 (zlen a - zlen b)) else cmp.

Definition nodeptr := nat.

Section Skiplist.
  Context {score : Type} `{Score score}.
  (** What zmalloc leaves in an array of levels. *)
  Context (junk : nat -> option nodeptr * Z).

Record zskiplistNode := mkNode {
  ele : option (list Z);
  node_score : score;
  backward : option nodeptr;
  level : list (option nodeptr * Z)
}.

Record zskiplist := mkZsl {
  heap : gmap nodeptr zskiplistNode;
  header : nodeptr;
  tail : option nodeptr;
  length_ : Z;
  zlevel : nat
}.

Definition set_heap (h : gmap nodeptr zskiplistNode) (z : zskiplist) := mkZsl h (header z) (tail z) (length_ z) (zlevel z).
Definition set_tail t z := mkZsl (heap z) (header z) t (length_ z) (zlevel z).
Definition set_length n z := mkZsl (heap z) (header z) (tail z) n (zlevel z).
Definition set_zlevel k z := mkZsl (heap z) (header z) (tail z) (length_ z) k.

Definition node (z : zskiplist) (p : nodeptr) : option zskiplistNode := heap z !! p.

(** p->level[i], and a store to it. *)
Definition get_level (z : zskiplist) (p : nodeptr) (i : nat) : option (option nodeptr * Z) :=
  n ← node z p; level n !! i.
Definition set_level (z : zskiplist) (p : nodeptr) (i : nat) (l : option nodeptr * Z) : option zskiplist :=
  n ← node z p; _ ← level n !! i;
  Some (set_heap (<[p := mkNode (ele n) (node_score n) (backward n) (<[i := l]> (level n))]> (heap z)) z).
Definition set_backward (z : zskiplist) (p : nodeptr) (b : option nodeptr) : option zskiplist :=
  n ← node z p;
  Some (set_heap (<[p := mkNode (ele n) (node_score n) b (level n)]> (heap z)) z).
Definition get_ele (z : zskiplist) (p : nodeptr) : option (list Z) := n ← node z p; ele n.

(** ** Creation *)

(** The address of the new node is one that is not in use. *)
Definition new_ptr (h : gmap nodeptr zskiplistNode) : nodeptr := fresh (dom h : gset nodeptr).

Definition zslCreateNode (lev : nat) (sc : score) (e : option (list Z)) : zskiplistNode :=
  mkNode e sc None (map junk (seq 0 lev)).

Fixpoint clear_levels (n : nat) (z : zskiplist) : option zskiplist :=
  match n with
  | O => Some z
  | S n => z ← clear_levels n z; set_level z (header z) n (None, 0)
  end.

Definition zslCreate : option zskiplist :=
  let z := mkZsl {[0%nat := zslCreateNode ZSKIPLIST_MAXLEVEL zero None]} 0%nat None 0 1 in
  z ← clear_levels ZSKIPLIST_MAXLEVEL z;
  set_backward z (header z) None.

Definition zslFreeNode (z : zskiplist) (p : nodeptr) : option zskiplist :=
  _ ← node z p; Some (set_heap (delete p (heap z)) z).

(** The nodes that are left once all of a skiplist is freed. *)
Fixpoint free_loop (fuel : nat) (h : gmap nodeptr zskiplistNode) (x : option nodeptr) : option (gmap nodeptr zskiplistNode) :=
  match x with
  | None => Some h
  | Some p =>
      match fuel with
      | O => None
      | S fuel => n ← h !! p; '(next, _) ← level n !! 0%nat; free_loop fuel (delete p h) next
      end
  end.
Definition zslFree (z : zskiplist) : option (gmap nodeptr zskiplistNode) :=
  '(forward, _) ← get_level z (header z) 0;
  free_loop (Z.to_nat (length_ z)) (delete (header z) (heap z)) forward.

(** The answers of random() come one by one; [None] when they are used up. *)
Fixpoint random_level_loop (draws : list Z) (lev : nat) : option (nat * list Z) :=
  match draws with
  | [] => None
  | r :: draws => if Z.land r 0xFFFF * 4 <? 0xFFFF then random_level_loop draws (S lev) else Some (lev, draws)
  end.
Definition zslRandomLevel (draws : list Z) : option (nat * list Z) :=
  '(lev, draws) ← random_level_loop draws 1;
  Some (if (lev <? ZSKIPLIST_MAXLEVEL)%nat then lev else ZSKIPLIST_MAXLEVEL, draws).

(** ** Going forward *)

(** The inner loop of every search: forward along level [i] while the next node
    passes the test, which may look at the rank the step would reach. *)
Fixpoint walk (fuel : nat) (z : zskiplist) (i : nat) (test : zskiplistNode -> Z -> bool) (x : nodeptr) (rank : Z)
    : option (nodeptr * Z) :=
  match fuel with
  | O => None
  | S fuel =>
      '(forward, span) ← get_level z x i;
      match forward with
      | None => Some (x, rank)
      | Some y =>
          n ← node z y;
          if test n (rank + span) then walk fuel z i test y (rank + span) else Some (x, rank)
      end
  end.
Definition go_forward (z : zskiplist) (i : nat) (test : zskiplistNode -> Z -> bool) (x : nodeptr) (rank : Z)
    : option (nodeptr * Z) :=
  walk (S (Z.to_nat (length_ z))) z i test x rank.

(** The outer loop, from level [n - 1] down to 0: the arrays update and rank,
    index 0 first. *)
Fixpoint descend (n : nat) (z : zskiplist) (test : zskiplistNode -> Z -> bool) (x : nodeptr) (rank : Z)
    : option (list (nodeptr * Z)) :=
  match n with
  | O => Some []
  | S i =>
      '(x, rank) ← go_forward z i test x rank;
      l ← descend i z test x rank;
      Some (l ++ [(x, rank)])
  end.
Definition search (z : zskiplist) (test : zskiplistNode -> Z -> bool) : option (list (nodeptr * Z)) :=
  descend (zlevel z) z test (header z) 0.

(** The test of a search by score and element; nodes other than the header have
    an element. *)
Definition node_cmp (n : zskiplistNode) (e : list Z) : Z :=
  match ele n with Some x => content_cmp x e | None => 0 end.
Definition before (sc : score) (e : list Z) (n : zskiplistNode) (_ : Z) : bool :=
  score_lt (node_score n) sc || (score_eq (node_score n) sc && (node_cmp n e <? 0)).

(** ** Insertion *)

(** if (level > zsl->level): the new levels start at the header. *)
Fixpoint raise_levels (n : nat) (i : nat) (z : zskiplist) (update : list (nodeptr * Z))
    : option (zskiplist * list (nodeptr * Z)) :=
  match n with
  | O => Some (z, update)
  | S n =>
      '(forward, _) ← get_level z (header z) i;
      z ← set_level z (header z) i (forward, u32 (length_ z));
      raise_levels n (S i) z (update ++ [(header z, 0)])
  end.

Fixpoint link_levels (n : nat) (i : nat) (z : zskiplist) (x : nodeptr) (update : list (nodeptr * Z)) (rank0 : Z)
    : option zskiplist :=
  match n with
  | O => Some z
  | S n =>
      '(u, rank) ← update !! i;
      '(forward, span) ← get_level z u i;
      z ← set_level z x i (forward, u32 (span - u32 (rank0 - rank)));
      z ← set_level z u i (Some x, u32 (u32 (rank0 - rank) + 1));
      link_levels n (S i) z x update rank0
  end.

Fixpoint count_levels (n : nat) (i : nat) (z : zskiplist) (update : list (nodeptr * Z)) : option zskiplist :=
  match n with
  | O => Some z
  | S n =>
      '(u, _) ← update !! i;
      '(forward, span) ← get_level z u i;
      z ← set_level z u i (forward, u32 (span + 1));
      count_levels n (S i) z update
  end.

Definition zslInsert (z : zskiplist) (sc : score) (e : list Z) (draws : list Z)
    : option (zskiplist * nodeptr * list Z) :=
  update ← search z (before sc e);
  '(lev, draws) ← zslRandomLevel draws;
  '(z, update) ← raise_levels (lev - zlevel z) (zlevel z) z update;
  let z := set_zlevel (Nat.max lev (zlevel z)) z in
  let x := new_ptr (heap z) in
  let z := set_heap (<[x := zslCreateNode lev sc (Some e)]> (heap z)) z in
  '(u0, rank0) ← update !! 0%nat;
  z ← link_levels lev 0 z x update rank0;
  z ← count_levels (zlevel z - lev) lev z update;
  z ← set_backward z x (if decide (u0 = header z) then None else Some u0);
  '(forward, _) ← get_level z x 0;
  z ← match forward with
      | Some y => set_backward z y (Some x)
      | None => Some (set_tail (Some x) z)
      end;
  Some (set_length (u64 (length_ z + 1)) z, x, draws).

(** ** Deletion *)

Fixpoint unlink_levels (n : nat) (i : nat) (z : zskiplist) (x : nodeptr) (update : list (nodeptr * Z))
    : option zskiplist :=
  match n with
  | O => Some z
  | S n =>
      '(u, _) ← update !! i;
      '(forward, span) ← get_level z u i;
      z ← (if decide (forward = Some x) then
             '(xforward, xspan) ← get_level z x i;
             set_level z u i (xforward, u32 (span + u32 (xspan - 1)))
           else set_level z u i (forward, u32 (span - 1)));
      unlink_levels n (S i) z x update
  end.

(** while(zsl->level > 1 && zsl->header->level[zsl->level-1].forward == NULL) *)
Fixpoint lower_level (k : nat) (z : zskiplist) : option nat :=
  match k with
  | O => Some O
  | S k' =>
      if (1 <? k)%nat then
        '(forward, _) ← get_level z (header z) k';
        match forward with None => lower_level k' z | Some _ => Some k end
      else Some k
  end.

Definition zslDeleteNode (z : zskiplist) (x : nodeptr) (update : list (nodeptr * Z)) : option zskiplist :=
  z ← unlink_levels (zlevel z) 0 z x update;
  '(forward, _) ← get_level z x 0;
  n ← node z x;
  z ← match forward with
      | Some y => set_backward z y (backward n)
      | None => Some (set_tail (backward n) z)
      end;
  k ← lower_level (zlevel z) z;
  Some (set_length (u64 (length_ z - 1)) (set_zlevel k z)).

(** The result is 0, or 1 with the node; it is freed unless the caller keeps
    it. *)
Definition zslDelete (z : zskiplist) (sc : score) (e : list Z) (keep : bool) : option (zskiplist * option nodeptr) :=
  update ← search z (before sc e);
  '(u0, _) ← update !! 0%nat;
  '(forward, _) ← get_level z u0 0;
  match forward with
  | None => Some (z, None)
  | Some x =>
      n ← node z x;
      if score_eq sc (node_score n) && (node_cmp n e =? 0) then
        z ← zslDeleteNode z x update;
        z ← (if keep then Some z else zslFreeNode z x);
        Some (z, Some x)
      else Some (z, None)
  end.

(** ** Ranges of scores *)

Record zrangespec := { min : score; max : score; minex : bool; maxex : bool }.

Definition score_le (a b : score) : bool := score_lt a b || score_eq a b.
Definition zslValueGteMin (v : score) (r : zrangespec) : bool :=
  if minex r then score_lt (min r) v else score_le (min r) v.
Definition zslValueLteMax (v : score) (r : zrangespec) : bool :=
  if maxex r then score_lt v (max r) else score_le v (max r).

(** The first and the last node, NULL when there is none. *)
Definition first_node (z : zskiplist) : option (option zskiplistNode) :=
  '(forward, _) ← get_level z (header z) 0;
  match forward with None => Some None | Some x => n ← node z x; Some (Some n) end.
Definition last_node (z : zskiplist) : option (option zskiplistNode) :=
  match tail z with None => Some None | Some x => n ← node z x; Some (Some n) end.

Definition zslIsInRange (z : zskiplist) (r : zrangespec) : option bool :=
  if score_lt (max r) (min r) || (score_eq (min r) (max r) && (minex r || maxex r)) then Some false else
  x ← last_node z;
  match x with
  | None => Some false
  | Some n =>
      if negb (zslValueGteMin (node_score n) r) then Some false else
      x ← first_node z;
      match x with
      | None => Some false
      | Some n => Some (zslValueLteMax (node_score n) r)
      end
  end.

Definition search_end (z : zskiplist) (update : list (nodeptr * Z)) : nodeptr :=
  match update with [] => header z | (x, _) :: _ => x end.

Definition zslFirstInRange (z : zskiplist) (r : zrangespec) : option (option nodeptr) :=
  b ← zslIsInRange z r;
  if negb b then Some None else
  update ← search z (fun n _ => negb (zslValueGteMin (node_score n) r));
  '(forward, _) ← get_level z (search_end z update) 0;
  x ← forward;
  n ← node z x;
  Some (if negb (zslValueLteMax (node_score n) r) then None else Some x).

Definition zslLastInRange (z : zskiplist) (r : zrangespec) : option (option nodeptr) :=
  b ← zslIsInRange z r;
  if negb b then Some None else
  update ← search z (fun n _ => zslValueLteMax (node_score n) r);
  let x := search_end z update in
  n ← node z x;
  Some (if negb (zslValueGteMin (node_score n) r) then None else Some x).

(** The nodes from [x] on are deleted while they pass the test, which is given
    their number, counted from [traversed]; the elements are those passed to
    dictDelete, in order. *)
Fixpoint delete_loop (fuel : nat) (z : zskiplist) (x : option nodeptr) (update : list (nodeptr * Z))
    (test : zskiplistNode -> Z -> bool) (traversed : Z) : option (zskiplist * list (list Z)) :=
  match x with
  | None => Some (z, [])
  | Some p =>
      match fuel with
      | O => None
      | S fuel =>
          n ← node z p;
          if test n traversed then
            '(next, _) ← get_level z p 0;
            z ← zslDeleteNode z p update;
            e ← ele n;
            z ← zslFreeNode z p;
            '(z, es) ← delete_loop fuel z next update test (traversed + 1);
            Some (z, e :: es)
          else Some (z, [])
      end
  end.

Definition delete_range (z : zskiplist) (out : zskiplistNode -> Z -> bool) (inside : zskiplistNode -> Z -> bool)
    : option (zskiplist * list (list Z)) :=
  update ← search z out;
  '(u0, rank0) ← update !! 0%nat;
  '(forward, _) ← get_level z u0 0;
  delete_loop (S (Z.to_nat (length_ z))) z forward update inside (rank0 + 1).

Definition zslDeleteRangeByScore (z : zskiplist) (r : zrangespec) : option (zskiplist * list (list Z)) :=
  delete_range z
    (fun n _ => if minex r then score_le (node_score n) (min r) else score_lt (node_score n) (min r))
    (fun n _ => if maxex r then score_lt (node_score n) (max r) else score_le (node_score n) (max r)).

(** ** Ranges of elements *)

(** shared.minstring and shared.maxstring are known by their addresses; their
    contents are their names. *)
Inductive lexbound := MinString | MaxString | Bound (s : list Z).
Definition lex_content (b : lexbound) : list Z :=
  match b with MinString => str "minstring" | MaxString => str "maxstring" | Bound s => s end.
Record zlexrangespec := { lmin : lexbound; lmax : lexbound; lminex : bool; lmaxex : bool }.

Definition sdscmplex (a b : lexbound) : Z :=
  match a, b with
  | MinString, MinString | MaxString, MaxString => 0
  | MinString, _ | _, MaxString => -1
  | MaxString, _ | _, MinString => 1
  | Bound a, Bound b => content_cmp a b
  end.
Definition zslLexValueGteMin (v : list Z) (r : zlexrangespec) : bool :=
  if lminex r then sdscmplex (Bound v) (lmin r) >? 0 else sdscmplex (Bound v) (lmin r) >=? 0.
Definition zslLexValueLteMax (v : list Z) (r : zlexrangespec) : bool :=
  if lmaxex r then sdscmplex (Bound v) (lmax r) <? 0 else sdscmplex (Bound v) (lmax r) <=? 0.

(** The element of a node that is not the header. *)
Definition on_ele (f : list Z -> bool) (n : zskiplistNode) (_ : Z) : bool :=
  match ele n with Some e => f e | None => false end.

Definition zslIsInLexRange (z : zskiplist) (r : zlexrangespec) : option bool :=
  if (sdscmplex (lmin r) (lmax r) >? 1) ||
     ((content_cmp (lex_content (lmin r)) (lex_content (lmax r)) =? 0) && (lminex r || lmaxex r)) then Some false else
  x ← last_node z;
  match x with
  | None => Some false
  | Some n =>
      e ← ele n;
      if negb (zslLexValueGteMin e r) then Some false else
      x ← first_node z;
      match x with
      | None => Some false
      | Some n => e ← ele n; Some (zslLexValueLteMax e r)
      end
  end.

Definition zslFirstInLexRange (z : zskiplist) (r : zlexrangespec) : option (option nodeptr) :=
  b ← zslIsInLexRange z r;
  if negb b then Some None else
  update ← search z (on_ele (fun e => negb (zslLexValueGteMin e r)));
  '(forward, _) ← get_level z (search_end z update) 0;
  x ← forward;
  e ← get_ele z x;
  Some (if negb (zslLexValueLteMax e r) then None else Some x).

(** When the search does not leave the header, its element is NULL, which
    sdscmp dereferences. *)
Definition zslLastInLexRange (z : zskiplist) (r : zlexrangespec) : option (option nodeptr) :=
  b ← zslIsInLexRange z r;
  if negb b then Some None else
  update ← search z (on_ele (fun e => zslLexValueLteMax e r));
  let x := search_end z update in
  e ← get_ele z x;
  Some (if negb (zslLexValueGteMin e r) then None else Some x).

Definition zslDeleteRangeByLex (z : zskiplist) (r : zlexrangespec) : option (zskiplist * list (list Z)) :=
  delete_range z (on_ele (fun e => negb (zslLexValueGteMin e r))) (on_ele (fun e => zslLexValueLteMax e r)).

(** ** Ranks *)

Definition zslDeleteRangeByRank (z : zskiplist) (start end_ : Z) : option (zskiplist * list (list Z)) :=
  delete_range z (fun _ rank => rank <? start) (fun _ traversed => traversed <=? end_).

Fixpoint rank_loop (n : nat) (z : zskiplist) (test : zskiplistNode -> Z -> bool) (e : list Z) (x : nodeptr) (rank : Z)
    : option Z :=
  match n with
  | O => Some 0
  | S i =>
      '(x, rank) ← go_forward z i test x rank;
      n ← node z x;
      match ele n with
      | Some y => if content_cmp y e =? 0 then Some rank else rank_loop i z test e x rank
      | None => rank_loop i z test e x rank
      end
  end.
Definition zslGetRank (z : zskiplist) (sc : score) (e : list Z) : option Z :=
  rank_loop (zlevel z) z
    (fun n _ => score_lt (node_score n) sc || (score_eq (node_score n) sc && (node_cmp n e <=? 0))) e (header z) 0.

Fixpoint by_rank_loop (n : nat) (z : zskiplist) (rank : Z) (x : nodeptr) (traversed : Z) : option (option nodeptr) :=
  match n with
  | O => Some None
  | S i =>
      '(x, traversed) ← go_forward z i (fun _ r => r <=? rank) x traversed;
      if traversed =? rank then Some (Some x) else by_rank_loop i z rank x traversed
  end.
Definition zslGetElementByRank (z : zskiplist) (rank : Z) : option (option nodeptr) :=
  by_rank_loop (zlevel z) z rank (header z) 0.

End Skiplist.
