(* ===== verification/ZslSpec.v ===== *)
(** t_zset.c: what a skiplist stands for, and its searches.

    The abstract state is the list of the entries in order, each with the
    address and the height of its node.  It determines every pointer and every
    span: along level [i], a node is linked to the next entry that is higher
    than [i], and its span is the number of entries up to that one, or up to the
    end. *)

From stdpp Require Import gmap.
From S2P Require Import Prelude Sds SdsString Zskiplist.
#[local] Open Scope Z_scope.

(** ** The order of byte strings *)

Lemma content_cmp_lex a b : zlen a < 2 ^ 31 -> zlen b < 2 ^ 31 -> (content_cmp a b ?= 0) = lex a b.
Proof.
  intros Ha Hb. unfold content_cmp. destruct (lex_prefix _ a b eq_refl) as [He Hd].
  set (r := memcmp_list _ _) in *. destruct (Z.eqb_spec r 0) as [E|E]; [|by rewrite Hd].
  rewrite He by done. replace (i32 (u64 (zlen a - zlen b))) with (zlen a - zlen b) by mlia.
  destruct (Z.compare_spec (zlen a - zlen b) 0), (Z.compare_spec (zlen a) (zlen b)); lia || done.
Qed.

(** It is what sdscmp computes. *)
Lemma sdscmp_content s1 s2 c1 c2 :
  sds_rep s1 c1 -> sds_rep s2 c2 -> zlen c1 < 2 ^ 31 -> zlen c2 < 2 ^ 31 -> sdscmp s1 s2 = Some (content_cmp c1 c2).
Proof.
  intros (t1 & f1 & Hok1 & ->) (t2 & f2 & Hok2 & ->) H1 H2. unfold sdscmp.
  rewrite !sdslen_mk, !schars_mk by done. cbn [mbind option_bind]. unfold memcmp, content_cmp.
  assert (Hn : (if zlen c1 <? zlen c2 then zlen c1 else zlen c2) = Z.of_nat (Nat.min (length c1) (length c2)))
    by (destruct (Z.ltb_spec (zlen c1) (zlen c2)); lia).
  rewrite Hn, !bread_prefix by lia. cbn [mbind option_bind]. by rewrite Nat2Z.id.
Qed.

Lemma lex_refl a : lex a a = Eq.
Proof. induction a as [|x a IH]; [done|]. cbn. by rewrite Z.compare_refl. Qed.

Lemma lex_same a : forall b, lex a b = Eq -> a = b.
Proof.
  induction a as [|x a IH]; intros [|y b] Hl; try done. cbn in Hl. destruct (Z.compare_spec x y) as [->|?|?]; try done.
  f_equal. by apply IH.
Qed.

Lemma lex_antisym a : forall b, lex b a = CompOpp (lex a b).
Proof.
  induction a as [|x a IH]; intros [|y b]; try done. cbn. rewrite (Z.compare_antisym x y). destruct (x ?= y); cbn; auto.
Qed.

Lemma lex_trans a : forall b c, lex a b = Lt -> lex b c = Lt -> lex a c = Lt.
Proof.
  induction a as [|x a IH]; intros [|y b] [|z c] H1 H2; try done. cbn [lex] in *.
  destruct (Z.compare_spec x y) as [E1|E1|E1], (Z.compare_spec y z) as [E2|E2|E2], (Z.compare_spec x z); try lia; try done.
  by eapply IH.
Qed.

(** A sorted list is cut in two by a test that holds of smaller entries
    first. *)
Lemma sorted_cut_in {A} (R : A -> A -> Prop) (f : A -> bool) l :
  StronglySorted R l -> (forall x y, x ∈ l -> y ∈ l -> R x y -> f y = true -> f x = true) ->
  exists P Q, l = P ++ Q /\ Forall (fun x => f x = true) P /\ Forall (fun x => f x = false) Q.
Proof.
  intros Hs. induction Hs as [|x l Hs IH Hx]; intros Hf; [by exists [], []|]. destruct (f x) eqn:E.
  - destruct IH as (P & Q & -> & HP & HQ); [intros a b Ha Hb; apply Hf; by right|].
    exists (x :: P), Q. split; [done|]. split; [by constructor|done].
  - exists [], (x :: l). split; [done|]. split; [constructor|]. constructor; [done|]. apply Forall_forall. intros y Hy.
    apply not_true_is_false. intros Hfy. rewrite Forall_forall in Hx. rewrite (Hf x y) in E; [done|by left|by right|by apply Hx|done].
Qed.

Lemma sorted_cut {A} (R : A -> A -> Prop) (f : A -> bool) l :
  StronglySorted R l -> (forall x y, R x y -> f y = true -> f x = true) ->
  exists P Q, l = P ++ Q /\ Forall (fun x => f x = true) P /\ Forall (fun x => f x = false) Q.
Proof. intros Hs Hf. apply (sorted_cut_in R); [done|]. intros x y _ _. apply Hf. Qed.

Section Spec.
  Context {score : Type} `{Score score}.
  Context (junk : nat -> option nodeptr * Z).
  Abbreviation zskiplist := (zskiplist (score := score)).
  Abbreviation zskiplistNode := (zskiplistNode (score := score)).

(** ** Entries *)

Record entry := mkEntry { e_ptr : nodeptr; e_score : score; e_ele : list Z; e_height : nat }.

(** By score, then by element. *)
Definition entry_lt (a b : entry) : Prop :=
  key (e_score a) < key (e_score b) \/ (key (e_score a) = key (e_score b) /\ lex (e_ele a) (e_ele b) = Lt).

Lemma entry_lt_trans a b c : entry_lt a b -> entry_lt b c -> entry_lt a c.
Proof.
  unfold entry_lt. intros [H1|[H1 H2]] [H3|[H3 H4]]; try (left; lia). right. split; [lia|]. by eapply lex_trans.
Qed.

(** Where level [i] leads from the front of the entries. *)
Fixpoint link (i : nat) (l : list entry) : option nodeptr * Z :=
  match l with
  | [] => (None, 0)
  | e :: l => if (i <? e_height e)%nat then (Some (e_ptr e), 1) else let '(f, s) := link i l in (f, s + 1)
  end.

(** The node of [e] between [A] and [B]. *)
Definition node_of (A : list entry) (e : entry) (B : list entry) : zskiplistNode :=
  mkNode (Some (e_ele e)) (e_score e) (e_ptr <$> last A) (map (fun i => link i B) (seq 0 (e_height e))).

Definition entry_ok (k : nat) (e : entry) : Prop := (1 <= e_height e <= k)%nat /\ zlen (e_ele e) < 2 ^ 31.

(** The node at the end of a prefix, the header for the empty one. *)
Definition at_end (h : nodeptr) (A : list entry) : nodeptr := default h (e_ptr <$> last A).

(** Level [i] exists at the end of [A]. *)
Definition reaches (z : zskiplist) (i : nat) (A : list entry) : Prop :=
  (A = [] /\ (i < zlevel z)%nat) \/ exists A' e, A = A' ++ [e] /\ (i < e_height e)%nat.

(** A node but for what its levels hold. *)
Definition shape (z : zskiplist) (p : nodeptr) : option (option (list Z) * score * option nodeptr * nat) :=
  (fun n => (ele n, node_score n, backward n, length (level n))) <$> node z p.

Record rep (z : zskiplist) (L : list entry) : Prop := {
  rep_header : exists sc b, shape z (header z) = Some (None, sc, b, ZSKIPLIST_MAXLEVEL);
  rep_above : forall i, (zlevel z <= i < ZSKIPLIST_MAXLEVEL)%nat -> exists s, get_level z (header z) i = Some (None, s);
  rep_ptrs : NoDup (header z :: map e_ptr L);
  rep_shapes : forall A e B, L = A ++ e :: B ->
    shape z (e_ptr e) = Some (Some (e_ele e), e_score e, e_ptr <$> last A, e_height e);
  rep_links : forall A B i, L = A ++ B -> reaches z i A -> get_level z (at_end (header z) A) i = Some (link i B);
  rep_tail : tail z = e_ptr <$> last L;
  rep_length : length_ z = zlen L;
  rep_zlevel : (1 <= zlevel z <= ZSKIPLIST_MAXLEVEL)%nat;
  rep_entries : Forall (entry_ok (zlevel z)) L;
  rep_sorted : StronglySorted entry_lt L
}.

(** The levels in use are those of the nodes. *)
Definition top_ok (z : zskiplist) (L : list entry) : Prop :=
  zlevel z = 1%nat \/ exists e, e ∈ L /\ e_height e = zlevel z.

Lemma at_end_snoc h A e : at_end h (A ++ [e]) = e_ptr e.
Proof. unfold at_end. by rewrite last_snoc. Qed.

Lemma rep_nodes z L A e B : rep z L -> L = A ++ e :: B -> heap z !! e_ptr e = Some (node_of A e B).
Proof.
  intros Hr HL. assert (Hs := rep_shapes _ _ Hr _ _ _ HL). unfold shape, node in Hs.
  destruct (heap z !! e_ptr e) as [[el sc b lv]|] eqn:En; [|done]. cbn in Hs. injection Hs as -> -> -> Hlen.
  f_equal. unfold node_of. f_equal. apply list_eq. intros i. destruct (decide (i < e_height e)%nat) as [Hi|Hi].
  - assert (Hl := rep_links _ _ Hr (A ++ [e]) B i). rewrite at_end_snoc in Hl. unfold get_level, node in Hl.
    rewrite En in Hl. cbn [mbind option_bind level] in Hl. rewrite Hl.
    + rewrite list_lookup_fmap, lookup_seq_lt by done. done.
    + by rewrite <-app_assoc.
    + right. by exists A, e.
  - rewrite !lookup_ge_None_2; [done|rewrite length_map, length_seq; lia|lia].
Qed.

(** ** Links *)

Definition low (i : nat) (l : list entry) : Prop := Forall (fun e => (e_height e <= i)%nat) l.

Lemma link_low i M l : low i M -> link i (M ++ l) = ((link i l).1, (link i l).2 + zlen M).
Proof.
  induction 1 as [|e M He HM IH]; [cbn; destruct (link i l); cbn; f_equal; lia|]. cbn [app link].
  rewrite (proj2 (Nat.ltb_ge _ _)) by done. rewrite IH. cbn [length]. f_equal. lia.
Qed.

Lemma link_here i e l : (i < e_height e)%nat -> link i (e :: l) = (Some (e_ptr e), 1).
Proof. intros Hi. cbn [link]. by rewrite (proj2 (Nat.ltb_lt _ _)). Qed.

(** The first entry above a level. *)
Lemma low_or_high i (l : list entry) :
  low i l \/ exists M e l', l = M ++ e :: l' /\ low i M /\ (i < e_height e)%nat.
Proof.
  induction l as [|e l IH]; [left; constructor|]. destruct (decide (e_height e <= i)%nat) as [He|He].
  - destruct IH as [Hl|(M & x & l' & -> & HM & Hx)]; [left; by constructor|]. right. exists (e :: M), x, l'.
    split; [done|]. split; [by constructor|done].
  - right. exists [], e, l. split; [done|]. split; [constructor|lia].
Qed.

(** A link over an entry above the level does not see what follows it. *)
Lemma link_local i M e l l' : (i < e_height e)%nat -> link i (M ++ e :: l) = link i (M ++ e :: l').
Proof.
  intros He. induction M as [|x M IH]; cbn [app]; [by rewrite !link_here|]. cbn [link]. by rewrite IH.
Qed.

(** The part of [P] up to its last entry above level [i]. *)
Fixpoint cut (i : nat) (P : list entry) : list entry :=
  match P with
  | [] => []
  | e :: P => match cut i P with [] => if (i <? e_height e)%nat then [e] else [] | C => e :: C end
  end.

Lemma cut_low i P : low i P -> cut i P = [].
Proof. induction 1 as [|e P He HP IH]; [done|]. cbn [cut]. rewrite IH. by rewrite (proj2 (Nat.ltb_ge _ _)). Qed.

Lemma cut_app_high i A e M : (i < e_height e)%nat -> low i M -> cut i (A ++ e :: M) = A ++ [e].
Proof.
  intros He HM. induction A as [|x A IH]; cbn [app cut].
  - rewrite cut_low by done. by rewrite (proj2 (Nat.ltb_lt _ _)).
  - rewrite IH. by destruct A.
Qed.

(** The last entry of [P] above a level. *)
Lemma cut_spec i P : (low i P /\ cut i P = []) \/
  exists A e M, P = A ++ e :: M /\ (i < e_height e)%nat /\ low i M /\ cut i P = A ++ [e].
Proof.
  assert (Hcases : low i P \/ exists A e M, P = A ++ e :: M /\ (i < e_height e)%nat /\ low i M).
  { induction P as [|x P IH]; [left; constructor|]. destruct IH as [Hl|(A & e & M & -> & He & HM)].
    - destruct (decide (e_height x <= i)%nat); [left; by constructor|]. right. exists [], x, P. split; [done|]. split; [lia|done].
    - right. by exists (x :: A), e, M. }
  destruct Hcases as [Hl|(A & e & M & -> & He & HM)]; [left; split; [done|by apply cut_low]|].
  right. exists A, e, M. split; [done|]. split; [done|]. split; [done|]. by apply cut_app_high.
Qed.

Lemma cut_prefix i P : exists M, P = cut i P ++ M /\ low i M.
Proof.
  destruct (cut_spec i P) as [[Hl ->]|(A & e & M & -> & He & HM & ->)]; [by exists P|].
  exists M. by rewrite <-app_assoc.
Qed.

Lemma cut_app i N e M : (i < e_height e)%nat -> cut i (N ++ e :: M) = N ++ e :: cut i M.
Proof.
  intros He. induction N as [|x N IH]; cbn [app cut].
  - rewrite (proj2 (Nat.ltb_lt _ _)) by done. by destruct (cut i M).
  - rewrite IH. by destruct N.
Qed.

(** ** Searches *)

Lemma cut_reaches z L i P Q : rep z L -> L = P ++ Q -> (i < zlevel z)%nat -> reaches z i (cut i P).
Proof.
  intros Hr HL Hi. destruct (cut_spec i P) as [[Hl ->]|(A & e & M & -> & He & HM & ->)]; [by left|].
  right. by exists A, e.
Qed.

(** A test that holds of [P] and of no entry of [Q], each at its rank. *)
Definition divides (test : zskiplistNode -> Z -> bool) (P Q : list entry) : Prop :=
  (forall A e B, P = A ++ e :: B -> test (node_of A e (B ++ Q)) (zlen A + 1) = true) /\
  (forall A e B, Q = A ++ e :: B -> test (node_of (P ++ A) e B) (zlen (P ++ A) + 1) = false).

(** Along one level, the search stops at the last entry of [P] on it. *)
Lemma walk_spec z L i test P Q fuel : rep z L -> L = P ++ Q -> divides test P Q ->
  forall A M, P = A ++ M -> reaches z i A -> (length M < fuel)%nat ->
  walk fuel z i test (at_end (header z) A) (zlen A) =
    Some (at_end (header z) (A ++ cut i M), zlen (A ++ cut i M)).
Proof.
  intros Hr HL [Ht Hf]. induction fuel as [|fuel IH]; intros A M HP Hreach Hfuel; [lia|]. cbn [walk].
  rewrite (rep_links _ _ Hr A (M ++ Q) i) by (done || by rewrite HL, HP, <-app_assoc). cbn [mbind option_bind].
  destruct (low_or_high i M) as [HM|(N & e & M' & -> & HN & He)].
  - rewrite link_low by done. rewrite cut_low, app_nil_r by done.
    destruct (low_or_high i Q) as [HQ|(N & e & Q' & -> & HN & He)].
    + rewrite <-(app_nil_r Q), link_low by done. done.
    + rewrite link_low, link_here by done. cbn [fst snd].
      assert (HL' : L = (P ++ N) ++ e :: Q') by by rewrite HL, <-app_assoc.
      unfold node. rewrite (rep_nodes z L _ _ _ Hr HL'). cbn [mbind option_bind].
      assert (E : zlen A + (1 + zlen N + zlen M) = zlen (P ++ N) + 1) by (rewrite HP, !length_app; lia).
      by rewrite E, (Hf N e Q' eq_refl).
  - rewrite <-app_assoc. cbn [app]. rewrite link_low, link_here by done. cbn [fst snd].
    assert (HL' : L = (A ++ N) ++ e :: M' ++ Q) by (rewrite HL, HP, <-!app_assoc; done).
    unfold node. rewrite (rep_nodes z L _ _ _ Hr HL'). cbn [mbind option_bind].
    assert (E : zlen A + (1 + zlen N) = zlen (A ++ N) + 1) by (rewrite length_app; lia).
    rewrite E, Ht by (rewrite HP, <-app_assoc; done).
    specialize (IH (A ++ N ++ [e]) M'). rewrite <-(at_end_snoc (header z) (A ++ N) e), <-app_assoc.
    assert (E' : zlen (A ++ N) + 1 = zlen (A ++ N ++ [e])) by (rewrite !length_app; cbn; lia). rewrite E', IH.
    + rewrite cut_app by done. do 3 f_equal; by rewrite <-!app_assoc.
    + rewrite HP, <-!app_assoc. done.
    + right. exists (A ++ N), e. by rewrite <-app_assoc.
    + rewrite length_app in Hfuel. cbn in Hfuel. lia.
Qed.

Lemma go_forward_spec z L i test P Q A M : rep z L -> L = P ++ Q -> divides test P Q -> P = A ++ M -> reaches z i A ->
  go_forward z i test (at_end (header z) A) (zlen A) =
    Some (at_end (header z) (A ++ cut i M), zlen (A ++ cut i M)).
Proof.
  intros Hr HL Hd HP Ha. unfold go_forward. eapply walk_spec; try done.
  rewrite (rep_length _ _ Hr), HL, HP, !length_app. lia.
Qed.

(** From the last entry on the level above, the search of a level ends at the
    last entry on that level. *)
Lemma cut_step i P : exists M, P = cut (S i) P ++ M /\ cut (S i) P ++ cut i M = cut i P.
Proof.
  destruct (cut_spec (S i) P) as [[Hl E]|(A & e & M & HP & He & HM & E)]; rewrite E.
  - by exists P.
  - exists M. rewrite <-app_assoc. split; [done|]. rewrite HP, cut_app by lia. by rewrite <-app_assoc.
Qed.

(** The arrays update and rank. *)
Definition updates (z : zskiplist) (P : list entry) (n : nat) : list (nodeptr * Z) :=
  map (fun i => (at_end (header z) (cut i P), zlen (cut i P))) (seq 0 n).

Lemma updates_S z P n : updates z P (S n) = updates z P n ++ [(at_end (header z) (cut n P), zlen (cut n P))].
Proof. unfold updates. rewrite seq_S, map_app. done. Qed.

Lemma descend_spec z L test P Q n : rep z L -> L = P ++ Q -> divides test P Q -> (n < zlevel z)%nat ->
  forall A M, P = A ++ M -> A ++ cut n M = cut n P -> reaches z n A ->
  descend (S n) z test (at_end (header z) A) (zlen A) = Some (updates z P (S n)).
Proof.
  intros Hr HL Hd. induction n as [|n IH]; intros Hn A M HP Hcut Ha; rewrite updates_S.
  - cbn [descend]. rewrite (go_forward_spec z L 0 test P Q A M) by done. cbn [mbind option_bind]. by rewrite Hcut.
  - cbn [descend]. rewrite (go_forward_spec z L (S n) test P Q A M) by done. cbn [mbind option_bind]. rewrite Hcut.
    destruct (cut_step n P) as (M' & HP' & Hcut'). cbn [descend] in IH. rewrite (IH ltac:(lia) _ _ HP' Hcut'); [done|].
    destruct (cut_spec (S n) P) as [[Hl E]|(B & e & N & _ & He & _ & E)]; rewrite E; [left; split; [done|lia]|].
    right. exists B, e. split; [done|lia].
Qed.

Lemma cut_top z L P Q i : rep z L -> L = P ++ Q -> (zlevel z <= i)%nat -> cut i P = [].
Proof.
  intros Hr HL Hi. apply cut_low. assert (He := rep_entries _ _ Hr). rewrite HL in He. apply Forall_app in He as [He _].
  eapply Forall_impl; [exact He|]. intros e [[_ ?] _]. cbn. lia.
Qed.

Lemma zsl_search_spec z L test P Q : rep z L -> L = P ++ Q -> divides test P Q ->
  search z test = Some (updates z P (zlevel z)).
Proof.
  intros Hr HL Hd. unfold search. assert (Hz := rep_zlevel _ _ Hr). destruct (zlevel z) as [|n] eqn:E; [lia|].
  change (header z) with (at_end (header z) []). change 0 with (zlen (@nil entry)).
  eapply descend_spec; try done; [lia|]. left. split; [done|lia].
Qed.

End Spec.
