(* ===== verification/ZslInsert.v ===== *)
(** t_zset.c: insertion into a skiplist. *)

From stdpp Require Import gmap.
From S2P Require Import Prelude Sds SdsString Zskiplist ZslSpec.
#[local] Open Scope Z_scope.

Section Insert.
  Context {score : Type} `{Score score}.
  Context (junk : nat -> option nodeptr * Z).
  Abbreviation zskiplist := (zskiplist (score := score)).
  Abbreviation entry := (entry (score := score)).

(** ** Stores to levels *)

(** Two states that differ in the levels only. *)
Record same_frame (z z' : zskiplist) : Prop := {
  sf_header : header z' = header z; sf_tail : tail z' = tail z; sf_length : length_ z' = length_ z;
  sf_zlevel : zlevel z' = zlevel z; sf_shape : forall p, shape z' p = shape z p
}.

#[local] Instance same_frame_preorder : PreOrder same_frame.
Proof. split; [by split|]. intros a b c [] []. split; congruence || intros p; etransitivity; eauto. Qed.

Lemma set_level_spec (z : zskiplist) p i l0 l : get_level z p i = Some l0 ->
  exists z', set_level z p i l = Some z' /\ same_frame z z' /\
    forall q k, get_level z' q k = if bool_decide (q = p) && bool_decide (k = i) then Some l else get_level z q k.
Proof.
  unfold get_level, set_level, node. intros Hg. destruct (heap z !! p) as [n|] eqn:Hn; [|done].
  cbn [mbind option_bind] in *. rewrite Hg. cbn [mbind option_bind]. eexists. split; [done|]. split.
  - split; try done. intros q. unfold shape, node. cbn [heap set_heap]. destruct (decide (q = p)) as [->|].
    + rewrite lookup_insert_eq, Hn. cbn. by rewrite length_insert.
    + by rewrite lookup_insert_ne.
  - intros q k. cbn [heap set_heap]. destruct (decide (q = p)) as [->|Hq].
    + rewrite lookup_insert_eq, Hn, (bool_decide_eq_true_2 (p = p)) by done. cbn [mbind option_bind level andb].
      case_bool_decide as Hk; [subst k|by rewrite list_lookup_insert_ne].
      apply list_lookup_insert_eq. by apply lookup_lt_Some in Hg.
    + rewrite lookup_insert_ne, bool_decide_eq_false_2 by done. done.
Qed.

Lemma get_level_shape (z : zskiplist) p k sc : shape z p = Some sc -> (k < sc.2)%nat -> is_Some (get_level z p k).
Proof.
  unfold shape, get_level. destruct (node z p) as [n|]; [|done]. cbn [fmap option_fmap option_map mbind option_bind].
  intros [= <-] Hk. cbn in Hk. by apply lookup_lt_is_Some_2.
Qed.

Lemma lower_shape (z : zskiplist) p k : is_Some (get_level z p k) -> exists sc, shape z p = Some sc /\ (k < sc.2)%nat.
Proof.
  unfold shape, get_level. destruct (node z p) as [n|]; [|by intros [? ?]]. cbn [fmap option_fmap option_map mbind option_bind].
  intros Hk. apply lookup_lt_is_Some_1 in Hk. by eexists.
Qed.

(** ** The loops *)

Lemma link_levels_spec x r0 update n : forall i (z : zskiplist) (u : nat -> nodeptr) (r : nat -> Z) (f : nat -> option nodeptr) (s : nat -> Z),
  (forall k, (i <= k < i + n)%nat -> update !! k = Some (u k, r k) /\ u k <> x /\ get_level z (u k) k = Some (f k, s k) /\
     is_Some (get_level z x k)) ->
  exists z', link_levels n i z x update r0 = Some z' /\ same_frame z z' /\
    forall q k, get_level z' q k =
      if bool_decide (i <= k < i + n)%nat then
        if bool_decide (q = x) then Some (f k, u32 (s k - u32 (r0 - r k)))
        else if bool_decide (q = u k) then Some (Some x, u32 (u32 (r0 - r k) + 1)) else get_level z q k
      else get_level z q k.
Proof.
  induction n as [|n IH]; intros i z u r f s Hk.
  { exists z. split; [done|]. split; [reflexivity|]. intros q k. by rewrite bool_decide_eq_false_2 by lia. }
  destruct (Hk i ltac:(lia)) as (Hu & Hux & Hg & [lx Hx]). cbn [link_levels]. rewrite Hu. cbn [mbind option_bind].
  rewrite Hg. cbn [mbind option_bind].
  destruct (set_level_spec z x i lx (f i, u32 (s i - u32 (r0 - r i))) Hx) as (z1 & -> & Hf1 & Hl1). cbn [mbind option_bind].
  assert (Hg1 : get_level z1 (u i) i = Some (f i, s i)) by (rewrite Hl1, bool_decide_eq_false_2 by done; done).
  destruct (set_level_spec z1 (u i) i _ (Some x, u32 (u32 (r0 - r i) + 1)) Hg1) as (z2 & -> & Hf2 & Hl2). cbn [mbind option_bind].
  destruct (IH (S i) z2 u r f s) as (z' & Hrun & Hf' & Hl').
  { intros k Hki. destruct (Hk k ltac:(lia)) as (A1 & A2 & A3 & A4). split; [done|]. split; [done|].
    rewrite !Hl2, !Hl1, !(bool_decide_eq_false_2 (k = i)), !andb_false_r by lia. done. }
  exists z'. split; [done|]. split; [by transitivity z1; [|transitivity z2]|]. intros q k. rewrite Hl', Hl2, Hl1.
  destruct (decide (k = i)) as [->|Hki].
  - rewrite (bool_decide_eq_false_2 (S i <= i < _)%nat), (bool_decide_eq_true_2 (i <= i < _)%nat), (bool_decide_eq_true_2 (i = i)) by lia.
    rewrite !andb_true_r. destruct (decide (q = x)) as [->|Hq].
    + rewrite (bool_decide_eq_false_2 (x = u i)), (bool_decide_eq_true_2 (x = x)) by done. done.
    + rewrite (bool_decide_eq_false_2 (q = x)) by done. done.
  - rewrite (bool_decide_eq_false_2 (k = i)), !andb_false_r by done.
    rewrite (bool_decide_ext (i <= k < i + S n)%nat (S i <= k < S i + n)%nat) by lia. done.
Qed.

Lemma count_levels_spec update n : forall i (z : zskiplist) (u : nat -> nodeptr) (f : nat -> option nodeptr) (s : nat -> Z),
  (forall k, (i <= k < i + n)%nat -> (exists r, update !! k = Some (u k, r)) /\ get_level z (u k) k = Some (f k, s k)) ->
  exists z', count_levels n i z update = Some z' /\ same_frame z z' /\
    forall q k, get_level z' q k =
      if bool_decide (i <= k < i + n)%nat && bool_decide (q = u k) then Some (f k, u32 (s k + 1)) else get_level z q k.
Proof.
  induction n as [|n IH]; intros i z u f s Hk.
  { exists z. split; [done|]. split; [reflexivity|]. intros q k. by rewrite bool_decide_eq_false_2 by lia. }
  destruct (Hk i ltac:(lia)) as ([r Hu] & Hg). cbn [count_levels]. rewrite Hu. cbn [mbind option_bind]. rewrite Hg. cbn [mbind option_bind].
  destruct (set_level_spec z (u i) i _ (f i, u32 (s i + 1)) Hg) as (z1 & -> & Hf1 & Hl1). cbn [mbind option_bind].
  destruct (IH (S i) z1 u f s) as (z' & Hrun & Hf' & Hl').
  { intros k Hki. destruct (Hk k ltac:(lia)) as (A1 & A2). split; [done|].
    rewrite Hl1, (bool_decide_eq_false_2 (k = i)), andb_false_r by lia. done. }
  exists z'. split; [done|]. split; [by transitivity z1|]. intros q k. rewrite Hl', Hl1.
  destruct (decide (k = i)) as [->|Hki].
  - rewrite (bool_decide_eq_false_2 (S i <= i < _)%nat), (bool_decide_eq_true_2 (i <= i < _)%nat), (bool_decide_eq_true_2 (i = i)) by lia.
    by rewrite andb_true_r.
  - rewrite (bool_decide_eq_false_2 (k = i)), andb_false_r by done.
    rewrite (bool_decide_ext (i <= k < i + S n)%nat (S i <= k < S i + n)%nat) by lia. done.
Qed.

(** A frame with the same levels stands for the same entries. *)
Lemma rep_frame (z z' : zskiplist) L : rep z L -> same_frame z z' -> (forall q k, get_level z' q k = get_level z q k) -> rep z' L.
Proof.
  intros Hr [Hh Ht Hl Hz Hs] Hg. destruct Hr. split; rewrite ?Hh, ?Ht, ?Hl, ?Hz; try done.
  - destruct rep_header as (sc & b & E). exists sc, b. by rewrite Hs.
  - intros i Hi. rewrite ?Hz in Hi. destruct (rep_above i Hi) as [s E]. exists s. by rewrite Hg, ?Hh.
  - intros A e B HL. rewrite Hs. by apply (rep_shapes A e B).
  - intros A B i HL Ha. rewrite Hg, ?Hh. apply (rep_links A B i); [done|]. destruct Ha as [[-> Hi]|Ha]; [left; by rewrite <-Hz|by right].
Qed.

(** ** Raising the level *)

Lemma link_of_low i (L : list entry) : low i L -> link i L = (None, zlen L).
Proof. intros Hl. rewrite <-(app_nil_r L) at 1. rewrite link_low by done. cbn. done. Qed.

Lemma rep_low (z : zskiplist) L : rep z L -> low (zlevel z) L.
Proof. intros Hr. eapply Forall_impl; [exact (rep_entries _ _ Hr)|]. by intros e [[_ ?] _]. Qed.

Lemma entry_ok_mono k k' (e : entry) : (k <= k')%nat -> entry_ok k e -> entry_ok k' e.
Proof. unfold entry_ok. intros ? [[? ?] ?]. split; [lia|done]. Qed.

(** An entry's address is not the header's. *)
Lemma ptr_not_header (z : zskiplist) L e : rep z L -> e ∈ L -> e_ptr e <> header z.
Proof.
  intros Hr He Heq. assert (Hn := rep_ptrs _ _ Hr). apply NoDup_cons in Hn as [Hn _]. apply Hn. rewrite <-Heq.
  by apply list_elem_of_fmap_2.
Qed.

(** Level [zlevel] put into use, with no entry on it. *)
Lemma rep_raise (z : zskiplist) L : rep z L -> (zlevel z < ZSKIPLIST_MAXLEVEL)%nat -> zlen L < 2 ^ 32 ->
  exists s z1, get_level z (header z) (zlevel z) = Some (None, s) /\
    set_level z (header z) (zlevel z) (None, u32 (length_ z)) = Some z1 /\
    rep (set_zlevel (S (zlevel z)) z1) L /\ same_frame z z1.
Proof.
  intros Hr Hlev HL. destruct (rep_above _ _ Hr (zlevel z)) as [s Hs]; [lia|].
  destruct (set_level_spec z _ _ _ (None, u32 (length_ z)) Hs) as (z1 & Hrun & Hf & Hg).
  destruct Hf as [Hh Ht Hl Hz Hsh] eqn:Ef. clear Ef.
  exists s, z1. split; [done|]. split; [done|]. split; [|done]. assert (Hr' := Hr). destruct Hr'.
  split; cbn [header tail length_ zlevel set_zlevel]; rewrite ?Hh, ?Ht, ?Hl; try done.
  - destruct rep_header as (sc & b & E). exists sc, b. change (shape z1 (header z) = Some (None, sc, b, ZSKIPLIST_MAXLEVEL)). by rewrite Hsh.
  - intros i Hi. change (exists s0, get_level z1 (header z) i = Some (None, s0)). rewrite Hg, (bool_decide_eq_false_2 (i = _)), andb_false_r by lia.
    apply rep_above. lia.
  - intros A e B HA. change (shape z1 (e_ptr e) = Some (Some (e_ele e), e_score e, e_ptr <$> last A, e_height e)). rewrite Hsh.
    by apply (rep_shapes A e B).
  - intros A B i HA Hreach. change (get_level z1 (at_end (header z) A) i = Some (link i B)). rewrite Hg.
    destruct Hreach as [[-> Hi]|(A' & e & -> & He)]; cbn [zlevel set_zlevel] in *.
    + change (at_end (header z) []) with (header z). rewrite bool_decide_eq_true_2 by done. cbn [andb]. cbn [app] in HA. subst B.
      case_bool_decide as Hi'; [subst i|].
      * rewrite link_of_low by (by apply rep_low). rewrite rep_length, u32_small by lia. done.
      * apply (rep_links [] L i); [done|]. left. split; [done|lia].
    + rewrite at_end_snoc, bool_decide_eq_false_2.
      * cbn [andb]. rewrite <-(at_end_snoc (header z) A' e). apply (rep_links (A' ++ [e]) B i); [done|]. right. by exists A', e.
      * eapply ptr_not_header; [done|]. rewrite HA. apply elem_of_app. left. apply elem_of_app. right. by left.
  - lia.
  - eapply Forall_impl; [exact rep_entries|]. intros e. apply entry_ok_mono. lia.
Qed.

Lemma raise_levels_spec L n : forall i (z : zskiplist) upd, rep (set_zlevel i z) L -> (i + n <= ZSKIPLIST_MAXLEVEL)%nat -> zlen L < 2 ^ 32 ->
  exists z', raise_levels n i z upd = Some (z', upd ++ replicate n (header z, 0)) /\
    rep (set_zlevel (i + n) z') L /\ same_frame z z'.
Proof.
  induction n as [|n IH]; intros i z upd Hr Hi HL.
  { exists z. rewrite app_nil_r, Nat.add_0_r. split; [done|]. split; [done|reflexivity]. }
  destruct (rep_raise _ _ Hr) as (s & z1 & Hg & Hset & Hr1 & Hf1); [cbn; lia|done|].
  cbn [raise_levels]. cbn [header zlevel length_ set_zlevel] in Hg, Hset, Hr1.
  change (get_level (set_zlevel i z)) with (get_level z) in Hg. rewrite Hg. cbn [mbind option_bind].
  destruct (set_level_spec z (header z) i _ (None, u32 (length_ z)) Hg) as (z2 & Hrun2 & Hf2 & _).
  assert (E : set_zlevel (S i) z1 = set_zlevel (S i) z2).
  { unfold set_level in Hset, Hrun2. change (node (set_zlevel i z)) with (node z) in Hset. destruct (node z (header z)) as [hn|]; [|done].
    cbn [mbind option_bind] in *. destruct (level hn !! i); [|done]. cbn [mbind option_bind] in *. injection Hset as <-.
    by injection Hrun2 as <-. }
  rewrite Hrun2. cbn [mbind option_bind]. rewrite E in Hr1.
  destruct (IH (S i) z2 (upd ++ [(header z, 0)]) Hr1) as (z' & Hrun & Hr' & Hf'); [lia|done|].
  exists z'. rewrite (sf_header _ _ Hf2) in Hrun |- *. rewrite Hrun. split; [by rewrite <-app_assoc|]. rewrite Nat.add_succ_r. split; [done|].
  by transitivity z2.
Qed.

(** A node that no entry has is added to the store. *)
Lemma rep_in_use (z : zskiplist) L p : rep z L -> p ∈ header z :: map e_ptr L -> is_Some (heap z !! p).
Proof.
  intros Hr. assert (Hsh : forall q sc, shape z q = Some sc -> is_Some (heap z !! q)).
  { unfold shape, node. intros q sc. destruct (heap z !! q); [by eexists|done]. }
  intros [->|(e & -> & He)%list_elem_of_fmap]%elem_of_cons.
  - destruct (rep_header _ _ Hr) as (sc & b & E). by eapply Hsh.
  - apply list_elem_of_split in He as (A & B & HL). eapply Hsh. by apply (rep_shapes _ _ Hr A e B).
Qed.

Lemma rep_add (z : zskiplist) L x n : rep z L -> heap z !! x = None -> rep (set_heap (<[x := n]> (heap z)) z) L.
Proof.
  intros Hr Hx. assert (Hne : forall p, p ∈ header z :: map e_ptr L -> p <> x).
  { intros p Hp ->. apply (rep_in_use z L x Hr) in Hp as [? ?]. congruence. }
  assert (Hnode : forall p, p <> x -> node (set_heap (<[x := n]> (heap z)) z) p = node z p).
  { intros p Hp. unfold node. cbn [heap set_heap]. by rewrite lookup_insert_ne. }
  assert (Hh : header z <> x) by (apply Hne; by left).
  assert (Hend : forall A B, L = A ++ B -> at_end (header z) A <> x).
  { intros A B HL. destruct A as [|e A] using rev_ind; [done|]. rewrite at_end_snoc. apply Hne. right. apply list_elem_of_fmap_2.
    rewrite HL. apply elem_of_app. left. apply elem_of_app. right. by left. }
  assert (Hr' := Hr). destruct Hr'. split; cbn [header tail length_ zlevel set_heap]; try done; unfold shape, get_level in *.
  - rewrite Hnode by done. done.
  - intros i Hi. rewrite Hnode by done. by apply rep_above.
  - intros A e B HL. rewrite Hnode; [by apply (rep_shapes A e B)|]. apply Hne. right. apply list_elem_of_fmap_2. rewrite HL.
    apply elem_of_app. right. by left.
  - intros A B i HL Ha. rewrite Hnode by (by eapply Hend). by apply (rep_links A B i).
Qed.

(** ** Linking the new node *)

Lemma updates_lookup (z : zskiplist) P n k : (k < n)%nat ->
  updates z P n !! k = Some (at_end (header z) (cut k P), zlen (cut k P)).
Proof. intros Hk. unfold updates. by rewrite list_lookup_fmap, lookup_seq_lt. Qed.

Lemma at_end_in h (A : list entry) : at_end h A ∈ h :: map e_ptr A.
Proof.
  destruct A as [|e A] using rev_ind; [by left|]. rewrite at_end_snoc. right. apply list_elem_of_fmap_2.
  apply elem_of_app. right. by left.
Qed.

(** Different prefixes end in different nodes. *)
Lemma at_end_inj h (L A B A' B' : list entry) : NoDup (h :: map e_ptr L) -> L = A ++ B -> L = A' ++ B' ->
  at_end h A = at_end h A' -> A = A'.
Proof.
  intros Hn HL HL' Hend. apply NoDup_cons in Hn as [Hh Hn].
  assert (Hin : forall C D e, L = C ++ e :: D -> e_ptr e <> h).
  { intros C D e E Heq. apply Hh. rewrite <-Heq. apply list_elem_of_fmap_2. rewrite E. apply elem_of_app. right. by left. }
  destruct A as [|e A _] using rev_ind; destruct A' as [|e' A' _] using rev_ind; try done.
  - rewrite at_end_snoc in Hend. rewrite <-app_assoc in HL'. by apply Hin in HL'.
  - rewrite at_end_snoc in Hend. rewrite <-app_assoc in HL. by apply Hin in HL.
  - rewrite !at_end_snoc in Hend. rewrite <-app_assoc in HL, HL'. cbn [app] in HL, HL'.
    assert (E1 : map e_ptr L !! length A = Some (e_ptr e)) by (rewrite HL, list_lookup_fmap, list_lookup_middle by done; done).
    assert (E2 : map e_ptr L !! length A' = Some (e_ptr e')) by (rewrite HL', list_lookup_fmap, list_lookup_middle by done; done).
    rewrite <-Hend in E2. assert (El : length A = length A') by (by eapply NoDup_lookup).
    rewrite HL in HL'. apply app_inj_1 in HL' as [-> [= -> _]]; [done|exact El].
Qed.

Lemma cut_unique i (A M P : list entry) (z : zskiplist) : P = A ++ M -> low i M -> reaches z i A -> cut i P = A.
Proof.
  intros -> HM [[-> _]|(A' & e & -> & He)]; [by apply cut_low|]. rewrite <-app_assoc. by apply cut_app_high.
Qed.

Lemma zlen_app (A B : list entry) : zlen (A ++ B) = zlen A + zlen B.
Proof. rewrite length_app. lia. Qed.

(** The part of [P] after its last entry above a level. *)
Definition rest (k : nat) (P : list entry) : list entry := drop (length (cut k P)) P.

Lemma rest_spec k P : P = cut k P ++ rest k P /\ low k (rest k P).
Proof.
  destruct (cut_prefix k P) as (M & E & HM). assert (rest k P = M) as ->; [|done].
  unfold rest. rewrite E at 2. apply drop_app_length.
Qed.

Lemma rest_length k P : zlen P - zlen (cut k P) = zlen (rest k P) /\ 0 <= zlen (rest k P) <= zlen P.
Proof. destruct (rest_spec k P) as [E _]. assert (E' := f_equal length E). rewrite length_app in E'. lia. Qed.

Lemma at_end_prefix h (P A B : list entry) : P = A ++ B -> at_end h A ∈ h :: map e_ptr P.
Proof.
  intros ->. assert (Hin := at_end_in h A). apply elem_of_cons in Hin as [Hin|Hin]; [rewrite Hin; by left|].
  right. rewrite map_app. apply elem_of_app. by left.
Qed.

(** A prefix that ends on level [k] ends with the last such entry of [P], or
    another such entry follows. *)
Lemma reaches_cases (z : zskiplist) h k (P A B S : list entry) : NoDup (h :: map e_ptr (P ++ S)) -> P = A ++ B -> reaches z k A ->
  (low k B /\ cut k P = A /\ rest k P = B) \/
  (at_end h A <> at_end h (cut k P) /\ forall l l', link k (B ++ l) = link k (B ++ l')).
Proof.
  intros Hn HAB Ha. destruct (rest_spec k P) as [E HM]. destruct (low_or_high k B) as [HB|(N & y & B' & -> & HN & Hy)].
  - left. assert (EA : cut k P = A) by by eapply cut_unique. split; [done|]. split; [done|]. rewrite HAB in E at 1. rewrite EA in E.
    by apply app_inv_head in E.
  - right. split; [|intros l l'; rewrite <-!app_assoc; cbn [app]; by apply link_local]. intros Heq.
    apply (at_end_inj h (P ++ S) A ((N ++ y :: B') ++ S) (cut k P) (rest k P ++ S)) in Heq; [|done|by rewrite HAB, <-app_assoc|by rewrite app_assoc, <-E].
    subst A. rewrite HAB in E at 1. apply app_inv_head in E. rewrite <-E in HM. apply Forall_app in HM as [_ HM].
    inversion HM. lia.
Qed.

Lemma link_in i (l : list entry) p : (link i l).1 = Some p -> p ∈ map e_ptr l.
Proof.
  induction l as [|e l IH]; cbn [link map]; [done|]. destruct (_ <? _)%nat; cbn [fst]; [intros [= <-]; by left|].
  destruct (link i l) as [f s]. intros E. right. by apply IH.
Qed.

Lemma link_bounds i (l : list entry) : 0 <= (link i l).2 <= zlen l.
Proof.
  induction l as [|y l IH]; cbn [link]; [cbn; lia|]. destruct (_ <? _)%nat; [cbn; lia|].
  destruct (link i l); cbn in *. lia.
Qed.

(** What the search leaves in update, on the levels in use. *)
Lemma rep_update (z : zskiplist) P Q k : rep z (P ++ Q) -> (k < zlevel z)%nat ->
  get_level z (at_end (header z) (cut k P)) k = Some (link k (rest k P ++ Q)).
Proof.
  intros Hr Hk. destruct (rest_spec k P) as [E _]. apply (rep_links _ _ Hr); [by rewrite app_assoc, <-E|].
  by apply (cut_reaches z (P ++ Q) k P Q).
Qed.

(** Where the levels of the old nodes and of the new one lead. *)
Record linked (z z' : zskiplist) (P : list entry) (e : entry) (Q : list entry) : Prop := {
  linked_new : forall k, (k < e_height e)%nat -> get_level z' (e_ptr e) k = Some (link k Q);
  linked_before : forall A B k, P = A ++ B -> reaches z k A -> (k < zlevel z)%nat ->
    get_level z' (at_end (header z) A) k = Some (link k (B ++ e :: Q));
  linked_after : forall q k, q <> e_ptr e -> (zlevel z <= k)%nat \/ q ∉ header z :: map e_ptr P ->
    get_level z' q k = get_level z q k
}.

(** The two loops put [e] between [P] and [Q]. *)
Lemma insert_links (z : zskiplist) P Q e : rep z (P ++ Q) -> zlen (P ++ Q) + 1 < 2 ^ 32 ->
  e_ptr e ∉ header z :: map e_ptr (P ++ Q) -> (e_height e <= zlevel z)%nat ->
  (forall k, (k < e_height e)%nat -> is_Some (get_level z (e_ptr e) k)) ->
  exists z', (z1 ← link_levels (e_height e) 0 z (e_ptr e) (updates z P (zlevel z)) (zlen P);
              count_levels (zlevel z1 - e_height e) (e_height e) z1 (updates z P (zlevel z))) = Some z' /\ same_frame z z' /\
    linked z z' P e Q.
Proof.
  intros Hr Hlen Hfresh Hlev Hx. set (h := header z) in *. set (x := e_ptr e) in *. set (u := fun k => at_end h (cut k P)).
  assert (Hin : forall A B, P = A ++ B -> at_end h A <> x).
  { intros A B HAB Heq. apply Hfresh. rewrite <-Heq. apply (at_end_prefix h (P ++ Q) A (B ++ Q)). by rewrite HAB, app_assoc. }
  assert (Hux : forall k, u k <> x) by (intros k; eapply Hin, rest_spec).
  assert (Hold : forall k, (k < zlevel z)%nat -> get_level z (u k) k = Some ((link k Q).1, (link k Q).2 + zlen (rest k P))).
  { intros k Hk. rewrite <-link_low by apply rest_spec. by apply rep_update. }
  rewrite zlen_app in Hlen.
  destruct (link_levels_spec x (zlen P) (updates z P (zlevel z)) (e_height e) 0 z u (fun k => zlen (cut k P))
    (fun k => (link k Q).1) (fun k => (link k Q).2 + zlen (rest k P))) as (z1 & -> & Hf1 & Hg1).
  { intros k Hk. rewrite updates_lookup by lia. split; [done|]. split; [done|]. split; [apply Hold; lia|apply Hx; lia]. }
  cbn [mbind option_bind]. rewrite (sf_zlevel _ _ Hf1).
  destruct (count_levels_spec (updates z P (zlevel z)) (zlevel z - e_height e) (e_height e) z1 u
    (fun k => (link k Q).1) (fun k => (link k Q).2 + zlen (rest k P))) as (z2 & -> & Hf2 & Hg2).
  { intros k Hk. rewrite updates_lookup by lia. split; [by eexists|]. rewrite Hg1, bool_decide_eq_false_2 by lia. apply Hold. lia. }
  exists z2. split; [done|]. split; [by transitivity z1|]. split.
  - intros k Hk. rewrite Hg2, (bool_decide_eq_false_2 (e_height e <= k < _)%nat) by lia. cbn [andb].
    rewrite Hg1, (bool_decide_eq_true_2 (0 <= k < _)%nat), (bool_decide_eq_true_2 (e_ptr e = x)) by (done || lia).
    destruct (rest_length k P) as [-> Hrl]. assert (Hb := link_bounds k Q). rewrite (u32_small (zlen (rest k P))), u32_small by lia.
    destruct (link k Q) as [f s]. cbn. do 2 f_equal. lia.
  - intros A B k HAB Hreach Hk. change (header z) with h. rewrite Hg2, Hg1, (bool_decide_eq_false_2 (at_end h A = x)) by (by eapply Hin).
    destruct (reaches_cases z h k P A B Q) as [(HB & EA & EB)|[Hne Hloc]]; [apply (rep_ptrs _ _ Hr)|done|done| |].
    + rewrite (bool_decide_eq_true_2 (at_end h A = u k)) by (unfold u; by rewrite EA).
      destruct (rest_length k P) as [-> Hrl]. assert (Hb := link_bounds k Q). rewrite EB in *.
      destruct (decide (k < e_height e)%nat) as [Hke|Hke].
      * rewrite (bool_decide_eq_false_2 (e_height e <= k < _)%nat), (bool_decide_eq_true_2 (0 <= k < _)%nat) by lia. cbn [andb].
        rewrite link_low, link_here by done. cbn. rewrite (u32_small (zlen B)), u32_small by lia. do 2 f_equal. lia.
      * rewrite (bool_decide_eq_true_2 (e_height e <= k < _)%nat) by lia. cbn [andb]. rewrite u32_small by lia.
        rewrite link_low by done. change (e :: Q) with ([e] ++ Q). rewrite (link_low k [e]) by (repeat constructor; lia). cbn. do 2 f_equal. lia.
    + rewrite (bool_decide_eq_false_2 (at_end h A = u k)), andb_false_r by done. rewrite (Hloc (e :: Q) Q).
      rewrite (rep_links _ _ Hr A (B ++ Q)) by (done || by rewrite HAB, <-app_assoc). by destruct (bool_decide _).
  - intros q k Hq Hcase. rewrite Hg2, Hg1, (bool_decide_eq_false_2 (q = x)) by done. destruct Hcase as [Hk|Hnin].
    + rewrite (bool_decide_eq_false_2 (e_height e <= k < _)%nat), (bool_decide_eq_false_2 (0 <= k < _)%nat) by lia. done.
    + assert (Hqu : q <> u k) by (intros ->; apply Hnin; eapply at_end_prefix, rest_spec).
      rewrite (bool_decide_eq_false_2 (q = u k)), andb_false_r by done. by destruct (bool_decide _).
Qed.

(** ** The entries after an insertion *)

Lemma reaches_same (z z' : zskiplist) k A : zlevel z' = zlevel z -> reaches z' k A -> reaches z k A.
Proof. intros E [[-> Hk]|Ha]; [left; split; [done|by rewrite <-E]|by right]. Qed.

Lemma reaches_bound (z : zskiplist) k A B : rep z (A ++ B) -> reaches z k A -> (k < zlevel z)%nat.
Proof.
  intros Hr [[_ ?]|(A' & e & -> & He)]; [done|]. assert (Ho := rep_entries _ _ Hr). rewrite !Forall_app in Ho.
  destruct Ho as [[_ Ho] _]. apply Forall_cons_1 in Ho as [[[_ ?] _] _]. lia.
Qed.

Lemma after_not_before (h : nodeptr) (P Q1 : list entry) y B : NoDup (h :: map e_ptr (P ++ Q1 ++ y :: B)) ->
  e_ptr y ∉ h :: map e_ptr P.
Proof.
  intros Hn Hin. rewrite map_app in Hn. change (h :: map e_ptr P ++ ?X) with ((h :: map e_ptr P) ++ X) in Hn.
  apply NoDup_app in Hn as (_ & Hn & _). apply (Hn _ Hin). apply list_elem_of_fmap_2. apply elem_of_app. right. by left.
Qed.

Lemma rep_linked_links (z z' : zskiplist) P e Q : rep z (P ++ Q) -> header z' = header z -> zlevel z' = zlevel z ->
  e_ptr e ∉ header z :: map e_ptr (P ++ Q) -> linked z z' P e Q ->
  forall A B i, P ++ e :: Q = A ++ B -> reaches z' i A -> get_level z' (at_end (header z') A) i = Some (link i B).
Proof.
  intros Hr Hh Hz Hx [Hnew Hbefore Hafter] A B i HAB Ha. rewrite Hh. apply (reaches_same z) in Ha; [|done].
  apply app_eq_inv in HAB as [(K & -> & ->)|(K & -> & HK)].
  - apply (Hbefore A K); [done|done|]. rewrite <-app_assoc in Hr. by eapply reaches_bound.
  - destruct K as [|x K]; cbn [app] in HK.
    { subst B. rewrite app_nil_r in *. apply (Hbefore P []); [by rewrite app_nil_r|done|by eapply reaches_bound]. }
    injection HK as <- HQ. destruct K as [|y K _] using rev_ind; cbn [app] in HQ.
    + subst B. rewrite at_end_snoc. apply Hnew. destruct Ha as [[E _]|(A' & e' & E & He)]; [by destruct P|].
      apply app_inj_tail in E as [_ <-]. done.
    + assert (E : P ++ e :: K ++ [y] = (P ++ e :: K) ++ [y]) by by rewrite <-app_assoc.
      assert (Hi : (i < e_height y)%nat).
      { destruct Ha as [[E' _]|(A' & e' & E' & He)]; [by destruct P|]. rewrite E in E'. by apply app_inj_tail in E' as [_ <-]. }
      rewrite E, at_end_snoc. assert (E2 : P ++ Q = (P ++ K ++ [y]) ++ B) by (rewrite HQ, <-!app_assoc; done).
      rewrite Hafter.
      * rewrite <-(at_end_snoc (header z) (P ++ K) y), <-app_assoc. apply (rep_links _ _ Hr _ _ _ E2). right.
        exists (P ++ K), y. by rewrite <-app_assoc.
      * intros Heq. apply Hx. rewrite <-Heq. right. apply list_elem_of_fmap_2. rewrite E2. apply elem_of_app. left.
        rewrite app_assoc. apply elem_of_app. right. by left.
      * right. apply (after_not_before _ _ K y B). assert (Hn := rep_ptrs _ _ Hr). rewrite HQ in Hn. by rewrite <-app_assoc in Hn.
Qed.

(** The node after the new one, if any, points back to it. *)
Record reshaped (z z' : zskiplist) (P : list entry) (e : entry) (Q : list entry) : Prop := {
  reshaped_new : shape z' (e_ptr e) = Some (Some (e_ele e), e_score e, e_ptr <$> last P, e_height e);
  reshaped_next : forall y Q', Q = y :: Q' -> shape z' (e_ptr y) = Some (Some (e_ele y), e_score y, Some (e_ptr e), e_height y);
  reshaped_others : forall p, p <> e_ptr e -> (forall y Q', Q = y :: Q' -> p <> e_ptr y) -> shape z' p = shape z p
}.

Lemma rep_inserted (z z' : zskiplist) P e Q : rep z (P ++ Q) -> e_ptr e ∉ header z :: map e_ptr (P ++ Q) ->
  entry_ok (zlevel z) e -> StronglySorted entry_lt (P ++ e :: Q) -> linked z z' P e Q -> reshaped z z' P e Q ->
  header z' = header z -> zlevel z' = zlevel z -> tail z' = e_ptr <$> last (P ++ e :: Q) -> length_ z' = zlen (P ++ e :: Q) ->
  rep z' (P ++ e :: Q).
Proof.
  intros Hr Hx He Hsort Hlinked [Hnew Hnext Hothers] Hh Hz Ht Hl. assert (Hr' := Hr). destruct Hr'.
  assert (Hxh : e_ptr e <> header z) by (intros E; apply Hx; rewrite E; by left).
  split; rewrite ?Hh, ?Hz; try done.
  - destruct rep_header as (sc & b & E). exists sc, b. rewrite Hothers; [done|done|]. intros y Q' -> Heq.
    eapply ptr_not_header; [exact Hr| |by rewrite <-Heq]. apply elem_of_app. right. by left.
  - intros i Hi. destruct (rep_above i Hi) as [s E]. exists s. rewrite (linked_after _ _ _ _ _ Hlinked); [done|done|left; lia].
  - assert (Hp : header z :: map e_ptr (P ++ e :: Q) ≡ₚ e_ptr e :: header z :: map e_ptr (P ++ Q)).
    { rewrite !map_app. cbn [map]. rewrite <-Permutation_middle. apply perm_swap. }
    rewrite Hp. by apply NoDup_cons.
  - intros A y B HL. apply app_eq_inv in HL as [(K & -> & HK)|(K & -> & HK)].
    + destruct K as [|y' K]; cbn [app] in HK; injection HK as -> ->; [by rewrite app_nil_r in Hnew|].
      rewrite <-app_assoc in Hr, rep_ptrs, rep_shapes. cbn [app] in Hr, rep_ptrs, rep_shapes.
      rewrite Hothers; [by apply (rep_shapes A y' (K ++ Q))| |].
      * intros Heq. apply Hx. rewrite <-Heq. right. apply list_elem_of_fmap_2. rewrite <-app_assoc. apply elem_of_app. right. by left.
      * intros y Q' -> Heq. apply (after_not_before (header z) (A ++ y' :: K) [] y Q').
        -- rewrite <-app_assoc. done.
        -- rewrite <-Heq. right. apply list_elem_of_fmap_2. apply elem_of_app. right. by left.
    + destruct K as [|x K]; cbn [app] in HK; injection HK as <- HQ; [rewrite app_nil_r in *; subst; done|].
      rewrite HQ in *. destruct K as [|y' K _] using rev_ind; cbn [app] in *.
      { rewrite last_snoc. by eapply Hnext. }
      assert (E1 : last (P ++ e :: K ++ [y']) = Some y') by (rewrite app_comm_cons, app_assoc; apply last_snoc).
      assert (E2 : last (P ++ K ++ [y']) = Some y') by (rewrite app_assoc; apply last_snoc).
      rewrite E1, <-E2, Hothers.
      * apply (rep_shapes (P ++ K ++ [y']) y B). by rewrite <-!app_assoc.
      * intros Heq. apply Hx. rewrite <-Heq. right. apply list_elem_of_fmap_2. rewrite app_assoc. apply elem_of_app. right. by left.
      * intros y1 Q1 E Heq. rewrite <-app_assoc in rep_ptrs, E. destruct K as [|k K]; cbn [app] in E; injection E as <- E.
        -- apply (after_not_before (header z) (P ++ [y']) [] y B); [by rewrite <-app_assoc|]. rewrite Heq. right.
           apply list_elem_of_fmap_2. apply elem_of_app. right. by left.
        -- apply (after_not_before (header z) (P ++ k :: K ++ [y']) [] y B); [rewrite <-app_assoc; cbn [app]; by rewrite <-app_assoc|].
           rewrite Heq. right. apply list_elem_of_fmap_2. apply elem_of_app. right. by left.
  - intros A B i. rewrite <-Hh. by apply (rep_linked_links z).
  - rewrite Forall_app in *. destruct rep_entries as [? ?]. split; [done|]. by constructor.
Qed.

(** ** zslInsert *)

Lemma set_backward_spec (z : zskiplist) p b sc : shape z p = Some sc ->
  exists z', set_backward z p b = Some z' /\ header z' = header z /\ tail z' = tail z /\ length_ z' = length_ z /\
    zlevel z' = zlevel z /\ (forall q k, get_level z' q k = get_level z q k) /\
    shape z' p = Some (sc.1.1, b, sc.2) /\ (forall q, q <> p -> shape z' q = shape z q).
Proof.
  unfold shape, set_backward, get_level, node. destruct (heap z !! p) as [n|] eqn:Hn; [|done]. intros [= <-].
  cbn [mbind option_bind]. eexists. split; [done|]. cbn [header tail length_ zlevel heap set_heap]. do 4 (split; [done|]). split; [|split].
  - intros q k. destruct (decide (q = p)) as [->|]; [by rewrite lookup_insert_eq, Hn|by rewrite lookup_insert_ne].
  - by rewrite lookup_insert_eq.
  - intros q Hq. by rewrite lookup_insert_ne.
Qed.

Lemma zslRandomLevel_bounds draws lev draws' : zslRandomLevel draws = Some (lev, draws') ->
  (1 <= lev <= ZSKIPLIST_MAXLEVEL)%nat.
Proof.
  unfold zslRandomLevel. destruct (random_level_loop draws 1) as [[n rest]|] eqn:E; [|done]. cbn [mbind option_bind].
  intros [= <- _]. assert (Hn : forall ds k m r, random_level_loop ds k = Some (m, r) -> (k <= m)%nat).
  { induction ds as [|d ds IH]; intros k m r Hk; cbn [random_level_loop] in Hk; [done|]. destruct (_ <? _) in Hk.
    - apply IH in Hk. lia.
    - injection Hk as <- _. done. }
  apply Hn in E. unfold ZSKIPLIST_MAXLEVEL. destruct (Nat.ltb_spec n 32); lia.
Qed.

(** The test of the search is the order of the entries. *)
Lemma before_spec sc e A a B r p k : zlen (e_ele a) < 2 ^ 31 -> zlen e < 2 ^ 31 ->
  before sc e (node_of A a B) r = true <-> entry_lt a (mkEntry p sc e k).
Proof.
  intros Ha He. unfold before, entry_lt, score_lt, score_eq, node_cmp, node_of. cbn [node_score ele e_score e_ele].
  assert (Hlex := content_cmp_lex _ _ Ha He). rewrite orb_true_iff, andb_true_iff, !Z.ltb_lt, Z.eqb_eq, <-Hlex. done.
Qed.

Lemma divides_before (z : zskiplist) P Q sc e p k : rep z (P ++ Q) -> zlen e < 2 ^ 31 ->
  Forall (fun a => entry_lt a (mkEntry p sc e k)) P -> Forall (fun a => ~ entry_lt a (mkEntry p sc e k)) Q ->
  divides (before sc e) P Q.
Proof.
  intros Hr He HP HQ. assert (Ho := rep_entries _ _ Hr). rewrite Forall_app in Ho. destruct Ho as [HoP HoQ].
  rewrite Forall_forall in HP, HQ, HoP, HoQ. split; intros A a B E.
  - assert (Ha : a ∈ P) by (rewrite E; apply elem_of_app; right; by left). apply (before_spec _ _ _ _ _ _ p k).
    + by apply HoP in Ha as [_ ?].
    + done.
    + by apply HP.
  - assert (Ha : a ∈ Q) by (rewrite E; apply elem_of_app; right; by left). apply not_true_is_false. intros Hb. apply (HQ a Ha).
    apply (before_spec _ _ (P ++ A) a B (zlen (P ++ A) + 1)); [by apply HoQ in Ha as [_ ?]|done|done].
Qed.

Lemma cut_0 (z : zskiplist) P Q : rep z (P ++ Q) -> cut 0 P = P.
Proof.
  intros Hr. destruct P as [|e P _] using rev_ind; [done|]. apply cut_app_high; [|constructor].
  assert (Ho := rep_entries _ _ Hr). rewrite !Forall_app in Ho. destruct Ho as [[_ Ho] _]. apply Forall_cons_1 in Ho as [[[? _] _] _]. lia.
Qed.

Lemma link_0 (z : zskiplist) P Q : rep z (P ++ Q) -> (link 0 Q).1 = e_ptr <$> head Q.
Proof.
  intros Hr. destruct Q as [|e Q]; [done|]. rewrite link_here; [done|].
  assert (Ho := rep_entries _ _ Hr). rewrite !Forall_app in Ho. destruct Ho as [_ Ho]. apply Forall_cons_1 in Ho as [[[? _] _] _]. lia.
Qed.

(** Above the level in use, the search would have stayed at the header. *)
Lemma updates_raise (z : zskiplist) P Q n : rep z (P ++ Q) ->
  updates z P (zlevel z) ++ replicate n (header z, 0) = updates z P (zlevel z + n).
Proof.
  intros Hr. induction n as [|n IH]; [by rewrite app_nil_r, Nat.add_0_r|].
  rewrite replicate_S_end, app_assoc, IH, Nat.add_succ_r, updates_S. rewrite (cut_top z (P ++ Q) P Q) by (done || lia). done.
Qed.

(** The stores after the loops: backward pointers, tail and length. *)
Definition finish_insert (z : zskiplist) (x u0 : nodeptr) : option zskiplist :=
  z ← set_backward z x (if decide (u0 = header z) then None else Some u0);
  '(forward, _) ← get_level z x 0;
  z ← match forward with
      | Some y => set_backward z y (Some x)
      | None => Some (set_tail (Some x) z)
      end;
  Some (set_length (u64 (length_ z + 1)) z).

Lemma backward_of (z : zskiplist) P Q : rep z (P ++ Q) ->
  (if decide (at_end (header z) P = header z) then None else Some (at_end (header z) P)) = e_ptr <$> last P.
Proof.
  intros Hr. destruct P as [|e P _] using rev_ind; [by rewrite decide_True|]. rewrite at_end_snoc, last_snoc.
  rewrite decide_False; [done|]. eapply ptr_not_header; [exact Hr|]. apply elem_of_app. left. apply elem_of_app. right. by left.
Qed.

Lemma finish_insert_spec (z z2 : zskiplist) P e Q b : rep z (P ++ Q) -> same_frame z z2 -> linked z z2 P e Q ->
  e_ptr e ∉ header z :: map e_ptr (P ++ Q) -> entry_ok (zlevel z) e -> StronglySorted entry_lt (P ++ e :: Q) ->
  zlen (P ++ Q) + 1 < 2 ^ 64 -> shape z (e_ptr e) = Some (Some (e_ele e), e_score e, b, e_height e) ->
  exists z', finish_insert z2 (e_ptr e) (at_end (header z) P) = Some z' /\ rep z' (P ++ e :: Q) /\
    zlevel z' = zlevel z /\ header z' = header z.
Proof.
  intros Hr [Fh Ft Fl Fz Fs] [Lnew Lbefore Lafter] Hx He Hsort Hlen Hxs.
  assert (Hxl : (1 <= e_height e)%nat) by (destruct He as [[? _] _]; lia).
  unfold finish_insert. rewrite Fh, (backward_of z P Q Hr).
  destruct (set_backward_spec z2 (e_ptr e) (e_ptr <$> last P) _ (eq_trans (Fs _) Hxs))
    as (z3 & -> & Bh & Bt & Bl & Bz & Bg & Bx & Bo). cbn [mbind option_bind].
  rewrite Bg, (Lnew 0%nat) by lia. destruct (link 0 Q) as [f s] eqn:El. cbn [mbind option_bind].
  assert (Ef := link_0 z P Q Hr). rewrite El in Ef. cbn [fst] in Ef. subst f.
  assert (HQ : forall y Q', Q = y :: Q' -> e_ptr y <> e_ptr e).
  { intros y Q' -> Heq. apply Hx. rewrite <-Heq. right. apply list_elem_of_fmap_2. apply elem_of_app. right. by left. }
  assert (Hlen' : zlen (P ++ e :: Q) = zlen (P ++ Q) + 1) by (rewrite !zlen_app; cbn [length]; lia).
  destruct Q as [|y Q]; cbn [head fmap option_fmap option_map mbind option_bind].
  - eexists. split; [done|]. split; [|split; cbn; congruence].
    apply (rep_inserted z); cbn [header tail length_ zlevel set_length set_tail]; try done; try congruence.
    + split; intros; change (get_level (set_length ?n (set_tail ?t z3))) with (get_level z3); rewrite Bg; auto.
    + split; [done|done|]. intros p Hp _. change (shape z3 p = shape z p). by rewrite Bo, Fs.
    + by rewrite last_snoc.
    + rewrite Bl, Fl, (rep_length _ _ Hr), Hlen', u64_small by lia. done.
  - assert (Hy : shape z3 (e_ptr y) = shape z (e_ptr y)) by (rewrite Bo, Fs; [done|by eapply HQ]).
    rewrite (rep_shapes _ _ Hr P y Q eq_refl) in Hy.
    destruct (set_backward_spec z3 (e_ptr y) (Some (e_ptr e)) _ Hy) as (z4 & -> & Ch & Ct & Cl & Cz & Cg & Cy & Co).
    cbn [mbind option_bind]. eexists. split; [done|]. split; [|split; cbn; congruence].
    apply (rep_inserted z); cbn [header tail length_ zlevel set_length]; try done; try congruence.
    + split; intros; change (get_level (set_length ?n z4)) with (get_level z4); rewrite Cg, Bg; auto.
    + split.
      * change (shape z4 (e_ptr e) = Some (Some (e_ele e), e_score e, e_ptr <$> last P, e_height e)).
        rewrite Co; [exact Bx|]. intros Heq. by eapply HQ.
      * intros y' Q' [= <- <-]. exact Cy.
      * intros p Hp Hne. change (shape z4 p = shape z p). rewrite Co, Bo, Fs; [done|done|by eapply Hne].
    + rewrite Ct, Bt, Ft, (rep_tail _ _ Hr), !last_app_cons. done.
    + rewrite Cl, Bl, Fl, (rep_length _ _ Hr), Hlen', u64_small by lia. done.
Qed.

(** Insertion between [P] and [Q], which the search finds. *)
Lemma zslInsert_between (z : zskiplist) P Q sc e draws lev draws' : rep z (P ++ Q) -> top_ok z (P ++ Q) ->
  zlen (P ++ Q) + 1 < 2 ^ 32 -> zlen e < 2 ^ 31 -> zslRandomLevel draws = Some (lev, draws') ->
  (forall p, StronglySorted entry_lt (P ++ mkEntry p sc e lev :: Q)) ->
  divides (before sc e) P Q ->
  exists z' p, zslInsert junk z sc e draws = Some (z', p, draws') /\ heap z !! p = None /\
    rep z' (P ++ mkEntry p sc e lev :: Q) /\ top_ok z' (P ++ mkEntry p sc e lev :: Q) /\ header z' = header z.
Proof.
  intros Hr Htop Hlen He Hlev Hsort Hdiv. assert (Hb := zslRandomLevel_bounds _ _ _ Hlev). unfold zslInsert.
  rewrite (zsl_search_spec z _ _ P Q Hr eq_refl Hdiv). cbn [mbind option_bind]. rewrite Hlev. cbn [mbind option_bind].
  assert (Hz := rep_zlevel _ _ Hr). set (n := (lev - zlevel z)%nat).
  destruct (raise_levels_spec (P ++ Q) n (zlevel z) z (updates z P (zlevel z))) as (z1 & -> & Hr1 & Hf1); [by destruct z|lia|lia|].
  assert (Hh1 := sf_header _ _ Hf1). assert (Hz1 := sf_zlevel _ _ Hf1). cbn [mbind option_bind]. rewrite (updates_raise z P Q n Hr), Hz1.
  replace (Nat.max lev (zlevel z)) with (zlevel z + n)%nat by lia. 
  assert (Hk : (lev <= zlevel z + n <= ZSKIPLIST_MAXLEVEL /\ zlevel z <= zlevel z + n)%nat) by lia.
  set (k := (zlevel z + n)%nat) in *.
  set (z2 := set_zlevel k z1) in *. set (x := new_ptr (heap z2)). set (E := mkEntry x sc e lev).
  assert (Hx : heap z2 !! x = None) by (apply not_elem_of_dom, is_fresh).
  set (z3 := set_heap _ z2). assert (Hr3 : rep z3 (P ++ Q)) by by apply rep_add.
  assert (Hnew : node z3 x = Some (zslCreateNode junk lev sc (Some e))) by (unfold node, z3; apply lookup_insert_eq).
  assert (Hxs : shape z3 x = Some (Some e, sc, None, lev)).
  { unfold shape. rewrite Hnew. cbn. by rewrite length_map, length_seq. }
  assert (Hh3 : header z3 = header z) by exact Hh1. assert (Hk3 : zlevel z3 = k) by done.
  assert (Hxin : x ∉ header z3 :: map e_ptr (P ++ Q)).
  { intros Hin. apply (rep_in_use z2 (P ++ Q) x Hr1) in Hin. rewrite Hx in Hin. by destruct Hin. }
  assert (Hu : updates z P k = updates z3 P (zlevel z3)) by (unfold updates; by rewrite Hh3, Hk3).
  assert (Hu0 : updates z P k !! 0%nat = Some (at_end (header z3) P, zlen P)).
  { rewrite updates_lookup, (cut_0 z P Q) by (done || lia). by rewrite Hh3. }
  rewrite Hu0. cbn [mbind option_bind]. rewrite Hu.
  destruct (insert_links z3 P Q E) as (z4 & Hlinks & Hf4 & Hl4); try done.
  { rewrite Hk3. apply Hk. }
  { intros j Hj. by apply (get_level_shape z3 x j (Some e, sc, None, lev)). }
  cbn [e_ptr e_height E] in Hlinks.
  destruct (finish_insert_spec z3 z4 P E Q None) as (z' & Hfin & Hr' & Hz' & Hh'); try done.
  { split; [|done]. rewrite Hk3. split; [apply Hb|apply Hk]. }
  { apply Hsort. }
  { lia. }
  exists z', x. split.
  - destruct (link_levels lev 0 z3 x _ _) as [z5|]; [|done]. cbn [mbind option_bind] in Hlinks |- *. rewrite Hlinks.
    cbn [mbind option_bind]. change (e_ptr E) with x in Hfin. unfold finish_insert in Hfin.
    destruct (set_backward z4 x _) as [z6|]; [|done]. cbn [mbind option_bind] in Hfin |- *.
    destruct (get_level z6 x 0) as [[f s]|]; [|done]. cbn [mbind option_bind] in Hfin |- *.
    destruct (match f with Some _ => _ | None => _ end) as [z7|]; [|done]. cbn [mbind option_bind] in Hfin |- *.
    by injection Hfin as ->.
  - split; [|split; [done|split; [|congruence]]].
    + assert (Hsx := sf_shape _ _ Hf1 x). unfold shape, node in Hsx. change (heap z2 !! x) with (heap z1 !! x) in Hx.
      rewrite Hx in Hsx. by destruct (heap z !! x).
    + destruct (decide (lev = k)) as [Hkl|Hne].
      { right. exists E. split; [apply elem_of_app; right; by left|by rewrite Hz', Hk3]. }
      assert (Hkz : k = zlevel z) by (unfold k, n in *; lia).
      destruct Htop as [Ht|(a & Ha & Hta)]; [left; congruence|]. right. exists a. split; [|congruence].
      apply elem_of_app in Ha as [Ha|Ha]; apply elem_of_app; [by left|right; by right].
Qed.

(** ** The list of members *)

Abbreviation member := (score * list Z)%type.

Definition member_lt (a b : member) : bool :=
  score_lt a.1 b.1 || (score_eq a.1 b.1 && match lex a.2 b.2 with Lt => true | _ => false end).

(** Insertion into a sorted list. *)
Fixpoint ordered_insert (x : member) (l : list member) : list member :=
  match l with
  | [] => [x]
  | y :: l => if member_lt y x then y :: ordered_insert x l else x :: y :: l
  end.

Definition member_of (e : entry) : member := (e_score e, e_ele e).

(** A well-formed skiplist whose members are [l], in order. *)
Definition zsl_ok (z : zskiplist) (l : list member) : Prop :=
  exists L, rep z L /\ top_ok z L /\ map member_of L = l.

(** No member has this score and this element. *)
Definition absent (sc : score) (e : list Z) (l : list member) : Prop :=
  Forall (fun m => ~ (key m.1 = key sc /\ m.2 = e)) l.

Lemma member_lt_spec a b : member_lt (member_of a) (member_of b) = true <-> entry_lt a b.
Proof.
  unfold member_lt, entry_lt, score_lt, score_eq, member_of. cbn [fst snd]. rewrite orb_true_iff, andb_true_iff, Z.ltb_lt, Z.eqb_eq.
  destruct (lex (e_ele a) (e_ele b)); split; (intros [?|[? ?]]; [by left|by right]).
Qed.

Lemma entry_lt_total a b : ~ entry_lt a b -> ~ (key (e_score a) = key (e_score b) /\ e_ele a = e_ele b) -> entry_lt b a.
Proof.
  unfold entry_lt. intros Hn Hne. destruct (Z.lt_total (key (e_score a)) (key (e_score b))) as [?|[Hk|?]]; [tauto| |tauto].
  right. split; [done|]. rewrite lex_antisym. destruct (lex (e_ele a) (e_ele b)) eqn:El; [|tauto|done].
  apply lex_same in El. tauto.
Qed.

Lemma entry_lt_key a p p' sc e k k' : entry_lt a (mkEntry p sc e k) -> entry_lt a (mkEntry p' sc e k').
Proof. done. Qed.

Lemma sorted_between (P Q : list entry) x : StronglySorted entry_lt (P ++ Q) -> Forall (fun a => entry_lt a x) P ->
  Forall (entry_lt x) Q -> StronglySorted entry_lt (P ++ x :: Q).
Proof.
  intros Hs HP HQ. induction P as [|a P IH]; cbn [app] in *; [by constructor|]. apply Forall_cons in HP as [Ha HP].
  apply StronglySorted_inv in Hs as [Hs Hall]. constructor; [by apply IH|]. rewrite Forall_app in Hall |- *. destruct Hall.
  split; [done|by constructor].
Qed.

(** Entries that are not before a new one, and not equal to it, are after. *)
Lemma split_at (L : list entry) sc e : StronglySorted entry_lt L -> absent sc e (map member_of L) ->
  exists P Q, L = P ++ Q /\ forall p k, let x := mkEntry p sc e k in
    Forall (fun a => entry_lt a x) P /\ Forall (entry_lt x) Q.
Proof.
  intros Hs Hab. set (x0 := mkEntry 0%nat sc e 0%nat).
  destruct (sorted_cut entry_lt (fun a => member_lt (member_of a) (member_of x0)) L Hs) as (P & Q & -> & HP & HQ).
  { intros a b Hab' Hb. apply member_lt_spec in Hb. apply member_lt_spec. by eapply entry_lt_trans. }
  exists P, Q. split; [done|]. intros p k x. split.
  - eapply Forall_impl; [exact HP|]. intros a Ha. by apply member_lt_spec in Ha.
  - apply Forall_forall. intros a Ha. rewrite Forall_forall in HQ. specialize (HQ a Ha). cbn in HQ.
    unfold absent in Hab. rewrite Forall_forall in Hab. apply (entry_lt_total a x).
    + intros Hlt. apply (entry_lt_key a p 0%nat sc e k 0%nat) in Hlt. apply member_lt_spec in Hlt. exact (eq_true_false_abs _ Hlt HQ).
    + apply (Hab (member_of a)). apply list_elem_of_fmap_2. apply elem_of_app. by right.
Qed.

Lemma ordered_insert_between P Q x : Forall (fun a => entry_lt a x) P -> Forall (entry_lt x) Q ->
  ordered_insert (member_of x) (map member_of (P ++ Q)) = map member_of (P ++ x :: Q).
Proof.
  intros HP HQ. induction P as [|a P IH]; cbn [app map].
  - destruct Q as [|a Q]; cbn [map ordered_insert]; [done|]. apply Forall_cons in HQ as [Ha _].
    destruct (member_lt _ _) eqn:E; [|done]. apply member_lt_spec in E. exfalso.
    assert (Hxx := entry_lt_trans _ _ _ Ha E). unfold entry_lt in Hxx. rewrite lex_refl in Hxx. destruct Hxx as [?|[_ ?]]; [lia|done].
  - apply Forall_cons in HP as [Ha HP]. cbn [ordered_insert]. rewrite (proj2 (member_lt_spec a x) Ha). f_equal. by apply IH.
Qed.

(** The new node has an address that was not in use, and the draws used are
    removed. *)
Lemma zslInsert_spec (z : zskiplist) l sc e draws lev draws' : zsl_ok z l -> zlen l + 1 < 2 ^ 32 -> zlen e < 2 ^ 31 ->
  zslRandomLevel draws = Some (lev, draws') -> absent sc e l ->
  exists z' p, zslInsert junk z sc e draws = Some (z', p, draws') /\ heap z !! p = None /\
    zsl_ok z' (ordered_insert (sc, e) l) /\
    (fun n => (node_score n, ele n, length (level n))) <$> heap z' !! p = Some (sc, Some e, lev).
Proof.
  intros (L & Hr & Htop & <-) Hlen He Hlev Hab. rewrite length_map in Hlen.
  destruct (split_at L sc e (rep_sorted _ _ Hr) Hab) as (P & Q & -> & HPQ).
  destruct (zslInsert_between z P Q sc e draws lev draws') as (z' & p & Hrun & Hp & Hr' & Htop' & _); try done.
  - intros p. destruct (HPQ p lev). apply sorted_between; [by apply (rep_sorted _ _ Hr)|done|done].
  - destruct (HPQ 0%nat lev) as [HP HQ]. apply (divides_before z P Q sc e 0%nat lev); [done|done|done|].
    eapply Forall_impl; [exact HQ|]. intros a Ha Ha'. assert (Hxx := entry_lt_trans _ _ _ Ha Ha'). unfold entry_lt in Hxx.
    rewrite lex_refl in Hxx. destruct Hxx as [?|[_ ?]]; [lia|done].
  - exists z', p. split; [done|]. split; [done|]. destruct (HPQ p lev) as [HP HQ]. split.
    + exists (P ++ mkEntry p sc e lev :: Q). split; [done|]. split; [done|].
      change (sc, e) with (member_of (mkEntry p sc e lev)). by rewrite ordered_insert_between.
    + assert (Hn := rep_nodes z' _ P _ Q Hr' eq_refl). cbn [e_ptr] in Hn. rewrite Hn. cbn.
      by rewrite length_map, length_seq.
Qed.

End Insert.
