(* ===== verification/ZslDelete.v ===== *)
(** t_zset.c: creation of a skiplist and deletion of its nodes. *)

From stdpp Require Import gmap.
From S2P Require Import Prelude Sds SdsString Zskiplist ZslSpec ZslInsert.
#[local] Open Scope Z_scope.

Section Create.
  Context {score : Type} `{Score score}.
  Context (junk : nat -> option nodeptr * Z).
  Abbreviation zskiplist := (zskiplist (score := score)).
  Abbreviation entry := (entry (score := score)).

(** ** The empty list *)

Lemma zslCreate_spec : exists z, zslCreate junk = Some z /\ zsl_ok z [].
Proof.
  exists (mkZsl {[0%nat := mkNode None zero None (replicate 32 (None, 0))]} 0%nat None 0 1). split; [reflexivity|].
  exists []. split; [|split; [by left|done]].
  assert (Hlev : forall i : nat, (i < 32)%nat -> replicate 32 (@None nodeptr, 0) !! i = Some (None, 0)) by (intros; by apply lookup_replicate_2).
  split; cbn [header tail length_ zlevel]; try done.
  - by exists zero, None.
  - intros i Hi. exists 0. unfold get_level, node. cbn [heap]. rewrite lookup_singleton_eq. cbn [mbind option_bind level].
    apply Hlev. unfold ZSKIPLIST_MAXLEVEL in Hi. lia.
  - apply NoDup_singleton.
  - intros [|? ?]; discriminate.
  - intros A B i Heq. symmetry in Heq. apply app_eq_nil in Heq as [-> ->]. intros [[_ Hi]|(A' & e & E & _)].
    + unfold get_level, node, at_end. cbn [last fmap option_fmap option_map default heap]. rewrite lookup_singleton_eq.
      cbn [mbind option_bind level link zlevel] in *. apply Hlev. lia.
    + by destruct A'.
  - unfold ZSKIPLIST_MAXLEVEL. lia.
  - constructor.
Qed.

End Create.

Section Delete.
  Context {score : Type} `{Score score}.
  Abbreviation zskiplist := (zskiplist (score := score)).
  Abbreviation entry := (entry (score := score)).

(** ** Unlinking *)

Lemma unlink_levels_spec x update n : forall i (z : zskiplist) (u : nat -> nodeptr) (f xf : nat -> option nodeptr) (s xs : nat -> Z),
  (forall k, (i <= k < i + n)%nat -> (exists r, update !! k = Some (u k, r)) /\ u k <> x /\ get_level z (u k) k = Some (f k, s k) /\
     (f k = Some x -> get_level z x k = Some (xf k, xs k))) ->
  exists z', unlink_levels n i z x update = Some z' /\ same_frame z z' /\
    forall q k, get_level z' q k =
      if bool_decide (i <= k < i + n)%nat && bool_decide (q = u k) then
        if decide (f k = Some x) then Some (xf k, u32 (s k + u32 (xs k - 1))) else Some (f k, u32 (s k - 1))
      else get_level z q k.
Proof.
  induction n as [|n IH]; intros i z u f xf s xs Hk.
  { exists z. split; [done|]. split; [by split|]. intros q k. by rewrite bool_decide_eq_false_2 by lia. }
  destruct (Hk i ltac:(lia)) as ([r Hu] & Hux & Hg & Hx). cbn [unlink_levels]. rewrite Hu. cbn [mbind option_bind]. rewrite Hg. cbn [mbind option_bind].
  set (l := if decide (f i = Some x) then (xf i, u32 (s i + u32 (xs i - 1))) else (f i, u32 (s i - 1))).
  destruct (set_level_spec z (u i) i _ l Hg) as (z1 & Hset & Hf1 & Hl1).
  assert (Hrun : (if decide (f i = Some x) then '(xforward, xspan) ← get_level z x i; set_level z (u i) i (xforward, u32 (s i + u32 (xspan - 1)))
    else set_level z (u i) i (f i, u32 (s i - 1))) = Some z1).
  { unfold l in Hset. destruct (decide (f i = Some x)) as [E|E]; [|done]. rewrite (Hx E). done. }
  rewrite Hrun. cbn [mbind option_bind].
  destruct (IH (S i) z1 u f xf s xs) as (z' & Hrun' & Hf' & Hl').
  { intros k Hki. destruct (Hk k ltac:(lia)) as (A1 & A2 & A3 & A4). split; [done|]. split; [done|].
    rewrite !Hl1, !(bool_decide_eq_false_2 (k = i)), !andb_false_r by lia. done. }
  exists z'. split; [done|]. split; [destruct Hf1, Hf'; split; congruence || intros p; etransitivity; eauto|]. intros q k. rewrite Hl', Hl1.
  destruct (decide (k = i)) as [->|Hki].
  - rewrite (bool_decide_eq_false_2 (S i <= i < _)%nat), (bool_decide_eq_true_2 (i <= i < _)%nat), (bool_decide_eq_true_2 (i = i)) by lia.
    rewrite andb_true_r. cbn [andb]. unfold l. by destruct (bool_decide _), (decide _).
  - rewrite (bool_decide_eq_false_2 (k = i)), andb_false_r by done.
    rewrite (bool_decide_ext (i <= k < i + S n)%nat (S i <= k < S i + n)%nat) by lia. done.
Qed.

(** Where the levels lead once [e] is out of them. *)
Record unlinked (z z' : zskiplist) (P Q : list entry) : Prop := {
  unlinked_before : forall A B k, P = A ++ B -> reaches z k A -> get_level z' (at_end (header z) A) k = Some (link k (B ++ Q));
  unlinked_after : forall q k, (zlevel z <= k)%nat \/ q ∉ header z :: map e_ptr P -> get_level z' q k = get_level z q k
}.

(** Every entry of update is the last node before [e] on its level. *)
Definition points_before (z : zskiplist) (P : list entry) (update : list (nodeptr * Z)) : Prop :=
  forall k, (k < zlevel z)%nat -> exists r, update !! k = Some (at_end (header z) (cut k P), r).

Lemma unlink_links (z : zskiplist) P e Q update : rep z (P ++ e :: Q) -> zlen (P ++ e :: Q) < 2 ^ 32 ->
  points_before z P update ->
  exists z', unlink_levels (zlevel z) 0 z (e_ptr e) update = Some z' /\ same_frame z z' /\ unlinked z z' P Q.
Proof.
  intros Hr Hlen Hup. set (h := header z) in *. set (x := e_ptr e) in *. set (u := fun k => at_end h (cut k P)).
  assert (Hnd : NoDup (h :: map e_ptr (P ++ e :: Q))) by apply (rep_ptrs _ _ Hr).
  assert (Hux : forall k, u k <> x).
  { intros k Heq. apply (after_not_before h P [] e Q Hnd). change (x ∈ h :: map e_ptr P). rewrite <-Heq.
    eapply at_end_prefix, rest_spec. }
  assert (HxQ : x ∉ map e_ptr Q).
  { intros Hin. apply NoDup_cons in Hnd as [_ Hnd]. rewrite map_app in Hnd. apply NoDup_app in Hnd as (_ & _ & Hnd).
    cbn [map] in Hnd. by apply NoDup_cons in Hnd as [Hnd _]. }
  rewrite zlen_app in Hlen. cbn [length] in Hlen.
  destruct (unlink_levels_spec x update (zlevel z) 0 z u (fun k => (link k (rest k P ++ e :: Q)).1) (fun k => (link k Q).1)
    (fun k => (link k (rest k P ++ e :: Q)).2) (fun k => (link k Q).2)) as (z' & Hrun & Hf & Hg).
  { intros k Hk. split; [apply Hup; lia|]. split; [done|]. split.
    - rewrite <-surjective_pairing. apply rep_update; [done|lia].
    - intros Hx. rewrite link_low in Hx by apply rest_spec. cbn [fst] in Hx. destruct (decide (k < e_height e)%nat) as [He|He].
      + rewrite <-surjective_pairing. change x with (e_ptr e). rewrite <-(at_end_snoc h P e). apply (rep_links _ _ Hr (P ++ [e]) Q k).
        * by rewrite <-app_assoc.
        * right. by exists P, e.
      + exfalso. cbn [link] in Hx. rewrite (proj2 (Nat.ltb_ge _ _)) in Hx by lia. destruct (link k Q) as [f s] eqn:El. cbn [fst] in Hx.
        apply HxQ. apply (link_in k). by rewrite El. }
  exists z'. split; [done|]. split; [done|]. split.
  - intros A B k HAB Ha. change (header z) with h. rewrite Hg.
    assert (Hk : (k < zlevel z)%nat).
    { eapply reaches_bound; [|exact Ha]. rewrite HAB, <-app_assoc in Hr. exact Hr. }
    rewrite (bool_decide_eq_true_2 (0 <= k < _)%nat) by lia. cbn [andb].
    destruct (reaches_cases z h k P A B (e :: Q)) as [(HB & EA & EB)|[Hne Hloc]]; [done|done|done| |].
    + rewrite (bool_decide_eq_true_2 (at_end h A = u k)) by (unfold u; by rewrite EA).
      destruct (rest_length k P) as [_ Hrl]. assert (Hb := link_bounds k Q). rewrite EB in *. rewrite !link_low by done. cbn [fst snd].
      destruct (decide (k < e_height e)%nat) as [He|He].
      * rewrite link_here by done. cbn [fst snd]. rewrite decide_True by done. do 2 f_equal. mlia.
      * cbn [link]. rewrite (proj2 (Nat.ltb_ge _ _)) by lia. destruct (link k Q) as [f s] eqn:El. cbn [fst snd] in *.
        rewrite decide_False; [do 2 f_equal; rewrite u32_small; lia|]. intros ->. apply HxQ, (link_in k). by rewrite El.
    + rewrite (bool_decide_eq_false_2 (at_end h A = u k)) by done. rewrite (Hloc Q (e :: Q)). change h with (header z).
      apply (rep_links _ _ Hr); [by rewrite HAB, <-app_assoc|done].
  - intros q k Hcase. rewrite Hg. destruct Hcase as [Hk|Hin]; [by rewrite (bool_decide_eq_false_2 (0 <= k < _)%nat) by lia|].
    rewrite (bool_decide_eq_false_2 (q = u k)); [by rewrite andb_false_r|]. intros ->. apply Hin.
    eapply at_end_prefix, rest_spec.
Qed.

(** ** The entries after a deletion *)

Lemma at_end_after h (P : list entry) e K y : at_end h (P ++ e :: K ++ [y]) = e_ptr y.
Proof. rewrite app_comm_cons, app_assoc. apply at_end_snoc. Qed.

Lemma rep_deleted (z z' : zskiplist) P e Q : rep z (P ++ e :: Q) -> unlinked z z' P Q ->
  (forall y Q', Q = y :: Q' -> shape z' (e_ptr y) = Some (Some (e_ele y), e_score y, e_ptr <$> last P, e_height y)) ->
  (forall p, (forall y Q', Q = y :: Q' -> p <> e_ptr y) -> shape z' p = shape z p) ->
  header z' = header z -> zlevel z' = zlevel z -> tail z' = e_ptr <$> last (P ++ Q) -> length_ z' = zlen (P ++ Q) ->
  rep z' (P ++ Q).
Proof.
  intros Hr [Hbefore Hafter] Hnext Hothers Hh Hz Ht Hl. assert (Hr' := Hr). destruct Hr'.
  assert (Hhead : forall p y Q', p ∈ header z :: map e_ptr (P ++ [e]) -> Q = y :: Q' -> p <> e_ptr y).
  { intros p y Q' Hp -> ->. apply (after_not_before (header z) (P ++ [e]) [] y Q'); [by rewrite <-app_assoc|done]. }
  split; rewrite ?Hh, ?Hz; try done.
  - destruct rep_header as (sc & b & E). exists sc, b. rewrite Hothers; [done|]. intros y Q'. apply Hhead. by left.
  - intros i Hi. rewrite Hafter by (left; lia). by apply rep_above.
  - rewrite map_app in *. cbn [map] in rep_ptrs. rewrite <-Permutation_middle in rep_ptrs.
    apply NoDup_cons in rep_ptrs as [Hh' Hn]. apply NoDup_cons in Hn as [He Hn]. apply NoDup_cons. split; [|done].
    intros Hin. apply Hh'. by right.
  - intros A y B HL. apply app_eq_inv in HL as [(K & -> & HK)|(K & -> & ->)].
    + destruct K as [|y' K]; cbn [app] in HK; [rewrite app_nil_r in Hnext; by eapply Hnext|]. injection HK as <- ->.
      rewrite Hothers; [apply (rep_shapes A y (K ++ e :: Q)); by rewrite <-app_assoc|]. intros y' Q'. apply Hhead.
      right. apply list_elem_of_fmap_2. rewrite <-app_assoc. apply elem_of_app. right. by left.
    + destruct K as [|y0 K _] using rev_ind; [rewrite app_nil_r; by eapply Hnext|].
      assert (E1 : last (P ++ e :: K ++ [y0]) = Some y0) by (rewrite app_comm_cons, app_assoc; apply last_snoc).
      assert (E2 : last (P ++ K ++ [y0]) = Some y0) by (rewrite app_assoc; apply last_snoc). rewrite E2, <-E1, Hothers.
      * apply (rep_shapes (P ++ e :: K ++ [y0]) y B). rewrite <-!app_assoc. cbn [app]. by rewrite <-app_assoc.
      * intros y1 Q1 E Heq. apply (after_not_before (header z) (P ++ e :: K ++ [y0]) [] y B).
        -- rewrite <-!app_assoc. cbn [app]. by rewrite <-!app_assoc in *.
        -- rewrite Heq. right. apply list_elem_of_fmap_2. apply elem_of_app. right. right.
           rewrite <-app_assoc in E. destruct K; cbn [app] in E; injection E as <- _; by left.
  - intros A B i HAB Ha. apply (reaches_same z) in Ha; [|done]. apply app_eq_inv in HAB as [(K & -> & ->)|(K & -> & ->)].
    + by apply Hbefore.
    + destruct K as [|y K _] using rev_ind; [rewrite app_nil_r in *; apply (Hbefore P []); [by rewrite app_nil_r|done]|].
      assert (Hi : (i < e_height y)%nat).
      { destruct Ha as [[E _]|(A' & e' & E & He)]; [by destruct P, K|]. rewrite app_assoc in E. by apply app_inj_tail in E as [_ <-]. }
      rewrite app_assoc, at_end_snoc. rewrite Hafter.
      * rewrite <-(at_end_after (header z) P e K y). apply rep_links; [rewrite <-!app_assoc; cbn [app]; by rewrite <-!app_assoc|].
        right. exists (P ++ e :: K), y. split; [by rewrite <-app_assoc|done].
      * right. apply (after_not_before _ P (e :: K) y B). rewrite <-app_assoc in rep_ptrs. done.
  - rewrite Forall_app in *. destruct rep_entries as [? Ho]. apply Forall_cons in Ho as [_ ?]. done.
  - clear -rep_sorted. induction P as [|a P IH]; cbn [app] in *; apply StronglySorted_inv in rep_sorted as [Hs Hall]; [done|].
    constructor; [by apply IH|]. rewrite Forall_app in *. destruct Hall as [? Ho]. apply Forall_cons in Ho as [_ ?]. done.
Qed.

(** ** Lowering the level *)

Lemma link_none i (l : list entry) : (link i l).1 = None -> low i l.
Proof.
  induction l as [|e l IH]; [constructor|]. cbn [link]. destruct (Nat.ltb_spec i (e_height e)); [done|].
  destruct (link i l) as [f s]. intros E. constructor; [done|by apply IH].
Qed.

Lemma lower_level_spec (z : zskiplist) (L : list entry) k : (forall i, (i < k)%nat -> get_level z (header z) i = Some (link i L)) -> (1 <= k)%nat ->
  exists k', lower_level k z = Some k' /\ (1 <= k' <= k)%nat /\ (forall i, (k' <= i < k)%nat -> low i L) /\
    (k' = 1%nat \/ ~ low (k' - 1) L).
Proof.
  induction k as [|k IH]; intros Hl Hk; [lia|]. cbn [lower_level]. destruct (Nat.ltb_spec 1 (S k)) as [H1|H1].
  - rewrite Hl by lia. destruct (link k L) as [[p|] s] eqn:El; cbn [mbind option_bind].
    + exists (S k). split; [done|]. split; [lia|]. split; [intros i Hi; lia|]. right. replace (S k - 1)%nat with k by lia. intros Hlow.
      rewrite (link_of_low _ _ Hlow) in El. done.
    + destruct IH as (k' & -> & Hk' & Hlow & Htop); [intros i Hi; apply Hl; lia|lia|]. exists k'. split; [done|]. split; [lia|].
      split; [|done]. intros i Hi. destruct (decide (i = k)) as [->|]; [|apply Hlow; lia]. apply link_none. by rewrite El.
  - exists (S k). split; [done|]. split; [lia|]. split; [intros i Hi; lia|left; lia].
Qed.

Lemma rep_lower (z : zskiplist) L : rep z L ->
  exists k, lower_level (zlevel z) z = Some k /\ rep (set_zlevel k z) L /\ top_ok (set_zlevel k z) L /\ (k <= zlevel z)%nat.
Proof.
  intros Hr. assert (Hz := rep_zlevel _ _ Hr). destruct (lower_level_spec z L (zlevel z)) as (k & -> & Hk & Hlow & Htop); [|lia|].
  { intros i Hi. apply (rep_links _ _ Hr [] L); [done|]. by left. }
  assert (Hok : forall e, e ∈ L -> (e_height e <= k)%nat).
  { intros e He. assert (Hall := rep_low z L Hr). destruct (decide (k = zlevel z)) as [->|Hne].
    - by eapply Forall_forall in Hall.
    - assert (Hl : low k L) by (apply Hlow; lia). by eapply Forall_forall in Hl. }
  exists k. split; [done|]. assert (Hr' := Hr). destruct Hr'. split; [|split; [|lia]].
  - split; cbn [header tail length_ zlevel set_zlevel]; try done.
    + intros i Hi. change (get_level (set_zlevel k z)) with (get_level z). destruct (decide (zlevel z <= i)%nat); [apply rep_above; lia|].
      assert (Hl : get_level z (header z) i = Some (link i L)) by (apply (rep_links [] L i); [done|left; split; [done|lia]]).
      rewrite Hl, link_of_low; [by eexists|]. apply Hlow. lia.
    + intros A B i HAB Ha. apply (rep_links A B i HAB). destruct Ha as [[-> Hi]|Ha]; [left; cbn in Hi; split; [done|lia]|by right].
    + lia.
    + apply Forall_forall. intros e He. rewrite Forall_forall in rep_entries. destruct (rep_entries e He) as [? ?].
      split; [|done]. specialize (Hok e He). lia.
  - destruct Htop as [->|Hn]; [by left|]. right. cbn [zlevel set_zlevel]. destruct (low_or_high (k - 1) L) as [?|(M & e & l & -> & _ & He)]; [done|].
    exists e. assert (Hin : e ∈ M ++ e :: l) by (apply elem_of_app; right; by left). split; [done|]. specialize (Hok e Hin). lia.
Qed.

(** ** zslDeleteNode and zslFreeNode *)

Lemma top_ok_lower (z z' : zskiplist) (L : list entry) : zlevel z' = zlevel z -> top_ok z L -> top_ok z' L.
Proof. unfold top_ok. by intros ->. Qed.

Lemma shape_node (z : zskiplist) p sc : shape z p = Some sc -> is_Some (node z p).
Proof. unfold shape. destruct (node z p); [by eexists|done]. Qed.

Lemma lower_level_set_length k n (z : zskiplist) : lower_level k (set_length n z) = lower_level k z.
Proof.
  induction k as [|k IH]; [done|]. cbn [lower_level]. change (get_level (set_length n z)) with (get_level z). cbn [header set_length].
  by rewrite IH.
Qed.

Lemma zslDeleteNode_spec (z : zskiplist) P e Q update : rep z (P ++ e :: Q) -> zlen (P ++ e :: Q) < 2 ^ 32 ->
  points_before z P update ->
  exists z', zslDeleteNode z (e_ptr e) update = Some z' /\ rep z' (P ++ Q) /\ top_ok z' (P ++ Q) /\
    header z' = header z /\ (zlevel z' <= zlevel z)%nat /\ is_Some (node z' (e_ptr e)).
Proof.
  intros Hr Hlen Hup. destruct (unlink_links z P e Q update Hr Hlen Hup) as (z1 & Hrun & Hf1 & [Hbefore Hafter]).
  unfold zslDeleteNode. rewrite Hrun. cbn [mbind option_bind]. destruct Hf1 as [Fh Ft Fl Fz Fs].
  assert (Hxs := rep_shapes _ _ Hr P e Q eq_refl).
  assert (Hnd := rep_ptrs _ _ Hr).
  assert (Hx0 : get_level z1 (e_ptr e) 0 = Some (link 0 Q)).
  { rewrite Hafter by (right; by apply (after_not_before _ P [] e Q)). rewrite <-(at_end_snoc (header z) P e).
    apply (rep_links _ _ Hr (P ++ [e]) Q 0); [by rewrite <-app_assoc|]. right. exists P, e. split; [done|].
    assert (Ho := rep_entries _ _ Hr). rewrite Forall_app in Ho. destruct Ho as [_ Ho]. apply Forall_cons_1 in Ho as [[[? _] _] _]. lia. }
  rewrite Hx0. destruct (link 0 Q) as [f s] eqn:El. cbn [mbind option_bind].
  assert (Ef := link_0 z (P ++ [e]) Q). rewrite El, <-app_assoc in Ef. cbn [app fst] in Ef. rewrite (Ef Hr). clear Ef.
  destruct (node z1 (e_ptr e)) as [n|] eqn:En; [|apply shape_node in Hxs as [? Hn]; specialize (Fs (e_ptr e)); unfold shape in Fs; by rewrite Hn, En in Fs].
  assert (Hb : backward n = e_ptr <$> last P).
  { specialize (Fs (e_ptr e)). rewrite Hxs in Fs. unfold shape in Fs. rewrite En in Fs. cbn in Fs. by injection Fs. }
  cbn [mbind option_bind]. rewrite Hb.
  assert (Hfin : exists z2, match e_ptr <$> head Q with Some y => set_backward z1 y (e_ptr <$> last P) | None => Some (set_tail (e_ptr <$> last P) z1) end = Some z2 /\
    rep (set_length (u64 (length_ z2 - 1)) z2) (P ++ Q) /\ zlevel z2 = zlevel z /\ header z2 = header z /\ is_Some (node z2 (e_ptr e))).
  { assert (Hl1 : u64 (zlen (P ++ e :: Q) - 1) = zlen (P ++ Q)) by (rewrite !zlen_app in *; cbn [length] in *; rewrite u64_small; lia).
    destruct Q as [|y Q]; cbn [head fmap option_fmap option_map].
    - eexists. split; [done|]. split; [|cbn; split; [done|split; [done|by eexists]]].
      apply (rep_deleted z _ P e []); cbn [header tail length_ zlevel set_length set_tail]; try done; try congruence.
      + intros p _. exact (Fs p).
      + by rewrite app_nil_r.
      + rewrite Fl, (rep_length _ _ Hr). exact Hl1.
    - assert (Hys := Fs (e_ptr y)). rewrite (rep_shapes _ _ Hr (P ++ [e]) y Q) in Hys by by rewrite <-app_assoc. rewrite last_snoc in Hys.
      destruct (set_backward_spec z1 (e_ptr y) (e_ptr <$> last P) _ Hys) as (z2 & -> & Bh & Bt & Bl & Bz & Bg & By & Bo).
      eexists. split; [done|]. split; [|split; [congruence|split; [congruence|]]].
      + apply (rep_deleted z _ P e (y :: Q)); cbn [header tail length_ zlevel set_length]; try done; try congruence.
        * split; intros; change (get_level (set_length ?n z2)) with (get_level z2); rewrite Bg; auto.
        * intros y' Q' [= <- <-]. exact By.
        * intros p Hp. change (shape z2 p = shape z p). rewrite Bo, Fs; [done|by eapply Hp].
        * rewrite Bt, Ft, (rep_tail _ _ Hr), !last_app_cons. done.
        * rewrite Bl, Fl, (rep_length _ _ Hr). exact Hl1.
      + apply (shape_node z2 (e_ptr e) (Some (e_ele e), e_score e, e_ptr <$> last P, e_height e)). rewrite Bo, Fs; [done|].
        intros Heq. apply (after_not_before (header z) (P ++ [e]) [] y Q); [by rewrite <-app_assoc|]. rewrite <-Heq. right.
        apply list_elem_of_fmap_2. apply elem_of_app. right. by left. }
  destruct Hfin as (z2 & -> & Hr2 & Hz2 & Hh2 & Hn2). cbn [mbind option_bind].
  destruct (rep_lower _ _ Hr2) as (k & Hk & Hr' & Htop & Hle). cbn [zlevel set_length] in Hk, Hle.
  rewrite lower_level_set_length in Hk. rewrite Hk. cbn [mbind option_bind]. eexists. split; [done|].
  split; [exact Hr'|]. split; [exact Htop|]. cbn [header zlevel set_zlevel set_length]. split; [congruence|]. split; [congruence|done].
Qed.

Lemma zslFreeNode_spec (z : zskiplist) L p : rep z L -> p ∉ header z :: map e_ptr L -> is_Some (node z p) ->
  exists z', zslFreeNode z p = Some z' /\ rep z' L /\ header z' = header z /\ zlevel z' = zlevel z /\ heap z' = delete p (heap z).
Proof.
  intros Hr Hp [n Hn]. unfold zslFreeNode. rewrite Hn. cbn [mbind option_bind]. eexists. split; [done|]. split; [|done].
  assert (Hnode : forall q, q ∈ header z :: map e_ptr L -> node (set_heap (delete p (heap z)) z) q = node z q).
  { intros q Hq. unfold node. cbn [heap set_heap]. rewrite lookup_delete_ne; [done|]. by intros ->. }
  assert (Hr' := Hr). destruct Hr'. split; cbn [header tail length_ zlevel set_heap]; try done; unfold shape, get_level in *.
  - rewrite Hnode by (by left). done.
  - intros i Hi. rewrite Hnode by (by left). by apply rep_above.
  - intros A e B HL. rewrite Hnode; [by apply (rep_shapes A e B)|]. right. apply list_elem_of_fmap_2. rewrite HL.
    apply elem_of_app. right. by left.
  - intros A B i HL Ha. rewrite Hnode by (by eapply at_end_prefix). by apply (rep_links A B i).
Qed.

Lemma removed_not_in (z : zskiplist) P e Q : rep z (P ++ e :: Q) -> e_ptr e ∉ header z :: map e_ptr (P ++ Q).
Proof.
  intros Hr. assert (Hn := rep_ptrs _ _ Hr). rewrite map_app in *. cbn [map] in Hn. rewrite <-Permutation_middle in Hn.
  change (header z :: e_ptr e :: ?X) with ([header z] ++ e_ptr e :: X) in Hn. rewrite <-Permutation_middle in Hn.
  by apply NoDup_cons in Hn as [? _].
Qed.

(** ** zslFree *)

Lemma free_loop_spec (z : zskiplist) Q : forall P (h : gmap nodeptr (zskiplistNode (score := score))), rep z (P ++ Q) ->
  (forall p, p ∈ map e_ptr Q -> h !! p = heap z !! p) ->
  exists h', free_loop (length Q) h (e_ptr <$> head Q) = Some h' /\
    forall p, h' !! p = if bool_decide (p ∈ map e_ptr Q) then None else h !! p.
Proof.
  induction Q as [|e Q IH]; intros P h Hr Hh; cbn [head fmap option_fmap option_map length free_loop].
  { exists h. split; [done|]. intros p. by rewrite bool_decide_eq_false_2 by (apply not_elem_of_nil). }
  assert (Hr2 : rep z ((P ++ [e]) ++ Q)) by by rewrite <-app_assoc.
  rewrite Hh by (by left). rewrite (rep_nodes z _ P e Q Hr eq_refl). cbn [mbind option_bind node_of level].
  assert (Ho := rep_entries _ _ Hr). rewrite Forall_app in Ho. destruct Ho as [_ Ho]. apply Forall_cons_1 in Ho as [[[He _] _] _].
  rewrite list_lookup_fmap, lookup_seq_lt by lia. cbn [fmap option_fmap option_map Nat.add]. assert (Ef := link_0 z (P ++ [e]) Q Hr2).
  destruct (link 0 Q) as [f s]. cbn [fst] in Ef. subst f. cbn [mbind option_bind].
  assert (Hne : e_ptr e ∉ map e_ptr Q).
  { assert (Hn := rep_ptrs _ _ Hr). apply NoDup_cons in Hn as [_ Hn]. rewrite map_app in Hn. apply NoDup_app in Hn as (_ & _ & Hn).
    by apply NoDup_cons in Hn as [? _]. }
  destruct (IH (P ++ [e]) (delete (e_ptr e) h) Hr2) as (h' & Hrun & Hh').
  { intros p Hp. rewrite lookup_delete_ne by (intros <-; done). apply Hh. by right. }
  exists h'. split; [done|]. intros p. rewrite Hh'. destruct (decide (p = e_ptr e)) as [->|Hp].
  - rewrite bool_decide_eq_false_2, bool_decide_eq_true_2 by (done || by left). apply lookup_delete_eq.
  - rewrite lookup_delete_ne by done. cbn [map]. by rewrite (bool_decide_ext (p ∈ map e_ptr Q) (p ∈ e_ptr e :: map e_ptr Q)) by (rewrite elem_of_cons; tauto).
Qed.

(** zslFree frees the header and the nodes of the members, each once, and no
    other. *)
Lemma zslFree_spec (z : zskiplist) L : rep z L ->
  exists h, zslFree z = Some h /\ forall p, h !! p = if bool_decide (p ∈ header z :: map e_ptr L) then None else heap z !! p.
Proof.
  intros Hr. unfold zslFree. assert (Hz := rep_zlevel _ _ Hr).
  assert (Hg : get_level z (header z) 0 = Some (link 0 L)) by (apply (rep_links _ _ Hr [] L 0); [done|left; split; [done|lia]]).
  rewrite Hg. clear Hg.
  assert (Ef := link_0 z [] L Hr). destruct (link 0 L) as [f s]. cbn [fst] in Ef. subst f. cbn [mbind option_bind].
  rewrite (rep_length _ _ Hr), Nat2Z.id. assert (Hn := rep_ptrs _ _ Hr). apply NoDup_cons in Hn as [Hn _].
  destruct (free_loop_spec z L [] (delete (header z) (heap z)) Hr) as (h & Hrun & Hh).
  { intros p Hp. rewrite lookup_delete_ne; [done|]. by intros <-. }
  exists h. split; [done|]. intros p. rewrite Hh. destruct (decide (p = header z)) as [->|Hp].
  - rewrite bool_decide_eq_false_2, bool_decide_eq_true_2 by (done || by left). apply lookup_delete_eq.
  - rewrite lookup_delete_ne by done. by rewrite (bool_decide_ext (p ∈ map e_ptr L) (p ∈ header z :: map e_ptr L)) by (rewrite elem_of_cons; tauto).
Qed.

(** ** zslDelete *)

Definition is_member (sc : score) (e : list Z) (m : score * list Z) : bool := score_eq m.1 sc && bool_decide (m.2 = e).

(** The members but the one of this score and element. *)
Definition removed (sc : score) (e : list Z) (l : list (score * list Z)) : list (score * list Z) :=
  List.filter (fun m => negb (is_member sc e m)) l.

Lemma is_member_false sc e m : ~ (key m.1 = key sc /\ m.2 = e) -> is_member sc e m = false.
Proof.
  intros Hn. unfold is_member, score_eq. destruct (Z.eqb_spec (key m.1) (key sc)); [|done]. case_bool_decide; [|done]. by destruct Hn.
Qed.

Lemma removed_absent sc e l : absent sc e l -> removed sc e l = l.
Proof.
  induction 1 as [|m l Hm Hl IH]; [done|]. cbn [removed List.filter]. rewrite is_member_false by done. cbn [negb]. by f_equal.
Qed.

Lemma removed_app sc e l l' : removed sc e (l ++ l') = removed sc e l ++ removed sc e l'.
Proof. apply List.filter_app. Qed.

(** Entries on either side of a place are not the member at the place. *)
Lemma absent_before (P : list entry) sc e : Forall (fun a => entry_lt a (mkEntry 0%nat sc e 0%nat)) P -> absent sc e (map member_of P).
Proof.
  intros HP. unfold absent. rewrite Forall_map. eapply Forall_impl; [exact HP|]. intros a [Ha|[Ha1 Ha2]]; cbn in *; intros [E1 E2]; [lia|].
  by rewrite E2, lex_refl in Ha2.
Qed.

Lemma absent_after (Q : list entry) x : Forall (entry_lt x) Q -> absent (e_score x) (e_ele x) (map member_of Q).
Proof.
  intros HQ. unfold absent. rewrite Forall_map. eapply Forall_impl; [exact HQ|]. intros a [Ha|[Ha1 Ha2]]; cbn in *; intros [E1 E2]; [lia|].
  by rewrite E2, lex_refl in Ha2.
Qed.

Lemma sorted_app_inv (P Q : list entry) : StronglySorted entry_lt (P ++ Q) -> StronglySorted entry_lt Q.
Proof. induction P as [|a P IH]; cbn [app]; [done|]. intros Hs. apply StronglySorted_inv in Hs as [Hs _]. by apply IH. Qed.

(** The place of a score and element among the entries. *)
Lemma cut_before (L : list entry) sc e : StronglySorted entry_lt L ->
  exists P Q, L = P ++ Q /\ Forall (fun a => entry_lt a (mkEntry 0%nat sc e 0%nat)) P /\
    Forall (fun a => ~ entry_lt a (mkEntry 0%nat sc e 0%nat)) Q.
Proof.
  intros Hs. destruct (sorted_cut entry_lt (fun a => member_lt (member_of a) (sc, e)) L Hs) as (P & Q & -> & HP & HQ).
  { intros a b Hab' Hb. change (sc, e) with (member_of (mkEntry 0%nat sc e 0%nat)) in *. apply member_lt_spec in Hb.
    apply member_lt_spec. by eapply entry_lt_trans. }
  exists P, Q. split; [done|]. split.
  - eapply Forall_impl; [exact HP|]. intros a Ha. by apply member_lt_spec.
  - eapply Forall_impl; [exact HQ|]. intros a Ha Hlt. apply member_lt_spec in Hlt. change (member_of (mkEntry 0%nat sc e 0%nat)) with (sc, e) in Hlt.
    cbn in Ha. congruence.
Qed.

(** The first node that the search leaves after it. *)
Lemma search_next (z : zskiplist) P Q test : rep z (P ++ Q) -> divides test P Q ->
  exists update s, search z test = Some update /\ points_before z P update /\
    update !! 0%nat = Some (at_end (header z) P, zlen P) /\ get_level z (at_end (header z) P) 0 = Some (e_ptr <$> head Q, s).
Proof.
  intros Hr Hd. exists (updates z P (zlevel z)), (link 0 Q).2. rewrite (zsl_search_spec z _ _ P Q Hr eq_refl Hd). split; [done|].
  assert (Hz := rep_zlevel _ _ Hr). split; [intros k Hk; rewrite updates_lookup by done; by eexists|]. split.
  - rewrite updates_lookup, (cut_0 z P Q) by (done || lia). done.
  - rewrite <-(link_0 z P Q Hr), <-surjective_pairing. apply (rep_links _ _ Hr P Q 0); [done|].
    destruct P as [|e P _] using rev_ind; [left; split; [done|lia]|]. right. exists P, e. split; [done|].
    assert (Ho := rep_entries _ _ Hr). rewrite !Forall_app in Ho. destruct Ho as [[_ Ho] _]. apply Forall_cons_1 in Ho as [[[? _] _] _]. lia.
Qed.

Lemma zslDelete_spec (z : zskiplist) l sc e keep : zsl_ok z l -> zlen l < 2 ^ 32 -> zlen e < 2 ^ 31 ->
  exists z' r, zslDelete z sc e keep = Some (z', r) /\ zsl_ok z' (removed sc e l) /\
    match r with
    | None => z' = z /\ absent sc e l
    | Some x => (exists n, heap z !! x = Some n /\ ele n = Some e /\ key (node_score n) = key sc) /\
        length l = S (length (removed sc e l)) /\ (if keep then is_Some (heap z' !! x) else heap z' !! x = None)
    end.
Proof.
  intros (L & Hr & Htop & <-) Hlen He. rewrite length_map in Hlen.
  destruct (cut_before L sc e (rep_sorted _ _ Hr)) as (P & Q & -> & HP & HQ).
  destruct (search_next z P Q (before sc e) Hr) as (update & s & Hs & Hup & Hu0 & Hg); [by apply (divides_before z P Q sc e 0%nat 0%nat)|].
  unfold zslDelete. rewrite Hs. cbn [mbind option_bind]. rewrite Hu0. cbn [mbind option_bind]. rewrite Hg. cbn [mbind option_bind].
  assert (HabP := absent_before P sc e HP). destruct Q as [|y Q]; cbn [head fmap option_fmap option_map].
  { rewrite app_nil_r in *. exists z, None. split; [done|]. rewrite removed_absent by done. split; [by exists P|done]. }
  assert (Hy := rep_nodes z _ P y Q Hr eq_refl). unfold node at 1. rewrite Hy. cbn [mbind option_bind].
  assert (Ho := rep_entries _ _ Hr). rewrite Forall_app in Ho. destruct Ho as [_ Ho]. apply Forall_cons_1 in Ho as [[_ Hyl] _].
  assert (Hcmp := content_cmp_lex (e_ele y) e Hyl He). unfold node_cmp, node_of. cbn [node_score ele].
  assert (HyQ : Forall (entry_lt y) Q) by (apply StronglySorted_inv, (sorted_app_inv P), (rep_sorted _ _ Hr)).
  destruct (score_eq sc (e_score y) && (content_cmp (e_ele y) e =? 0)) eqn:Eq.
  - apply andb_true_iff in Eq as [Ek Ec]. unfold score_eq in Ek. rewrite Z.eqb_eq in Ek, Ec. rewrite Ec in Hcmp. symmetry in Hcmp. apply lex_same in Hcmp.
    destruct (zslDeleteNode_spec z P y Q update Hr Hlen Hup) as (z1 & -> & Hr1 & Htop1 & Hh1 & _ & Hn1). cbn [mbind option_bind].
    assert (Hrem : removed sc e (map member_of (P ++ y :: Q)) = map member_of (P ++ Q)).
    { rewrite !map_app, removed_app, removed_absent by done. f_equal. cbn [map removed List.filter].
      unfold is_member at 1, score_eq. cbn [fst snd member_of]. rewrite <-Ek, Z.eqb_refl, bool_decide_eq_true_2 by done. cbn [andb negb].
      apply removed_absent. assert (Ha := absent_after Q y HyQ). rewrite Hcmp in Ha. unfold absent in *. rewrite <-Ek in Ha. done. }
    assert (Hx : e_ptr y ∉ header z1 :: map e_ptr (P ++ Q)) by (rewrite Hh1; by apply (removed_not_in z)).
    assert (Hout : exists z', (if keep then Some z1 else zslFreeNode z1 (e_ptr y)) = Some z' /\ rep z' (P ++ Q) /\ top_ok z' (P ++ Q) /\
      if keep then is_Some (heap z' !! e_ptr y) else heap z' !! e_ptr y = None).
    { destruct keep; [by exists z1|]. destruct (zslFreeNode_spec z1 _ _ Hr1 Hx Hn1) as (z2 & -> & Hr2 & _ & Hz2 & Hh2). exists z2.
      split; [done|]. split; [done|]. split; [by eapply top_ok_lower|]. rewrite Hh2. apply lookup_delete_eq. }
    destruct Hout as (z' & -> & Hr' & Htop' & Hk). cbn [mbind option_bind]. exists z', (Some (e_ptr y)). split; [done|].
    rewrite Hrem. split; [by exists (P ++ Q)|]. split; [|split; [|done]].
    + exists (node_of P y Q). split; [done|]. cbn. split; [by rewrite Hcmp|done].
    + rewrite !length_map, !length_app. cbn [length]. lia.
  - assert (Hab : absent sc e (map member_of (P ++ y :: Q))).
    { rewrite map_app. apply Forall_app. split; [done|]. apply (absent_after (y :: Q) (mkEntry 0%nat sc e 0%nat)).
      assert (Hxy : entry_lt (mkEntry 0%nat sc e 0%nat) y).
      { apply Forall_cons in HQ as [HQ _]. apply entry_lt_total; [done|]. cbn [e_score e_ele]. intros [E1 E2]. rewrite E2 in Hcmp, Eq. rewrite lex_refl in Hcmp.
        apply Z.compare_eq in Hcmp. rewrite Hcmp in Eq. unfold score_eq in Eq. rewrite E1, Z.eqb_refl in Eq. done. }
      constructor; [done|]. eapply Forall_impl; [exact HyQ|]. intros a Ha. by eapply entry_lt_trans. }
    exists z, None. split; [done|]. rewrite removed_absent by done. split; [by exists (P ++ y :: Q)|done].
Qed.

End Delete.
