(* ===== verification/ZslRange.v ===== *)
(** t_zset.c: ranges and ranks of a skiplist. *)

From stdpp Require Import gmap.
From S2P Require Import Prelude Sds SdsString Zskiplist ZslSpec ZslInsert ZslDelete.
#[local] Open Scope Z_scope.

(** A filter keeps the part of a list on which it holds. *)
Lemma filter_all {A} (f : A -> bool) l : Forall (fun x => f x = true) l -> List.filter f l = l.
Proof. induction 1 as [|x l Hx Hl IH]; [done|]. cbn. rewrite Hx. by f_equal. Qed.
Lemma filter_none {A} (f : A -> bool) l : Forall (fun x => f x = false) l -> List.filter f l = [].
Proof. induction 1 as [|x l Hx Hl IH]; [done|]. cbn. by rewrite Hx. Qed.

Section Range.
  Context {score : Type} `{Score score}.
  Abbreviation zskiplist := (zskiplist (score := score)).
  Abbreviation entry := (entry (score := score)).
  Abbreviation member := (score * list Z)%type.

(** ** Deleting a range *)

(** A test of a node that looks at its score, its element and its number. *)
Definition tests (test : zskiplistNode -> Z -> bool) (f : member -> Z -> bool) : Prop :=
  forall A e B r, zlen (e_ele e) < 2 ^ 31 -> test (node_of A e B) r = f (member_of e) r.

Lemma points_before_mono (z z' : zskiplist) P update : header z' = header z -> (zlevel z' <= zlevel z)%nat ->
  points_before z P update -> points_before z' P update.
Proof. intros Hh Hz Hp k Hk. rewrite Hh. apply Hp. lia. Qed.

(** The loop deletes the entries of [M] and stops before [Q]. *)
Lemma delete_loop_spec test f M : tests test f -> forall fuel (z : zskiplist) P Q update t, (length M < fuel)%nat ->
  rep z (P ++ M ++ Q) -> top_ok z (P ++ M ++ Q) -> zlen (P ++ M ++ Q) < 2 ^ 32 -> points_before z P update ->
  (forall M1 e M2, M = M1 ++ e :: M2 -> f (member_of e) (t + zlen M1) = true) ->
  (forall y Q', Q = y :: Q' -> f (member_of y) (t + zlen M) = false) ->
  exists z', delete_loop fuel z (e_ptr <$> head (M ++ Q)) update test t = Some (z', map e_ele M) /\ rep z' (P ++ Q) /\ top_ok z' (P ++ Q).
Proof.
  intros Htest. induction M as [|e M IH]; intros [|fuel] z P Q update t Hfuel Hr Htop Hlen Hup HM HQ; cbn [length] in Hfuel; try lia; cbn [app] in *.
  - destruct Q as [|y Q]; cbn [head fmap option_fmap option_map delete_loop map]; [by exists z|].
    assert (Hy := rep_nodes z _ P y Q Hr eq_refl). unfold node. rewrite Hy. cbn [mbind option_bind].
    assert (Ho := rep_entries _ _ Hr). rewrite Forall_app in Ho. destruct Ho as [_ Ho]. apply Forall_cons_1 in Ho as [[_ Hyl] _].
    rewrite Htest by done. specialize (HQ y Q eq_refl). cbn [length] in HQ. rewrite Z.add_0_r in HQ. rewrite HQ. by exists z.
  - cbn [head fmap option_fmap option_map delete_loop]. assert (He := rep_nodes z _ P e (M ++ Q) Hr eq_refl). unfold node. rewrite He. cbn [mbind option_bind].
    assert (Ho := rep_entries _ _ Hr). rewrite Forall_app in Ho. destruct Ho as [_ Ho]. apply Forall_cons_1 in Ho as [[[Hh _] Hel] _].
    assert (He0 := HM [] e M eq_refl). cbn [length] in He0. rewrite Z.add_0_r in He0. rewrite Htest, He0 by done.
    assert (Hr2 : rep z ((P ++ [e]) ++ M ++ Q)) by by rewrite <-app_assoc.
    assert (Hg : get_level z (e_ptr e) 0 = Some (link 0 (M ++ Q))).
    { rewrite <-(at_end_snoc (header z) P e). apply (rep_links _ _ Hr2 (P ++ [e]) (M ++ Q) 0); [done|]. right. exists P, e. split; [done|lia]. }
    rewrite Hg. assert (Ef := link_0 z (P ++ [e]) (M ++ Q) Hr2). destruct (link 0 (M ++ Q)) as [nx s]. cbn [fst] in Ef. subst nx. cbn [mbind option_bind].
    destruct (zslDeleteNode_spec z P e (M ++ Q) update Hr Hlen Hup) as (z1 & -> & Hr1 & Htop1 & Hh1 & Hz1 & Hn1). cbn [mbind option_bind].
    unfold node_of at 1. cbn [ele]. assert (Hx : e_ptr e ∉ header z1 :: map e_ptr (P ++ M ++ Q)) by (rewrite Hh1; by apply (removed_not_in z)).
    destruct (zslFreeNode_spec z1 _ _ Hr1 Hx Hn1) as (z2 & -> & Hr3 & Hh2 & Hz2 & _). cbn [mbind option_bind].
    destruct (IH fuel z2 P Q update (t + 1)) as (z' & -> & Hr' & Htop'); try done.
    + lia.
    + by apply (top_ok_lower z1).
    + rewrite !length_app in *. cbn [length] in *. rewrite ?length_app in *. lia.
    + apply (points_before_mono z); [congruence|lia|done].
    + intros M1 a M2 ->. replace (t + 1 + zlen M1) with (t + zlen (e :: M1)) by (cbn [length]; lia). by apply (HM (e :: M1) a M2).
    + intros y Q' ->. replace (t + 1 + zlen M) with (t + zlen (e :: M)) by (cbn [length]; lia). by apply (HQ y Q').
    + by exists z'.
Qed.

(** A division of the entries by the test of a search. *)
Lemma divides_tests (z : zskiplist) test f P Q : tests test f -> Forall (entry_ok (zlevel z)) (P ++ Q) ->
  (forall A e B, P = A ++ e :: B -> f (member_of e) (zlen A + 1) = true) ->
  (forall A e B, Q = A ++ e :: B -> f (member_of e) (zlen (P ++ A) + 1) = false) -> divides test P Q.
Proof.
  intros Ht Ho HP HQ. rewrite Forall_forall in Ho. split; intros A e B E; rewrite Ht.
  - by apply (HP A e B).
  - apply Ho. apply elem_of_app. left. rewrite E. apply elem_of_app. right. by left.
  - by apply (HQ A e B).
  - apply Ho. apply elem_of_app. right. rewrite E. apply elem_of_app. right. by left.
Qed.

Lemma delete_range_entries (z : zskiplist) out inside fo fi P M Q : tests out fo -> tests inside fi ->
  rep z (P ++ M ++ Q) -> top_ok z (P ++ M ++ Q) -> zlen (P ++ M ++ Q) < 2 ^ 32 ->
  (forall A e B, P = A ++ e :: B -> fo (member_of e) (zlen A + 1) = true) ->
  (forall A e B, M ++ Q = A ++ e :: B -> fo (member_of e) (zlen (P ++ A) + 1) = false) ->
  (forall A e B, M = A ++ e :: B -> fi (member_of e) (zlen (P ++ A) + 1) = true) ->
  (forall y Q', Q = y :: Q' -> fi (member_of y) (zlen (P ++ M) + 1) = false) ->
  exists z', delete_range z out inside = Some (z', map e_ele M) /\ rep z' (P ++ Q) /\ top_ok z' (P ++ Q).
Proof.
  intros Ho Hi Hr Htop Hlen H1 H2 H3 H4. unfold delete_range.
  destruct (search_next z P (M ++ Q) out Hr) as (update & s & -> & Hup & Hu0 & Hg).
  { eapply (divides_tests z); [exact Ho|apply (rep_entries _ _ Hr)|done|done]. }
  cbn [mbind option_bind]. rewrite Hu0. cbn [mbind option_bind]. rewrite Hg. cbn [mbind option_bind].
  apply (delete_loop_spec inside fi M Hi); try done.
  - rewrite (rep_length _ _ Hr), !length_app. lia.
  - intros M1 e M2 E. specialize (H3 M1 e M2 E). rewrite zlen_app in H3. by replace (zlen P + 1 + zlen M1) with (zlen P + zlen M1 + 1) by lia.
  - intros y Q' E. specialize (H4 y Q' E). rewrite zlen_app in H4. by replace (zlen P + 1 + zlen M) with (zlen P + zlen M + 1) by lia.
Qed.

(** ** Intervals of the order *)

(** [lo] and [hi] are the tests of the two bounds of an interval. *)
Definition interval (lo hi : member -> bool) (L : list entry) : Prop := forall a b, a ∈ L -> b ∈ L -> entry_lt a b ->
  (lo (member_of a) = true -> lo (member_of b) = true) /\ (hi (member_of b) = true -> hi (member_of a) = true).

Definition inside (lo hi : member -> bool) (m : member) : bool := lo m && hi m.

(** The entries before, in and after an interval. *)
Record parted (lo hi : member -> bool) (P M Q : list entry) : Prop := {
  parted_before : Forall (fun e => lo (member_of e) = false) P;
  parted_from : Forall (fun e => lo (member_of e) = true) (M ++ Q);
  parted_in : Forall (fun e => hi (member_of e) = true) M;
  parted_after : Forall (fun e => hi (member_of e) = false) Q
}.

Lemma interval_parts lo hi L : StronglySorted entry_lt L -> interval lo hi L -> exists P M Q, L = P ++ M ++ Q /\ parted lo hi P M Q.
Proof.
  intros Hs Hi. destruct (sorted_cut_in entry_lt (fun e => negb (lo (member_of e))) L Hs) as (P & R & -> & HP & HR).
  { intros a b Ha Hb Hab Hf. apply negb_true_iff in Hf. apply negb_true_iff. apply not_true_is_false. intros Hlo.
    destruct (Hi a b Ha Hb Hab) as [Hl _]. by rewrite Hl in Hf. }
  destruct (sorted_cut_in entry_lt (fun e => hi (member_of e)) R (sorted_app_inv P R Hs)) as (M & Q & -> & HM & HQ).
  { intros a b Ha Hb Hab. apply Hi; [apply elem_of_app; by right|apply elem_of_app; by right|done]. }
  exists P, M, Q. split; [done|]. split; [| |done|done].
  - eapply Forall_impl; [exact HP|]. intros a. apply negb_true_iff.
  - eapply Forall_impl; [exact HR|]. intros a. apply negb_false_iff.
Qed.

Lemma parted_filter lo hi P M Q : parted lo hi P M Q ->
  List.filter (inside lo hi) (map member_of (P ++ M ++ Q)) = map member_of M /\
  List.filter (fun m => negb (inside lo hi m)) (map member_of (P ++ M ++ Q)) = map member_of (P ++ Q).
Proof.
  intros [HP Hlo HM HQ]. apply Forall_app in Hlo as [HlM HlQ]. unfold inside. rewrite !map_app, !List.filter_app.
  assert (E1 : Forall (fun m => lo m && hi m = false) (map member_of P)).
  { apply Forall_map. eapply Forall_impl; [exact HP|]. intros a Ha. cbn. by rewrite Ha. }
  assert (E2 : Forall (fun m => lo m && hi m = true) (map member_of M)).
  { apply Forall_map. apply Forall_forall. intros a Ha. rewrite Forall_forall in HlM, HM. cbn. by rewrite HlM, HM. }
  assert (E3 : Forall (fun m => lo m && hi m = false) (map member_of Q)).
  { apply Forall_map. eapply Forall_impl; [exact HQ|]. intros a Ha. cbn. rewrite Ha. by rewrite andb_false_r. }
  assert (Hneg : forall b b' l, Forall (fun m => lo m && hi m = b) l -> b' = negb b -> Forall (fun m : member => negb (lo m && hi m) = b') l).
  { intros b b' l Hl ->. eapply Forall_impl; [exact Hl|]. intros a Ha. cbn. by rewrite Ha. }
  split.
  - by rewrite (filter_none _ _ E1), (filter_all _ _ E2), (filter_none _ _ E3), app_nil_r.
  - rewrite (filter_all _ _ (Hneg _ _ _ E1 eq_refl)), (filter_none _ _ (Hneg _ _ _ E2 eq_refl)), (filter_all _ _ (Hneg _ _ _ E3 eq_refl)). done.
Qed.

Lemma Forall_at {A} (Pr : A -> Prop) l l1 x l2 : Forall Pr l -> l = l1 ++ x :: l2 -> Pr x.
Proof. intros Hl ->. apply Forall_app in Hl as [_ Hl]. by apply Forall_cons_1 in Hl as [? _]. Qed.

(** zslDeleteRangeByScore and zslDeleteRangeByLex delete the members of an
    interval, in order. *)
Lemma delete_interval (z : zskiplist) l lo hi out ins : tests out (fun m _ => negb (lo m)) -> tests ins (fun m _ => hi m) ->
  zsl_ok z l -> zlen l < 2 ^ 32 -> (forall L, rep z L -> map member_of L = l -> interval lo hi L) ->
  exists z', delete_range z out ins = Some (z', map snd (List.filter (inside lo hi) l)) /\
    zsl_ok z' (List.filter (fun m => negb (inside lo hi m)) l).
Proof.
  intros Ho Hi (L & Hr & Htop & Hl) Hlen Hint. specialize (Hint L Hr Hl). subst l. rewrite length_map in Hlen.
  destruct (interval_parts lo hi L (rep_sorted _ _ Hr) Hint) as (P & M & Q & -> & Hp).
  destruct (parted_filter _ _ _ _ _ Hp) as [-> ->]. destruct Hp as [HP HMQ HM HQ].
  destruct (delete_range_entries z out ins _ _ P M Q Ho Hi Hr Htop Hlen) as (z' & -> & Hr' & Htop').
  - intros A e B E. by rewrite (Forall_at _ _ _ _ _ HP E).
  - intros A e B E. by rewrite (Forall_at _ _ _ _ _ HMQ E).
  - intros A e B E. by rewrite (Forall_at _ _ _ _ _ HM E).
  - intros y Q' E. by rewrite (Forall_at _ _ [] _ _ HQ E).
  - exists z'. split; [by rewrite map_map|]. by exists (P ++ Q).
Qed.

(** ** Ranges of scores *)

Definition in_range (r : zrangespec) (m : member) : bool := zslValueGteMin m.1 r && zslValueLteMax m.1 r.

Lemma score_le_spec (a b : score) : score_le a b = (key a <=? key b).
Proof. unfold score_le, score_lt, score_eq. destruct (Z.ltb_spec (key a) (key b)), (Z.eqb_spec (key a) (key b)), (Z.leb_spec (key a) (key b)); cbn; lia. Qed.

Lemma score_interval r L : interval (fun m => zslValueGteMin m.1 r) (fun m => zslValueLteMax m.1 r) L.
Proof.
  intros a b _ _ Hab. assert (Hk : key (e_score a) <= key (e_score b)) by (destruct Hab as [?|[? _]]; lia).
  unfold zslValueGteMin, zslValueLteMax. rewrite !score_le_spec. unfold score_lt, member_of. cbn [fst]. split.
  - destruct (minex r); rewrite ?Z.ltb_lt, ?Z.leb_le; lia.
  - destruct (maxex r); rewrite ?Z.ltb_lt, ?Z.leb_le; lia.
Qed.

Lemma zslDeleteRangeByScore_spec (z : zskiplist) l r : zsl_ok z l -> zlen l < 2 ^ 32 ->
  exists z', zslDeleteRangeByScore z r = Some (z', map snd (List.filter (in_range r) l)) /\
    zsl_ok z' (List.filter (fun m => negb (in_range r m)) l).
Proof.
  intros Hz Hlen. apply (delete_interval z l (fun m => zslValueGteMin m.1 r) (fun m => zslValueLteMax m.1 r)); try done.
  - intros A e B k _. unfold zslValueGteMin, node_of, member_of. cbn [node_score fst]. rewrite !score_le_spec. unfold score_lt.
    destruct (minex r).
    + destruct (Z.leb_spec (key (e_score e)) (key (min r))), (Z.ltb_spec (key (min r)) (key (e_score e))); cbn; lia.
    + destruct (Z.ltb_spec (key (e_score e)) (key (min r))), (Z.leb_spec (key (min r)) (key (e_score e))); cbn; lia.
  - intros L _ _. apply score_interval.
Qed.

(** ** Ranges of elements *)

Definition in_lex_range (r : zlexrangespec) (m : member) : bool := zslLexValueGteMin m.2 r && zslLexValueLteMax m.2 r.

Definition short_bound (b : lexbound) : Prop := match b with Bound s => zlen s < 2 ^ 31 | _ => True end.
Definition short_range (r : zlexrangespec) : Prop := short_bound (lmin r) /\ short_bound (lmax r).

(** An element against a bound. *)
Definition lex_bound (v : list Z) (b : lexbound) : comparison :=
  match b with MinString => Gt | MaxString => Lt | Bound s => lex v s end.

Lemma sdscmplex_spec v b : zlen v < 2 ^ 31 -> short_bound b -> (sdscmplex (Bound v) b ?= 0) = lex_bound v b.
Proof. intros Hv Hb. destruct b; [done|done|]. by apply content_cmp_lex. Qed.

Lemma gte_min_spec v r : zlen v < 2 ^ 31 -> short_range r -> zslLexValueGteMin v r =
  match lex_bound v (lmin r) with Gt => true | Eq => negb (lminex r) | Lt => false end.
Proof.
  intros Hv [Hb _]. unfold zslLexValueGteMin. rewrite <-sdscmplex_spec by done. destruct (lminex r); [unfold Z.gtb|unfold Z.geb]; by destruct (_ ?= 0).
Qed.

Lemma lte_max_spec v r : zlen v < 2 ^ 31 -> short_range r -> zslLexValueLteMax v r =
  match lex_bound v (lmax r) with Lt => true | Eq => negb (lmaxex r) | Gt => false end.
Proof.
  intros Hv [_ Hb]. unfold zslLexValueLteMax. rewrite <-sdscmplex_spec by done. destruct (lmaxex r); [unfold Z.ltb|unfold Z.leb]; by destruct (_ ?= 0).
Qed.

Lemma lex_interval (z : zskiplist) r L k : rep z L -> short_range r -> Forall (fun m => key m.1 = k) (map member_of L) ->
  interval (fun m => zslLexValueGteMin m.2 r) (fun m => zslLexValueLteMax m.2 r) L.
Proof.
  intros Hr Hsr Hk a b Ha Hb Hab. assert (Ho := rep_entries _ _ Hr). rewrite Forall_forall in Ho. apply Forall_map in Hk. rewrite Forall_forall in Hk.
  assert (Hlab : lex (e_ele a) (e_ele b) = Lt).
  { assert (E1 := Hk a Ha). assert (E2 := Hk b Hb). cbn in E1, E2. destruct Hab as [?|[_ ?]]; [lia|done]. }
  apply Ho in Ha as [_ Ha]. apply Ho in Hb as [_ Hb]. cbn [member_of snd]. rewrite !gte_min_spec, !lte_max_spec by done. split.
  - destruct (lmin r) as [| |s]; cbn [lex_bound]; try done. destruct (lex (e_ele a) s) eqn:E1; [|done|].
    + apply lex_same in E1. subst s. rewrite (lex_antisym (e_ele a)), Hlab. done.
    + rewrite lex_antisym in E1. destruct (lex s (e_ele a)) eqn:E2; try done. rewrite (lex_antisym s), (lex_trans _ _ _ E2 Hlab). done.
  - destruct (lmax r) as [| |s]; cbn [lex_bound]; try done. destruct (lex (e_ele b) s) eqn:E1; [| |done].
    + apply lex_same in E1. subst s. rewrite Hlab. done.
    + rewrite (lex_trans _ _ _ Hlab E1). done.
Qed.

Lemma zslDeleteRangeByLex_spec (z : zskiplist) l r k : zsl_ok z l -> zlen l < 2 ^ 32 -> short_range r -> Forall (fun m => key m.1 = k) l ->
  exists z', zslDeleteRangeByLex z r = Some (z', map snd (List.filter (in_lex_range r) l)) /\
    zsl_ok z' (List.filter (fun m => negb (in_lex_range r m)) l).
Proof.
  intros Hz Hlen Hsr Hk. apply (delete_interval z l (fun m => zslLexValueGteMin m.2 r) (fun m => zslLexValueLteMax m.2 r)); try done.
  intros L Hr <-. by eapply lex_interval.
Qed.

(** ** The ends of a range *)

(** The score and the element of a node. *)
Definition member_at (z : zskiplist) (p : nodeptr) : option member :=
  n ← node z p; e ← ele n; Some (node_score n, e).

(** A node with this member, or NULL. *)
Definition finds (z : zskiplist) (r : option nodeptr) (m : option member) : Prop :=
  match r with Some p => exists x, m = Some x /\ member_at z p = Some x | None => m = None end.

Lemma member_at_entry (z : zskiplist) L A e B : rep z L -> L = A ++ e :: B -> member_at z (e_ptr e) = Some (member_of e).
Proof. intros Hr HL. unfold member_at, node. by rewrite (rep_nodes z L A e B Hr HL). Qed.

Lemma search_last (z : zskiplist) P Q test : rep z (P ++ Q) -> divides test P Q ->
  exists update, search z test = Some update /\ search_end z update = at_end (header z) P /\
    exists s, get_level z (at_end (header z) P) 0 = Some (e_ptr <$> head Q, s).
Proof.
  intros Hr Hd. destruct (search_next z P Q test Hr Hd) as (update & s & -> & _ & Hu & Hg). exists update. split; [done|].
  split; [|by exists s]. unfold search_end. destruct update as [|[x rk] update]; [done|]. by injection Hu as -> _.
Qed.

Lemma first_node_spec (z : zskiplist) L : rep z L -> first_node z = Some (match L with [] => None | e :: B => Some (node_of [] e B) end).
Proof.
  intros Hr. unfold first_node. assert (Hz := rep_zlevel _ _ Hr).
  assert (Hg : get_level z (header z) 0 = Some (link 0 L)) by (apply (rep_links _ _ Hr [] L 0); [done|left; split; [done|lia]]).
  rewrite Hg. assert (E := link_0 z [] L Hr). destruct (link 0 L) as [f s]. cbn [fst] in E. subst f. cbn [mbind option_bind].
  destruct L as [|e B]; [done|]. cbn [head fmap option_fmap option_map]. unfold node. by rewrite (rep_nodes z _ [] e B Hr eq_refl).
Qed.

Lemma last_node_spec (z : zskiplist) L : rep z L ->
  last_node z = Some (match last L with None => None | Some e => Some (node_of (removelast L) e []) end).
Proof.
  intros Hr. unfold last_node. rewrite (rep_tail _ _ Hr). destruct L as [|e A _] using rev_ind; [done|].
  rewrite last_snoc, removelast_last. cbn [fmap option_fmap option_map]. unfold node. by rewrite (rep_nodes z _ A e [] Hr eq_refl).
Qed.

(** The bounds at the two ends exclude the whole list. *)
Lemma interval_last lo hi L e : StronglySorted entry_lt L -> interval lo hi L -> last L = Some e -> lo (member_of e) = false ->
  Forall (fun a => lo (member_of a) = false) L.
Proof.
  intros Hs Hi He Hlo. destruct L as [|x A _] using rev_ind; [done|]. rewrite last_snoc in He. injection He as ->.
  apply Forall_app. split; [|by repeat constructor]. apply Forall_forall. intros a Ha. apply not_true_is_false. intros Hl.
  assert (Hae : entry_lt a e).
  { clear -Hs Ha. induction A as [|b A IH]; [by apply not_elem_of_nil in Ha|]. cbn [app] in Hs. apply StronglySorted_inv in Hs as [Hs Hall].
    apply elem_of_cons in Ha as [->|Ha]; [|by apply IH]. apply Forall_app in Hall as [_ Hall]. by apply Forall_cons_1 in Hall as [? _]. }
  destruct (Hi a e) as [Hl' _]; [apply elem_of_app; by left|apply elem_of_app; right; by left|done|]. rewrite Hl' in Hlo; done.
Qed.

Lemma interval_first lo hi e B : StronglySorted entry_lt (e :: B) -> interval lo hi (e :: B) -> hi (member_of e) = false ->
  Forall (fun a => hi (member_of a) = false) (e :: B).
Proof.
  intros Hs Hi Hhi. constructor; [done|]. apply StronglySorted_inv in Hs as [_ Hall]. apply Forall_forall. intros a Ha.
  apply not_true_is_false. intros Hl. rewrite Forall_forall in Hall. destruct (Hi e a) as [_ Hl']; [by left|by right|by apply Hall|].
  rewrite Hl' in Hhi; done.
Qed.

Lemma filter_inside_none lo hi (l : list entry) : Forall (fun a => lo (member_of a) = false) l \/ Forall (fun a => hi (member_of a) = false) l ->
  List.filter (inside lo hi) (map member_of l) = [].
Proof.
  intros Hl. apply filter_none, Forall_map. destruct Hl as [Hl|Hl]; (eapply Forall_impl; [exact Hl|]; intros a Ha; cbn; unfold inside; rewrite Ha).
  - done.
  - apply andb_false_r.
Qed.

Lemma sorted_app_left (P Q : list entry) : StronglySorted entry_lt (P ++ Q) -> StronglySorted entry_lt P.
Proof.
  induction P as [|a P IH]; cbn [app]; [constructor|]. intros Hs. apply StronglySorted_inv in Hs as [Hs Ha]. apply Forall_app in Ha as [Ha _].
  constructor; [by apply IH|done].
Qed.

Lemma interval_sub lo hi (L L' : list entry) : (forall a, a ∈ L' -> a ∈ L) -> interval lo hi L -> interval lo hi L'.
Proof. intros Hsub Hi a b Ha Hb. apply Hi; by apply Hsub. Qed.

(** The search for the first member of an interval, when the last member is
    above its lower bound. *)
Lemma first_inside (z : zskiplist) L lo hi test e : rep z L -> interval lo hi L -> tests test (fun m _ => negb (lo m)) ->
  last L = Some e -> lo (member_of e) = true ->
  exists update A y B s, L = A ++ y :: B /\ search z test = Some update /\ get_level z (search_end z update) 0 = Some (Some (e_ptr y), s) /\
    head (List.filter (inside lo hi) (map member_of L)) = if hi (member_of y) then Some (member_of y) else None.
Proof.
  intros Hr Hi Ht He Hlo. assert (Hs := rep_sorted _ _ Hr).
  destruct (sorted_cut_in entry_lt (fun e => negb (lo (member_of e))) L Hs) as (P & R & HL & HP & HR).
  { intros a b Ha Hb Hab Hf. apply negb_true_iff in Hf. apply negb_true_iff. apply not_true_is_false. intros Hl.
    destruct (Hi a b Ha Hb Hab) as [Hl' _]. by rewrite Hl' in Hf. }
  destruct R as [|y B].
  { exfalso. rewrite app_nil_r in HL. subst P. apply last_Some in He as [A ->]. apply Forall_app in HP as [_ HP].
    apply Forall_cons_1 in HP as [HP _]. cbn in HP. by rewrite Hlo in HP. }
  subst L. destruct (search_last z P (y :: B) test Hr) as (update & Hrun & Hend & s & Hg).
  { eapply (divides_tests z); [exact Ht|apply (rep_entries _ _ Hr)| |]; intros A x C E; cbn.
    - exact (Forall_at _ _ _ _ _ HP E).
    - exact (Forall_at _ _ _ _ _ HR E). }
  exists update, P, y, B, s. split; [done|]. split; [done|]. rewrite Hend. split; [exact Hg|].
  rewrite map_app, List.filter_app, (filter_inside_none lo hi P).
  2: { left. eapply Forall_impl; [exact HP|]. intros a. apply negb_true_iff. }
  cbn [app]. destruct (hi (member_of y)) eqn:Ey.
  - cbn [map List.filter]. unfold inside at 1. apply Forall_cons_1 in HR as [HR _]. apply negb_false_iff in HR. by rewrite HR, Ey.
  - rewrite filter_inside_none; [done|]. right. apply (interval_first lo hi); [by apply (sorted_app_inv P)| |done].
    eapply interval_sub; [|exact Hi]. intros a Ha. apply elem_of_app. by right.
Qed.

(** The search for the last one, when the first member is below the upper
    bound. *)
Lemma last_inside (z : zskiplist) L lo hi test e B0 : rep z L -> interval lo hi L -> tests test (fun m _ => hi m) ->
  L = e :: B0 -> hi (member_of e) = true ->
  exists update A y B, L = A ++ y :: B /\ search z test = Some update /\ search_end z update = e_ptr y /\
    last (List.filter (inside lo hi) (map member_of L)) = if lo (member_of y) then Some (member_of y) else None.
Proof.
  intros Hr Hi Ht He Hhi. assert (Hs := rep_sorted _ _ Hr).
  destruct (sorted_cut_in entry_lt (fun e => hi (member_of e)) L Hs) as (P & Q & HL & HP & HQ).
  { intros a b Ha Hb Hab. by apply (Hi a b Ha Hb Hab). }
  destruct P as [|y A _] using rev_ind.
  { exfalso. cbn [app] in HL. subst Q. rewrite He in HQ. apply Forall_cons_1 in HQ as [HQ _]. by rewrite Hhi in HQ. }
  clear He. subst L. destruct (search_last z (A ++ [y]) Q test Hr) as (update & Hrun & Hend & _).
  { eapply (divides_tests z); [exact Ht|apply (rep_entries _ _ Hr)| |]; intros A' x C E; cbn.
    - exact (Forall_at _ _ _ _ _ HP E).
    - exact (Forall_at _ _ _ _ _ HQ E). }
  exists update, A, y, Q. split; [by rewrite <-app_assoc|]. split; [done|]. split; [by rewrite Hend, at_end_snoc|].
  rewrite map_app, List.filter_app, (filter_inside_none lo hi Q), app_nil_r by (by right).
  destruct (lo (member_of y)) eqn:Ey.
  - rewrite map_app, List.filter_app. cbn [map List.filter]. unfold inside at 2. apply Forall_app in HP as [_ HP].
    apply Forall_cons_1 in HP as [HP _]. rewrite HP, Ey. cbn [andb]. apply last_snoc.
  - rewrite filter_inside_none; [done|]. left. apply (interval_last lo hi _ y); [by apply (sorted_app_left _ Q)| |apply last_snoc|done].
    eapply interval_sub; [|exact Hi]. intros a Ha. apply elem_of_app. by left.
Qed.

(** When zslIsInRange fails, no member is in the range; when it succeeds, both
    searches apply. *)
Definition ends_inside (lo hi : member -> bool) (L : list entry) : Prop :=
  (exists e, last L = Some e /\ lo (member_of e) = true) /\ (exists e B, L = e :: B /\ hi (member_of e) = true).

Lemma zslIsInRange_spec (z : zskiplist) L r : rep z L ->
  exists b, zslIsInRange z r = Some b /\
    if b then ends_inside (fun m => zslValueGteMin m.1 r) (fun m => zslValueLteMax m.1 r) L
    else List.filter (in_range r) (map member_of L) = [].
Proof.
  intros Hr. assert (Hi := score_interval r L). assert (Hs := rep_sorted _ _ Hr). unfold zslIsInRange.
  destruct (score_lt (max r) (min r) || _) eqn:Eempty.
  { exists false. split; [done|]. apply filter_none. apply Forall_forall. intros m _. unfold in_range, zslValueGteMin, zslValueLteMax.
    rewrite !score_le_spec. unfold score_lt, score_eq in *. destruct (minex r), (maxex r); cbn [orb andb] in *; apply not_true_is_false;
      rewrite ?andb_true_iff, ?Z.ltb_lt, ?Z.leb_le; apply orb_true_iff in Eempty; rewrite ?andb_true_iff, ?Z.ltb_lt, ?Z.eqb_eq in Eempty; lia. }
  clear Eempty. rewrite (last_node_spec z L Hr), (first_node_spec z L Hr). cbn [mbind option_bind].
  destruct L as [|e B _] using rev_ind; [by exists false|]. rewrite last_snoc. unfold node_of at 1. cbn [node_score].
  destruct (zslValueGteMin (e_score e) r) eqn:Elo; cbn [negb].
  - destruct (B ++ [e]) as [|y C] eqn:EL; [by destruct B|]. cbn [mbind option_bind]. unfold node_of. cbn [node_score]. eexists. split; [done|].
    destruct (zslValueLteMax (e_score y) r) eqn:Ehi.
    + split; [exists e; split; [by rewrite <-EL, last_snoc|done]|by exists y, C].
    + apply (filter_inside_none (fun m => zslValueGteMin m.1 r) (fun m => zslValueLteMax m.1 r)). right. by apply (interval_first _ _ y C Hs Hi).
  - exists false. split; [done|]. apply (filter_inside_none (fun m => zslValueGteMin m.1 r) (fun m => zslValueLteMax m.1 r)). left.
    apply (interval_last _ _ _ e Hs Hi); [apply last_snoc|done].
Qed.

Lemma zslFirstInRange_spec (z : zskiplist) l r : zsl_ok z l ->
  exists x, zslFirstInRange z r = Some x /\ finds z x (head (List.filter (in_range r) l)).
Proof.
  intros (L & Hr & _ & <-). unfold zslFirstInRange. destruct (zslIsInRange_spec z L r Hr) as (b & -> & Hb). cbn [mbind option_bind].
  destruct b; cbn [negb]; [|exists None; split; [done|cbn; by rewrite Hb]]. destruct Hb as [(e & He & Hlo) _].
  destruct (first_inside z L (fun m => zslValueGteMin m.1 r) (fun m => zslValueLteMax m.1 r) (fun n _ => negb (zslValueGteMin (node_score n) r)) e)
    as (update & A & y & B & s & HL & -> & Hg & Hhead); [done|apply score_interval|done|done|done|].
  cbn [mbind option_bind]. rewrite Hg. cbn [mbind option_bind]. unfold node. rewrite (rep_nodes z L A y B Hr HL). cbn [mbind option_bind node_of node_score].
  change (inside _ _) with (in_range r) in Hhead. rewrite Hhead. cbn [member_of fst]. eexists. split; [done|].
  destruct (zslValueLteMax (e_score y) r); cbn [negb]; [|done]. exists (member_of y). split; [done|]. by apply (member_at_entry z L A y B).
Qed.

Lemma zslLastInRange_spec (z : zskiplist) l r : zsl_ok z l ->
  exists x, zslLastInRange z r = Some x /\ finds z x (last (List.filter (in_range r) l)).
Proof.
  intros (L & Hr & _ & <-). unfold zslLastInRange. destruct (zslIsInRange_spec z L r Hr) as (b & -> & Hb). cbn [mbind option_bind].
  destruct b; cbn [negb]; [|exists None; split; [done|cbn; by rewrite Hb]]. destruct Hb as [_ (e & B0 & He & Hhi)].
  destruct (last_inside z L (fun m => zslValueGteMin m.1 r) (fun m => zslValueLteMax m.1 r) (fun n _ => zslValueLteMax (node_score n) r) e B0)
    as (update & A & y & B & HL & -> & Hend & Hlast); [done|apply score_interval|done|done|done|].
  cbn [mbind option_bind]. rewrite Hend. unfold node. rewrite (rep_nodes z L A y B Hr HL). cbn [mbind option_bind node_of node_score].
  change (inside _ _) with (in_range r) in Hlast. rewrite Hlast. cbn [member_of fst]. eexists. split; [done|].
  destruct (zslValueGteMin (e_score y) r); cbn [negb]; [|done]. exists (member_of y). split; [done|]. by apply (member_at_entry z L A y B).
Qed.

(** The contents of shared.minstring and shared.maxstring, as bounds given by
    the user. *)
Definition plain_bound (b : lexbound) : Prop := b <> Bound (str "minstring") /\ b <> Bound (str "maxstring").
Definition plain_range (r : zlexrangespec) : Prop := plain_bound (lmin r) /\ plain_bound (lmax r).

(** Bounds that leave no element between them. *)
Definition empty_bounds (r : zlexrangespec) : Prop :=
  match lmin r, lmax r with
  | MaxString, _ | _, MinString => True
  | Bound a, Bound b => lex a b = Gt \/ (lex a b = Eq /\ (lminex r || lmaxex r = true))
  | _, _ => False
  end.

Lemma empty_bounds_none r v : zlen v < 2 ^ 31 -> short_range r -> empty_bounds r ->
  zslLexValueGteMin v r && zslLexValueLteMax v r = false.
Proof.
  intros Hv Hsr He. rewrite gte_min_spec, lte_max_spec by done. unfold empty_bounds in He.
  destruct (lmin r) as [| |a], (lmax r) as [| |b]; cbn [lex_bound andb] in *; try done; try by rewrite andb_false_r.
  destruct He as [He|[He Hex]].
  - destruct (lex v a) eqn:E1; cbn; [| done |].
    + apply lex_same in E1. subst a. rewrite He. apply andb_false_r.
    + rewrite lex_antisym in E1, He. destruct (lex a v) eqn:E2; try done. destruct (lex b a) eqn:E3; try done.
      rewrite (lex_antisym b v), (lex_trans _ _ _ E3 E2). done.
  - apply lex_same in He. subst b. destruct (lex v a); cbn; [|done|done]. by destruct (lminex r), (lmaxex r).
Qed.

Lemma early_exit_empty r : short_range r -> plain_range r ->
  (sdscmplex (lmin r) (lmax r) >? 1) ||
    ((content_cmp (lex_content (lmin r)) (lex_content (lmax r)) =? 0) && (lminex r || lmaxex r)) = true ->
  empty_bounds r \/ (lmin r = MinString /\ lmax r = MinString) \/ (lmin r = MaxString /\ lmax r = MaxString).
Proof.
  intros [Hs1 Hs2] [[Hp1 Hp2] [Hp3 Hp4]] He. unfold empty_bounds.
  assert (Hcmp : forall a b, zlen a < 2 ^ 31 -> zlen b < 2 ^ 31 -> content_cmp a b = 0 -> a = b).
  { intros a b Ha Hb E. apply lex_same. rewrite <-content_cmp_lex by done. by rewrite E. }
  assert (Hmin : zlen (str "minstring") < 2 ^ 31) by (vm_compute; done). assert (Hmax : zlen (str "maxstring") < 2 ^ 31) by (vm_compute; done).
  destruct (lmin r) as [| |a], (lmax r) as [| |b]; cbn [lex_content short_bound] in *; auto.
  - exfalso. apply orb_true_iff in He as [He|[He _]%andb_true_iff]; [done|]. by vm_compute in He.
  - exfalso. apply orb_true_iff in He as [He|[He _]%andb_true_iff]; [done|]. apply Z.eqb_eq in He. apply (Hcmp _ _ Hmin Hs2) in He. subst b. by apply Hp3.
  - exfalso. apply orb_true_iff in He as [He|[He _]%andb_true_iff]; [done|]. apply Z.eqb_eq in He. apply (Hcmp _ _ Hs1 Hmax) in He. subst a. by apply Hp2.
  - left. apply orb_true_iff in He as [He|[He Hex]%andb_true_iff].
    + left. rewrite <-content_cmp_lex by done. apply Z.gtb_lt in He. cbn [sdscmplex] in He. apply Z.compare_gt_iff. lia.
    + right. split; [|done]. rewrite <-content_cmp_lex by done. by apply Z.eqb_eq in He as ->.
Qed.

Lemma in_lex_range_none (z : zskiplist) L r : rep z L -> short_range r -> plain_range r ->
  (sdscmplex (lmin r) (lmax r) >? 1) ||
    ((content_cmp (lex_content (lmin r)) (lex_content (lmax r)) =? 0) && (lminex r || lmaxex r)) = true ->
  List.filter (in_lex_range r) (map member_of L) = [].
Proof.
  intros Hr Hsr Hp He. apply filter_none, Forall_map. eapply Forall_impl; [exact (rep_entries _ _ Hr)|]. intros e [_ Hl]. unfold in_lex_range.
  cbn [member_of snd]. destruct (early_exit_empty r Hsr Hp He) as [Hemp|[[E1 E2]|[E1 E2]]]; [by apply empty_bounds_none| |];
    rewrite gte_min_spec, lte_max_spec, E1, E2 by done; done.
Qed.

Lemma zslIsInLexRange_spec (z : zskiplist) L r k : rep z L -> short_range r -> plain_range r -> Forall (fun m => key m.1 = k) (map member_of L) ->
  exists b, zslIsInLexRange z r = Some b /\
    if b then ends_inside (fun m => zslLexValueGteMin m.2 r) (fun m => zslLexValueLteMax m.2 r) L
    else List.filter (in_lex_range r) (map member_of L) = [].
Proof.
  intros Hr Hsr Hp Hk. assert (Hi := lex_interval z r L k Hr Hsr Hk). assert (Hs := rep_sorted _ _ Hr). unfold zslIsInLexRange.
  destruct (_ || _) eqn:Eempty; [exists false; split; [done|by apply (in_lex_range_none z)]|]. clear Eempty Hk.
  rewrite (last_node_spec z L Hr), (first_node_spec z L Hr). cbn [mbind option_bind].
  destruct L as [|e B _] using rev_ind; [by exists false|]. rewrite last_snoc. cbn [node_of ele mbind option_bind].
  destruct (zslLexValueGteMin (e_ele e) r) eqn:Elo; cbn [negb].
  - destruct (B ++ [e]) as [|y C] eqn:EL; [by destruct B|]. cbn [mbind option_bind]. unfold node_of. cbn [ele mbind option_bind]. eexists. split; [done|].
    destruct (zslLexValueLteMax (e_ele y) r) eqn:Ehi.
    + split; [exists e; split; [by rewrite <-EL, last_snoc|done]|by exists y, C].
    + apply (filter_inside_none (fun m => zslLexValueGteMin m.2 r) (fun m => zslLexValueLteMax m.2 r)). right. by apply (interval_first _ _ y C Hs Hi).
  - exists false. split; [done|]. apply (filter_inside_none (fun m => zslLexValueGteMin m.2 r) (fun m => zslLexValueLteMax m.2 r)). left.
    apply (interval_last _ _ _ e Hs Hi); [apply last_snoc|done].
Qed.

Lemma zslFirstInLexRange_spec (z : zskiplist) l r k : zsl_ok z l -> short_range r -> plain_range r -> Forall (fun m => key m.1 = k) l ->
  exists x, zslFirstInLexRange z r = Some x /\ finds z x (head (List.filter (in_lex_range r) l)).
Proof.
  intros (L & Hr & _ & <-) Hsr Hp Hk. unfold zslFirstInLexRange. destruct (zslIsInLexRange_spec z L r k Hr Hsr Hp Hk) as (b & -> & Hb). cbn [mbind option_bind].
  destruct b; cbn [negb]; [|exists None; split; [done|cbn; by rewrite Hb]]. destruct Hb as [(e & He & Hlo) _].
  destruct (first_inside z L (fun m => zslLexValueGteMin m.2 r) (fun m => zslLexValueLteMax m.2 r) (on_ele (fun e => negb (zslLexValueGteMin e r))) e)
    as (update & A & y & B & s & HL & -> & Hg & Hhead); [done|by eapply lex_interval|done|done|done|].
  cbn [mbind option_bind]. rewrite Hg. cbn [mbind option_bind]. unfold get_ele, node. rewrite (rep_nodes z L A y B Hr HL). cbn [mbind option_bind node_of ele].
  change (inside _ _) with (in_lex_range r) in Hhead. rewrite Hhead. cbn [member_of snd]. eexists. split; [done|].
  destruct (zslLexValueLteMax (e_ele y) r); cbn [negb]; [|done]. exists (member_of y). split; [done|]. by apply (member_at_entry z L A y B).
Qed.

Lemma zslLastInLexRange_spec (z : zskiplist) l r k : zsl_ok z l -> short_range r -> plain_range r -> Forall (fun m => key m.1 = k) l ->
  exists x, zslLastInLexRange z r = Some x /\ finds z x (last (List.filter (in_lex_range r) l)).
Proof.
  intros (L & Hr & _ & <-) Hsr Hp Hk. unfold zslLastInLexRange. destruct (zslIsInLexRange_spec z L r k Hr Hsr Hp Hk) as (b & -> & Hb). cbn [mbind option_bind].
  destruct b; cbn [negb]; [|exists None; split; [done|cbn; by rewrite Hb]]. destruct Hb as [_ (e & B0 & He & Hhi)].
  destruct (last_inside z L (fun m => zslLexValueGteMin m.2 r) (fun m => zslLexValueLteMax m.2 r) (on_ele (fun e => zslLexValueLteMax e r)) e B0)
    as (update & A & y & B & HL & -> & Hend & Hlast); [done|by eapply lex_interval|done|done|done|].
  cbn [mbind option_bind]. rewrite Hend. unfold get_ele, node. rewrite (rep_nodes z L A y B Hr HL). cbn [mbind option_bind node_of ele].
  change (inside _ _) with (in_lex_range r) in Hlast. rewrite Hlast. cbn [member_of snd]. eexists. split; [done|].
  destruct (zslLexValueGteMin (e_ele y) r); cbn [negb]; [|done]. exists (member_of y). split; [done|]. by apply (member_at_entry z L A y B).
Qed.

End Range.
