(* ===== verification/ZslRank.v ===== *)
(** t_zset.c: ranks, and the skiplist as an ordered list of members. *)

From stdpp Require Import gmap.
From S2P Require Import Prelude Sds SdsString Zskiplist ZslSpec ZslInsert ZslDelete ZslRange.
#[local] Open Scope Z_scope.

Section Rank.
  Context {score : Type} `{Score score}.
  Abbreviation zskiplist := (zskiplist (score := score)).
  Abbreviation entry := (entry (score := score)).
  Abbreviation member := (score * list Z)%type.

(** ** Deletion by rank *)

Lemma zslDeleteRangeByRank_spec (z : zskiplist) l start end_ : zsl_ok z l -> zlen l < 2 ^ 32 -> 1 <= start ->
  let s := Z.to_nat (start - 1) in let n := Z.to_nat (end_ - start + 1) in
  exists z', zslDeleteRangeByRank z start end_ = Some (z', map snd (take n (drop s l))) /\
    zsl_ok z' (take s l ++ drop n (drop s l)).
Proof.
  intros (L & Hr & Htop & <-) Hlen Hst s n. rewrite length_map in Hlen. unfold zslDeleteRangeByRank.
  assert (Es : Z.of_nat s = start - 1) by (unfold s; lia). assert (En : Z.of_nat n = Z.max 0 (end_ - start + 1)) by (unfold n; lia).
  clearbody s n.
  assert (HL : L = take s L ++ take n (drop s L) ++ drop n (drop s L)) by by rewrite !take_drop.
  assert (Hs : forall A (e : entry) B, take s L = A ++ e :: B -> (length A < s)%nat).
  { intros A e B E. apply (f_equal length) in E. rewrite length_take, length_app in E. cbn in E. lia. }
  assert (Hfull : drop s L <> [] -> length (take s L) = s).
  { intros E. apply length_take_le. destruct (decide (s <= length L)%nat) as [|Hs']; [done|]. destruct E. apply drop_ge. lia. }
  destruct (delete_range_entries z (fun _ rank => rank <? start) (fun _ traversed => traversed <=? end_)
    (fun _ rank => rank <? start) (fun _ traversed => traversed <=? end_) (take s L) (take n (drop s L)) (drop n (drop s L)))
    as (z' & Hrun & Hr' & Htop'); rewrite <-?HL; try done.
  - intros A e B E. apply Hs in E. lia.
  - rewrite take_drop. intros A e B E. rewrite length_app, Hfull by (rewrite E; by destruct A). apply Z.ltb_ge. lia.
  - intros A e B E. rewrite length_app, Hfull by (intros E'; rewrite E', take_nil in E; by destruct A).
    apply (f_equal length) in E. rewrite length_take, length_app in E. cbn [length] in E. apply Z.leb_le. lia.
  - intros y Q' E. rewrite length_app, Hfull by (intros E'; rewrite E', drop_nil in E; done).
    apply (f_equal length) in E. rewrite !length_drop in E. cbn [length] in E. rewrite length_take, length_drop. apply Z.leb_gt. lia.
  - exists z'. rewrite Hrun, !skipn_map, !firstn_map, map_map. split; [done|].
    exists (take s L ++ drop n (drop s L)). split; [done|]. split; [done|]. by rewrite map_app.
Qed.

(** ** The element of a rank *)

(** A descent that ends at the first level where the search has passed all of
    [P], if there is one. *)
Lemma by_rank_loop_spec (z : zskiplist) L P Q rank n : rep z L -> L = P ++ Q -> divides (fun _ r => r <=? rank) P Q -> (n < zlevel z)%nat ->
  forall A M, P = A ++ M -> A ++ cut n M = cut n P -> reaches z n A ->
  by_rank_loop (S n) z rank (at_end (header z) A) (zlen A) = Some (if zlen P =? rank then Some (at_end (header z) P) else None).
Proof.
  intros Hr HL Hd. assert (Hzero : cut 0 P = P) by (eapply cut_0; rewrite HL in Hr; exact Hr).
  assert (Hle : zlen P <= rank \/ P = []).
  { destruct P as [|e P _] using rev_ind; [by right|]. left. destruct Hd as [Ht _]. assert (Hx := Ht P e [] eq_refl). apply Z.leb_le in Hx.
    rewrite length_app. cbn [length]. lia. }
  assert (Hstop : forall m, zlen (cut m P) = rank -> cut m P = P).
  { intros m Hm. destruct (rest_spec m P) as [E _]. destruct (rest m P) as [|a R] eqn:ER; [by rewrite app_nil_r in E|].
    destruct Hle as [Hle| ->]; [|done]. apply (f_equal length) in E. rewrite length_app in E. cbn [length] in E. lia. }
  induction n as [|n IH]; intros Hn A M HP Hcut Ha; cbn [by_rank_loop].
  - rewrite (go_forward_spec z L 0 _ P Q A M) by done. cbn [mbind option_bind]. rewrite Hcut, Hzero. by destruct (_ =? _).
  - rewrite (go_forward_spec z L (S n) _ P Q A M) by done. cbn [mbind option_bind]. rewrite Hcut.
    destruct (Z.eqb_spec (zlen (cut (S n) P)) rank) as [Hm|Hm].
    + assert (E := Hstop _ Hm). rewrite E in Hm |- *. by rewrite Hm, Z.eqb_refl.
    + destruct (cut_step n P) as (M' & HP' & Hcut'). cbn [by_rank_loop] in IH. apply (IH ltac:(lia) _ _ HP' Hcut').
      destruct (cut_spec (S n) P) as [[Hl E]|(B & e & N & _ & He & _ & E)]; rewrite E; [left; split; [done|lia]|].
      right. exists B, e. split; [done|lia].
Qed.

(** A rank out of the list, 0 included, which is the header's. *)
Lemma zslGetElementByRank_spec (z : zskiplist) l rank : zsl_ok z l -> 0 <= rank ->
  exists x, zslGetElementByRank z rank = Some x /\
    (rank = 0 -> x = Some (header z)) /\ (1 <= rank -> finds z x (l !! Z.to_nat (rank - 1))).
Proof.
  intros (L & Hr & _ & <-) Hrank. unfold zslGetElementByRank. set (k := Z.to_nat rank).
  assert (Ek : Z.of_nat k = rank) by (unfold k; lia). assert (Hz := rep_zlevel _ _ Hr). destruct (zlevel z) as [|n] eqn:Ez; [lia|].
  assert (Hd : divides (fun _ r => r <=? rank) (take k L) (drop k L)).
  { clearbody k. split; intros A e B E; [apply Z.leb_le|apply Z.leb_gt].
    - apply (f_equal length) in E. rewrite length_take, length_app in E. cbn [length] in E. lia.
    - rewrite length_app, length_take_le; [lia|]. destruct (decide (k <= length L)%nat); [done|]. rewrite drop_ge in E by lia. by destruct A. }
  rewrite <-(take_drop k L) in Hr. assert (Hrun := by_rank_loop_spec z _ (take k L) (drop k L) rank n Hr eq_refl Hd).
  assert (Hrun0 : by_rank_loop (S n) z rank (header z) 0 = Some (if zlen (take k L) =? rank then Some (at_end (header z) (take k L)) else None)).
  { apply (Hrun ltac:(lia) [] (take k L) eq_refl eq_refl). left. split; [done|lia]. }
  rewrite Hrun0. clear Hrun Hrun0 Hd. eexists. split; [done|]. clearbody k. split.
  - intros ->. replace k with 0%nat by lia. done.
  - intros H1. replace (Z.to_nat (rank - 1)) with (k - 1)%nat by lia. rewrite length_take. destruct (decide (k <= length L)%nat) as [Hk|Hk].
    + rewrite Nat.min_l, Ek, Z.eqb_refl by lia. destruct (lookup_lt_is_Some_2 L (k - 1)) as [e He]; [lia|].
      assert (Hsplit := take_drop_middle L (k - 1) e He).
      assert (Htake : take k L = take (k - 1) L ++ [e]) by (replace k with (S (k - 1)) at 1 by lia; by apply take_S_r).
      rewrite Htake, at_end_snoc. cbn. exists (member_of e). split; [by rewrite list_lookup_fmap, He|].
      rewrite take_drop in Hr. apply (member_at_entry z L (take (k - 1) L) e (drop (S (k - 1)) L)); [done|by rewrite Hsplit].
    + rewrite Nat.min_r by lia. destruct (Z.eqb_spec (zlen L) rank); [lia|]. cbn. rewrite lookup_ge_None_2; [done|]. rewrite length_map. lia.
Qed.


(** ** The rank of a member *)

(** The rank of the last entry of [P], if it has this element. *)
Definition rank_if (e : list Z) (P : list entry) : Z :=
  match last P with Some y => if bool_decide (e_ele y = e) then zlen P else 0 | None => 0 end.

(** The test of a node in the middle of the loop. *)
Lemma rank_test (z : zskiplist) C D e (rank : Z) (next : option Z) : rep z (C ++ D) -> zlen e < 2 ^ 31 ->
  (n ← node z (at_end (header z) C); match ele n with Some y => if content_cmp y e =? 0 then Some rank else next | None => next end) =
  match last C with Some y => if bool_decide (e_ele y = e) then Some rank else next | None => next end.
Proof.
  intros Hr He. destruct C as [|y C _] using rev_ind.
  - change (at_end (header z) []) with (header z). destruct (rep_header _ _ Hr) as (sc & b & Hs). unfold shape in Hs.
    destruct (node z (header z)) as [n|]; [|done]. cbn in Hs. cbn [mbind option_bind]. by injection Hs as -> _ _ _.
  - rewrite at_end_snoc, last_snoc. rewrite <-app_assoc in Hr. unfold node. rewrite (rep_nodes z _ C y D Hr eq_refl). cbn [mbind option_bind node_of ele].
    assert (Ho := rep_entries _ _ Hr). rewrite Forall_app in Ho. destruct Ho as [_ Ho]. apply Forall_cons_1 in Ho as [[_ Hy] _].
    assert (Hc := content_cmp_lex (e_ele y) e Hy He). case_bool_decide as Heq.
    + rewrite Heq, lex_refl in Hc. apply Z.compare_eq in Hc. by rewrite Heq, Hc.
    + destruct (Z.eqb_spec (content_cmp (e_ele y) e) 0) as [E|E]; [|done]. rewrite E in Hc. symmetry in Hc. by apply lex_same in Hc.
Qed.

Lemma rank_loop_spec (z : zskiplist) L P Q test e n : rep z L -> L = P ++ Q -> divides test P Q -> (n < zlevel z)%nat -> zlen e < 2 ^ 31 ->
  (forall A y B, P = A ++ y :: B -> e_ele y = e -> B = []) ->
  forall A M, P = A ++ M -> A ++ cut n M = cut n P -> reaches z n A ->
  rank_loop (S n) z test e (at_end (header z) A) (zlen A) = Some (rank_if e P).
Proof.
  intros Hr HL Hd Hn He Hlast. assert (Hzero : cut 0 P = P) by (eapply cut_0; rewrite HL in Hr; exact Hr).
  assert (Hcut : forall m C D, cut m P = C -> P = C ++ D -> match last C with Some y => bool_decide (e_ele y = e) | None => false end = true ->
    zlen C = rank_if e P).
  { intros m C D _ HP Hy. destruct C as [|y C _] using rev_ind; [done|]. rewrite last_snoc in Hy. apply bool_decide_eq_true in Hy.
    rewrite <-app_assoc in HP. assert (HD := Hlast _ _ _ HP Hy). subst D. cbn [app] in HP. unfold rank_if. rewrite HP, last_snoc, bool_decide_eq_true_2 by done.
    done. }
  induction n as [|n IH]; intros A M HP HcutA Ha; cbn [rank_loop];
    rewrite (go_forward_spec z L _ test P Q A M) by done; cbn [mbind option_bind]; rewrite HcutA.
  - rewrite Hzero, (rank_test z P Q) by (done || by rewrite <-HL). unfold rank_if. destruct (last P); [|done]. by destruct (bool_decide _).
  - destruct (rest_spec (S n) P) as [E _]. rewrite (rank_test z _ (rest (S n) P ++ Q)) by (done || (rewrite app_assoc, <-E, <-HL; done)).
    assert (Hnext : rank_loop (S n) z test e (at_end (header z) (cut (S n) P)) (zlen (cut (S n) P)) = Some (rank_if e P)).
    { destruct (cut_step n P) as (M' & HP' & Hcut'). apply (IH ltac:(lia) _ _ HP' Hcut').
      destruct (cut_spec (S n) P) as [[Hl E']|(B & y & N & _ & Hy & _ & E')]; rewrite E'; [left; split; [done|lia]|].
      right. exists B, y. split; [done|lia]. }
    cbn [rank_loop] in Hnext. specialize (Hcut (S n) _ _ eq_refl E). destruct (last (cut (S n) P)) as [y|]; [|exact Hnext].
    destruct (bool_decide _); [|exact Hnext]. by rewrite Hcut.
Qed.

(** The test of the search: not after the score and element. *)
Lemma rank_divides (z : zskiplist) P Q sc e : rep z (P ++ Q) -> zlen e < 2 ^ 31 ->
  Forall (fun a => member_lt (sc, e) (member_of a) = false) P -> Forall (fun a => member_lt (sc, e) (member_of a) = true) Q ->
  divides (fun n _ => score_lt (node_score n) sc || (score_eq (node_score n) sc && (node_cmp n e <=? 0))) P Q.
Proof.
  intros Hr He HP HQ. apply (divides_tests z _ (fun m _ => negb (member_lt (sc, e) m))).
  - intros A a B r Ha. unfold member_lt, node_cmp, node_of, member_of, score_lt, score_eq. cbn [node_score ele fst snd].
    assert (Hc := content_cmp_lex (e_ele a) e Ha He). rewrite (lex_antisym (e_ele a) e), <-Hc. unfold Z.leb.
    destruct (Z.ltb_spec (key (e_score a)) (key sc)), (Z.ltb_spec (key sc) (key (e_score a))), (Z.eqb_spec (key (e_score a)) (key sc)),
      (Z.eqb_spec (key sc) (key (e_score a))); try lia; cbn [orb andb negb]; try done. by destruct (_ ?= 0).
  - apply (rep_entries _ _ Hr).
  - intros A a B E. cbn. by rewrite (Forall_at _ _ _ _ _ HP E).
  - intros A a B E. cbn. by rewrite (Forall_at _ _ _ _ _ HQ E).
Qed.

Lemma zslGetRank_between (z : zskiplist) P Q sc e : rep z (P ++ Q) -> zlen e < 2 ^ 31 ->
  Forall (fun a => member_lt (sc, e) (member_of a) = false) P -> Forall (fun a => member_lt (sc, e) (member_of a) = true) Q ->
  (forall A y B, P = A ++ y :: B -> e_ele y = e -> B = []) -> zslGetRank z sc e = Some (rank_if e P).
Proof.
  intros Hr He HP HQ Hlast. unfold zslGetRank. assert (Hz := rep_zlevel _ _ Hr). destruct (zlevel z) as [|n] eqn:Ez; [lia|].
  apply (rank_loop_spec z (P ++ Q) P Q _ e n Hr eq_refl (rank_divides z P Q sc e Hr He HP HQ) ltac:(lia) He Hlast [] P eq_refl eq_refl).
  left. split; [done|lia].
Qed.

Lemma member_lt_irrefl sc e (a : entry) : key (e_score a) = key sc -> e_ele a = e -> member_lt (sc, e) (member_of a) = false.
Proof.
  intros Hk <-. unfold member_lt, score_lt, score_eq, member_of. cbn [fst snd]. rewrite Hk, Z.ltb_irrefl, Z.eqb_refl, lex_refl. done.
Qed.

Lemma zslGetRank_spec (z : zskiplist) l sc e : zsl_ok z l -> zlen e < 2 ^ 31 -> NoDup (map snd l) ->
  (forall i sc', l !! i = Some (sc', e) -> key sc' = key sc -> zslGetRank z sc e = Some (Z.of_nat i + 1)) /\
  (e ∉ map snd l -> zslGetRank z sc e = Some 0).
Proof.
  intros (L & Hr & _ & <-) He Hn. rewrite map_map in Hn. change (map (fun x => (member_of x).2) L) with (map e_ele L) in Hn.
  assert (Hs := rep_sorted _ _ Hr). split.
  - intros i sc' Hi Hk. rewrite list_lookup_fmap in Hi. destruct (L !! i) as [a|] eqn:Ha; [|done]. cbn in Hi. injection Hi as Esc Ee.
    assert (HL := take_drop_middle L i a Ha). set (A := take i L) in *. set (B := drop (S i) L) in *.
    assert (HA : zlen A = Z.of_nat i) by (unfold A; rewrite length_take_le; [done|]; apply lookup_lt_Some in Ha; lia).
    clearbody A B. subst L. clear Ha. rewrite cons_middle, app_assoc in Hr. rewrite (zslGetRank_between z (A ++ [a]) B sc e Hr He).
    + unfold rank_if. rewrite last_snoc, bool_decide_eq_true_2 by done. rewrite length_app. cbn [length]. f_equal. lia.
    + apply Forall_app. split; [|repeat constructor; apply member_lt_irrefl; congruence]. apply Forall_forall. intros b Hb.
      apply not_true_is_false. intros Hlt. assert (Hba : entry_lt b a).
      { clear -Hs Hb. induction A as [|x A IH]; [by apply not_elem_of_nil in Hb|]. cbn [app] in Hs. apply StronglySorted_inv in Hs as [Hs Hall].
        apply elem_of_cons in Hb as [->|Hb]; [|by apply IH]. apply Forall_app in Hall as [_ Hall]. by apply Forall_cons_1 in Hall as [? _]. }
      change (sc, e) with (member_of (mkEntry 0%nat sc e 0%nat)) in Hlt. apply member_lt_spec in Hlt.
      assert (Hxa := entry_lt_trans _ _ _ Hlt Hba). unfold entry_lt in Hxa. cbn [e_score e_ele] in Hxa. rewrite Ee, lex_refl in Hxa.
      destruct Hxa as [?|[_ ?]]; [subst; lia|done].
    + apply sorted_app_inv in Hs. apply StronglySorted_inv in Hs as [_ Hall]. eapply Forall_impl; [exact Hall|]. intros b Hab.
      change (sc, e) with (member_of (mkEntry 0%nat sc e 0%nat)). apply member_lt_spec. unfold entry_lt in *. cbn [e_score e_ele].
      subst sc'. rewrite <-Hk, <-Ee. exact Hab.
    + intros C y D E Hy. destruct D as [|d D _] using rev_ind; [done|]. exfalso. rewrite app_comm_cons, app_assoc in E. apply app_inj_tail in E as [E _].
      rewrite map_app in Hn. cbn [map] in Hn. rewrite E, map_app in Hn. cbn [map] in Hn. rewrite Hy, <-Ee, <-app_assoc in Hn. apply NoDup_app in Hn as (_ & _ & Hn).
      cbn [app] in Hn. apply NoDup_cons in Hn as [Hn _]. apply Hn. apply elem_of_app. right. by left.
  - intros Hnin. rewrite map_map in Hnin. change (map (fun x => (member_of x).2) L) with (map e_ele L) in Hnin.
    destruct (sorted_cut entry_lt (fun a => negb (member_lt (sc, e) (member_of a))) L Hs) as (P & Q & -> & HP & HQ).
    { intros a b Hab Hb. apply negb_true_iff in Hb. apply negb_true_iff. apply not_true_is_false. intros Hlt.
      change (sc, e) with (member_of (mkEntry 0%nat sc e 0%nat)) in *. apply member_lt_spec in Hlt.
      rewrite (proj2 (member_lt_spec _ b)) in Hb; [done|]. by eapply entry_lt_trans. }
    assert (HnP : forall A y B, P = A ++ y :: B -> e_ele y <> e).
    { intros A y B -> Hy. apply Hnin. rewrite <-Hy. apply list_elem_of_fmap_2. apply elem_of_app. left. apply elem_of_app. right. by left. }
    rewrite (zslGetRank_between z P Q sc e Hr He).
    + unfold rank_if. destruct P as [|y P _] using rev_ind; [done|]. rewrite last_snoc, bool_decide_eq_false_2; [done|]. by eapply HnP.
    + eapply Forall_impl; [exact HP|]. intros a. apply negb_true_iff.
    + eapply Forall_impl; [exact HQ|]. intros a. apply negb_false_iff.
    + intros A y B E Hy. by apply HnP in E.
Qed.

End Rank.
