(* ===== verification/ZslRefine.v ===== *)
(** t_zset.c: what the skiplist promises.  Every operation answers as an
    ordered list of members would, and keeps the skiplist well formed. *)

From stdpp Require Import gmap.
From S2P Require Import Prelude Sds SdsString Zskiplist ZslSpec ZslInsert ZslDelete ZslRange ZslRank.
#[local] Open Scope Z_scope.

Section Refine.
  Context {score : Type} `{Score score}.
  Context (junk : nat -> option nodeptr * Z).
  Abbreviation zskiplist := (zskiplist (score := score)).
  Abbreviation member := (score * list Z)%type.

(** ** Sequences of calls *)

Inductive zop :=
  | Insert (sc : score) (e : list Z) (draws : list Z)
  | Delete (sc : score) (e : list Z)
  | DeleteByScore (r : zrangespec (score := score))
  | DeleteByRank (start end_ : Z).

(** The new state and the elements that the call deletes. *)
Definition zsl_step (z : zskiplist) (op : zop) : option (zskiplist * list (list Z)) :=
  match op with
  | Insert sc e draws => '(z, _, _) ← zslInsert junk z sc e draws; Some (z, [])
  | Delete sc e => '(z', x) ← zslDelete z sc e false; Some (z', match x with Some _ => [e] | None => [] end)
  | DeleteByScore r => zslDeleteRangeByScore z r
  | DeleteByRank start end_ => zslDeleteRangeByRank z start end_
  end.

(** The same on the list of members; [None] when the call is not allowed. *)
Definition list_step (l : list member) (op : zop) : option (list member * list (list Z)) :=
  match op with
  | Insert sc e draws =>
      if forallb (fun m => negb (is_member sc e m)) l && (zlen l + 1 <? 2 ^ 32) && (zlen e <? 2 ^ 31) then
        _ ← zslRandomLevel draws; Some (ordered_insert (sc, e) l, [])
      else None
  | Delete sc e =>
      if zlen e <? 2 ^ 31 then Some (removed sc e l, if existsb (is_member sc e) l then [e] else []) else None
  | DeleteByScore r => Some (List.filter (fun m => negb (in_range r m)) l, map snd (List.filter (in_range r) l))
  | DeleteByRank start end_ =>
      if 1 <=? start then
        let s := Z.to_nat (start - 1) in let n := Z.to_nat (end_ - start + 1) in
        Some (take s l ++ drop n (drop s l), map snd (take n (drop s l)))
      else None
  end.

Fixpoint run {A} (step : A -> zop -> option (A * list (list Z))) (a : A) (ops : list zop) : option (A * list (list (list Z))) :=
  match ops with
  | [] => Some (a, [])
  | op :: ops => '(a, out) ← step a op; '(a, outs) ← run step a ops; Some (a, out :: outs)
  end.

Lemma is_member_spec sc e (m : member) : is_member sc e m = true <-> key m.1 = key sc /\ m.2 = e.
Proof. unfold is_member, score_eq. by rewrite andb_true_iff, Z.eqb_eq, bool_decide_eq_true. Qed.

Lemma absent_forallb sc e (l : list member) : forallb (fun m => negb (is_member sc e m)) l = true <-> absent sc e l.
Proof.
  unfold absent. rewrite forallb_forall, Forall_forall. split.
  - intros Hf m Hm Heq. apply is_member_spec in Heq. apply list_elem_of_In in Hm. apply Hf in Hm. by rewrite Heq in Hm.
  - intros Hf m Hm. apply negb_true_iff, is_member_false. apply Hf. by apply list_elem_of_In.
Qed.

Lemma absent_existsb sc e (l : list member) : absent sc e l -> existsb (is_member sc e) l = false.
Proof. intros Ha. apply not_true_is_false. intros (m & Hm & Heq)%existsb_exists. unfold absent in Ha. rewrite Forall_forall in Ha.
  apply is_member_spec in Heq. apply list_elem_of_In in Hm. by apply Ha in Hm. Qed.

Lemma removed_existsb sc e (l : list member) : length (removed sc e l) <> length l -> existsb (is_member sc e) l = true.
Proof.
  intros Hl. apply not_false_is_true. intros Hf. apply Hl. f_equal. apply removed_absent. apply absent_forallb.
  apply forallb_forall. intros m Hm. apply negb_true_iff, not_true_is_false. intros Hm'. rewrite (proj2 (existsb_exists _ _)) in Hf; [done|by exists m].
Qed.

Lemma zsl_bound (z : zskiplist) l : zsl_ok z l -> zlen l < 2 ^ 32 -> 0 <= length_ z < 2 ^ 32.
Proof. intros (L & Hr & _ & <-) Hl. rewrite length_map in Hl. rewrite (rep_length _ _ Hr). lia. Qed.

Lemma ordered_insert_length (x : member) l : length (ordered_insert x l) = S (length l).
Proof. induction l as [|y l IH]; [done|]. cbn [ordered_insert]. destruct (member_lt y x); cbn [length]; [by rewrite IH|done]. Qed.

Lemma list_step_length l op l' out : list_step l op = Some (l', out) -> zlen l < 2 ^ 32 -> zlen l' < 2 ^ 32.
Proof.
  assert (Hfilter : forall (f : member -> bool), (length (List.filter f l) <= length l)%nat) by (intros; apply filter_length_le).
  destruct op; cbn [list_step]; intros E Hl.
  - destruct (_ && _ && _) eqn:Eg; [|done]. destruct (zslRandomLevel draws); [|done]. injection E as <- _.
    rewrite ordered_insert_length. apply andb_true_iff in Eg as [[_ Eg]%andb_true_iff _]. apply Z.ltb_lt in Eg. lia.
  - destruct (_ <? _); [|done]. injection E as <- _. specialize (Hfilter (fun m => negb (is_member sc e m))). unfold removed. lia.
  - injection E as <- _. specialize (Hfilter (fun m => negb (in_range r m))). lia.
  - destruct (_ <=? _); [|done]. injection E as <- _. rewrite length_app, length_take, !length_drop. lia.
Qed.

Lemma step_refines (z : zskiplist) l op l' out : zsl_ok z l -> zlen l < 2 ^ 32 -> list_step l op = Some (l', out) ->
  exists z', zsl_step z op = Some (z', out) /\ zsl_ok z' l'.
Proof.
  intros Hz Hl E. destruct op as [sc e draws|sc e|r|start end_]; cbn [list_step zsl_step] in *.
  - destruct (_ && _ && _) eqn:Eg; [|done]. destruct (zslRandomLevel draws) as [[lev draws']|] eqn:Elev; [|done]. injection E as <- <-.
    rewrite !andb_true_iff, absent_forallb, !Z.ltb_lt in Eg. destruct Eg as [[Hab H1] H2].
    destruct (zslInsert_spec junk z l sc e draws lev draws' Hz H1 H2 Elev Hab) as (z' & p & -> & _ & Hz' & _). by exists z'.
  - destruct (Z.ltb_spec (zlen e) (2 ^ 31)) as [He|]; [|done]. injection E as <- <-.
    destruct (zslDelete_spec z l sc e false Hz Hl He) as (z' & [x|] & -> & Hz' & Hx); exists z'; cbn [mbind option_bind].
    + rewrite removed_existsb; [done|]. destruct Hx as (_ & -> & _). lia.
    + destruct Hx as [_ Hab]. by rewrite absent_existsb.
  - injection E as <- <-. by apply zslDeleteRangeByScore_spec.
  - destruct (Z.leb_spec 1 start) as [Hs|]; [|done]. injection E as <- <-. by apply zslDeleteRangeByRank_spec.
Qed.

Lemma run_refines ops : forall (z : zskiplist) l l' outs, zsl_ok z l -> zlen l < 2 ^ 32 -> run list_step l ops = Some (l', outs) ->
  exists z', run zsl_step z ops = Some (z', outs) /\ zsl_ok z' l'.
Proof.
  induction ops as [|op ops IH]; intros z l l' outs Hz Hl E; cbn [run] in *; [injection E as <- <-; by exists z|].
  destruct (list_step l op) as [[l1 out]|] eqn:E1; [|done]. cbn [mbind option_bind] in E.
  destruct (run list_step l1 ops) as [[l2 outs']|] eqn:E2; [|done]. injection E as <- <-.
  destruct (step_refines z l op l1 out Hz Hl E1) as (z1 & -> & Hz1). cbn [mbind option_bind].
  destruct (IH z1 l1 l2 outs' Hz1 (list_step_length _ _ _ _ E1 Hl) E2) as (z2 & -> & Hz2). by exists z2.
Qed.

(** The order in which a skiplist keeps its members. *)
Definition ordered (l : list member) : Prop := StronglySorted (fun a b => member_lt a b = true) l.

Lemma zsl_ok_ordered (z : zskiplist) l : zsl_ok z l -> ordered l.
Proof.
  intros (L & Hr & _ & <-). assert (Hs := rep_sorted _ _ Hr). clear Hr. unfold ordered. induction Hs as [|a L Hs IH Ha]; [constructor|].
  cbn [map]. constructor; [done|]. apply Forall_map. eapply Forall_impl; [exact Ha|]. intros b Hb. by apply member_lt_spec.
Qed.

(** ** The properties *)

(** C34. From a new skiplist, every sequence of insertions and deletions, by
    member, by score or by rank, that is allowed on the list of members runs
    without a bad access or a loop that does not end, deletes the same elements
    in the same order, and leaves a well-formed skiplist of the same members in
    strictly increasing order. *)
Theorem zskiplist_refines_list ops l outs : run list_step [] ops = Some (l, outs) ->
  exists z0 z, zslCreate junk = Some z0 /\ run zsl_step z0 ops = Some (z, outs) /\ zsl_ok z l /\ ordered l.
Proof.
  intros Hrun. destruct (zslCreate_spec junk) as (z0 & Hc & H0). destruct (run_refines ops z0 [] l outs H0) as (z & Hz & Hok); [done|done|].
  exists z0, z. split; [done|]. split; [done|]. split; [done|]. by eapply zsl_ok_ordered.
Qed.

(** zslInsert puts an absent member at its place in the order, whatever the
    level drawn, in a node whose address was free and that has the level drawn;
    every pointer, span and the level of the list are again those of the members. *)
Theorem zslInsert_correct (z : zskiplist) l sc e draws lev draws' : zsl_ok z l -> zlen l + 1 < 2 ^ 32 -> zlen e < 2 ^ 31 ->
  zslRandomLevel draws = Some (lev, draws') -> absent sc e l ->
  exists z' p, zslInsert junk z sc e draws = Some (z', p, draws') /\ (1 <= lev <= ZSKIPLIST_MAXLEVEL)%nat /\ heap z !! p = None /\
    zsl_ok z' (ordered_insert (sc, e) l) /\
    (fun n => (node_score n, ele n, length (level n))) <$> heap z' !! p = Some (sc, Some e, lev).
Proof.
  intros Hz Hl He Hlev Hab. destruct (zslInsert_spec junk z l sc e draws lev draws' Hz Hl He Hlev Hab) as (z' & p & ? & ? & ? & ?).
  exists z', p. split; [done|]. split; [by apply (zslRandomLevel_bounds draws _ draws')|done].
Qed.

(** zslDelete removes the member of this score and element and returns its
    node, which is freed unless the caller takes it; without such a member it
    changes nothing and returns 0. *)
Theorem zslDelete_correct (z : zskiplist) l sc e keep : zsl_ok z l -> zlen l < 2 ^ 32 -> zlen e < 2 ^ 31 ->
  exists z' r, zslDelete z sc e keep = Some (z', r) /\ zsl_ok z' (removed sc e l) /\
    match r with
    | None => z' = z /\ absent sc e l
    | Some x => (exists n, heap z !! x = Some n /\ ele n = Some e /\ key (node_score n) = key sc) /\
        length l = S (length (removed sc e l)) /\ (if keep then is_Some (heap z' !! x) else heap z' !! x = None)
    end.
Proof. apply zslDelete_spec. Qed.

(** C39. For a range of scores, open or closed at each end, zslFirstInRange and
    zslLastInRange return nodes of the first and of the last member in the range,
    or NULL when there is none, and zslDeleteRangeByScore deletes exactly the
    members in the range, in order. *)
Theorem zsl_score_ranges (z : zskiplist) l r : zsl_ok z l -> zlen l < 2 ^ 32 ->
  (exists x, zslFirstInRange z r = Some x /\ finds z x (head (List.filter (in_range r) l))) /\
  (exists x, zslLastInRange z r = Some x /\ finds z x (last (List.filter (in_range r) l))) /\
  (exists z', zslDeleteRangeByScore z r = Some (z', map snd (List.filter (in_range r) l)) /\
    zsl_ok z' (List.filter (fun m => negb (in_range r m)) l)).
Proof.
  intros Hz Hl. split; [by apply zslFirstInRange_spec|]. split; [by apply zslLastInRange_spec|]. by apply zslDeleteRangeByScore_spec.
Qed.

(** The same for a range of elements, when all members have the same score
    and no bound is the string minstring or maxstring. *)
Theorem zsl_lex_ranges (z : zskiplist) l r k : zsl_ok z l -> zlen l < 2 ^ 32 -> short_range r -> plain_range r ->
  Forall (fun m => key m.1 = k) l ->
  (exists x, zslFirstInLexRange z r = Some x /\ finds z x (head (List.filter (in_lex_range r) l))) /\
  (exists x, zslLastInLexRange z r = Some x /\ finds z x (last (List.filter (in_lex_range r) l))) /\
  (exists z', zslDeleteRangeByLex z r = Some (z', map snd (List.filter (in_lex_range r) l)) /\
    zsl_ok z' (List.filter (fun m => negb (in_lex_range r m)) l)).
Proof.
  intros Hz Hl Hs Hp Hk. split; [by apply (zslFirstInLexRange_spec z l r k)|]. split; [by apply (zslLastInLexRange_spec z l r k)|].
  by apply (zslDeleteRangeByLex_spec z l r k).
Qed.

(** When no element has two scores, zslGetRank and zslGetElementByRank are
    inverse: the member at index [i] has rank [i + 1], which leads back to it; an
    absent element has rank 0, and a rank above the length has no element. *)
Theorem zsl_ranks (z : zskiplist) l : zsl_ok z l -> NoDup (map snd l) ->
  (forall i sc e, l !! i = Some (sc, e) -> zslGetRank z sc e = Some (Z.of_nat i + 1) /\
     exists x, zslGetElementByRank z (Z.of_nat i + 1) = Some (Some x) /\ member_at z x = Some (sc, e)) /\
  (forall sc e, zlen e < 2 ^ 31 -> e ∉ map snd l -> zslGetRank z sc e = Some 0) /\
  (forall rank, zlen l < rank -> zslGetElementByRank z rank = Some None).
Proof.
  intros Hz Hn. split; [|split].
  - intros i sc e Hi. assert (He : zlen e < 2 ^ 31).
    { destruct Hz as (L & Hr & _ & <-). assert (Ho := rep_entries _ _ Hr). rewrite list_lookup_fmap in Hi. destruct (L !! i) as [a|] eqn:Ha; [|done].
      cbn in Hi. injection Hi as _ <-. rewrite Forall_lookup in Ho. by apply Ho in Ha as [_ ?]. }
    split; [by apply (zslGetRank_spec z l sc e Hz He Hn) with sc|].
    destruct (zslGetElementByRank_spec z l (Z.of_nat i + 1) Hz) as (x & -> & _ & Hf); [lia|]. specialize (Hf ltac:(lia)).
    replace (Z.to_nat (Z.of_nat i + 1 - 1)) with i in Hf by lia. rewrite Hi in Hf. destruct x as [x|]; [|done]. exists x. split; [done|].
    destruct Hf as (m & [= <-] & Hm). done.
  - intros sc e He. apply (zslGetRank_spec z l sc e Hz He Hn).
  - intros rank Hr. destruct (zslGetElementByRank_spec z l rank Hz) as (x & -> & _ & Hf); [lia|]. specialize (Hf ltac:(lia)).
    rewrite lookup_ge_None_2 in Hf by lia. destruct x as [x|]; [|done]. by destruct Hf as (m & ? & _).
Qed.

End Refine.

(** ** An example *)

#[local] Instance Z_score : Score Z := {| key := id; zero := 0 |}.

Definition junk0 (i : nat) : option nodeptr * Z := (None, 7).

(** Levels 1, 3, 2 and 1. *)
Definition example_ops : list (zop (score := Z)) :=
  [Insert 5 (str "e") [99999]; Insert 2 (str "b") [1; 1; 99999]; Insert 9 (str "i") [0; 65535]; Insert 2 (str "a") [65535]].
Definition example_list : list (Z * list Z) := [(2, str "a"); (2, str "b"); (5, str "e"); (9, str "i")].
Definition example_zsl : zskiplist :=
  match zslCreate junk0 with
  | Some z => match run (zsl_step junk0) z example_ops with Some (z, _) => z | None => z end
  | None => mkZsl ∅ 0%nat None 0 1
  end.

Lemma example_ok : zsl_ok example_zsl example_list.
Proof.
  destruct (zslCreate_spec junk0) as (z0 & Hc & H0). destruct (run_refines junk0 example_ops z0 [] example_list [[]; []; []; []] H0) as (z & Hz & Hok);
    [done|vm_compute; done|]. unfold example_zsl. rewrite Hc, Hz. exact Hok.
Qed.

Lemma zskiplist_refines_list_witness : exists z0 z, zslCreate junk0 = Some z0 /\
  run (zsl_step junk0) z0 (example_ops ++ [DeleteByScore {| min := 2; max := 9; minex := false; maxex := true |}; Delete 9 (str "i"); Delete 9 (str "i")])
    = Some (z, [[]; []; []; []; [str "a"; str "b"; str "e"]; [str "i"]; []]) /\ zsl_ok z [] /\ ordered (score := Z) [].
Proof. apply zskiplist_refines_list. vm_compute. reflexivity. Defined.

Lemma zslInsert_correct_witness : exists z' p,
  zslInsert junk0 example_zsl 5 (str "d") [3; 99999; 4] = Some (z', p, [4]) /\ (1 <= 2 <= ZSKIPLIST_MAXLEVEL)%nat /\ heap example_zsl !! p = None /\
  zsl_ok z' (ordered_insert (5, str "d") example_list) /\
  (fun n => (node_score n, ele n, length (level n))) <$> heap z' !! p = Some (5, Some (str "d"), 2%nat).
Proof.
  apply (zslInsert_correct junk0 example_zsl example_list 5 (str "d") [3; 99999; 4] 2 [4] example_ok); [reflexivity|reflexivity|reflexivity|].
  apply absent_forallb. reflexivity.
Defined.

Lemma zslDelete_correct_witness : exists z' r, zslDelete example_zsl 2 (str "b") false = Some (z', r) /\
  zsl_ok z' (removed 2 (str "b") example_list) /\
  match r with
  | None => z' = example_zsl /\ absent 2 (str "b") example_list
  | Some x => (exists n, heap example_zsl !! x = Some n /\ ele n = Some (str "b") /\ key (node_score n) = key 2) /\
      length example_list = S (length (removed 2 (str "b") example_list)) /\ heap z' !! x = None
  end.
Proof. apply (zslDelete_correct example_zsl example_list 2 (str "b") false example_ok); reflexivity. Defined.

Definition example_range : zrangespec (score := Z) := {| min := 2; max := 9; minex := true; maxex := false |}.

Lemma zsl_score_ranges_witness :
  (exists x, zslFirstInRange example_zsl example_range = Some x /\ finds example_zsl x (Some (5, str "e"))) /\
  (exists x, zslLastInRange example_zsl example_range = Some x /\ finds example_zsl x (Some (9, str "i"))) /\
  (exists z', zslDeleteRangeByScore example_zsl example_range = Some (z', [str "e"; str "i"]) /\
    zsl_ok z' [(2, str "a"); (2, str "b")]).
Proof. apply (zsl_score_ranges example_zsl example_list example_range example_ok). reflexivity. Defined.

Definition lex_ops : list (zop (score := Z)) := [Insert 0 (str "b") [99999]; Insert 0 (str "a") [1; 99999]; Insert 0 (str "c") [99999]].
Definition lex_list : list (Z * list Z) := [(0, str "a"); (0, str "b"); (0, str "c")].
Definition lex_zsl : zskiplist :=
  match zslCreate junk0 with
  | Some z => match run (zsl_step junk0) z lex_ops with Some (z, _) => z | None => z end
  | None => mkZsl ∅ 0%nat None 0 1
  end.

Lemma lex_ok : zsl_ok lex_zsl lex_list.
Proof.
  destruct (zslCreate_spec junk0) as (z0 & Hc & H0). destruct (run_refines junk0 lex_ops z0 [] lex_list [[]; []; []] H0) as (z & Hz & Hok);
    [done|vm_compute; done|]. unfold lex_zsl. rewrite Hc, Hz. exact Hok.
Qed.

Definition lex_range : zlexrangespec := {| lmin := Bound (str "a"); lmax := MaxString; lminex := true; lmaxex := false |}.

Lemma zsl_lex_ranges_witness :
  (exists x, zslFirstInLexRange lex_zsl lex_range = Some x /\ finds lex_zsl x (Some (0, str "b"))) /\
  (exists x, zslLastInLexRange lex_zsl lex_range = Some x /\ finds lex_zsl x (Some (0, str "c"))) /\
  (exists z', zslDeleteRangeByLex lex_zsl lex_range = Some (z', [str "b"; str "c"]) /\ zsl_ok z' [(0, str "a")]).
Proof.
  apply (zsl_lex_ranges lex_zsl lex_list lex_range 0 lex_ok); [reflexivity|done|done|repeat constructor].
Defined.

Lemma zsl_ranks_witness :
  (forall i sc e, example_list !! i = Some (sc, e) -> zslGetRank example_zsl sc e = Some (Z.of_nat i + 1) /\
     exists x, zslGetElementByRank example_zsl (Z.of_nat i + 1) = Some (Some x) /\ member_at example_zsl x = Some (sc, e)) /\
  (forall sc e, zlen e < 2 ^ 31 -> e ∉ map snd example_list -> zslGetRank example_zsl sc e = Some 0) /\
  (forall rank, zlen example_list < rank -> zslGetElementByRank example_zsl rank = Some None).
Proof. apply (zsl_ranks example_zsl example_list example_ok). apply (bool_decide_unpack (NoDup (map snd example_list))). vm_compute. exact I. Defined.

(** The range from - to the string minstring, exclusive: the members in it are
    deleted by range but not found. *)
Definition minstring_range : zlexrangespec := {| lmin := MinString; lmax := Bound (str "minstring"); lminex := false; lmaxex := true |}.

Lemma minstring_range_empty :
  List.filter (in_lex_range minstring_range) lex_list = lex_list /\ zslFirstInLexRange lex_zsl minstring_range = Some None /\
  zslLastInLexRange lex_zsl minstring_range = Some None /\
  option_map snd (zslDeleteRangeByLex lex_zsl minstring_range) = Some (map snd lex_list).
Proof. vm_compute. repeat (split; [reflexivity|]). reflexivity. Qed.
