(* ===== verification/Lzf.v ===== *)
(** lzf_c.c, lzf_d.c: the LZF compression of long strings in RDB files and
    ziplists.

    Configuration of lzfP.h as read on amd64: HLOG 16, VERY_FAST, no
    STRICT_ALIGN, CHECK_INPUT, offsets in the hash table, and INIT_HTAB 0: the
    hash table is an uninitialised local array, here an arbitrary function from
    slots to offsets.  Pointers are offsets into the input or the output. *)

From S2P Require Import Prelude.

(** ** Compression *)

Definition HLOG : Z := 16.
Definition HSIZE : Z := Z.shiftl 1 HLOG.
Definition MAX_LIT : Z := Z.shiftl 1 5.
Definition MAX_OFF : Z := Z.shiftl 1 13.
Definition MAX_REF : Z := Z.shiftl 1 8 + Z.shiftl 1 3.

(** What follows a match: the next turn of the loop, its end, the return of 0. *)
Inductive outcome := Continue | Break | Give_up.

Record cstate := mkC { ip : Z; op : Z; lit : Z; hval : Z; htab : Z -> Z; out : list Z }.

Section Compress.
  Context (inb : list Z).
  Abbreviation in_len := (zlen inb).

Definition FRST (p : Z) : option Z := a ← bget inb p; b ← bget inb (p + 1); Some (Z.lor (Z.shiftl a 8) b).
Definition NEXT (v p : Z) : option Z := c ← bget inb (p + 2); Some (Z.lor (u32 (Z.shiftl v 8)) c).
Definition IDX (h : Z) : Z := Z.land (u32 (Z.shiftr h (3 * 8 - HLOG) - u32 (h * 5))) (HSIZE - 1).
Definition hset (t : Z -> Z) (i v : Z) : Z -> Z := fun j => if j =? i then u32 v else t j.

(** The test for a match at [ref]: the offset. *)
Definition find_match (ref p : Z) : option (option Z) :=
  let off := u64 (p - ref - 1) in
  if negb (off <? MAX_OFF) then Some None else
  if negb (ref >? 0) then Some None else
  a ← bget inb (ref + 2); b ← bget inb (p + 2);
  if negb (a =? b) then Some None else
  v ← bread inb ref 2; w ← bread inb p 2;
  if bool_decide (v = w) then Some (Some off) else Some None.

(** The unrolled comparisons, which stop at the first difference. *)
Fixpoint match_head (n : nat) (len ref p : Z) : option (Z * bool) :=
  match n with
  | O => Some (len, false)
  | S n =>
      let len := len + 1 in
      a ← bget inb (ref + len); b ← bget inb (p + len);
      if a =? b then match_head n len ref p else Some (len, true)
  end.

(** [do len++; while (len < maxlen && ref[len] == ip[len]);] *)
Fixpoint match_tail (fuel : nat) (len maxlen ref p : Z) : option Z :=
  match fuel with
  | O => None
  | S f =>
      let len := len + 1 in
      if len <? maxlen then
        a ← bget inb (ref + len); b ← bget inb (p + len);
        if a =? b then match_tail f len maxlen ref p else Some len
      else Some len
  end.

Definition match_len (maxlen ref p : Z) : option Z :=
  '(len, stop) ← (if maxlen >? 16 then match_head 16 2 ref p else Some (2, false));
  if (stop : bool) then Some len else match_tail (Z.to_nat MAX_REF) len maxlen ref p.

(** [lit++; *op++ = *ip++;], and the end of a full run. *)
Definition literal (s : cstate) : option cstate :=
  c ← bget inb (ip s);
  o ← bset (out s) (op s) c;
  let s := mkC (ip s + 1) (op s + 1) (lit s + 1) (hval s) (htab s) o in
  if lit s =? MAX_LIT then
    o ← bset (out s) (op s - lit s - 1) (u8 (lit s - 1));
    Some (mkC (ip s) (op s + 1) 0 (hval s) (htab s) o)
  else Some s.

(** The command of a back reference of [len] + 2 octets. *)
Definition put_ref (o : list Z) (op off len : Z) : option (list Z * Z) :=
  '(o, op) ← (if len <? 7 then
                o ← bset o op (u8 (Z.shiftr off 8 + Z.shiftl len 5)); Some (o, op + 1)
              else
                o ← bset o op (u8 (Z.shiftr off 8 + Z.shiftl 7 5));
                o ← bset o (op + 1) (u8 (len - 7)); Some (o, op + 2));
  o ← bset o op (u8 off); Some (o, op + 1).

(** A match. *)
Definition back_ref (s : cstate) (ref off : Z) : option (outcome * cstate) :=
  let maxlen := u32 (in_len - ip s - 2) in
  let maxlen := if maxlen >? MAX_REF then MAX_REF else maxlen in
  let nolit := if lit s =? 0 then 1 else 0 in
  if (op s + 3 + 1 >=? zlen (out s)) && (op s - nolit + 3 + 1 >=? zlen (out s)) then Some (Give_up, s) else
  o ← bset (out s) (op s - lit s - 1) (u8 (lit s - 1));
  let op := op s - nolit in
  len ← match_len maxlen ref (ip s);
  let len := len - 2 in
  let p := ip s + 1 in
  '(o, op) ← put_ref o op off len;
  let op := op + 1 in
  let p := p + len + 1 in
  if p >=? in_len - 2 then Some (Break, mkC p op 0 (hval s) (htab s) o) else
  let p := p - 2 in
  h ← FRST p; h ← NEXT h p;
  let t := hset (htab s) (IDX h) p in
  let p := p + 1 in
  h ← NEXT h p;
  let t := hset t (IDX h) p in
  let p := p + 1 in
  Some (Continue, mkC p op 0 h t o).

(** The while loop; the flag is the return of 0. *)
Fixpoint compress_loop (fuel : nat) (s : cstate) : option (bool * cstate) :=
  match fuel with
  | O => None
  | S f =>
      if ip s <? in_len - 2 then
        h ← NEXT (hval s) (ip s);
        let ref := htab s (IDX h) in
        let s := mkC (ip s) (op s) (lit s) h (hset (htab s) (IDX h) (ip s)) (out s) in
        m ← find_match ref (ip s);
        match m with
        | Some off =>
            '(r, s) ← back_ref s ref off;
            match r with Give_up => Some (true, s) | Break => Some (false, s) | Continue => compress_loop f s end
        | None =>
            if op s >=? zlen (out s) then Some (true, s) else
            s ← literal s; compress_loop f s
        end
      else Some (false, s)
  end.

Fixpoint tail_loop (fuel : nat) (s : cstate) : option cstate :=
  match fuel with
  | O => None
  | S f => if ip s <? in_len then s ← literal s; tail_loop f s else Some s
  end.

(** The result and the output buffer; [garbage] is the content of htab. *)
Definition lzf_compress (garbage : Z -> Z) (outb : list Z) : option (Z * list Z) :=
  if (in_len =? 0) || (zlen outb =? 0) then Some (0, outb) else
  h ← FRST 0;
  '(failed, s) ← compress_loop (S (length inb)) (mkC 0 1 0 h (fun i => u32 (garbage i)) outb);
  if failed || (op s + 3 >? zlen (out s)) then Some (0, out s) else
  s ← tail_loop 3 s;
  o ← bset (out s) (op s - lit s - 1) (u8 (lit s - 1));
  Some (u32 (op s - (if lit s =? 0 then 1 else 0)), o).
End Compress.

(** ** Decompression *)

Record dstate := mkD { d_ip : Z; d_op : Z; d_out : list Z }.

(** [do *op++ = *ref++; while (--len);] *)
Fixpoint copy_octets (n : nat) (op ref : Z) (o : list Z) : option (list Z) :=
  match n with
  | O => Some o
  | S n => c ← bget o ref; o ← bset o op c; copy_octets n (op + 1) (ref + 1) o
  end.

Definition copy_ref (len op ref : Z) (o : list Z) : option (list Z) :=
  if len <=? 9 then copy_octets (Z.to_nat (len + 2)) op ref o
  else if op >=? ref + (len + 2) then bmove o op ref (len + 2)
  else copy_octets (Z.to_nat (len + 2)) op ref o.

(** One turn of the do loop; [Some None] is the return of 0 with errno set. *)
Definition dec_step (inb : list Z) (s : dstate) : option (option dstate) :=
  ctrl ← bget inb (d_ip s);
  let p := d_ip s + 1 in
  let op := d_op s in
  if ctrl <? 32 then
    let ctrl := ctrl + 1 in
    if op + ctrl >? zlen (d_out s) then Some None else
    if p + ctrl >? zlen inb then Some None else
    bs ← bread inb p ctrl;
    o ← bwrite (d_out s) op bs;
    Some (Some (mkD (p + ctrl) (op + ctrl) o))
  else
    let len := Z.shiftr ctrl 5 in
    let ref := op - Z.shiftl (Z.land ctrl 31) 8 - 1 in
    if p >=? zlen inb then Some None else
    r ← (if len =? 7 then
           b ← bget inb p;
           if p + 1 >=? zlen inb then Some None else Some (Some (len + b, p + 1))
         else Some (Some (len, p)));
    match r with
    | None => Some None
    | Some (len, p) =>
        b ← bget inb p;
        let ref := ref - b in
        let p := p + 1 in
        if op + len + 2 >? zlen (d_out s) then Some None else
        if ref <? 0 then Some None else
        o ← copy_ref len op ref (d_out s);
        Some (Some (mkD p (op + len + 2) o))
    end.

Fixpoint dec_loop (fuel : nat) (inb : list Z) (s : dstate) : option (Z * list Z) :=
  match fuel with
  | O => None
  | S f =>
      r ← dec_step inb s;
      match r with
      | None => Some (0, d_out s)
      | Some s => if d_ip s <? zlen inb then dec_loop f inb s else Some (u32 (d_op s), d_out s)
      end
  end.

Definition lzf_decompress (inb outb : list Z) : option (Z * list Z) :=
  dec_loop (S (length inb)) inb (mkD 0 0 outb).

Example lzf_ex : (let s := str "abcabcabcabcabcabcabcabcabcxyzabcabcabcabc!!" in
  '(r, o) ← lzf_compress s (fun i => i * 7919) (replicate 40 0);
  '(r', o') ← lzf_decompress (take (Z.to_nat r) o) (replicate 44 0); Some (r, r', bool_decide (o' = s))) = Some (18, 44, true).
Proof. vm_compute. reflexivity. Qed.

(** ** The format *)

Lemma bget_app_l a b i : i < zlen a -> bget (a ++ b) i = bget a i.
Proof. intros Hi. unfold bget. destruct (Z.leb_spec 0 i); [|done]. apply lookup_app_l. lia. Qed.

Lemma bget_app_r a b i : zlen a <= i -> bget (a ++ b) i = bget b (i - zlen a).
Proof. intros Hi. replace i with (zlen a + (i - zlen a)) at 1 by lia. apply bget_pre. lia. Qed.

Lemma bget_ext a b : length a = length b -> (forall i, 0 <= i < zlen a -> bget a i = bget b i) -> a = b.
Proof.
  intros Hl H. apply list_eq. intros i. destruct (decide (i < length a)%nat) as [Hi|Hi].
  - specialize (H (Z.of_nat i) ltac:(lia)). by rewrite !bget_lookup, Nat2Z.id in H by lia.
  - by rewrite !lookup_ge_None_2 by lia.
Qed.

Lemma bget_slice l i n k : 0 <= i -> 0 <= k < n -> i + n <= zlen l ->
  bget (take (Z.to_nat n) (drop (Z.to_nat i) l)) k = bget l (i + k).
Proof.
  intros Hi Hk Hl. rewrite !bget_lookup by lia. rewrite lookup_take by lia. rewrite lookup_drop.
  case_decide; [|lia]. f_equal. lia.
Qed.

(** [r] repeats what starts [off] + 1 octets before it. *)
Definition copies (d : list Z) (off : Z) (r : list Z) : Prop :=
  0 <= off < zlen d /\ forall k, 0 <= k < zlen r -> bget (d ++ r) (zlen d - off - 1 + k) = bget r k.

(** A command, after the data [d], and the data it adds. *)
Inductive command (d : list Z) : list Z -> list Z -> Prop :=
  | cmd_literal l : 1 <= zlen l <= 32 -> command d (zlen l - 1 :: l) l
  | cmd_short off r : copies d off r -> off < 8192 -> 3 <= zlen r <= 8 ->
      command d [off / 256 + 32 * (zlen r - 2); off mod 256] r
  | cmd_long off r : copies d off r -> off < 8192 -> 9 <= zlen r <= 264 ->
      command d [off / 256 + 224; zlen r - 9; off mod 256] r.

Inductive encodes : list Z -> list Z -> Prop :=
  | encodes_nil : encodes [] []
  | encodes_snoc c d cmd r : encodes c d -> command d cmd r -> encodes (c ++ cmd) (d ++ r).

Lemma copies_cons d off x r : copies d off (x :: r) ->
  bget d (zlen d - off - 1) = Some x /\ copies (d ++ [x]) off r.
Proof.
  intros [Ho H]. split.
  - specialize (H 0 ltac:(cbn; lia)). by rewrite Z.add_0_r, bget_app_l in H by lia.
  - split; [rewrite length_app; cbn; lia|]. intros k Hk. specialize (H (k + 1) ltac:(cbn; lia)).
    rewrite <-app_assoc, length_app. cbn [app length] in *.
    replace (Z.of_nat (length d + 1) - off - 1 + k) with (zlen d - off - 1 + (k + 1)) by lia.
    rewrite H. rewrite !bget_lookup by lia. by rewrite Z2Nat.inj_add, Nat.add_1_r by lia.
Qed.

Lemma copy_octets_spec r : forall d off x tail, copies d off r -> length x = length r ->
  copy_octets (length r) (zlen d) (zlen d - off - 1) (d ++ x ++ tail) = Some (d ++ r ++ tail).
Proof.
  induction r as [|c r IH]; intros d off x tail Hc Hl; [by destruct x|].
  destruct x as [|y x]; [done|]. destruct (copies_cons d off c r Hc) as [Hb Hc'].
  cbn [length copy_octets]. rewrite bget_app_l, Hb by (destruct Hc; lia). cbn [mbind option_bind app].
  rewrite bset_app by done. cbn [mbind option_bind].
  specialize (IH (d ++ [c]) off x tail Hc' ltac:(by injection Hl)).
  rewrite <-!app_assoc, length_app in IH. cbn [app length] in IH.
  replace (Z.of_nat (length d + 1)) with (zlen d + 1) in IH by lia.
  by replace (zlen d - off - 1 + 1) with (zlen d + 1 - off - 1) by lia.
Qed.

Lemma copy_ref_spec r d off x tail : copies d off r -> length x = length r -> 3 <= zlen r ->
  copy_ref (zlen r - 2) (zlen d) (zlen d - off - 1) (d ++ x ++ tail) = Some (d ++ r ++ tail).
Proof.
  intros Hc Hl Hr. unfold copy_ref. replace (zlen r - 2 + 2) with (zlen r) by lia.
  rewrite Nat2Z.id, (copy_octets_spec r d off x tail Hc Hl). destruct (zlen r - 2 <=? 9); [done|].
  rewrite Z.geb_leb. destruct (Z.leb_spec (zlen d - off - 1 + zlen r) (zlen d)); [|done].
  destruct Hc as [Ho Hc]. unfold bmove. rewrite bread_eq by (rewrite ?length_app; lia). cbn [mbind option_bind].
  assert (E : take (Z.to_nat (zlen r)) (drop (Z.to_nat (zlen d - off - 1)) (d ++ x ++ tail)) = r); [|by rewrite E; apply bwrite_app].
  apply bget_ext; [rewrite length_take, length_drop, !length_app; lia|].
  intros i Hi. rewrite length_take, length_drop, !length_app in Hi. rewrite bget_slice by (rewrite ?length_app; lia).
  rewrite bget_app_l by lia. rewrite <-(Hc i), bget_app_l by lia. done.
Qed.

Lemma ctrl_short o n : 0 <= o < 32 -> 1 <= n < 8 ->
  Z.shiftr (o + 32 * n) 5 = n /\ Z.land (o + 32 * n) 31 = o /\ 32 <= o + 32 * n < 256.
Proof.
  intros Ho Hn. rewrite Z.shiftr_div_pow2 by lia. change 31 with (Z.ones 5). rewrite Z.land_ones by lia.
  change (2 ^ 5) with 32. split; [|split; [|lia]]; dlia.
Qed.

Lemma dec_step_spec c d cmd r rest x tail : command d cmd r -> length x = length r ->
  dec_step (c ++ cmd ++ rest) (mkD (zlen c) (zlen d) (d ++ x ++ tail)) =
    Some (Some (mkD (zlen c + zlen cmd) (zlen d + zlen r) (d ++ r ++ tail))).
Proof.
  intros Hcmd Hx. unfold dec_step. cbn [d_ip d_op d_out].
  assert (Href : forall off, (zlen d - Z.shiftl (off / 256) 8 - 1) - off mod 256 = zlen d - off - 1).
  { intros off. rewrite Z.shiftl_mul_pow2 by lia. change (2 ^ 8) with 256. dlia. }
  destruct Hcmd as [l Hl|off r Hc Ho Hr|off r Hc Ho Hr].
  - cbn [app]. rewrite bget_mid. cbn [mbind option_bind]. ztrue (zlen l - 1 <? 32).
    rewrite !length_app. cbn [length]. rewrite length_app.
    replace (zlen l - 1 + 1) with (zlen l) by lia.
    rewrite !Z.gtb_ltb. zfalse (Z.of_nat (length d + (length x + length tail)) <? zlen d + zlen l).
    zfalse (Z.of_nat (length c + S (length l + length rest)) <? zlen c + 1 + zlen l).
    replace (c ++ zlen l - 1 :: l ++ rest) with ((c ++ [zlen l - 1]) ++ l ++ rest) by (by rewrite <-app_assoc).
    rewrite (bread_app (c ++ [zlen l - 1]) l rest) by (rewrite ?length_app; cbn; lia).
    cbn [mbind option_bind]. rewrite bwrite_app by done. cbn [mbind option_bind]. do 2 f_equal. f_equal; lia.
  - destruct (ctrl_short (off / 256) (zlen r - 2)) as (E1 & E2 & E3); [|lia|]. { destruct Hc. split; [apply Z.div_pos; lia|]. apply Z.div_lt_upper_bound; lia. }
    cbn [app]. rewrite bget_mid. cbn [mbind option_bind]. zfalse (off / 256 + 32 * (zlen r - 2) <? 32).
    rewrite E1, E2. rewrite !length_app. cbn [length]. rewrite !Z.geb_leb. zfalse (Z.of_nat (length c + S (S (length rest))) <=? zlen c + 1).
    zfalse (zlen r - 2 =? 7). cbn [mbind option_bind]. rewrite bget_app_mid1. cbn [mbind option_bind]. rewrite Href.
    rewrite Z.gtb_ltb. zfalse (Z.of_nat (length d + (length x + length tail)) <? zlen d + (zlen r - 2) + 2).
    destruct Hc as [Hod Hc]. zfalse (zlen d - off - 1 <? 0). rewrite (copy_ref_spec r d off x tail) by (done || lia).
    cbn [mbind option_bind]. do 2 f_equal. f_equal; lia.
  - destruct (ctrl_short (off / 256) 7) as (E1 & E2 & E3); [|lia|]. { destruct Hc. split; [apply Z.div_pos; lia|]. apply Z.div_lt_upper_bound; lia. }
    change (32 * 7) with 224 in *. cbn [app]. rewrite bget_mid. cbn [mbind option_bind]. zfalse (off / 256 + 224 <? 32).
    rewrite E1, E2. rewrite !length_app. cbn [length]. rewrite !Z.geb_leb. zfalse (Z.of_nat (length c + S (S (S (length rest)))) <=? zlen c + 1).
    change (7 =? 7) with true. cbv iota. rewrite bget_app_mid1. cbn [mbind option_bind].
    zfalse (Z.of_nat (length c + S (S (S (length rest)))) <=? zlen c + 1 + 1). cbn [mbind option_bind].
    replace (zlen c + 1 + 1) with (zlen c + 2) by lia. rewrite bget_app_mid2. cbn [mbind option_bind]. rewrite Href.
    replace (7 + (zlen r - 9)) with (zlen r - 2) by lia.
    rewrite Z.gtb_ltb. zfalse (Z.of_nat (length d + (length x + length tail)) <? zlen d + (zlen r - 2) + 2).
    destruct Hc as [Hod Hc]. zfalse (zlen d - off - 1 <? 0). rewrite (copy_ref_spec r d off x tail) by (done || lia).
    cbn [mbind option_bind]. do 2 f_equal. f_equal; lia.
Qed.

Lemma command_length d cmd r : command d cmd r -> 2 <= zlen cmd /\ 1 <= zlen r.
Proof. destruct 1; cbn [length]; lia. Qed.

(** Decompression of a prefix that encodes [d]. *)
Lemma dec_loop_prefix c d : encodes c d -> forall rest x tail, rest <> [] -> length x = length d ->
  exists n, (n <= length c)%nat /\ forall f,
    dec_loop (n + f) (c ++ rest) (mkD 0 0 (x ++ tail)) = dec_loop f (c ++ rest) (mkD (zlen c) (zlen d) (d ++ tail)).
Proof.
  induction 1 as [|c d cmd r Henc IH Hcmd]; intros rest x tail Hrest Hx.
  { exists O. split; [done|]. intros f. by destruct x. }
  rewrite length_app in Hx. destruct (length_split_tail x (length d)) as (x1 & x2 & -> & H1 & H2); [lia|].
  destruct (command_length _ _ _ Hcmd) as [Hlc Hlr].
  destruct (IH (cmd ++ rest) x1 (x2 ++ tail)) as (n & Hn & Hrun); [by destruct cmd|done|].
  exists (n + 1)%nat. split; [rewrite length_app; lia|]. intros f. rewrite <-!app_assoc.
  rewrite <-Nat.add_assoc, Hrun. cbn [Nat.add dec_loop]. rewrite (dec_step_spec c d cmd r rest x2 tail) by (done || lia).
  cbn [mbind option_bind d_ip d_op d_out]. rewrite !length_app.
  destruct rest as [|b rest]; [done|]. cbn [length].
  ztrue (zlen c + zlen cmd <? Z.of_nat (length c + (length cmd + S (length rest)))).
  do 2 f_equal; lia.
Qed.

Lemma lzf_decompress_spec c d x tail : encodes c d -> c <> [] -> length x = length d -> zlen d < 4294967296 ->
  lzf_decompress c (x ++ tail) = Some (zlen d, d ++ tail).
Proof.
  intros Henc Hne Hx Hl. destruct Henc as [|c d cmd r Henc Hcmd]; [done|].
  rewrite length_app in *. destruct (length_split_tail x (length d)) as (x1 & x2 & -> & H1 & H2); [lia|].
  destruct (command_length _ _ _ Hcmd) as [Hlc Hlr]. rewrite <-!app_assoc.
  destruct (dec_loop_prefix c d Henc cmd x1 (x2 ++ tail)) as (n & Hn & Hrun); [by destruct cmd|done|].
  unfold lzf_decompress. rewrite length_app.
  replace (S (length c + length cmd)) with (n + (S (length c + length cmd - n)))%nat by lia. rewrite Hrun.
  cbn [dec_loop]. assert (Hstep := dec_step_spec c d cmd r [] x2 tail Hcmd ltac:(lia)). rewrite app_nil_r in Hstep. rewrite Hstep.
  cbn [mbind option_bind d_ip d_op d_out]. rewrite length_app. zfalse (zlen c + zlen cmd <? Z.of_nat (length c + length cmd)).
  rewrite u32_small by lia. do 2 f_equal. lia.
Qed.

(** ** What the compressor writes *)

Section CompressSpec.
  Context (inb : list Z).
  Context (Hlen : 2 <= zlen inb < 4294967296).
  Abbreviation in_len := (zlen inb).
  Abbreviation upto p := (take (Z.to_nat p) inb).
  Abbreviation slice i n := (take (Z.to_nat n) (drop (Z.to_nat i) inb)).

Lemma upto_slice i n : 0 <= i -> 0 <= n -> upto i ++ slice i n = upto (i + n).
Proof. intros. rewrite Z2Nat.inj_add by lia. apply take_take_drop. Qed.

Lemma zlen_slice i n : 0 <= i -> 0 <= n -> i + n <= in_len -> zlen (slice i n) = n.
Proof. intros. rewrite length_take, length_drop. lia. Qed.

Lemma zlen_upto i : 0 <= i <= in_len -> zlen (upto i) = i.
Proof. intros. rewrite length_take. lia. Qed.

Lemma slice_snoc i n c : 0 <= i -> 0 <= n -> bget inb (i + n) = Some c -> slice i (n + 1) = slice i n ++ [c].
Proof.
  intros Hi Hn Hc. rewrite bget_lookup in Hc by lia. rewrite Z2Nat.inj_add, Nat.add_1_r by lia.
  apply take_S_r. rewrite lookup_drop, <-Hc. f_equal. lia.
Qed.

(** The output so far: [c] encodes the input before the open run, whose [lit]
    octets follow the place of its control octet. *)
Record run_ok (s : cstate) : Prop := {
  run_lit : 0 <= lit s <= 32;
  run_ip : lit s <= ip s <= in_len;
  run_op : op s <= zlen (out s) + 1;
  run_tab : forall i, in_u32 (htab s i);
  run_out : exists c run, out s = c ++ run /\ zlen c = op s - lit s - 1 /\ encodes c (upto (ip s - lit s)) /\
              take (Z.to_nat (lit s)) (drop 1 run) = slice (ip s - lit s) (lit s)
}.

(** Storing the control octet of the run. *)
Lemma close_run s : run_ok s -> op s - lit s - 1 < zlen (out s) ->
  exists o c rest, bset (out s) (op s - lit s - 1) (u8 (lit s - 1)) = Some o /\ o = c ++ rest /\
    length o = length (out s) /\ zlen c = op s - (if lit s =? 0 then 1 else 0) /\ encodes c (upto (ip s)).
Proof.
  intros [Hlit Hip Hop Htab (c & run & Hout & Hc & Henc & Hrun)] Hroom. rewrite Hout, length_app in *.
  destruct run as [|y run]; [cbn in Hroom; lia|]. rewrite <-Hc. exists (c ++ u8 (lit s - 1) :: run).
  rewrite bset_app by done. change (drop 1 (y :: run)) with run in Hrun.
  destruct (Z.eqb_spec (lit s) 0) as [E|E].
  - rewrite E in *. exists c, (u8 (0 - 1) :: run). rewrite Z.sub_0_r in Henc.
    repeat (split; [done || (rewrite ?length_app; done) || lia|]). done.
  - exists (c ++ (lit s - 1) :: slice (ip s - lit s) (lit s)), (drop (Z.to_nat (lit s)) run).
    assert (Hsl := zlen_slice (ip s - lit s) (lit s) ltac:(lia) ltac:(lia) ltac:(lia)).
    assert (Hlr : zlen run = lit s + zlen (drop (Z.to_nat (lit s)) run)).
    { rewrite <-(take_drop (Z.to_nat (lit s)) run) at 1. rewrite length_app, Hrun. lia. }
    split; [done|]. rewrite <-(take_drop (Z.to_nat (lit s)) run), Hrun at 1. rewrite u8_small by lia. split; [by rewrite <-app_assoc|]. split; [by rewrite !length_app|].
    split; [rewrite length_app; cbn [length]; lia|].
    replace (upto (ip s)) with (upto (ip s - lit s) ++ slice (ip s - lit s) (lit s)) by (rewrite upto_slice by lia; do 2 f_equal; lia).
    apply encodes_snoc; [done|]. replace (lit s - 1) with (zlen (slice (ip s - lit s) (lit s)) - 1) by lia. apply cmd_literal. lia.
Qed.

Lemma literal_spec s : run_ok s -> lit s < 32 -> ip s < in_len -> op s < zlen (out s) ->
  exists s', literal inb s = Some s' /\ run_ok s' /\ ip s' = ip s + 1 /\ length (out s') = length (out s) /\
    (lit s < 31 /\ lit s' = lit s + 1 /\ op s' = op s + 1 \/ lit s = 31 /\ lit s' = 0 /\ op s' = op s + 2).
Proof.
  intros [Hlit Hip Hop Htab (c & run & Hout & Hc & Henc & Hrun)] H32 Hin Hroom. unfold literal.
  destruct (bget_is_Some inb (ip s)) as [b Hb]; [lia|]. rewrite Hb. cbn [mbind option_bind].
  rewrite Hout, length_app in Hroom. destruct run as [|y run]; [cbn in Hroom; lia|]. change (drop 1 (y :: run)) with run in Hrun. cbn [length] in *.
  assert (Hsl := zlen_slice (ip s - lit s) (lit s) ltac:(lia) ltac:(lia) ltac:(lia)).
  assert (Hlr : zlen run = lit s + zlen (drop (Z.to_nat (lit s)) run)).
  { rewrite <-(take_drop (Z.to_nat (lit s)) run) at 1. rewrite length_app, Hrun. lia. }
  rewrite <-(take_drop (Z.to_nat (lit s)) run), Hrun in Hout.
  destruct (drop (Z.to_nat (lit s)) run) as [|z tl]; [cbn in Hlr; lia|].
  replace (c ++ y :: slice (ip s - lit s) (lit s) ++ z :: tl) with ((c ++ y :: slice (ip s - lit s) (lit s)) ++ z :: tl) in Hout
    by (by rewrite <-app_assoc).
  rewrite Hout, bset_app by (rewrite length_app; cbn [length]; lia). cbn [mbind option_bind].
  set (s1 := mkC _ _ _ _ _ _).
  assert (Hl1 : length (out s1) = length (out s)) by (unfold s1; rewrite Hout, !length_app; cbn [out length]; rewrite !length_app; done).
  assert (H1 : run_ok s1).
  { split; [cbn; lia|cbn; lia| |done|].
    - rewrite Hl1. cbn. rewrite Hout, !length_app. cbn [length]. lia.
    - exists c, (y :: slice (ip s - lit s) (lit s) ++ b :: tl). cbn [out lit ip op s1].
      replace (ip s + 1 - (lit s + 1)) with (ip s - lit s) by lia. split; [by rewrite <-app_assoc|]. split; [lia|]. split; [done|].
      match goal with |- context [drop 1 (y :: ?r)] => change (drop 1 (y :: r)) with r end. rewrite (slice_snoc (ip s - lit s) (lit s) b) by (lia || by rewrite Z.sub_add).
      rewrite (app_assoc (slice _ _) [b] tl : _ ++ b :: tl = _).
      replace (Z.to_nat (lit s + 1)) with (length (slice (ip s - lit s) (lit s) ++ [b])) by (rewrite length_app; cbn; lia).
      apply take_app_length. }
  cbn [lit s1]. change MAX_LIT with 32. destruct (Z.eqb_spec (lit s + 1) 32).
  - destruct (close_run s1 H1) as (o & c' & rest & Ho & -> & Hlo & Hc' & Henc').
    { rewrite Hl1, Hout, !length_app. cbn [op lit s1 length]. lia. }
    cbn [out op lit s1] in *. rewrite Ho. cbn [mbind option_bind]. zfalse (lit s + 1 =? 0). revert Hc'. zfalse (lit s + 1 =? 0). intros Hc'.
    eexists. split; [done|]. cbn [ip out lit op htab hval]. split; [|split; [done|split; [congruence|right; lia]]].
    split; [cbn; lia|cbn; lia| |done|].
    + cbn [op out]. rewrite Hlo. rewrite Hl1, Hout, !length_app. cbn [length]. lia.
    + exists c', rest. cbn [out op lit ip]. rewrite !Z.sub_0_r. split; [done|]. split; [lia|]. split; [exact Henc'|]. by rewrite !take_0.
  - exists s1. split; [done|]. split; [exact H1|]. split; [done|]. split; [by rewrite Hl1, Hout|]. left. cbn. lia.
Qed.

(** ** Matches *)

Definition same (ref p n : Z) : Prop := forall k, 0 <= k < n -> bget inb (ref + k) = bget inb (p + k).

Lemma same_snoc ref p n a b : same ref p n -> bget inb (ref + n) = Some a -> bget inb (p + n) = Some b -> a = b -> same ref p (n + 1).
Proof. intros Hs Ha Hb -> k Hk. destruct (decide (k = n)) as [->|]; [congruence|]. apply Hs. lia. Qed.

Lemma match_head_spec n ref p : 0 <= ref < p -> forall len, 0 <= len -> p + len + Z.of_nat n < in_len -> same ref p (len + 1) ->
  exists len' stop, match_head inb n len ref p = Some (len', stop) /\
    if (stop : bool) then len < len' <= len + Z.of_nat n /\ same ref p len' else len' = len + Z.of_nat n /\ same ref p (len' + 1).
Proof.
  intros Href. induction n as [|n IH]; intros len H0 Hp Hs; cbn [match_head].
  { exists len, false. split; [done|]. split; [lia|done]. }
  destruct (bget_is_Some inb (ref + (len + 1))) as [a Ha]; [lia|]. destruct (bget_is_Some inb (p + (len + 1))) as [b Hb]; [lia|].
  rewrite Ha, Hb. cbn [mbind option_bind]. destruct (Z.eqb_spec a b) as [E|E].
  - destruct (IH (len + 1)) as (len' & stop & -> & H); [lia|lia|by apply (same_snoc ref p (len + 1) a b)|].
    exists len', stop. split; [done|]. destruct stop; destruct H; split; (done || lia).
  - exists (len + 1), true. split; [done|]. split; [lia|done].
Qed.

Lemma match_tail_spec fuel ref p maxlen : 0 <= ref < p -> p + maxlen + 2 <= in_len -> forall len, 0 <= len -> p + len + 1 <= in_len ->
  same ref p (len + 1) -> maxlen - len < Z.of_nat fuel -> (0 < fuel)%nat ->
  exists len', match_tail inb fuel len maxlen ref p = Some len' /\ len + 1 <= len' /\ (len' <= maxlen \/ len' = len + 1) /\ same ref p len'.
Proof.
  intros Href Hmax. induction fuel as [|f IH]; intros len H0 Hp Hs Hf Hpos; [lia|]. cbn [match_tail].
  destruct (Z.ltb_spec (len + 1) maxlen).
  - destruct (bget_is_Some inb (ref + (len + 1))) as [a Ha]; [lia|]. destruct (bget_is_Some inb (p + (len + 1))) as [b Hb]; [lia|].
    rewrite Ha, Hb. cbn [mbind option_bind]. destruct (Z.eqb_spec a b) as [E|E].
    + destruct (IH (len + 1)) as (len' & -> & H1 & H2 & H3); [lia|lia|by apply (same_snoc ref p (len + 1) a b)|lia|lia|].
      exists len'. split; [done|]. split; [lia|]. split; [lia|done].
    + exists (len + 1). split; [done|]. split; [lia|]. split; [lia|done].
  - exists (len + 1). split; [done|]. split; [lia|]. split; [lia|done].
Qed.

Lemma match_len_spec ref p maxlen : 0 <= ref < p -> same ref p 3 -> 1 <= maxlen <= 264 -> p + maxlen + 2 <= in_len ->
  exists len, match_len inb maxlen ref p = Some len /\ 3 <= len <= 264 /\ p + len <= in_len /\ same ref p len.
Proof.
  intros Href Hs Hmax Hp. unfold match_len. change (Z.to_nat MAX_REF) with 264%nat. rewrite Z.gtb_ltb. destruct (Z.ltb_spec 16 maxlen).
  - destruct (match_head_spec 16 ref p Href 2) as (len & stop & -> & H'); [lia|lia|done|]. cbn [mbind option_bind]. destruct stop.
    + destruct H'. exists len. split; [done|]. split; [lia|]. split; [lia|done].
    + destruct H' as [Hl Hs']. destruct (match_tail_spec 264 ref p maxlen Href Hp len) as (len' & -> & H1 & H2 & H3); [lia|lia|done|lia|lia|].
      exists len'. split; [done|]. split; [lia|]. split; [lia|done].
  - cbn [mbind option_bind]. destruct (match_tail_spec 264 ref p maxlen Href Hp 2) as (len' & -> & H1 & H2 & H3); [lia|lia|done|lia|lia|].
    exists len'. split; [done|]. split; [lia|]. split; [lia|done].
Qed.

Lemma find_match_spec ref p : 0 <= p -> p + 2 < in_len -> in_u32 ref ->
  exists m, find_match inb ref p = Some m /\
    (forall off, m = Some off -> 0 <= off < 8192 /\ ref = p - off - 1 /\ 0 < ref /\ same ref p 3).
Proof.
  intros H0 Hp Href. unfold find_match, in_u32 in *. change MAX_OFF with 8192.
  destruct (Z.ltb_spec (u64 (p - ref - 1)) 8192) as [Ho|]; [|by exists None]. cbn [negb].
  rewrite Z.gtb_ltb. destruct (Z.ltb_spec 0 ref); [|by exists None]. cbn [negb].
  assert (Eoff : u64 (p - ref - 1) = p - ref - 1 /\ ref < p) by (revert Ho; unfold u64; dlia). destruct Eoff as [-> Hlt].
  destruct (bget_is_Some inb (ref + 2)) as [a Ha]; [lia|]. destruct (bget_is_Some inb (p + 2)) as [b Hb]; [lia|].
  rewrite Ha, Hb. cbn [mbind option_bind]. destruct (Z.eqb_spec a b) as [E|]; [|by exists None]. cbn [negb].
  rewrite !bread_eq by lia. cbn [mbind option_bind]. case_bool_decide as Hv; [|by exists None].
  eexists. split; [done|]. intros off [= <-]. revert Ho. rewrite u64_small by lia. intros Ho. split; [lia|]. split; [lia|]. split; [lia|].
  apply (same_snoc ref p 2 a b); [|done..].
  intros k Hk. rewrite <-(bget_slice inb ref 2 k), <-(bget_slice inb p 2 k), Hv by lia. done.
Qed.

Lemma same_copies p off len : same (p - off - 1) p len -> 0 <= off -> 0 <= p - off - 1 -> 0 <= len -> p + len <= in_len ->
  copies (upto p) off (slice p len).
Proof.
  intros Hs Ho Hr Hl Hp. split; [rewrite zlen_upto by lia; lia|]. rewrite zlen_slice, zlen_upto by lia. intros k Hk.
  rewrite upto_slice by lia. rewrite (bget_slice inb p len k) by lia. rewrite <-(Hs k) by lia.
  replace (upto (p + len)) with (slice 0 (p + len)) by done. rewrite bget_slice by lia. f_equal. all: lia.
Qed.

(** The command for a match of the slice [r] at distance [off] + 1. *)
Lemma put_ref_spec c rest d off r : copies d off r -> off < 8192 -> 3 <= zlen r <= 264 -> 3 <= zlen rest ->
  exists cmd rest', put_ref (c ++ rest) (zlen c) off (zlen r - 2) = Some (c ++ cmd ++ rest', zlen c + zlen cmd) /\
    command d cmd r /\ 2 <= zlen cmd <= 3 /\ length (cmd ++ rest') = length rest.
Proof.
  intros Hc Ho Hr Hrest. destruct rest as [|x [|y [|z rest]]]; cbn [length] in Hrest; [lia..|]. unfold put_ref.
  assert (H0 : 0 <= off) by (destruct Hc; lia). assert (Hd : 0 <= off / 256 < 32) by (split; [apply Z.div_pos; lia|apply Z.div_lt_upper_bound; lia]).
  rewrite !(Z.shiftl_mul_pow2 _ 5), (Z.shiftr_div_pow2 off 8) by lia. change (2 ^ 5) with 32. change (2 ^ 8) with 256.
  destruct (Z.ltb_spec (zlen r - 2) 7).
  - rewrite bset_app by done. cbn [mbind option_bind]. rewrite (cons_middle _ c), app_assoc, bset_app by (rewrite length_app; cbn; lia). cbn [mbind option_bind].
    exists [u8 (off / 256 + (zlen r - 2) * 32); u8 off], (z :: rest). split; [|split; [|split; [cbn; lia|done]]].
    + do 2 f_equal; [by rewrite <-app_assoc|cbn; lia].
    + rewrite u8_small by lia. rewrite (Z.mul_comm _ 32). apply cmd_short; (done || lia).
  - rewrite bset_app by done. cbn [mbind option_bind]. rewrite (cons_middle _ c), app_assoc, bset_app by (rewrite length_app; cbn; lia). cbn [mbind option_bind].
    rewrite (cons_middle _ (c ++ _)), app_assoc, bset_app by (rewrite !length_app; cbn; lia). cbn [mbind option_bind].
    exists [u8 (off / 256 + 224); u8 (zlen r - 2 - 7); u8 off], rest. split; [|split; [|split; [cbn; lia|done]]].
    + do 2 f_equal; [by rewrite <-!app_assoc|cbn; lia].
    + rewrite !u8_small by lia. replace (zlen r - 2 - 7) with (zlen r - 9) by lia. apply cmd_long; (done || lia).
Qed.

Lemma hset_range t i v : (forall j, in_u32 (t j)) -> forall j, in_u32 (hset t i v j).
Proof. intros Ht j. unfold hset. destruct (j =? i); [|done]. unfold in_u32, u32. apply Z.mod_pos_bound. lia. Qed.

Lemma NEXT_some h p : 0 <= p -> p + 2 < in_len -> exists v, NEXT inb h p = Some v.
Proof. intros. unfold NEXT. destruct (bget_is_Some inb (p + 2)) as [c ->]; [lia|]. by eexists. Qed.

Lemma FRST_some p : 0 <= p -> p + 1 < in_len -> exists v, FRST inb p = Some v.
Proof.
  intros. unfold FRST. destruct (bget_is_Some inb p) as [a ->]; [lia|]. destruct (bget_is_Some inb (p + 1)) as [b ->]; [lia|]. by eexists.
Qed.

Lemma back_ref_spec s off : run_ok s -> lit s < 32 -> ip s + 2 < in_len ->
  0 <= off < 8192 -> 0 < ip s - off - 1 -> same (ip s - off - 1) (ip s) 3 ->
  exists r s', back_ref inb s (ip s - off - 1) off = Some (r, s') /\ length (out s') = length (out s) /\
    match r with
    | Give_up => True
    | Break => run_ok s' /\ lit s' < 32 /\ in_len - 2 <= ip s'
    | Continue => run_ok s' /\ lit s' < 32 /\ ip s < ip s' 
    end.
Proof.
  intros Hs H32 Hin Hoff Href Hsame. unfold back_ref. cbv zeta. assert (Hs' := Hs). destruct Hs' as [Hlit Hip Hop Htab _].
  set (nolit := if lit s =? 0 then 1 else 0).
  assert (Hno : 0 <= nolit <= 1) by (unfold nolit; destruct (lit s =? 0); lia).
  rewrite !Z.geb_leb. destruct (Z.leb_spec (zlen (out s)) (op s - nolit + 3 + 1)) as [Hroom|Hroom].
  { ztrue (zlen (out s) <=? op s + 3 + 1). by exists Give_up, s. }
  rewrite andb_false_r. destruct (close_run s Hs) as (o & c & rest & -> & -> & Hlo & Hc & Henc); [lia|]. cbn [mbind option_bind].
  fold nolit in Hc. rewrite <-Hc. rewrite length_app in Hlo. rewrite (u32_small (in_len - ip s - 2)) by lia.
  destruct (match_len_spec (ip s - off - 1) (ip s) (if in_len - ip s - 2 >? MAX_REF then MAX_REF else in_len - ip s - 2))
    as (len & -> & Hl & Hpl & Hsl); [lia|done|..]; [change MAX_REF with 264; rewrite Z.gtb_ltb; destruct (Z.ltb_spec 264 (in_len - ip s - 2)); lia..|].
  cbn [mbind option_bind]. assert (Hzl := zlen_slice (ip s) len ltac:(lia) ltac:(lia) ltac:(lia)).
  destruct (put_ref_spec c rest (upto (ip s)) off (slice (ip s) len)) as (cmd & rest' & Hput & Hcmd & Hlc & Hlr).
  { apply same_copies; (done || lia). } { lia. } { lia. } { lia. }
  rewrite Hzl in Hput. rewrite Hput. cbn [mbind option_bind]. rewrite length_app in Hlr.
  assert (Hnew : forall p h t, p = ip s + len -> (forall j, in_u32 (t j)) -> run_ok (mkC p (zlen c + zlen cmd + 1) 0 h t (c ++ cmd ++ rest'))).
  { intros p h t -> Ht. split; cbn [lit ip op htab out]; [lia|lia|rewrite !length_app; lia|done|].
    exists (c ++ cmd), rest'. rewrite !Z.sub_0_r, length_app. split; [by rewrite <-app_assoc|]. split; [lia|]. split; [|by rewrite !take_0].
    rewrite <-upto_slice by lia. by apply encodes_snoc. }
  assert (Hlen' : length (c ++ cmd ++ rest') = length (out s)) by (rewrite !length_app; lia).
  replace (ip s + 1 + (len - 2) + 1) with (ip s + len) by lia. rewrite Z.geb_leb. destruct (Z.leb_spec (in_len - 2) (ip s + len)) as [Hend|Hend].
  { eexists Break, _. split; [done|]. split; [done|]. split; [by apply Hnew|]. cbn. lia. }
  destruct (FRST_some (ip s + len - 2)) as [h1 ->]; [lia|lia|]. cbn [mbind option_bind].
  destruct (NEXT_some h1 (ip s + len - 2)) as [h2 ->]; [lia|lia|]. cbn [mbind option_bind].
  destruct (NEXT_some h2 (ip s + len - 2 + 1)) as [h3 ->]; [lia|lia|]. cbn [mbind option_bind].
  eexists Continue, _. split; [done|]. split; [done|]. split; [|cbn; lia].
  apply Hnew; [lia|]. by do 2 apply hset_range.
Qed.

Lemma compress_loop_spec fuel : forall s, run_ok s -> lit s < 32 -> 0 <= ip s -> in_len - ip s < Z.of_nat fuel ->
  exists failed s', compress_loop inb fuel s = Some (failed, s') /\ length (out s') = length (out s) /\
    (failed = false -> run_ok s' /\ lit s' < 32 /\ in_len - 2 <= ip s').
Proof.
  induction fuel as [|f IH]; intros s Hs H32 H0 Hf; [destruct Hs; lia|]. cbn [compress_loop].
  destruct (Z.ltb_spec (ip s) (in_len - 2)) as [Hin|Hin].
  2: { exists false, s. split; [done|]. split; [done|]. done. }
  destruct (NEXT_some (hval s) (ip s)) as [h ->]; [lia|lia|]. cbn [mbind option_bind]. cbv zeta. cbn [ip].
  set (ref := htab s (IDX h)). set (s1 := mkC _ _ _ _ _ _).
  assert (H1 : run_ok s1). { destruct Hs as [? ? ? Htab ?]. split; try done. by apply hset_range. }
  destruct (find_match_spec ref (ip s)) as (m & Hm & Hspec); [lia|lia|by apply Hs|]. cbn [ip s1]. rewrite Hm. cbn [mbind option_bind].
  destruct m as [off|].
  - destruct (Hspec off eq_refl) as (Ho & Hr & Hpos & Hsame). rewrite Hr in *.
    destruct (back_ref_spec s1 off H1 H32) as (r & s' & Hb & Hl & Hcase); [cbn; lia|lia|cbn; lia|done|]. cbn [ip s1] in Hb. rewrite Hb.
    cbn [mbind option_bind]. destruct r.
    + destruct Hcase as (Hok & H32' & Hip). cbn [ip s1] in Hip. destruct (IH s' Hok H32') as (failed & s2 & -> & Hl2 & Hres); [lia|lia|].
      exists failed, s2. split; [done|]. split; [by rewrite Hl2, Hl|done].
    + exists false, s'. split; [done|]. split; [exact Hl|done].
    + exists true, s'. split; [done|]. split; [exact Hl|done].
  - destruct (Z.geb_spec (op s1) (zlen (out s1))) as [Hroom|Hroom]; [by exists true, s1|].
    destruct (literal_spec s1 H1 H32) as (s' & -> & Hok & Hip & Hl & Hcase); [cbn; lia|lia|]. cbn [mbind option_bind].
    cbn [ip lit s1] in Hip, Hcase. destruct (IH s' Hok) as (failed & s2 & -> & Hl2 & Hres); [lia|lia|lia|].
    exists failed, s2. split; [done|]. split; [by rewrite Hl2, Hl|done].
Qed.

Lemma tail_steps n : forall s, run_ok s -> lit s < 32 -> in_len - Z.of_nat n <= ip s -> (n <= 2)%nat ->
  op s + Z.of_nat n + (if 31 <? lit s + Z.of_nat n then 1 else 0) <= zlen (out s) ->
  exists s', tail_loop inb (S n) s = Some s' /\ run_ok s' /\ ip s' = in_len /\ length (out s') = length (out s) /\ op s' - lit s' - 1 < zlen (out s').
Proof.
  induction n as [|n IH]; intros s Hs H32 Hip Hn Hroom; assert (Hi := run_ip s Hs); assert (Hl := run_lit s Hs).
  - cbn [tail_loop]. zfalse (ip s <? in_len). exists s. split; [done|]. split; [done|]. split; [lia|]. split; [done|].
    destruct (31 <? lit s + Z.of_nat 0); lia.
  - change (tail_loop inb (S (S n)) s) with (if ip s <? in_len then s ← literal inb s; tail_loop inb (S n) s else Some s).
    destruct (Z.ltb_spec (ip s) in_len) as [Hlt|Hge].
    + destruct (literal_spec s Hs H32) as (s1 & -> & H1 & Hip1 & Hl1 & Hc); [lia|destruct (31 <? lit s + Z.of_nat (S n)); lia|].
      cbn [mbind option_bind]. destruct (IH s1) as (s' & -> & ? & ? & Hl' & ?); [done|lia|lia|lia| |exists s'; by rewrite <-Hl1].
      rewrite Hl1. destruct (Z.ltb_spec 31 (lit s + Z.of_nat (S n))), (Z.ltb_spec 31 (lit s1 + Z.of_nat n)); lia.
    + exists s. split; [done|]. split; [done|]. split; [lia|]. split; [done|]. destruct (31 <? lit s + Z.of_nat (S n)); lia.
Qed.
End CompressSpec.

(** ** Properties *)

(** The compressor on an input of at least two bytes. *)
Lemma lzf_compress_spec inb garbage outb : 2 <= zlen inb < 4294967296 -> zlen outb < 4294967296 ->
  exists r o, lzf_compress inb garbage outb = Some (r, o) /\ length o = length outb /\ 0 <= r <= zlen outb /\
    (r <> 0 -> encodes (take (Z.to_nat r) o) inb).
Proof.
  intros Hin Hout. unfold lzf_compress. zfalse (zlen inb =? 0).
  destruct (Z.eqb_spec (zlen outb) 0) as [E|E]; cbn [orb]; [exists 0, outb; split; [done|]; split; [done|]; split; [lia|done]|].
  destruct (FRST_some inb 0) as [h ->]; [lia|lia|]. cbn [mbind option_bind].
  assert (H0 : run_ok inb (mkC 0 1 0 h (fun i => u32 (garbage i)) outb)).
  { split; cbn [lit ip op htab out]; [lia|lia|lia| |].
    - intros i. unfold in_u32, u32. apply Z.mod_pos_bound. lia.
    - exists [], outb. rewrite !take_0. split; [done|]. split; [done|]. split; [constructor|done]. }
  destruct (compress_loop_spec inb Hin (S (length inb)) _ H0) as (failed & s & -> & Hl & Hres); [done|done|cbn [ip]; lia|].
  cbn [mbind option_bind out] in *. destruct failed; cbn [orb].
  { exists 0, (out s). split; [done|]. split; [done|]. split; [lia|done]. }
  destruct (Hres eq_refl) as (Hok & H32 & Hip). rewrite Z.gtb_ltb. destruct (Z.ltb_spec (zlen (out s)) (op s + 3)).
  { exists 0, (out s). split; [done|]. split; [done|]. split; [lia|done]. }
  destruct (tail_steps inb Hin 2 s Hok H32) as (s' & -> & Hok' & Hip' & Hl' & Hroom); [lia|lia|destruct (31 <? _); lia|].
  cbn [mbind option_bind]. destruct (close_run inb Hin s' Hok' Hroom) as (o & c & rest & -> & -> & Hlo & Hc & Henc). cbn [mbind option_bind].
  rewrite <-Hc. rewrite length_app in Hlo. rewrite u32_small by lia. exists (zlen c), (c ++ rest). split; [done|].
  split; [rewrite length_app; lia|]. split; [lia|]. intros _. rewrite Nat2Z.id, take_app_length.
  rewrite Hip', Nat2Z.id, firstn_all in Henc. done.
Qed.

Lemma encodes_nonempty c d : encodes c d -> d <> [] -> c <> [].
Proof. destruct 1 as [|c d cmd r _ Hcmd]; [done|]. intros _ E. apply app_eq_nil in E as [_ ->]. by inversion Hcmd. Qed.

(** C37. Whatever the uninitialised hash table holds, lzf_compress stays inside
    its input and its output buffer and returns; when it does not give up, what
    it wrote is decompressed into the input by lzf_decompress, in any output
    buffer that is large enough. *)
Theorem lzf_roundtrip inb garbage outb : 2 <= zlen inb < 4294967296 -> zlen outb < 4294967296 ->
  exists r o, lzf_compress inb garbage outb = Some (r, o) /\ length o = length outb /\ 0 <= r <= zlen outb /\
    (r <> 0 -> forall dst, zlen inb <= zlen dst ->
       lzf_decompress (take (Z.to_nat r) o) dst = Some (zlen inb, inb ++ drop (length inb) dst)).
Proof.
  intros Hin Hout. destruct (lzf_compress_spec inb garbage outb Hin Hout) as (r & o & Hrun & Hlo & Hr & Henc).
  exists r, o. split; [done|]. split; [done|]. split; [done|]. intros Hne dst Hdst. specialize (Henc Hne).
  rewrite <-(take_drop (length inb) dst) at 1. apply lzf_decompress_spec; [done| |rewrite length_take; lia|lia].
  apply (encodes_nonempty _ _ Henc). intros E. rewrite E in Hin. cbn in Hin. lia.
Qed.

Lemma bset_some b i v : 0 <= i < zlen b -> exists b', bset b i v = Some b' /\ length b' = length b.
Proof.
  intros Hi. unfold bset. rewrite bwrite_eq by (cbn; lia). eexists. split; [done|].
  eapply bwrite_length. rewrite bwrite_eq; [done|cbn; lia..].
Qed.

Lemma bwrite_some b off bs : 0 <= off -> off + zlen bs <= zlen b -> exists b', bwrite b off bs = Some b' /\ length b' = length b.
Proof. intros H0 H1. rewrite bwrite_eq by done. eexists. split; [done|]. eapply bwrite_length. by rewrite bwrite_eq. Qed.

Lemma copy_octets_some n : forall op ref o, 0 <= ref -> ref < op -> op + Z.of_nat n <= zlen o ->
  exists o', copy_octets n op ref o = Some o' /\ length o' = length o.
Proof.
  induction n as [|n IH]; intros op ref o H0 Hr Hl; cbn [copy_octets]; [by exists o|].
  destruct (bget_is_Some o ref) as [c ->]; [lia|]. cbn [mbind option_bind].
  destruct (bset_some o op c) as (o1 & -> & Hl1); [lia|]. cbn [mbind option_bind].
  destruct (IH (op + 1) (ref + 1) o1) as (o2 & -> & Hl2); [lia..|]. exists o2. by rewrite Hl2.
Qed.

Lemma copy_ref_some len op ref o : 0 <= ref -> ref < op -> 0 <= len -> op + len + 2 <= zlen o ->
  exists o', copy_ref len op ref o = Some o' /\ length o' = length o.
Proof.
  intros H0 Hr Hlen Hl. unfold copy_ref. destruct (copy_octets_some (Z.to_nat (len + 2)) op ref o) as (o' & -> & Ho); [lia..|].
  destruct (len <=? 9); [by exists o'|]. destruct (op >=? ref + (len + 2)); [|by exists o'].
  unfold bmove. rewrite bread_eq by lia. cbn [mbind option_bind]. apply bwrite_some; [lia|]. rewrite length_take, length_drop. lia.
Qed.

Lemma bytes_ok_bget b i c : bytes_ok b -> bget b i = Some c -> 0 <= c < 256.
Proof. intros Hb. unfold bget. destruct (0 <=? i); [|done]. intros Hc. by eapply Forall_lookup_1 in Hb. Qed.

Lemma dec_step_safe inb s : bytes_ok inb -> 0 <= d_ip s < zlen inb -> 0 <= d_op s <= zlen (d_out s) ->
  exists r, dec_step inb s = Some r /\
    forall s', r = Some s' -> d_ip s < d_ip s' <= zlen inb /\ 0 <= d_op s' <= zlen (d_out s') /\ length (d_out s') = length (d_out s).
Proof.
  intros Hb Hip Hop. unfold dec_step. destruct (bget_is_Some inb (d_ip s)) as [ctrl Hc]; [lia|]. rewrite Hc. cbn [mbind option_bind].
  apply bytes_ok_bget in Hc as Hcb; [|done]. destruct (Z.ltb_spec ctrl 32) as [Hlit|Href].
  - rewrite !Z.gtb_ltb. destruct (Z.ltb_spec (zlen (d_out s)) (d_op s + (ctrl + 1))); [by exists None|].
    destruct (Z.ltb_spec (zlen inb) (d_ip s + 1 + (ctrl + 1))); [by exists None|].
    rewrite bread_eq by lia. cbn [mbind option_bind]. destruct (bwrite_some (d_out s) (d_op s) (take (Z.to_nat (ctrl + 1)) (drop (Z.to_nat (d_ip s + 1)) inb)))
      as (o & -> & Ho); [lia|rewrite length_take, length_drop; lia|]. cbn [mbind option_bind].
    eexists. split; [done|]. intros s' [= <-]. cbn. rewrite Ho. lia.
  - rewrite !Z.geb_leb. assert (Hl : 1 <= Z.shiftr ctrl 5 <= 7) by (rewrite Z.shiftr_div_pow2 by lia; change (2 ^ 5) with 32; dlia).
    assert (Hh : 0 <= Z.shiftl (Z.land ctrl 31) 8).
    { apply Z.shiftl_nonneg. apply Z.land_nonneg. lia. }
    destruct (Z.leb_spec (zlen inb) (d_ip s + 1)); [by exists None|].
    assert (Hr : exists r, (if Z.shiftr ctrl 5 =? 7 then b ← bget inb (d_ip s + 1);
           if zlen inb <=? d_ip s + 1 + 1 then Some None else Some (Some (Z.shiftr ctrl 5 + b, d_ip s + 1 + 1))
         else Some (Some (Z.shiftr ctrl 5, d_ip s + 1))) = Some r /\
         forall len p, r = Some (len, p) -> 1 <= len /\ d_ip s < p < zlen inb).
    { destruct (Z.eqb_spec (Z.shiftr ctrl 5) 7) as [E|E].
      - destruct (bget_is_Some inb (d_ip s + 1)) as [b Hb1]; [lia|]. rewrite Hb1. cbn [mbind option_bind]. apply bytes_ok_bget in Hb1; [|done].
        destruct (Z.leb_spec (zlen inb) (d_ip s + 1 + 1)); [by exists None|]. eexists. split; [done|]. intros len p [= <- <-]. lia.
      - eexists. split; [done|]. intros len p [= <- <-]. lia. }
    destruct Hr as (r & Er & Hr). rewrite Er. cbn [mbind option_bind]. destruct r as [[len p]|]; [|by exists None].
    destruct (Hr len p eq_refl) as [Hlen Hp]. destruct (bget_is_Some inb p) as [b Hb1]; [lia|]. rewrite Hb1. cbn [mbind option_bind].
    apply bytes_ok_bget in Hb1; [|done]. rewrite Z.gtb_ltb. destruct (Z.ltb_spec (zlen (d_out s)) (d_op s + len + 2)); [by exists None|].
    destruct (Z.ltb_spec (d_op s - Z.shiftl (Z.land ctrl 31) 8 - 1 - b) 0); [by exists None|].
    destruct (copy_ref_some len (d_op s) (d_op s - Z.shiftl (Z.land ctrl 31) 8 - 1 - b) (d_out s)) as (o & -> & Ho); [lia..|].
    cbn [mbind option_bind]. eexists. split; [done|]. intros s' [= <-]. cbn. rewrite Ho. lia.
Qed.

Lemma dec_loop_safe inb fuel : bytes_ok inb -> forall s, 0 <= d_ip s < zlen inb -> 0 <= d_op s <= zlen (d_out s) -> zlen (d_out s) < 4294967296 ->
  zlen inb - d_ip s < Z.of_nat fuel ->
  exists r o, dec_loop fuel inb s = Some (r, o) /\ length o = length (d_out s) /\ 0 <= r <= zlen o.
Proof.
  intros Hb. induction fuel as [|f IH]; intros s Hip Hop Hl Hf; [lia|]. cbn [dec_loop].
  destruct (dec_step_safe inb s Hb Hip Hop) as (r & -> & Hr). cbn [mbind option_bind]. destruct r as [s'|].
  2: { exists 0, (d_out s). split; [done|]. split; [done|]. lia. }
  destruct (Hr s' eq_refl) as (Hip' & Hop' & Hl'). destruct (Z.ltb_spec (d_ip s') (zlen inb)).
  - destruct (IH s') as (r & o & -> & Ho & Hro); [lia|lia|lia|lia|]. exists r, o. split; [done|]. split; [congruence|done].
  - rewrite u32_small by lia. exists (d_op s'), (d_out s'). split; [done|]. split; [done|]. lia.
Qed.

(** C38. On any bytes at all, corrupted or not, lzf_decompress returns, reads
    only inside its input and writes only inside its output buffer; the length
    it returns is within that buffer. *)
Theorem lzf_decompress_safe inb outb : bytes_ok inb -> inb <> [] -> zlen outb < 4294967296 ->
  exists r o, lzf_decompress inb outb = Some (r, o) /\ length o = length outb /\ 0 <= r <= zlen outb.
Proof.
  intros Hb Hne Hl. assert (0 < zlen inb) by (destruct inb; [done|cbn; lia]).
  destruct (dec_loop_safe inb (S (length inb)) Hb (mkD 0 0 outb)) as (r & o & Hrun & Ho & Hr); cbn [d_ip d_op d_out]; [lia..|].
  exists r, o. split; [done|]. split; [done|]. cbn in Ho. by rewrite <-Ho.
Qed.

(** With one byte of input the hash of the first two is read anyway. *)
Example lzf_compress_one : lzf_compress [65] (fun _ => 0) [0; 0; 0; 0; 0] = None.
Proof. reflexivity. Qed.

Lemma lzf_roundtrip_witness : let s := str "abcabcabcabcabcabcabcabcabcxyzabcabcabcabc!!" in
  exists r o, lzf_compress s (fun i => i * 7919) (replicate 40 0) = Some (r, o) /\ length o = length (replicate 40 0) /\ 0 <= r <= zlen (replicate 40 0) /\
    (r <> 0 -> forall dst, zlen s <= zlen dst -> lzf_decompress (take (Z.to_nat r) o) dst = Some (zlen s, s ++ drop (length s) dst)).
Proof. apply lzf_roundtrip; by vm_compute. Defined.

Lemma lzf_decompress_safe_witness :
  exists r o, lzf_decompress [255; 255; 255; 3; 7; 0] (replicate 9 0) = Some (r, o) /\ length o = length (replicate 9 0) /\ 0 <= r <= zlen (replicate 9 0).
Proof. apply lzf_decompress_safe; [repeat (apply Forall_cons_2; [by split|]); apply Forall_nil_2|done|by vm_compute]. Defined.
