(* ===== verification/Crc.v ===== *)
(** crc16.c and crc64.c: the table driven checksums, and their specification
    bit by bit, from the generator polynomials their comments name. *)

From S2P Require Import Prelude.

(** ** crc16.c *)

Definition crc16tab : list Z :=
  [0x0000; 0x1021; 0x2042; 0x3063; 0x4084; 0x50a5; 0x60c6; 0x70e7;
   0x8108; 0x9129; 0xa14a; 0xb16b; 0xc18c; 0xd1ad; 0xe1ce; 0xf1ef;
   0x1231; 0x0210; 0x3273; 0x2252; 0x52b5; 0x4294; 0x72f7; 0x62d6;
   0x9339; 0x8318; 0xb37b; 0xa35a; 0xd3bd; 0xc39c; 0xf3ff; 0xe3de;
   0x2462; 0x3443; 0x0420; 0x1401; 0x64e6; 0x74c7; 0x44a4; 0x5485;
   0xa56a; 0xb54b; 0x8528; 0x9509; 0xe5ee; 0xf5cf; 0xc5ac; 0xd58d;
   0x3653; 0x2672; 0x1611; 0x0630; 0x76d7; 0x66f6; 0x5695; 0x46b4;
   0xb75b; 0xa77a; 0x9719; 0x8738; 0xf7df; 0xe7fe; 0xd79d; 0xc7bc;
   0x48c4; 0x58e5; 0x6886; 0x78a7; 0x0840; 0x1861; 0x2802; 0x3823;
   0xc9cc; 0xd9ed; 0xe98e; 0xf9af; 0x8948; 0x9969; 0xa90a; 0xb92b;
   0x5af5; 0x4ad4; 0x7ab7; 0x6a96; 0x1a71; 0x0a50; 0x3a33; 0x2a12;
   0xdbfd; 0xcbdc; 0xfbbf; 0xeb9e; 0x9b79; 0x8b58; 0xbb3b; 0xab1a;
   0x6ca6; 0x7c87; 0x4ce4; 0x5cc5; 0x2c22; 0x3c03; 0x0c60; 0x1c41;
   0xedae; 0xfd8f; 0xcdec; 0xddcd; 0xad2a; 0xbd0b; 0x8d68; 0x9d49;
   0x7e97; 0x6eb6; 0x5ed5; 0x4ef4; 0x3e13; 0x2e32; 0x1e51; 0x0e70;
   0xff9f; 0xefbe; 0xdfdd; 0xcffc; 0xbf1b; 0xaf3a; 0x9f59; 0x8f78;
   0x9188; 0x81a9; 0xb1ca; 0xa1eb; 0xd10c; 0xc12d; 0xf14e; 0xe16f;
   0x1080; 0x00a1; 0x30c2; 0x20e3; 0x5004; 0x4025; 0x7046; 0x6067;
   0x83b9; 0x9398; 0xa3fb; 0xb3da; 0xc33d; 0xd31c; 0xe37f; 0xf35e;
   0x02b1; 0x1290; 0x22f3; 0x32d2; 0x4235; 0x5214; 0x6277; 0x7256;
   0xb5ea; 0xa5cb; 0x95a8; 0x8589; 0xf56e; 0xe54f; 0xd52c; 0xc50d;
   0x34e2; 0x24c3; 0x14a0; 0x0481; 0x7466; 0x6447; 0x5424; 0x4405;
   0xa7db; 0xb7fa; 0x8799; 0x97b8; 0xe75f; 0xf77e; 0xc71d; 0xd73c;
   0x26d3; 0x36f2; 0x0691; 0x16b0; 0x6657; 0x7676; 0x4615; 0x5634;
   0xd94c; 0xc96d; 0xf90e; 0xe92f; 0x99c8; 0x89e9; 0xb98a; 0xa9ab;
   0x5844; 0x4865; 0x7806; 0x6827; 0x18c0; 0x08e1; 0x3882; 0x28a3;
   0xcb7d; 0xdb5c; 0xeb3f; 0xfb1e; 0x8bf9; 0x9bd8; 0xabbb; 0xbb9a;
   0x4a75; 0x5a54; 0x6a37; 0x7a16; 0x0af1; 0x1ad0; 0x2ab3; 0x3a92;
   0xfd2e; 0xed0f; 0xdd6c; 0xcd4d; 0xbdaa; 0xad8b; 0x9de8; 0x8dc9;
   0x7c26; 0x6c07; 0x5c64; 0x4c45; 0x3ca2; 0x2c83; 0x1ce0; 0x0cc1;
   0xef1f; 0xff3e; 0xcf5d; 0xdf7c; 0xaf9b; 0xbfba; 0x8fd9; 0x9ff8;
   0x6e17; 0x7e36; 0x4e55; 0x5e74; 0x2e93; 0x3eb2; 0x0ed1; 0x1ef0].

(** One byte: crc = (crc<<8) ^ crc16tab[((crc>>8) ^ c) & 0xff], the char sign
    extended, the result stored in 16 bits. *)
Definition crc16_byte (crc c : Z) : option Z :=
  x ← bget crc16tab (Z.land (Z.lxor (Z.shiftr crc 8) (i8 c)) 255);
  Some (u16 (Z.lxor (Z.shiftl crc 8) x)).

Fixpoint crc16_loop (n : nat) (buf : list Z) (counter crc : Z) : option Z :=
  match n with
  | O => Some crc
  | S n => c ← bget buf counter; crc ← crc16_byte crc c; crc16_loop n buf (counter + 1) crc
  end.

Definition crc16 (buf : list Z) (len : Z) : option Z := crc16_loop (Z.to_nat len) buf 0 0.

(** ** crc64.c *)

Definition crc64_tab : list Z :=
  [0x0000000000000000; 0x7ad870c830358979;
   0xf5b0e190606b12f2; 0x8f689158505e9b8b;
   0xc038e5739841b68f; 0xbae095bba8743ff6;
   0x358804e3f82aa47d; 0x4f50742bc81f2d04;
   0xab28ecb46814fe75; 0xd1f09c7c5821770c;
   0x5e980d24087fec87; 0x24407dec384a65fe;
   0x6b1009c7f05548fa; 0x11c8790fc060c183;
   0x9ea0e857903e5a08; 0xe478989fa00bd371;
   0x7d08ff3b88be6f81; 0x07d08ff3b88be6f8;
   0x88b81eabe8d57d73; 0xf2606e63d8e0f40a;
   0xbd301a4810ffd90e; 0xc7e86a8020ca5077;
   0x4880fbd87094cbfc; 0x32588b1040a14285;
   0xd620138fe0aa91f4; 0xacf86347d09f188d;
   0x2390f21f80c18306; 0x594882d7b0f40a7f;
   0x1618f6fc78eb277b; 0x6cc0863448deae02;
   0xe3a8176c18803589; 0x997067a428b5bcf0;
   0xfa11fe77117cdf02; 0x80c98ebf2149567b;
   0x0fa11fe77117cdf0; 0x75796f2f41224489;
   0x3a291b04893d698d; 0x40f16bccb908e0f4;
   0xcf99fa94e9567b7f; 0xb5418a5cd963f206;
   0x513912c379682177; 0x2be1620b495da80e;
   0xa489f35319033385; 0xde51839b2936bafc;
   0x9101f7b0e12997f8; 0xebd98778d11c1e81;
   0x64b116208142850a; 0x1e6966e8b1770c73;
   0x8719014c99c2b083; 0xfdc17184a9f739fa;
   0x72a9e0dcf9a9a271; 0x08719014c99c2b08;
   0x4721e43f0183060c; 0x3df994f731b68f75;
   0xb29105af61e814fe; 0xc849756751dd9d87;
   0x2c31edf8f1d64ef6; 0x56e99d30c1e3c78f;
   0xd9810c6891bd5c04; 0xa3597ca0a188d57d;
   0xec09088b6997f879; 0x96d1784359a27100;
   0x19b9e91b09fcea8b; 0x636199d339c963f2;
   0xdf7adabd7a6e2d6f; 0xa5a2aa754a5ba416;
   0x2aca3b2d1a053f9d; 0x50124be52a30b6e4;
   0x1f423fcee22f9be0; 0x659a4f06d21a1299;
   0xeaf2de5e82448912; 0x902aae96b271006b;
   0x74523609127ad31a; 0x0e8a46c1224f5a63;
   0x81e2d7997211c1e8; 0xfb3aa75142244891;
   0xb46ad37a8a3b6595; 0xceb2a3b2ba0eecec;
   0x41da32eaea507767; 0x3b024222da65fe1e;
   0xa2722586f2d042ee; 0xd8aa554ec2e5cb97;
   0x57c2c41692bb501c; 0x2d1ab4dea28ed965;
   0x624ac0f56a91f461; 0x1892b03d5aa47d18;
   0x97fa21650afae693; 0xed2251ad3acf6fea;
   0x095ac9329ac4bc9b; 0x7382b9faaaf135e2;
   0xfcea28a2faafae69; 0x8632586aca9a2710;
   0xc9622c4102850a14; 0xb3ba5c8932b0836d;
   0x3cd2cdd162ee18e6; 0x460abd1952db919f;
   0x256b24ca6b12f26d; 0x5fb354025b277b14;
   0xd0dbc55a0b79e09f; 0xaa03b5923b4c69e6;
   0xe553c1b9f35344e2; 0x9f8bb171c366cd9b;
   0x10e3202993385610; 0x6a3b50e1a30ddf69;
   0x8e43c87e03060c18; 0xf49bb8b633338561;
   0x7bf329ee636d1eea; 0x012b592653589793;
   0x4e7b2d0d9b47ba97; 0x34a35dc5ab7233ee;
   0xbbcbcc9dfb2ca865; 0xc113bc55cb19211c;
   0x5863dbf1e3ac9dec; 0x22bbab39d3991495;
   0xadd33a6183c78f1e; 0xd70b4aa9b3f20667;
   0x985b3e827bed2b63; 0xe2834e4a4bd8a21a;
   0x6debdf121b863991; 0x1733afda2bb3b0e8;
   0xf34b37458bb86399; 0x8993478dbb8deae0;
   0x06fbd6d5ebd3716b; 0x7c23a61ddbe6f812;
   0x3373d23613f9d516; 0x49aba2fe23cc5c6f;
   0xc6c333a67392c7e4; 0xbc1b436e43a74e9d;
   0x95ac9329ac4bc9b5; 0xef74e3e19c7e40cc;
   0x601c72b9cc20db47; 0x1ac40271fc15523e;
   0x5594765a340a7f3a; 0x2f4c0692043ff643;
   0xa02497ca54616dc8; 0xdafce7026454e4b1;
   0x3e847f9dc45f37c0; 0x445c0f55f46abeb9;
   0xcb349e0da4342532; 0xb1eceec59401ac4b;
   0xfebc9aee5c1e814f; 0x8464ea266c2b0836;
   0x0b0c7b7e3c7593bd; 0x71d40bb60c401ac4;
   0xe8a46c1224f5a634; 0x927c1cda14c02f4d;
   0x1d148d82449eb4c6; 0x67ccfd4a74ab3dbf;
   0x289c8961bcb410bb; 0x5244f9a98c8199c2;
   0xdd2c68f1dcdf0249; 0xa7f41839ecea8b30;
   0x438c80a64ce15841; 0x3954f06e7cd4d138;
   0xb63c61362c8a4ab3; 0xcce411fe1cbfc3ca;
   0x83b465d5d4a0eece; 0xf96c151de49567b7;
   0x76048445b4cbfc3c; 0x0cdcf48d84fe7545;
   0x6fbd6d5ebd3716b7; 0x15651d968d029fce;
   0x9a0d8ccedd5c0445; 0xe0d5fc06ed698d3c;
   0xaf85882d2576a038; 0xd55df8e515432941;
   0x5a3569bd451db2ca; 0x20ed197575283bb3;
   0xc49581ead523e8c2; 0xbe4df122e51661bb;
   0x3125607ab548fa30; 0x4bfd10b2857d7349;
   0x04ad64994d625e4d; 0x7e7514517d57d734;
   0xf11d85092d094cbf; 0x8bc5f5c11d3cc5c6;
   0x12b5926535897936; 0x686de2ad05bcf04f;
   0xe70573f555e26bc4; 0x9ddd033d65d7e2bd;
   0xd28d7716adc8cfb9; 0xa85507de9dfd46c0;
   0x273d9686cda3dd4b; 0x5de5e64efd965432;
   0xb99d7ed15d9d8743; 0xc3450e196da80e3a;
   0x4c2d9f413df695b1; 0x36f5ef890dc31cc8;
   0x79a59ba2c5dc31cc; 0x037deb6af5e9b8b5;
   0x8c157a32a5b7233e; 0xf6cd0afa9582aa47;
   0x4ad64994d625e4da; 0x300e395ce6106da3;
   0xbf66a804b64ef628; 0xc5bed8cc867b7f51;
   0x8aeeace74e645255; 0xf036dc2f7e51db2c;
   0x7f5e4d772e0f40a7; 0x05863dbf1e3ac9de;
   0xe1fea520be311aaf; 0x9b26d5e88e0493d6;
   0x144e44b0de5a085d; 0x6e963478ee6f8124;
   0x21c640532670ac20; 0x5b1e309b16452559;
   0xd476a1c3461bbed2; 0xaeaed10b762e37ab;
   0x37deb6af5e9b8b5b; 0x4d06c6676eae0222;
   0xc26e573f3ef099a9; 0xb8b627f70ec510d0;
   0xf7e653dcc6da3dd4; 0x8d3e2314f6efb4ad;
   0x0256b24ca6b12f26; 0x788ec2849684a65f;
   0x9cf65a1b368f752e; 0xe62e2ad306bafc57;
   0x6946bb8b56e467dc; 0x139ecb4366d1eea5;
   0x5ccebf68aecec3a1; 0x2616cfa09efb4ad8;
   0xa97e5ef8cea5d153; 0xd3a62e30fe90582a;
   0xb0c7b7e3c7593bd8; 0xca1fc72bf76cb2a1;
   0x45775673a732292a; 0x3faf26bb9707a053;
   0x70ff52905f188d57; 0x0a2722586f2d042e;
   0x854fb3003f739fa5; 0xff97c3c80f4616dc;
   0x1bef5b57af4dc5ad; 0x61372b9f9f784cd4;
   0xee5fbac7cf26d75f; 0x9487ca0fff135e26;
   0xdbd7be24370c7322; 0xa10fceec0739fa5b;
   0x2e675fb4576761d0; 0x54bf2f7c6752e8a9;
   0xcdcf48d84fe75459; 0xb71738107fd2dd20;
   0x387fa9482f8c46ab; 0x42a7d9801fb9cfd2;
   0x0df7adabd7a6e2d6; 0x772fdd63e7936baf;
   0xf8474c3bb7cdf024; 0x829f3cf387f8795d;
   0x66e7a46c27f3aa2c; 0x1c3fd4a417c62355;
   0x935745fc4798b8de; 0xe98f353477ad31a7;
   0xa6df411fbfb21ca3; 0xdc0731d78f8795da;
   0x536fa08fdfd90e51; 0x29b7d047efec8728].

Definition crc64_byte (crc byte : Z) : option Z :=
  x ← bget crc64_tab (Z.lxor (u8 crc) byte);
  Some (Z.lxor x (Z.shiftr crc 8)).

Fixpoint crc64_loop (n : nat) (s : list Z) (j crc : Z) : option Z :=
  match n with
  | O => Some crc
  | S n => byte ← bget s j; crc ← crc64_byte crc byte; crc64_loop n s (j + 1) crc
  end.

Definition crc64 (crc : Z) (s : list Z) (l : Z) : option Z := crc64_loop (Z.to_nat l) s 0 crc.

(** ** The checksums bit by bit *)

(** CRC-16/XMODEM: polynomial 0x1021, most significant bit first. *)
Definition crc16_step (x : Z) : Z :=
  Z.lxor (Z.land (Z.shiftl x 1) 65535) (if Z.testbit x 15 then 0x1021 else 0).
Definition crc16_bits (crc c : Z) : Z := Nat.iter 8 crc16_step (Z.lxor crc (Z.shiftl c 8)).

(** CRC-64-Jones: polynomial 0xad93d23594c935a9, its bits reversed because the
    least significant bit goes first. *)
Definition crc64_step (x : Z) : Z :=
  Z.lxor (Z.shiftr x 1) (if Z.testbit x 0 then 0x95ac9329ac4bc9b5 else 0).
Definition crc64_bits (crc c : Z) : Z := Nat.iter 8 crc64_step (Z.lxor crc c).

Ltac by_bits :=
  apply Z.bits_inj'; intros n Hn; rewrite ?Z.lxor_spec, ?Z.land_spec, ?Z.lxor_spec, ?Z.bits_0;
  repeat match goal with |- context [Z.testbit ?a ?i] => destruct (Z.testbit a i) end; done.

Lemma land_lxor a b c : Z.land (Z.lxor a b) c = Z.lxor (Z.land a c) (Z.land b c).
Proof. by_bits. Qed.

(** A step that shifts linearly and adds a polynomial for one bit is linear. *)
Lemma xor_step_linear (P A B A' B' : Z) (p q : bool) :
  Z.lxor (Z.lxor A B) (if xorb p q then P else 0) =
  Z.lxor (Z.lxor A (if p then P else 0)) (Z.lxor B (if q then P else 0)).
Proof. destruct p, q; cbn [xorb]; by_bits. Qed.

Lemma crc16_step_linear a b : crc16_step (Z.lxor a b) = Z.lxor (crc16_step a) (crc16_step b).
Proof.
  unfold crc16_step. rewrite Z.shiftl_lxor, land_lxor, Z.lxor_spec. by apply xor_step_linear.
Qed.

Lemma crc64_step_linear a b : crc64_step (Z.lxor a b) = Z.lxor (crc64_step a) (crc64_step b).
Proof. unfold crc64_step. rewrite Z.shiftr_lxor, Z.lxor_spec. by apply xor_step_linear. Qed.

Lemma iter_linear (f : Z -> Z) n :
  (forall a b, f (Z.lxor a b) = Z.lxor (f a) (f b)) ->
  forall a b, Nat.iter n f (Z.lxor a b) = Z.lxor (Nat.iter n f a) (Nat.iter n f b).
Proof. intros Hf. induction n as [|n IH]; intros a b; [done|]. simpl. by rewrite IH, Hf. Qed.

(** A number is its low byte and the rest. *)
Lemma split_low8 a : a = Z.lxor (Z.shiftl (Z.shiftr a 8) 8) (Z.land a 255).
Proof.
  apply Z.bits_inj'. intros n Hn. change 255 with (Z.ones 8).
  rewrite Z.lxor_spec, Z.land_spec, Z.shiftl_spec, Z.testbit_ones_nonneg by lia.
  destruct (Z.ltb_spec n 8).
  - rewrite (Z.testbit_neg_r _ (n - 8)) by lia. by rewrite andb_true_r, xorb_false_l.
  - rewrite Z.shiftr_spec by lia. rewrite andb_false_r, xorb_false_r. f_equal; lia.
Qed.

Lemma land_255 a : Z.land a 255 = a mod 256.
Proof. change 255 with (Z.ones 8). by rewrite Z.land_ones by lia. Qed.
Lemma land_65535 a : Z.land a 65535 = u16 a.
Proof. change 65535 with (Z.ones 16). by rewrite Z.land_ones by lia. Qed.

Lemma lxor_byte a b : byte_ok a -> byte_ok b -> byte_ok (Z.lxor a b).
Proof.
  unfold byte_ok. intros Ha Hb.
  assert (E : Z.lxor a b = Z.lxor a b mod 256).
  { rewrite <-land_255, land_lxor, !land_255, !Z.mod_small by lia. done. }
  rewrite E. apply Z.mod_pos_bound. lia.
Qed.

(** ** The tables hold the eight steps of each byte *)

Definition crc16tab_test (i : Z) : bool :=
  let x := Nat.iter 8 crc16_step (Z.shiftl i 8) in
  bool_decide (bget crc16tab i = Some x) && (Nat.iter 8 crc16_step i =? Z.shiftl i 8) && (0 <=? x) && (x <? 65536).
Definition crc64_tab_test (i : Z) : bool := bool_decide (bget crc64_tab i = Some (Nat.iter 8 crc64_step i)).

Lemma crc16tab_spec i : 0 <= i < 256 ->
  bget crc16tab i = Some (Nat.iter 8 crc16_step (Z.shiftl i 8)) /\
  Nat.iter 8 crc16_step i = Z.shiftl i 8 /\ 0 <= Nat.iter 8 crc16_step (Z.shiftl i 8) < 65536.
Proof.
  intros Hi. assert (H : crc16tab_test i = true) by (by apply (forall_below 256); [vm_compute|]).
  unfold crc16tab_test in H. rewrite !andb_true_iff, bool_decide_eq_true, Z.eqb_eq, Z.leb_le, Z.ltb_lt in H. tauto.
Qed.

Lemma crc64_tab_spec i : 0 <= i < 256 -> bget crc64_tab i = Some (Nat.iter 8 crc64_step i).
Proof.
  intros Hi. assert (H : crc64_tab_test i = true) by (by apply (forall_below 256); [vm_compute|]).
  by apply bool_decide_eq_true in H.
Qed.

Lemma crc16_byte_spec crc c : 0 <= crc < 65536 -> byte_ok c ->
  crc16_byte crc c = Some (crc16_bits crc c) /\ 0 <= crc16_bits crc c < 65536.
Proof.
  intros Hcrc Hc. unfold crc16_byte, crc16_bits.
  set (hi := Z.shiftr crc 8). set (lo := Z.land crc 255).
  assert (Hhi : byte_ok hi) by (unfold hi, byte_ok; rewrite Z.shiftr_div_pow2 by lia; change (2 ^ 8) with 256; dlia).
  assert (Hlo : byte_ok lo) by (unfold lo, byte_ok; rewrite land_255; apply Z.mod_pos_bound; lia).
  assert (Hidx : Z.land (Z.lxor hi (i8 c)) 255 = Z.lxor hi c).
  { rewrite land_lxor, !land_255. unfold byte_ok in *. f_equal; [|mlia]. by apply Z.mod_small. }
  rewrite Hidx. assert (Hx := lxor_byte hi c Hhi Hc). unfold byte_ok in *.
  destruct (crc16tab_spec (Z.lxor hi c) Hx) as (-> & _ & Hb). cbn [mbind option_bind].
  destruct (crc16tab_spec lo Hlo) as (_ & Hlo8 & _).
  assert (Hsplit : Z.lxor crc (Z.shiftl c 8) = Z.lxor (Z.shiftl (Z.lxor hi c) 8) lo).
  { rewrite (split_low8 crc) at 1. fold hi lo. rewrite Z.shiftl_lxor. by_bits. }
  rewrite Hsplit, (iter_linear _ 8 crc16_step_linear), Hlo8.
  set (X := Nat.iter 8 crc16_step _) in *.
  assert (Hu : u16 (Z.lxor (Z.shiftl crc 8) X) = Z.lxor X (Z.shiftl lo 8)).
  { rewrite <-land_65535, land_lxor, !land_65535, (u16_small X) by done. rewrite Z.lxor_comm. f_equal.
    unfold lo. rewrite land_255, !Z.shiftl_mul_pow2 by lia. change (2 ^ 8) with 256. unfold u16.
    Z.div_mod_to_equations. lia. }
  rewrite Hu. split; [done|]. rewrite <-Hu. apply Z.mod_pos_bound. lia.
Qed.

(** Bits above the low ones are only shifted down. *)
Lemma crc64_steps_high h n : Nat.iter n crc64_step (Z.shiftl h (Z.of_nat n)) = h.
Proof.
  induction n as [|n IH]; [apply Z.shiftl_0_r|]. rewrite Nat.iter_succ_r.
  replace (crc64_step (Z.shiftl h (Z.of_nat (S n)))) with (Z.shiftl h (Z.of_nat n)); [done|].
  unfold crc64_step. rewrite Z.shiftl_spec_low, Z.lxor_0_r by lia.
  rewrite Z.shiftr_shiftl_l by lia. f_equal. lia.
Qed.

Lemma crc64_byte_spec crc c : byte_ok c -> crc64_byte crc c = Some (crc64_bits crc c).
Proof.
  intros Hc. unfold crc64_byte, crc64_bits.
  assert (Hlo : byte_ok (u8 crc)) by (apply Z.mod_pos_bound; lia).
  rewrite (crc64_tab_spec (Z.lxor (u8 crc) c)) by (by apply lxor_byte). cbn [mbind option_bind]. f_equal.
  assert (Hsplit : Z.lxor crc c = Z.lxor (Z.lxor (u8 crc) c) (Z.shiftl (Z.shiftr crc 8) 8)).
  { rewrite (split_low8 crc) at 1. rewrite land_255. change (crc mod 256) with (u8 crc). by_bits. }
  rewrite Hsplit, (iter_linear _ 8 crc64_step_linear (Z.lxor (u8 crc) c)). f_equal. symmetry. set (h := Z.shiftr crc 8).
  apply (crc64_steps_high h 8).
Qed.

Lemma crc16_loop_spec s : forall pre post crc,
  0 <= crc < 65536 -> bytes_ok s ->
  crc16_loop (length s) (pre ++ s ++ post) (zlen pre) crc = Some (foldl crc16_bits crc s) /\
  0 <= foldl crc16_bits crc s < 65536.
Proof.
  induction s as [|c s IH]; intros pre post crc Hcrc Hs; [done|].
  apply Forall_cons_1 in Hs as [Hc Hs]. cbn [length crc16_loop app foldl]. rewrite bget_mid. cbn [mbind option_bind].
  destruct (crc16_byte_spec crc c Hcrc Hc) as [-> Hb]. cbn [mbind option_bind].
  specialize (IH (pre ++ [c]) post _ Hb Hs). rewrite <-app_assoc, length_app in IH. cbn [app length] in IH.
  by replace (zlen pre + 1) with (Z.of_nat (length pre + 1)) by lia.
Qed.

Lemma crc64_loop_spec s : forall pre post crc,
  bytes_ok s -> crc64_loop (length s) (pre ++ s ++ post) (zlen pre) crc = Some (foldl crc64_bits crc s).
Proof.
  induction s as [|c s IH]; intros pre post crc Hs; [done|].
  apply Forall_cons_1 in Hs as [Hc Hs]. cbn [length crc64_loop app foldl]. rewrite bget_mid. cbn [mbind option_bind].
  rewrite crc64_byte_spec by done. cbn [mbind option_bind].
  specialize (IH (pre ++ [c]) post (crc64_bits crc c) Hs). rewrite <-app_assoc, length_app in IH. cbn [app length] in IH.
  by replace (zlen pre + 1) with (Z.of_nat (length pre + 1)) by lia.
Qed.

Lemma crc16_spec s post : bytes_ok s ->
  crc16 (s ++ post) (zlen s) = Some (foldl crc16_bits 0 s) /\ 0 <= foldl crc16_bits 0 s < 65536.
Proof. intros Hs. unfold crc16. rewrite Nat2Z.id. by apply (crc16_loop_spec s []). Qed.

(** C17. Both checksums are the bitwise ones of their polynomials; crc64 of a
    concatenation is computed piece by piece. *)
Theorem crc_correct s post crc s2 :
  bytes_ok s -> bytes_ok s2 ->
  crc16 (s ++ post) (zlen s) = Some (foldl crc16_bits 0 s) /\
  crc64 crc (s ++ post) (zlen s) = Some (foldl crc64_bits crc s) /\
  (c ← crc64 crc s (zlen s); crc64 c s2 (zlen s2)) = crc64 crc (s ++ s2) (zlen (s ++ s2)).
Proof.
  intros Hs Hs2. assert (H64 : forall crc s post, bytes_ok s -> crc64 crc (s ++ post) (zlen s) = Some (foldl crc64_bits crc s)).
  { intros. unfold crc64. rewrite Nat2Z.id. by apply (crc64_loop_spec s0 []). }
  split; [by apply crc16_spec|]. split; [by apply H64|].
  assert (H1 := H64 crc s [] Hs). rewrite app_nil_r in H1. rewrite H1. cbn [mbind option_bind].
  assert (H2 := H64 (foldl crc64_bits crc s) s2 [] Hs2). rewrite app_nil_r in H2. rewrite H2.
  assert (H3 := H64 crc (s ++ s2) []). rewrite app_nil_r in H3. rewrite H3 by (by apply bytes_ok_app).
  by rewrite foldl_app.
Qed.

(** "123456789" and "ab", with the check values of the two algorithms. *)
Lemma crc_correct_witness :
  let s := [49; 50; 51; 52; 53; 54; 55; 56; 57] in
  let s2 := [97; 98] in
  (crc16 (s ++ [0]) (zlen s) = Some (foldl crc16_bits 0 s) /\
   crc64 0 (s ++ [0]) (zlen s) = Some (foldl crc64_bits 0 s) /\
   (c ← crc64 0 s (zlen s); crc64 c s2 (zlen s2)) = crc64 0 (s ++ s2) (zlen (s ++ s2))) /\
  crc16 (s ++ [0]) (zlen s) = Some 0x31C3 /\ crc64 0 (s ++ [0]) (zlen s) = Some 0xe9c6d914c4b8d9ca.
Proof.
  intros s s2. split; [|split; reflexivity].
  apply (crc_correct s [0] 0 s2); repeat constructor; unfold byte_ok; lia.
Defined.
