(* ===== verification/KeySlot.v ===== *)
(** cluster.c, keyHashSlot: the hash slot of a key, with the hash tag rule. *)

From S2P Require Import Prelude Crc.

(** for (s = from; s < keylen; s++) if (key[s] == ch) break; *)
Fixpoint find_char (n : nat) (key : list Z) (keylen ch s : Z) : option Z :=
  if s <? keylen then
    match n with
    | O => None
    | S n => c ← bget key s; if c =? ch then Some s else find_char n key keylen ch (s + 1)
    end
  else Some s.

Definition keyHashSlot (key : list Z) (keylen : Z) : option Z :=
  s ← find_char (Z.to_nat keylen) key keylen 123 0;
  if s =? keylen then h ← crc16 key keylen; Some (Z.land h 0x3FFF) else
  e ← find_char (Z.to_nat keylen) key keylen 125 (s + 1);
  if (e =? keylen) || (e =? s + 1) then h ← crc16 key keylen; Some (Z.land h 0x3FFF) else
  h ← crc16 (drop (Z.to_nat (s + 1)) key) (e - s - 1); Some (Z.land h 0x3FFF).

(** The part of the key that is hashed: what is between the first opening brace
    and the first closing one after it, unless that is empty or missing. *)
Inductive hashed : list Z -> list Z -> Prop :=
  | hashed_tag a t b :
      123 ∉ a -> 125 ∉ t -> t <> [] -> hashed (a ++ 123 :: t ++ 125 :: b) t
  | hashed_no_open key : 123 ∉ key -> hashed key key
  | hashed_no_close a t : 123 ∉ a -> 125 ∉ t -> hashed (a ++ 123 :: t) (a ++ 123 :: t)
  | hashed_empty a b : 123 ∉ a -> hashed (a ++ 123 :: 125 :: b) (a ++ 123 :: 125 :: b).

Lemma find_char_spec ch v : forall n pre rest post,
  ch ∉ v -> (rest = [] \/ exists r, rest = ch :: r) -> (length v < n \/ rest = [] /\ length v <= n)%nat ->
  find_char n (pre ++ v ++ rest ++ post) (zlen (pre ++ v ++ rest)) ch (zlen pre) = Some (zlen pre + zlen v).
Proof.
  induction v as [|x v IH]; intros n pre rest post Hv Hr Hn.
  - cbn [app length]. rewrite length_app. destruct Hr as [->|[r ->]]; cbn [length app].
    + destruct n; cbn [find_char]; (zfalse (zlen pre <? Z.of_nat (length pre + 0)); fpair).
    + destruct Hn as [Hn|[? _]]; [|done]. destruct n; [lia|]. cbn [find_char].
      ztrue (zlen pre <? Z.of_nat (length pre + S (length r))). rewrite bget_mid. cbn [mbind option_bind].
      rewrite Z.eqb_refl. fpair.
  - apply not_elem_of_cons in Hv as [Hx Hv]. destruct n; [simpl in Hn; lia|]. cbn [find_char app].
    assert (zlen pre < zlen (pre ++ x :: v ++ rest)) by (rewrite length_app; simpl; lia).
    ztrue (zlen pre <? zlen (pre ++ x :: v ++ rest)). rewrite bget_mid. cbn [mbind option_bind].
    rewrite (proj2 (Z.eqb_neq x ch)) by done.
    specialize (IH n (pre ++ [x]) rest post Hv Hr). rewrite <-!app_assoc in IH. cbn [app] in IH.
    rewrite (length_app pre [x]) in IH. cbn [length] in IH.
    replace (zlen pre + 1) with (Z.of_nat (length pre + 1)) by lia. rewrite IH.
    2:{ cbn [length] in Hn. destruct Hn as [Hn|[-> Hn]]; [left; lia|right; split; [done|lia]]. }
    cbn [length]. fpair.
Qed.

Lemma land_3fff h : Z.land h 0x3FFF = h mod 16384.
Proof. change 0x3FFF with (Z.ones 14). by rewrite Z.land_ones by lia. Qed.

Lemma list_first ch (l : list Z) : ch ∉ l \/ exists a b, l = a ++ ch :: b /\ ch ∉ a.
Proof.
  induction l as [|x l [IH|(a & b & -> & Ha)]]; [left; apply not_elem_of_nil| |].
  - destruct (decide (x = ch)) as [->|]; [right; exists [], l; split; [done|apply not_elem_of_nil]|].
    left. by apply not_elem_of_cons.
  - destruct (decide (x = ch)) as [->|]; right; [exists [], (a ++ ch :: b); split; [done|apply not_elem_of_nil]|].
    exists (x :: a), b. split; [done|]. by apply not_elem_of_cons.
Qed.

(** The rule covers every key, with one hashed part. *)
Lemma hashed_total key : exists t, hashed key t.
Proof.
  destruct (list_first 123 key) as [H|(a & r & -> & Ha)]; [by exists key; constructor|].
  destruct (list_first 125 r) as [H|(t & b & -> & Ht)]; [eexists; by constructor 3|].
  destruct t as [|x t]; [eexists; by constructor 4|]. eexists. by constructor 1.
Qed.

Lemma split_first_unique (ch : Z) a a' b b' :
  ch ∉ a -> ch ∉ a' -> a ++ ch :: b = a' ++ ch :: b' -> a = a' /\ b = b'.
Proof.
  revert a'. induction a as [|x a IH]; intros [|x' a'] Ha Ha' H; cbn [app] in H.
  - by injection H.
  - injection H as -> _. destruct Ha'. by left.
  - injection H as -> _. destruct Ha. by left.
  - injection H as -> H. apply not_elem_of_cons in Ha as [_ Ha], Ha' as [_ Ha'].
    by destruct (IH a' Ha Ha' H) as [-> ->].
Qed.

Lemma not_elem_of_first (ch : Z) key a b : ch ∉ key -> key = a ++ ch :: b -> False.
Proof. intros H ->. apply H, elem_of_app. right. left. Qed.

(** The hashed part of a key is unique. *)
Lemma hashed_unique key t t' : hashed key t -> hashed key t' -> t' = t.
Proof.
  assert (Hin : forall c (l r : list Z), c ∈ l ++ c :: r) by (intros; apply elem_of_app; right; left).
  intros [a x b Ha Hx Hne|k Hk|a x Ha Hx|a b Ha] H; inversion H as [a' y b' Ha' Hy Hne' E|k' Hk' E|a' y Ha' Hy E|a' b' Ha' E]; subst;
    try done; try (by exfalso; eapply Hk, Hin); try (by exfalso; eapply Hk', Hin).
  all: apply split_first_unique in E as [<- E]; try done; subst.
  - by apply split_first_unique in E as [<- _].
  - by exfalso; eapply Hy, Hin.
  - apply (split_first_unique 125 [] x b' b) in E as [<- _]; [done|apply not_elem_of_nil|done].
  - by exfalso; eapply Hx, Hin.
  - apply (split_first_unique 125 t' [] b' b) in E as [-> _]; [done..|apply not_elem_of_nil].
Qed.

(** C16. The slot of a key is the checksum of its hashed part modulo 16384, so keys
    with the same hash tag are in the same slot; each key has one hashed part. *)
Theorem keyHashSlot_correct key post t :
  bytes_ok key -> hashed key t ->
  (forall t', hashed key t' -> t' = t) /\
  keyHashSlot (key ++ post) (zlen key) = Some (foldl crc16_bits 0 t mod 16384) /\
  0 <= foldl crc16_bits 0 t mod 16384 < 16384.
Proof.
  intros Hk Ht. split; [intros t' Ht'; by eapply hashed_unique|]. split; [|apply Z.mod_pos_bound; lia].
  assert (Hwhole : (h ← crc16 (key ++ post) (zlen key); Some (Z.land h 0x3FFF)) = Some (foldl crc16_bits 0 key mod 16384)).
  { destruct (crc16_spec key post Hk) as [-> _]. cbn [mbind option_bind]. by rewrite land_3fff. }
  unfold keyHashSlot. rewrite Nat2Z.id.
  assert (Hfind : forall ch pre v rest, key = pre ++ v ++ rest -> ch ∉ v -> (rest = [] \/ exists r, rest = ch :: r) ->
    find_char (length key) (key ++ post) (zlen key) ch (zlen pre) = Some (zlen pre + zlen v)).
  { intros ch pre v rest -> Hv Hr. rewrite <-!app_assoc. apply find_char_spec; [done|done|].
    rewrite !length_app. destruct Hr as [->|[r ->]]; [right; split; [done|lia]|left; simpl; lia]. }
  destruct Ht as [a t b Ha Ht Hne|key Ha|a t Ha Ht|a b Ha].
  - assert (1 <= zlen t) by (destruct t; [done|simpl; lia]).
    assert (H1 := Hfind 123 [] a (123 :: t ++ 125 :: b) eq_refl Ha ltac:(eauto)).
    cbn [length] in H1. change (Z.of_nat 0) with 0 in H1. rewrite H1. cbn [mbind option_bind]. rewrite Z.add_0_l.
    assert (Hl : zlen (a ++ 123 :: t ++ 125 :: b) = zlen a + 1 + zlen t + 1 + zlen b)
      by (rewrite length_app; cbn [length]; rewrite length_app; cbn [length]; lia).
    zfalse (zlen a =? zlen (a ++ 123 :: t ++ 125 :: b)).
    assert (H2 := Hfind 125 (a ++ [123]) t (125 :: b) ltac:(by rewrite <-app_assoc) Ht ltac:(eauto)).
    rewrite (length_app a [123]) in H2. change (length [123]) with 1%nat in H2. replace (zlen a + 1) with (Z.of_nat (length a + 1)) by lia.
    rewrite H2. cbn [mbind option_bind].
    zfalse (Z.of_nat (length a + 1) + zlen t =? zlen (a ++ 123 :: t ++ 125 :: b)).
    zfalse (Z.of_nat (length a + 1) + zlen t =? Z.of_nat (length a + 1)). cbn [orb].
    replace (Z.of_nat (length a + 1) + zlen t - zlen a - 1) with (zlen t) by lia. rewrite Nat2Z.id.
    assert (Hd : drop (length a + 1) ((a ++ 123 :: t ++ 125 :: b) ++ post) = t ++ (125 :: b ++ post)).
    { rewrite <-drop_drop, <-app_assoc, drop_app_length. cbn. by rewrite <-app_assoc. }
    rewrite Hd. destruct (crc16_spec t (125 :: b ++ post)) as [-> _].
    + apply bytes_ok_app in Hk as [_ Hk]. apply Forall_cons_1 in Hk as [_ Hk]. by apply bytes_ok_app in Hk as [Hk _].
    + cbn [mbind option_bind]. by rewrite land_3fff.
  - assert (H1 := Hfind 123 [] key [] ltac:(by rewrite app_nil_r) Ha ltac:(eauto)).
    cbn [length] in H1. change (Z.of_nat 0) with 0 in H1. rewrite H1. cbn [mbind option_bind].
    rewrite Z.add_0_l, Z.eqb_refl. exact Hwhole.
  - assert (H1 := Hfind 123 [] a (123 :: t) eq_refl Ha ltac:(eauto)).
    cbn [length] in H1. change (Z.of_nat 0) with 0 in H1. rewrite H1. cbn [mbind option_bind]. rewrite Z.add_0_l.
    destruct (zlen a =? _); [exact Hwhole|].
    assert (H2 := Hfind 125 (a ++ [123]) t [] ltac:(by rewrite <-app_assoc, app_nil_r) Ht ltac:(eauto)).
    rewrite (length_app a [123]) in H2. change (length [123]) with 1%nat in H2. replace (zlen a + 1) with (Z.of_nat (length a + 1)) by lia.
    rewrite H2. cbn [mbind option_bind].
    assert (Z.of_nat (length a + 1) + zlen t = zlen (a ++ 123 :: t)) as Hl by (rewrite length_app; simpl; lia).
    rewrite Hl, Z.eqb_refl. exact Hwhole.
  - assert (H1 := Hfind 123 [] a (123 :: 125 :: b) eq_refl Ha ltac:(eauto)).
    cbn [length] in H1. change (Z.of_nat 0) with 0 in H1. rewrite H1. cbn [mbind option_bind]. rewrite Z.add_0_l.
    destruct (zlen a =? _); [exact Hwhole|].
    assert (H2 := Hfind 125 (a ++ [123]) [] (125 :: b) ltac:(by rewrite <-app_assoc) ltac:(apply not_elem_of_nil) ltac:(eauto)).
    rewrite (length_app a [123]) in H2. change (length [123]) with 1%nat in H2. replace (zlen a + 1) with (Z.of_nat (length a + 1)) by lia.
    rewrite H2. cbn [mbind option_bind]. rewrite Z.add_0_r, Z.eqb_refl, orb_true_r. exact Hwhole.
Qed.

(** "a{bc}d" is in the slot of "bc". *)
Lemma keyHashSlot_correct_witness :
  let key := [97; 123; 98; 99; 125; 100] in
  (forall t', hashed key t' -> t' = [98; 99]) /\
  keyHashSlot (key ++ [0]) (zlen key) = Some (foldl crc16_bits 0 [98; 99] mod 16384) /\
  0 <= foldl crc16_bits 0 [98; 99] mod 16384 < 16384.
Proof.
  intros key. apply (keyHashSlot_correct key [0] [98; 99]).
  - repeat constructor; unfold byte_ok; lia.
  - apply (hashed_tag [97] [98; 99] [100]); [by apply (bool_decide_unpack (123 ∉ [97]))|by apply (bool_decide_unpack (125 ∉ [98; 99]))|done].
Defined.
