(* ===== verification/Cluster.v ===== *)
(** cluster.c, the state one node keeps about the cluster: slot ownership,
    replicas, failure reports, configuration epochs, votes.

    Nodes are objects in a store indexed by their address; the nodes table is
    the list of addresses in the order a dictionary iterator visits them.
    Calls that leave this state (messages, replication, key deletion, saving
    the configuration) are recorded in order.  Every operation returns an
    option: [None] is a NULL or dangling dereference, an access outside a
    bitmap, or a failed serverAssert.  Logging is left out. *)

From S2P Require Import Prelude.
From stdpp Require Import gmap.
#[local] Open Scope Z_scope.

Definition CLUSTER_SLOTS : Z := 16384.
Definition CLUSTER_NODE_MASTER : Z := 1.
Definition CLUSTER_NODE_SLAVE : Z := 2.
Definition CLUSTER_NODE_PFAIL : Z := 4.
Definition CLUSTER_NODE_FAIL : Z := 8.
Definition CLUSTER_NODE_MIGRATE_TO : Z := 256.
Definition CLUSTER_FAIL_REPORT_VALIDITY_MULT : Z := 2.
Definition CLUSTER_FAIL_UNDO_TIME_MULT : Z := 2.
Definition CLUSTER_TODO_UPDATE_STATE : Z := 2.
Definition CLUSTER_TODO_SAVE_CONFIG : Z := 4.
Definition CLUSTER_TODO_FSYNC_CONFIG : Z := 8.

(** Addresses of nodes. *)
Definition nodeptr := nat.

(** The fields of clusterNode that the modelled code reads or writes; the
    slaves array has numslaves elements. *)
Record clusterNode := mkNode {
  name : list Z;
  flags : Z;
  configEpoch : Z;
  slots : list Z;
  numslots : Z;
  slaves : list nodeptr;
  slaveof : option nodeptr;
  fail_time : Z;
  voted_time : Z;
  fail_reports : list (nodeptr * Z);
  has_link : bool
}.

Definition numslaves (n : clusterNode) : Z := zlen (slaves n).

(** Calls out of the modelled state, in order. *)
Inductive effect :=
  | SendFail (n : nodeptr) | SendFailoverAuth (n : nodeptr)
  | ReplicationSetMaster (n : nodeptr) | UnblockClients
  | SaveConfigOrDie | DelKeysInSlot (slot : Z).

(** server.clients_paused, server.clients_pause_end_time and the cached clock
    server.mstime. *)
Record pauseState := mkPause { clients_paused : bool; clients_pause_end_time : Z; server_mstime : Z }.

Record clusterState := mkState {
  heap : gmap nodeptr clusterNode;
  nodes : list nodeptr;
  myself : nodeptr;
  currentEpoch : Z;
  lastVoteEpoch : Z;
  size : Z;
  owners : list (option nodeptr);               (* server.cluster->slots *)
  migrating_slots_to : list (option nodeptr);
  importing_slots_from : list (option nodeptr);
  mf_end : Z; mf_can_start : Z; mf_slave : option nodeptr; mf_master_offset : Z;
  pause : pauseState;
  todo_before_sleep : Z;
  effects : list effect
}.

(** Field updates. *)
Definition set_flags f n := mkNode (name n) f (configEpoch n) (slots n) (numslots n) (slaves n) (slaveof n)
  (fail_time n) (voted_time n) (fail_reports n) (has_link n).
Definition set_configEpoch e n := mkNode (name n) (flags n) e (slots n) (numslots n) (slaves n) (slaveof n)
  (fail_time n) (voted_time n) (fail_reports n) (has_link n).
Definition set_slots b n := mkNode (name n) (flags n) (configEpoch n) b (numslots n) (slaves n) (slaveof n)
  (fail_time n) (voted_time n) (fail_reports n) (has_link n).
Definition set_numslots k n := mkNode (name n) (flags n) (configEpoch n) (slots n) k (slaves n) (slaveof n)
  (fail_time n) (voted_time n) (fail_reports n) (has_link n).
Definition set_slaves l n := mkNode (name n) (flags n) (configEpoch n) (slots n) (numslots n) l (slaveof n)
  (fail_time n) (voted_time n) (fail_reports n) (has_link n).
Definition set_slaveof m n := mkNode (name n) (flags n) (configEpoch n) (slots n) (numslots n) (slaves n) m
  (fail_time n) (voted_time n) (fail_reports n) (has_link n).
Definition set_fail_time t n := mkNode (name n) (flags n) (configEpoch n) (slots n) (numslots n) (slaves n) (slaveof n)
  t (voted_time n) (fail_reports n) (has_link n).
Definition set_voted_time t n := mkNode (name n) (flags n) (configEpoch n) (slots n) (numslots n) (slaves n) (slaveof n)
  (fail_time n) t (fail_reports n) (has_link n).
Definition set_fail_reports l n := mkNode (name n) (flags n) (configEpoch n) (slots n) (numslots n) (slaves n) (slaveof n)
  (fail_time n) (voted_time n) l (has_link n).

Definition set_heap h s := mkState h (nodes s) (myself s) (currentEpoch s) (lastVoteEpoch s) (size s) (owners s)
  (migrating_slots_to s) (importing_slots_from s) (mf_end s) (mf_can_start s) (mf_slave s) (mf_master_offset s) (pause s)
  (todo_before_sleep s) (effects s).
Definition set_currentEpoch e s := mkState (heap s) (nodes s) (myself s) e (lastVoteEpoch s) (size s) (owners s)
  (migrating_slots_to s) (importing_slots_from s) (mf_end s) (mf_can_start s) (mf_slave s) (mf_master_offset s) (pause s)
  (todo_before_sleep s) (effects s).
Definition set_lastVoteEpoch e s := mkState (heap s) (nodes s) (myself s) (currentEpoch s) e (size s) (owners s)
  (migrating_slots_to s) (importing_slots_from s) (mf_end s) (mf_can_start s) (mf_slave s) (mf_master_offset s) (pause s)
  (todo_before_sleep s) (effects s).
Definition set_owners o s := mkState (heap s) (nodes s) (myself s) (currentEpoch s) (lastVoteEpoch s) (size s) o
  (migrating_slots_to s) (importing_slots_from s) (mf_end s) (mf_can_start s) (mf_slave s) (mf_master_offset s) (pause s)
  (todo_before_sleep s) (effects s).
Definition set_todo t s := mkState (heap s) (nodes s) (myself s) (currentEpoch s) (lastVoteEpoch s) (size s) (owners s)
  (migrating_slots_to s) (importing_slots_from s) (mf_end s) (mf_can_start s) (mf_slave s) (mf_master_offset s) (pause s)
  t (effects s).
Definition emit e s := mkState (heap s) (nodes s) (myself s) (currentEpoch s) (lastVoteEpoch s) (size s) (owners s)
  (migrating_slots_to s) (importing_slots_from s) (mf_end s) (mf_can_start s) (mf_slave s) (mf_master_offset s) (pause s)
  (todo_before_sleep s) (effects s ++ [e]).

Definition set_pause ps s := mkState (heap s) (nodes s) (myself s) (currentEpoch s) (lastVoteEpoch s) (size s) (owners s)
  (migrating_slots_to s) (importing_slots_from s) (mf_end s) (mf_can_start s) (mf_slave s) (mf_master_offset s)
  ps (todo_before_sleep s) (effects s).

Definition node (s : clusterState) (p : nodeptr) : option clusterNode := heap s !! p.
Definition upd (s : clusterState) (p : nodeptr) (f : clusterNode -> clusterNode) : option clusterState :=
  n ← node s p; Some (set_heap (<[p := f n]> (heap s)) s).

Definition has_flag (n : clusterNode) (f : Z) : bool := negb (Z.land (flags n) f =? 0).
Definition nodeIsMaster n := has_flag n CLUSTER_NODE_MASTER.
Definition nodeIsSlave n := has_flag n CLUSTER_NODE_SLAVE.
Definition nodeTimedOut n := has_flag n CLUSTER_NODE_PFAIL.
Definition nodeFailed n := has_flag n CLUSTER_NODE_FAIL.
Definition add_flag (f : Z) (n : clusterNode) : clusterNode := set_flags (Z.lor (flags n) f) n.
Definition clear_flag (f : Z) (n : clusterNode) : clusterNode := set_flags (Z.land (flags n) (Z.lnot f)) n.

Definition clusterDoBeforeSleep (fl : Z) (s : clusterState) : clusterState :=
  set_todo (Z.lor (todo_before_sleep s) fl) s.

(** ** Slot bitmaps *)

Definition bitmapTestBit (bitmap : list Z) (pos : Z) : option bool :=
  b ← bget bitmap (pos / 8); Some (negb (Z.land b (Z.shiftl 1 (Z.land pos 7)) =? 0)).
Definition bitmapSetBit (bitmap : list Z) (pos : Z) : option (list Z) :=
  b ← bget bitmap (pos / 8); bset bitmap (pos / 8) (u8 (Z.lor b (Z.shiftl 1 (Z.land pos 7)))).
Definition bitmapClearBit (bitmap : list Z) (pos : Z) : option (list Z) :=
  b ← bget bitmap (pos / 8); bset bitmap (pos / 8) (u8 (Z.land b (Z.lnot (Z.shiftl 1 (Z.land pos 7))))).

(** ** Slots and their owners *)

Fixpoint count_slaves (s : clusterState) (l : list nodeptr) : option Z :=
  match l with
  | [] => Some 0
  | p :: l => n ← node s p; k ← count_slaves s l; Some (if nodeIsSlave n then k else numslaves n + k)
  end.
Definition clusterMastersHaveSlaves (s : clusterState) : option bool :=
  k ← count_slaves s (nodes s); Some (negb (k =? 0)).

Definition clusterNodeSetSlotBit (s : clusterState) (p : nodeptr) (slot : Z) : option (clusterState * bool) :=
  n ← node s p;
  old ← bitmapTestBit (slots n) slot;
  b ← bitmapSetBit (slots n) slot;
  s ← upd s p (set_slots b);
  if (old : bool) then Some (s, old) else
  s ← upd s p (fun n => set_numslots (numslots n + 1) n);
  n ← node s p;
  if numslots n =? 1 then
    m ← clusterMastersHaveSlaves s;
    if (m : bool) then s ← upd s p (add_flag CLUSTER_NODE_MIGRATE_TO); Some (s, old) else Some (s, old)
  else Some (s, old).

Definition clusterNodeClearSlotBit (s : clusterState) (p : nodeptr) (slot : Z) : option (clusterState * bool) :=
  n ← node s p;
  old ← bitmapTestBit (slots n) slot;
  b ← bitmapClearBit (slots n) slot;
  s ← upd s p (set_slots b);
  if (old : bool) then s ← upd s p (fun n => set_numslots (numslots n - 1) n); Some (s, old) else Some (s, old).

Definition clusterNodeGetSlotBit (s : clusterState) (p : nodeptr) (slot : Z) : option bool :=
  n ← node s p; bitmapTestBit (slots n) slot.

(** server.cluster->slots[slot], and a store to it. *)
Definition owner (s : clusterState) (slot : Z) : option (option nodeptr) :=
  if 0 <=? slot then owners s !! Z.to_nat slot else None.
Definition set_owner (s : clusterState) (slot : Z) (o : option nodeptr) : option clusterState :=
  _ ← owner s slot; Some (set_owners (<[Z.to_nat slot := o]> (owners s)) s).

Definition clusterAddSlot (s : clusterState) (p : nodeptr) (slot : Z) : option (clusterState * Z) :=
  o ← owner s slot;
  match o with
  | Some _ => Some (s, C_ERR)
  | None =>
      '(s, _) ← clusterNodeSetSlotBit s p slot;
      s ← set_owner s slot (Some p);
      Some (s, C_OK)
  end.

Definition clusterDelSlot (s : clusterState) (slot : Z) : option (clusterState * Z) :=
  o ← owner s slot;
  match o with
  | None => Some (s, C_ERR)
  | Some p =>
      '(s, old) ← clusterNodeClearSlotBit s p slot;
      if (old : bool) then s ← set_owner s slot None; Some (s, C_OK) else None
  end.

Fixpoint del_node_slots_loop (n : nat) (s : clusterState) (p : nodeptr) (j deleted : Z) : option (clusterState * Z) :=
  match n with
  | O => Some (s, deleted)
  | S n =>
      b ← clusterNodeGetSlotBit s p j;
      s ← (if (b : bool) then '(s, _) ← clusterDelSlot s j; Some s else Some s);
      del_node_slots_loop n s p (j + 1) (deleted + 1)
  end.
Definition clusterDelNodeSlots (s : clusterState) (p : nodeptr) : option (clusterState * Z) :=
  del_node_slots_loop (Z.to_nat CLUSTER_SLOTS) s p 0 0.

Definition clusterCloseAllSlots (s : clusterState) : clusterState :=
  mkState (heap s) (nodes s) (myself s) (currentEpoch s) (lastVoteEpoch s) (size s) (owners s)
    (replicate (Z.to_nat CLUSTER_SLOTS) None) (replicate (Z.to_nat CLUSTER_SLOTS) None)
    (mf_end s) (mf_can_start s) (mf_slave s) (mf_master_offset s) (pause s) (todo_before_sleep s) (effects s).

(** ** Replicas *)

Fixpoint remove_first (p : nodeptr) (l : list nodeptr) : option (list nodeptr) :=
  match l with
  | [] => None
  | q :: l => if decide (q = p) then Some l else r ← remove_first p l; Some (q :: r)
  end.

Definition clusterNodeRemoveSlave (s : clusterState) (master slave : nodeptr) : option (clusterState * Z) :=
  m ← node s master;
  match remove_first slave (slaves m) with
  | Some l =>
      s ← upd s master (set_slaves l);
      s ← (if zlen l =? 0 then upd s master (clear_flag CLUSTER_NODE_MIGRATE_TO) else Some s);
      Some (s, C_OK)
  | None => Some (s, C_ERR)
  end.

Definition clusterNodeAddSlave (s : clusterState) (master slave : nodeptr) : option (clusterState * Z) :=
  m ← node s master;
  if decide (slave ∈ slaves m) then Some (s, C_ERR) else
  s ← upd s master (fun m => set_slaves (slaves m ++ [slave]) m);
  s ← upd s master (add_flag CLUSTER_NODE_MIGRATE_TO);
  Some (s, C_OK).

Fixpoint count_ok (s : clusterState) (l : list nodeptr) : option Z :=
  match l with
  | [] => Some 0
  | p :: l => n ← node s p; k ← count_ok s l; Some (if nodeFailed n then k else k + 1)
  end.
Definition clusterCountNonFailingSlaves (s : clusterState) (p : nodeptr) : option Z :=
  n ← node s p; count_ok s (slaves n).

(** ** Failure reports *)

Section Reports.
  (** server.cluster_node_timeout, and the time each call of mstime returns. *)
  Context (timeout now : Z).

Fixpoint refresh_report (sender : nodeptr) (l : list (nodeptr * Z)) : option (list (nodeptr * Z)) :=
  match l with
  | [] => None
  | (n, t) :: l => if decide (n = sender) then Some ((n, now) :: l) else r ← refresh_report sender l; Some ((n, t) :: r)
  end.

Definition clusterNodeAddFailureReport (s : clusterState) (failing sender : nodeptr) : option (clusterState * Z) :=
  f ← node s failing;
  match refresh_report sender (fail_reports f) with
  | Some l => s ← upd s failing (set_fail_reports l); Some (s, 0)
  | None => s ← upd s failing (set_fail_reports (fail_reports f ++ [(sender, now)])); Some (s, 1)
  end.

Definition clusterNodeCleanupFailureReports (s : clusterState) (p : nodeptr) : option clusterState :=
  let maxtime := timeout * CLUSTER_FAIL_REPORT_VALIDITY_MULT in
  upd s p (fun n => set_fail_reports (List.filter (fun r => negb (now - r.2 >? maxtime)) (fail_reports n)) n).

Fixpoint remove_report (sender : nodeptr) (l : list (nodeptr * Z)) : option (list (nodeptr * Z)) :=
  match l with
  | [] => None
  | (n, t) :: l => if decide (n = sender) then Some l else r ← remove_report sender l; Some ((n, t) :: r)
  end.

Definition clusterNodeDelFailureReport (s : clusterState) (p sender : nodeptr) : option (clusterState * Z) :=
  n ← node s p;
  match remove_report sender (fail_reports n) with
  | None => Some (s, 0)
  | Some l =>
      s ← upd s p (set_fail_reports l);
      s ← clusterNodeCleanupFailureReports s p;
      Some (s, 1)
  end.

Definition clusterNodeFailureReportsCount (s : clusterState) (p : nodeptr) : option (clusterState * Z) :=
  s ← clusterNodeCleanupFailureReports s p;
  n ← node s p;
  Some (s, zlen (fail_reports n)).

Definition clearNodeFailureIfNeeded (s : clusterState) (p : nodeptr) : option clusterState :=
  n ← node s p;
  if negb (nodeFailed n) then None else
  s ← (if nodeIsSlave n || (numslots n =? 0) then
         s ← upd s p (clear_flag CLUSTER_NODE_FAIL);
         Some (clusterDoBeforeSleep (Z.lor CLUSTER_TODO_UPDATE_STATE CLUSTER_TODO_SAVE_CONFIG) s)
       else Some s);
  n ← node s p;
  if nodeIsMaster n && (numslots n >? 0) && (now - fail_time n >? timeout * CLUSTER_FAIL_UNDO_TIME_MULT) then
    s ← upd s p (clear_flag CLUSTER_NODE_FAIL);
    Some (clusterDoBeforeSleep (Z.lor CLUSTER_TODO_UPDATE_STATE CLUSTER_TODO_SAVE_CONFIG) s)
  else Some s.
End Reports.

(** [count_time] is the clock read when the reports are cleaned up, [fail_at]
    the one read for fail_time. *)
Definition markNodeAsFailingIfNeeded (timeout count_time fail_at : Z) (s : clusterState) (p : nodeptr) : option clusterState :=
  let needed_quorum := size s ÷ 2 + 1 in
  n ← node s p;
  if negb (nodeTimedOut n) then Some s else
  if nodeFailed n then Some s else
  '(s, failures) ← clusterNodeFailureReportsCount timeout count_time s p;
  me ← node s (myself s);
  let failures := if nodeIsMaster me then failures + 1 else failures in
  if failures <? needed_quorum then Some s else
  s ← upd s p (clear_flag CLUSTER_NODE_PFAIL);
  s ← upd s p (add_flag CLUSTER_NODE_FAIL);
  s ← upd s p (set_fail_time fail_at);
  me ← node s (myself s);
  let s := if nodeIsMaster me then emit (SendFail p) s else s in
  Some (clusterDoBeforeSleep (Z.lor CLUSTER_TODO_UPDATE_STATE CLUSTER_TODO_SAVE_CONFIG) s).

(** clusterProcessGossipSection, what the entry about a known node does to its
    failure reports: [fl] are the flags the entry carries, [now] the clock read
    by the failure report, [count_time] and [fail_at] those of the verdict. *)
Definition process_gossip_entry (timeout now count_time fail_at : Z) (s : clusterState) (sender p : nodeptr) (fl : Z)
    : option clusterState :=
  snd ← node s sender;
  if nodeIsMaster snd && bool_decide (p <> myself s) then
    if negb (Z.land fl (Z.lor CLUSTER_NODE_FAIL CLUSTER_NODE_PFAIL) =? 0) then
      '(s, _) ← clusterNodeAddFailureReport now s p sender;
      markNodeAsFailingIfNeeded timeout count_time fail_at s p
    else
      '(s, _) ← clusterNodeDelFailureReport timeout now s p sender;
      Some s
  else Some s.

(** ** Configuration epochs *)

Fixpoint max_epoch (s : clusterState) (l : list nodeptr) (max : Z) : option Z :=
  match l with
  | [] => Some max
  | p :: l => n ← node s p; max_epoch s l (if configEpoch n >? max then configEpoch n else max)
  end.
Definition clusterGetMaxEpoch (s : clusterState) : option Z :=
  max ← max_epoch s (nodes s) 0;
  Some (if max <? currentEpoch s then currentEpoch s else max).

Definition clusterBumpConfigEpochWithoutConsensus (s : clusterState) : option (clusterState * Z) :=
  maxEpoch ← clusterGetMaxEpoch s;
  me ← node s (myself s);
  if (configEpoch me =? 0) || negb (configEpoch me =? maxEpoch) then
    let s := set_currentEpoch (u64 (currentEpoch s + 1)) s in
    s ← upd s (myself s) (set_configEpoch (currentEpoch s));
    Some (clusterDoBeforeSleep (Z.lor CLUSTER_TODO_SAVE_CONFIG CLUSTER_TODO_FSYNC_CONFIG) s, C_OK)
  else Some (s, C_ERR).

(** memcmp on the names: the sign of the first difference. *)
Fixpoint name_cmp (a b : list Z) : Z :=
  match a, b with
  | x :: a, y :: b => if x =? y then name_cmp a b else x - y
  | _, _ => 0
  end.

Definition clusterHandleConfigEpochCollision (s : clusterState) (sender : nodeptr) : option clusterState :=
  snd ← node s sender;
  me ← node s (myself s);
  if negb (configEpoch snd =? configEpoch me) || negb (nodeIsMaster snd) || negb (nodeIsMaster me) then Some s else
  if name_cmp (name snd) (name me) <=? 0 then Some s else
  let s := set_currentEpoch (u64 (currentEpoch s + 1)) s in
  s ← upd s (myself s) (set_configEpoch (currentEpoch s));
  Some (emit SaveConfigOrDie s).

(** ** Changes of role and of slot configuration *)

Definition clusterSetNodeAsMaster (s : clusterState) (p : nodeptr) : option clusterState :=
  n ← node s p;
  if nodeIsMaster n then Some s else
  s ← (match slaveof n with
       | Some m =>
           '(s, _) ← clusterNodeRemoveSlave s m p;
           if decide (p = myself s) then Some s else upd s p (add_flag CLUSTER_NODE_MIGRATE_TO)
       | None => Some s
       end);
  s ← upd s p (clear_flag CLUSTER_NODE_SLAVE);
  s ← upd s p (add_flag CLUSTER_NODE_MASTER);
  s ← upd s p (set_slaveof None);
  Some (clusterDoBeforeSleep (Z.lor CLUSTER_TODO_SAVE_CONFIG CLUSTER_TODO_UPDATE_STATE) s).

(** clientsArePaused (networking.c): an elapsed pause ends, and every client that
    is neither a replica nor blocked is queued for the commands it has sent. *)
Definition clientsArePaused (s : clusterState) : clusterState * bool :=
  let ps := pause s in
  if clients_paused ps && (clients_pause_end_time ps <? server_mstime ps) then
    (emit UnblockClients (set_pause (mkPause false (clients_pause_end_time ps) (server_mstime ps)) s), false)
  else (s, clients_paused ps).

Definition resetManualFailover (s : clusterState) : clusterState :=
  let s := if mf_end s =? 0 then s else
    let '(s, paused) := clientsArePaused s in
    if paused : bool then
      fst (clientsArePaused (set_pause (mkPause (clients_paused (pause s)) 0 (server_mstime (pause s))) s))
    else s in
  mkState (heap s) (nodes s) (myself s) (currentEpoch s) (lastVoteEpoch s) (size s) (owners s)
    (migrating_slots_to s) (importing_slots_from s) 0 0 None 0 (pause s) (todo_before_sleep s) (effects s).

Definition clusterSetMaster (s : clusterState) (p : nodeptr) : option clusterState :=
  if decide (p = myself s) then None else
  me ← node s (myself s);
  if negb (numslots me =? 0) then None else
  s ← (if nodeIsMaster me then
         s ← upd s (myself s) (clear_flag (Z.lor CLUSTER_NODE_MASTER CLUSTER_NODE_MIGRATE_TO));
         s ← upd s (myself s) (add_flag CLUSTER_NODE_SLAVE);
         Some (clusterCloseAllSlots s)
       else match slaveof me with
            | Some m => '(s, _) ← clusterNodeRemoveSlave s m (myself s); Some s
            | None => Some s
            end);
  s ← upd s (myself s) (set_slaveof (Some p));
  '(s, _) ← clusterNodeAddSlave s p (myself s);
  Some (resetManualFailover (emit (ReplicationSetMaster p) s)).

Section UpdateSlots.
  (** countKeysInSlot: the number of keys the database holds in a slot. *)
  Context (countKeysInSlot : Z -> Z).

Fixpoint update_slots_loop (n : nat) (s : clusterState) (sender : nodeptr) (senderConfigEpoch : Z)
    (bitmap : list Z) (curmaster newmaster : option nodeptr) (j : Z) (dirty_slots : list Z)
    : option (clusterState * option nodeptr * list Z) :=
  match n with
  | O => Some (s, newmaster, dirty_slots)
  | S n =>
      claimed ← bitmapTestBit bitmap j;
      if negb claimed then update_slots_loop n s sender senderConfigEpoch bitmap curmaster newmaster (j + 1) dirty_slots else
      o ← owner s j;
      if decide (o = Some sender) then update_slots_loop n s sender senderConfigEpoch bitmap curmaster newmaster (j + 1) dirty_slots else
      importing ← importing_slots_from s !! Z.to_nat j;
      if decide (importing <> None) then update_slots_loop n s sender senderConfigEpoch bitmap curmaster newmaster (j + 1) dirty_slots else
      rebind ← (match o with None => Some true | Some q => m ← node s q; Some (configEpoch m <? senderConfigEpoch) end);
      if (rebind : bool) then
        let dirty_slots :=
          if bool_decide (o = Some (myself s)) && negb (countKeysInSlot j =? 0) && bool_decide (sender <> myself s)
          then dirty_slots ++ [j] else dirty_slots in
        let newmaster := if decide (o = curmaster) then Some sender else newmaster in
        '(s, _) ← clusterDelSlot s j;
        '(s, _) ← clusterAddSlot s sender j;
        let s := clusterDoBeforeSleep (Z.lor CLUSTER_TODO_SAVE_CONFIG
                   (Z.lor CLUSTER_TODO_UPDATE_STATE CLUSTER_TODO_FSYNC_CONFIG)) s in
        update_slots_loop n s sender senderConfigEpoch bitmap curmaster newmaster (j + 1) dirty_slots
      else update_slots_loop n s sender senderConfigEpoch bitmap curmaster newmaster (j + 1) dirty_slots
  end.

Definition clusterUpdateSlotsConfigWith (s : clusterState) (sender : nodeptr) (senderConfigEpoch : Z)
    (bitmap : list Z) : option clusterState :=
  me ← node s (myself s);
  let curmaster := if nodeIsMaster me then Some (myself s) else slaveof me in
  if decide (sender = myself s) then Some s else
  '(s, newmaster, dirty_slots) ←
    update_slots_loop (Z.to_nat CLUSTER_SLOTS) s sender senderConfigEpoch bitmap curmaster None 0 [];
  demoted ← (match newmaster with
             | Some _ => c ← curmaster; m ← node s c; Some (numslots m =? 0)
             | None => Some false
             end);
  if (demoted : bool) then
    s ← clusterSetMaster s sender;
    Some (clusterDoBeforeSleep (Z.lor CLUSTER_TODO_SAVE_CONFIG
            (Z.lor CLUSTER_TODO_UPDATE_STATE CLUSTER_TODO_FSYNC_CONFIG)) s)
  else Some (foldl (fun s j => emit (DelKeysInSlot j) s) s dirty_slots).
End UpdateSlots.

(** ** Votes *)

(** The fields of a FAILOVER_AUTH_REQUEST the voter reads. *)
Record request := { req_currentEpoch : Z; req_configEpoch : Z; req_myslots : list Z; req_force_ack : bool }.

(** Is some claimed slot served under a greater epoch than the requested one? *)
Fixpoint stale_claim (n : nat) (s : clusterState) (r : request) (j : Z) : option bool :=
  match n with
  | O => Some false
  | S n =>
      claimed ← bitmapTestBit (req_myslots r) j;
      if negb claimed then stale_claim n s r (j + 1) else
      o ← owner s j;
      match o with
      | None => stale_claim n s r (j + 1)
      | Some q => m ← node s q;
                  if configEpoch m <=? req_configEpoch r then stale_claim n s r (j + 1) else Some true
      end
  end.

Definition clusterSendFailoverAuth (s : clusterState) (p : nodeptr) : option clusterState :=
  n ← node s p; Some (if has_link n then emit (SendFailoverAuth p) s else s).

(** [now1] and [now2] are what the two calls of mstime return. *)
Definition clusterSendFailoverAuthIfNeeded (timeout now1 now2 : Z) (s : clusterState) (p : nodeptr) (r : request)
    : option clusterState :=
  n ← node s p;
  me ← node s (myself s);
  if nodeIsSlave me || (numslots me =? 0) then Some s else
  if req_currentEpoch r <? currentEpoch s then Some s else
  if lastVoteEpoch s =? currentEpoch s then Some s else
  if nodeIsMaster n then Some s else
  match slaveof n with
  | None => Some s
  | Some m =>
      master ← node s m;
      if negb (nodeFailed master) && negb (req_force_ack r) then Some s else
      if now1 - voted_time master <? timeout * 2 then Some s else
      stale ← stale_claim (Z.to_nat CLUSTER_SLOTS) s r 0;
      if (stale : bool) then Some s else
      s ← clusterSendFailoverAuth s p;
      let s := set_lastVoteEpoch (currentEpoch s) s in
      upd s m (set_voted_time now2)
  end.

(** clusterProcessPacket, the epochs a header from a known node carries. *)
Definition process_epochs (s : clusterState) (sender : nodeptr) (senderCurrentEpoch senderConfigEpoch : Z)
    : option clusterState :=
  let s := if senderCurrentEpoch >? currentEpoch s then set_currentEpoch senderCurrentEpoch s else s in
  n ← node s sender;
  if senderConfigEpoch >? configEpoch n then
    s ← upd s sender (set_configEpoch senderConfigEpoch);
    Some (clusterDoBeforeSleep (Z.lor CLUSTER_TODO_SAVE_CONFIG CLUSTER_TODO_FSYNC_CONFIG) s)
  else Some s.

(** ** Bitmaps *)

Definition bit (b : list Z) (j : Z) : bool := Z.testbit (default 0 (b !! Z.to_nat (j / 8))) (j mod 8).
Definition bitmap_ok (b : list Z) : Prop := zlen b = CLUSTER_SLOTS / 8 /\ bytes_ok b.
Definition slot_ok (j : Z) : Prop := 0 <= j < CLUSTER_SLOTS.

Lemma slot_byte j : slot_ok j -> 0 <= j / 8 < CLUSTER_SLOTS / 8.
Proof. unfold slot_ok, CLUSTER_SLOTS. intros. change (16384 / 8) with 2048. dlia. Qed.

Lemma bitmap_get b j : bitmap_ok b -> slot_ok j ->
  exists x, bget b (j / 8) = Some x /\ b !! Z.to_nat (j / 8) = Some x /\ byte_ok x.
Proof.
  intros [Hl Hb] Hj. assert (Hs := slot_byte j Hj).
  destruct (lookup_lt_is_Some_2 b (Z.to_nat (j / 8))) as [x Hx]; [lia|]. exists x.
  rewrite bget_lookup by lia. split; [done|]. split; [done|]. by eapply (list.Forall_lookup_1 _ _ _ _ Hb).
Qed.

Lemma pos_land_7 j : Z.land j 7 = j mod 8.
Proof. change 7 with (Z.ones 3). by rewrite Z.land_ones by lia. Qed.

Lemma land_bit x k : 0 <= k -> Z.land x (Z.shiftl 1 k) = if Z.testbit x k then Z.shiftl 1 k else 0.
Proof.
  intros Hk. rewrite Z.shiftl_1_l. apply Z.bits_inj'. intros n Hn. rewrite Z.land_spec, Z.pow2_bits_eqb by done.
  destruct (Z.eqb_spec k n) as [->|].
  - rewrite andb_true_r. destruct (Z.testbit x n); [by rewrite Z.pow2_bits_true|by rewrite Z.bits_0].
  - rewrite andb_false_r. destruct (Z.testbit x k); [by rewrite Z.pow2_bits_false|by rewrite Z.bits_0].
Qed.

Lemma bitmapTestBit_spec b j : bitmap_ok b -> slot_ok j -> bitmapTestBit b j = Some (bit b j).
Proof.
  intros Hb Hj. destruct (bitmap_get b j Hb Hj) as (x & Hx & Hl & _). unfold bitmapTestBit, bit. rewrite Hx, Hl.
  cbn [mbind option_bind]. change (default 0 (Some x)) with x. f_equal. rewrite pos_land_7. assert (0 <= j mod 8) by (apply Z.mod_pos_bound; lia).
  rewrite land_bit by done. destruct (Z.testbit x (j mod 8)); [|done].
  rewrite Z.shiftl_1_l. by rewrite (proj2 (Z.eqb_neq _ _)) by (apply Z.pow_nonzero; lia).
Qed.

(** A byte of the bitmap is replaced: the bits of [j] to [j]. *)
Lemma bit_insert b j x' k :
  bitmap_ok b -> slot_ok j -> slot_ok k ->
  bit (<[Z.to_nat (j / 8) := x']> b) k = if k / 8 =? j / 8 then Z.testbit x' (k mod 8) else bit b k.
Proof.
  intros [Hl _] Hj Hk. assert (Hsj := slot_byte j Hj). assert (Hsk := slot_byte k Hk). unfold bit.
  destruct (Z.eqb_spec (k / 8) (j / 8)) as [->|Hne].
  - by rewrite list_lookup_insert_eq by lia.
  - rewrite list_lookup_insert_ne; [done|]. intros E. apply Hne. lia.
Qed.

Lemma slot_eq j k : k / 8 = j / 8 -> (k =? j) = (k mod 8 =? j mod 8).
Proof. intros E. destruct (Z.eqb_spec k j) as [->|]; [by rewrite Z.eqb_refl|]. symmetry. apply Z.eqb_neq. dlia. Qed.

Lemma insert_byte_ok b i x : bitmap_ok b -> byte_ok x -> bitmap_ok (<[i := x]> b).
Proof. intros [Hl Hb] Hx. split; [by rewrite length_insert|]. by apply Forall_insert. Qed.

Lemma bitmapSetBit_spec b j : bitmap_ok b -> slot_ok j ->
  exists b', bitmapSetBit b j = Some b' /\ bitmap_ok b' /\ forall k, slot_ok k -> bit b' k = (k =? j) || bit b k.
Proof.
  intros Hb Hj. destruct (bitmap_get b j Hb Hj) as (x & Hx & Hl & Hbx). unfold bitmapSetBit. rewrite Hx. cbn [mbind option_bind].
  assert (Hs := slot_byte j Hj). rewrite bset_insert by (destruct Hb; lia). eexists. split; [done|].
  split; [apply insert_byte_ok; [done|apply Z.mod_pos_bound; lia]|].
  intros k Hk. rewrite bit_insert by done. destruct (Z.eqb_spec (k / 8) (j / 8)) as [E|E].
  - rewrite (slot_eq j k E). unfold u8. change 256 with (2 ^ 8).
    assert (0 <= k mod 8 < 8) by (apply Z.mod_pos_bound; lia). assert (0 <= j mod 8 < 8) by (apply Z.mod_pos_bound; lia).
    rewrite Z.mod_pow2_bits_low by lia. rewrite Z.lor_spec, pos_land_7, Z.shiftl_1_l, Z.pow2_bits_eqb by lia.
    unfold bit. rewrite E, Hl. change (default 0 (Some x)) with x. rewrite orb_comm. f_equal. apply Z.eqb_sym.
  - rewrite (proj2 (Z.eqb_neq k j)) by (intros ->; by apply E). done.
Qed.

Lemma bitmapClearBit_spec b j : bitmap_ok b -> slot_ok j ->
  exists b', bitmapClearBit b j = Some b' /\ bitmap_ok b' /\ forall k, slot_ok k -> bit b' k = negb (k =? j) && bit b k.
Proof.
  intros Hb Hj. destruct (bitmap_get b j Hb Hj) as (x & Hx & Hl & Hbx). unfold bitmapClearBit. rewrite Hx. cbn [mbind option_bind].
  assert (Hs := slot_byte j Hj). rewrite bset_insert by (destruct Hb; lia). eexists. split; [done|].
  split; [apply insert_byte_ok; [done|apply Z.mod_pos_bound; lia]|].
  intros k Hk. rewrite bit_insert by done. destruct (Z.eqb_spec (k / 8) (j / 8)) as [E|E].
  - rewrite (slot_eq j k E). unfold u8. change 256 with (2 ^ 8).
    assert (0 <= k mod 8 < 8) by (apply Z.mod_pos_bound; lia). assert (0 <= j mod 8 < 8) by (apply Z.mod_pos_bound; lia).
    rewrite Z.mod_pow2_bits_low by lia.
    rewrite Z.land_spec, Z.lnot_spec, pos_land_7, Z.shiftl_1_l, Z.pow2_bits_eqb by lia.
    unfold bit. rewrite E, Hl. change (default 0 (Some x)) with x. rewrite andb_comm. do 2 f_equal. apply Z.eqb_sym.
  - rewrite (proj2 (Z.eqb_neq k j)) by (intros ->; by apply E). done.
Qed.

(** The number of slots a bitmap holds. *)
Definition count_bits (f : Z -> bool) (n : Z) : Z := zlen (List.filter f (seqZ 0 n)).

Lemma filter_ext_seqZ (f g : Z -> bool) a n :
  (forall k, a <= k < a + n -> f k = g k) -> List.filter f (seqZ a n) = List.filter g (seqZ a n).
Proof.
  intros H. apply filter_ext_in. intros k Hk. apply H. apply list_elem_of_In, elem_of_seqZ in Hk. lia.
Qed.

Lemma seqZ_split j n : 0 <= j < n -> seqZ 0 n = seqZ 0 j ++ j :: seqZ (j + 1) (n - j - 1).
Proof.
  intros Hj. replace n with (j + (n - j)) at 1 by lia. rewrite seqZ_app by lia. f_equal.
  rewrite seqZ_cons by lia. do 2 (f_equal; try lia).
Qed.

Lemma count_bits_set f g j n :
  0 <= j < n -> f j = false -> g j = true -> (forall k, 0 <= k < n -> k <> j -> f k = g k) ->
  count_bits g n = count_bits f n + 1.
Proof.
  intros Hj Hf Hg Hfg. unfold count_bits. rewrite (seqZ_split j n Hj), !List.filter_app. cbn [List.filter]. rewrite Hf, Hg.
  rewrite (filter_ext_seqZ f g 0 j) by (intros; apply Hfg; lia).
  rewrite (filter_ext_seqZ f g (j + 1)) by (intros; apply Hfg; lia).
  rewrite !length_app. cbn [length]. lia.
Qed.

(** ** The slot invariant *)

(** The bitmap of a node and its counter agree. *)
Definition node_ok (n : clusterNode) : Prop :=
  bitmap_ok (slots n) /\ numslots n = count_bits (bit (slots n)) CLUSTER_SLOTS.

(** The slots table and the bitmaps of the nodes agree: a node's bit is set
    exactly for the slots it owns. *)
Record slots_inv (s : clusterState) : Prop := {
  inv_owners : zlen (owners s) = CLUSTER_SLOTS;
  inv_importing : zlen (importing_slots_from s) = CLUSTER_SLOTS;
  inv_nodes : forall p n, heap s !! p = Some n -> node_ok n;
  inv_bits : forall p n j, heap s !! p = Some n -> slot_ok j ->
    (bit (slots n) j = true <-> owners s !! Z.to_nat j = Some (Some p));
  inv_dangling : forall j p, slot_ok j -> owners s !! Z.to_nat j = Some (Some p) -> is_Some (heap s !! p)
}.

(** Every node of the table is an object of the store. *)
Definition nodes_ok (s : clusterState) : Prop :=
  Forall (fun p => is_Some (heap s !! p)) (nodes s) /\ is_Some (heap s !! myself s).

Lemma owner_spec s j : slots_inv s -> slot_ok j -> exists o, owner s j = Some o /\ owners s !! Z.to_nat j = Some o.
Proof.
  intros Hi Hj. unfold slot_ok in Hj. destruct (lookup_lt_is_Some_2 (owners s) (Z.to_nat j)) as [o Ho].
  { assert (H := inv_owners _ Hi). lia. }
  exists o. unfold owner. by rewrite (proj2 (Z.leb_le 0 j)) by lia.
Qed.

Lemma upd_spec s p f n : heap s !! p = Some n -> upd s p f = Some (set_heap (<[p := f n]> (heap s)) s).
Proof. intros Hn. unfold upd, node. by rewrite Hn. Qed.

Lemma upd_upd s p f g n :
  heap s !! p = Some n ->
  upd (set_heap (<[p := f n]> (heap s)) s) p g = Some (set_heap (<[p := g (f n)]> (heap s)) s).
Proof.
  intros Hn. unfold upd, node. cbn [heap set_heap]. rewrite lookup_insert_eq. cbn [mbind option_bind]. 
  by rewrite insert_insert_eq.
Qed.

Lemma count_slaves_total s l : Forall (fun p => is_Some (heap s !! p)) l -> is_Some (count_slaves s l).
Proof.
  induction 1 as [|p l [n Hn] Hl [k Hk]]; [by eexists|]. cbn [count_slaves]. unfold node. rewrite Hn. cbn [mbind option_bind].
  rewrite Hk. by eexists.
Qed.

Lemma heap_insert_total s p n (l : list nodeptr) :
  Forall (fun q => is_Some (heap s !! q)) l ->
  Forall (fun q => is_Some (heap (set_heap (<[p := n]> (heap s)) s) !! q)) l.
Proof.
  intros H. eapply Forall_impl; [exact H|]. intros q [m Hm]. cbn [heap set_heap].
  destruct (decide (q = p)) as [->|]; [rewrite lookup_insert_eq|rewrite lookup_insert_ne by done]; by eexists.
Qed.

Lemma clusterNodeSetSlotBit_spec s p n j :
  slots_inv s -> nodes_ok s -> heap s !! p = Some n -> slot_ok j -> bit (slots n) j = false ->
  exists b fl, (fl = flags n \/ fl = Z.lor (flags n) CLUSTER_NODE_MIGRATE_TO) /\
    bitmap_ok b /\ (forall k, slot_ok k -> bit b k = (k =? j) || bit (slots n) k) /\
    clusterNodeSetSlotBit s p j =
      Some (set_heap (<[p := set_flags fl (set_numslots (numslots n + 1) (set_slots b n))]> (heap s)) s, false).
Proof.
  intros Hi [Hnodes _] Hn Hj Hbit. destruct (inv_nodes _ Hi _ _ Hn) as [Hb _].
  destruct (bitmapSetBit_spec (slots n) j Hb Hj) as (b & Hset & Hbok & Hbits).
  unfold clusterNodeSetSlotBit. change (node s p) with (heap s !! p). rewrite Hn. cbn [mbind option_bind].
  rewrite bitmapTestBit_spec, Hset, Hbit by done. cbn [mbind option_bind].
  rewrite (upd_spec s p _ n Hn). cbn [mbind option_bind].
  rewrite (upd_upd s p (set_slots b) _ n Hn). cbn [mbind option_bind].
  set (n' := set_numslots (numslots (set_slots b n) + 1) (set_slots b n)).
  assert (Hn' : heap (set_heap (<[p := n']> (heap s)) s) !! p = Some n') by apply lookup_insert_eq.
  unfold node. rewrite Hn'. cbn [mbind option_bind].
  assert (Hsame : set_flags (flags n') n' = n') by done.
  destruct (numslots n' =? 1); [|exists b, (flags n'); split; [by left|]; by rewrite <-Hsame].
  destruct (count_slaves_total _ _ (heap_insert_total s p n' _ Hnodes)) as [k Hk].
  unfold clusterMastersHaveSlaves. change (nodes (set_heap _ s)) with (nodes s). rewrite Hk. cbn [mbind option_bind].
  destruct (negb (k =? 0)); [|exists b, (flags n'); split; [by left|]; by rewrite <-Hsame].
  rewrite (upd_upd s p (fun _ => n') (add_flag CLUSTER_NODE_MIGRATE_TO) n Hn). cbn [mbind option_bind].
  exists b, (Z.lor (flags n') CLUSTER_NODE_MIGRATE_TO). split; [by right|done].
Qed.

Lemma clusterNodeClearSlotBit_spec s p n j :
  slots_inv s -> heap s !! p = Some n -> slot_ok j -> bit (slots n) j = true ->
  exists b, bitmap_ok b /\ (forall k, slot_ok k -> bit b k = negb (k =? j) && bit (slots n) k) /\
    clusterNodeClearSlotBit s p j =
      Some (set_heap (<[p := set_numslots (numslots n - 1) (set_slots b n)]> (heap s)) s, true).
Proof.
  intros Hi Hn Hj Hbit. destruct (inv_nodes _ Hi _ _ Hn) as [Hb _].
  destruct (bitmapClearBit_spec (slots n) j Hb Hj) as (b & Hset & Hbok & Hbits).
  unfold clusterNodeClearSlotBit. change (node s p) with (heap s !! p). rewrite Hn. cbn [mbind option_bind].
  rewrite bitmapTestBit_spec, Hset, Hbit by done. cbn [mbind option_bind].
  rewrite (upd_spec s p _ n Hn). cbn [mbind option_bind].
  rewrite (upd_upd s p (set_slots b) _ n Hn). cbn [mbind option_bind]. by exists b.
Qed.

(** Changing one bit of one node together with the owner of the slot. *)
Lemma slots_inv_change s p n n' j (o : option nodeptr) :
  slots_inv s -> heap s !! p = Some n -> slot_ok j -> node_ok n' ->
  (forall k, slot_ok k -> k <> j -> bit (slots n') k = bit (slots n) k) ->
  (bit (slots n') j = true <-> o = Some p) ->
  (forall q, q <> p -> owners s !! Z.to_nat j <> Some (Some q)) -> (forall q, o = Some q -> q = p) ->
  slots_inv (set_owners (<[Z.to_nat j := o]> (owners s)) (set_heap (<[p := n']> (heap s)) s)).
Proof.
  intros Hi Hn Hj Hn' Hbits Hbit Hold Ho. unfold slot_ok in Hj.
  assert (Hlen := inv_owners _ Hi). split; cbn [heap owners importing_slots_from set_owners set_heap].
  - by rewrite length_insert.
  - apply (inv_importing _ Hi).
  - intros q m. destruct (decide (q = p)) as [->|Hq].
    + rewrite lookup_insert_eq. by intros [= <-].
    + rewrite lookup_insert_ne by done. apply (inv_nodes _ Hi).
  - intros q m k Hm Hk. unfold slot_ok in Hk.
    destruct (decide (k = j)) as [->|Hkj]; [rewrite list_lookup_insert_eq by lia|rewrite list_lookup_insert_ne by lia];
      destruct (decide (q = p)) as [->|Hq];
      try (rewrite lookup_insert_eq in Hm; injection Hm as <-); try (rewrite lookup_insert_ne in Hm by done).
    + rewrite Hbit. split; [by intros ->|by intros [= ->]].
    + rewrite (inv_bits _ Hi _ _ _ Hm) by done. split; [intros Hqo; by apply Hold in Hqo|].
      intros [= ->]. by specialize (Ho q eq_refl).
    + rewrite Hbits by done. by apply (inv_bits _ Hi).
    + by apply (inv_bits _ Hi).
  - intros k q Hk. unfold slot_ok in Hk. destruct (decide (k = j)) as [->|Hkj].
    + rewrite list_lookup_insert_eq by lia. intros [= ->]. rewrite (Ho q eq_refl), lookup_insert_eq. by eexists.
    + rewrite list_lookup_insert_ne by lia. intros Hq. apply (inv_dangling _ Hi) in Hq as [m Hm]; [|done].
      destruct (decide (q = p)) as [->|]; [rewrite lookup_insert_eq|rewrite lookup_insert_ne by done]; by eexists.
Qed.

Lemma set_owner_spec s h j o :
  zlen (owners s) = CLUSTER_SLOTS -> slot_ok j ->
  set_owner (set_heap h s) j o = Some (set_owners (<[Z.to_nat j := o]> (owners s)) (set_heap h s)).
Proof.
  intros Hl Hj. unfold slot_ok in Hj. unfold set_owner, owner. cbn [owners set_heap]. rewrite (proj2 (Z.leb_le 0 j)) by lia.
  destruct (lookup_lt_is_Some_2 (owners s) (Z.to_nat j)) as [x ->]; [lia|]. done.
Qed.

Lemma clusterAddSlot_free s p n j :
  slots_inv s -> nodes_ok s -> heap s !! p = Some n -> slot_ok j -> owners s !! Z.to_nat j = Some None ->
  exists b fl, let n' := set_flags fl (set_numslots (numslots n + 1) (set_slots b n)) in
    let s' := set_owners (<[Z.to_nat j := Some p]> (owners s)) (set_heap (<[p := n']> (heap s)) s) in
    (fl = flags n \/ fl = Z.lor (flags n) CLUSTER_NODE_MIGRATE_TO) /\
    clusterAddSlot s p j = Some (s', C_OK) /\ slots_inv s'.
Proof.
  intros Hi Hnodes Hn Hj Ho. assert (Hfree : bit (slots n) j = false).
  { apply not_true_is_false. rewrite (inv_bits _ Hi _ _ _ Hn Hj), Ho. done. }
  destruct (clusterNodeSetSlotBit_spec s p n j Hi Hnodes Hn Hj Hfree) as (b & fl & Hfl & Hb & Hbits & Hrun).
  exists b, fl. cbv zeta. split; [done|]. unfold clusterAddSlot, owner. unfold slot_ok in Hj. rewrite (proj2 (Z.leb_le 0 j)) by lia.
  rewrite Ho. cbn [mbind option_bind]. rewrite Hrun. cbn [mbind option_bind].
  rewrite set_owner_spec by (done || apply (inv_owners _ Hi)). split; [done|].
  apply (slots_inv_change s p n); try done.
  - split; [done|]. cbn [slots numslots set_flags set_numslots set_slots]. rewrite (proj2 (inv_nodes _ Hi _ _ Hn)). symmetry.
    apply (count_bits_set _ _ j); [done|done| |].
    + rewrite Hbits by done. by rewrite Z.eqb_refl.
    + intros k Hk Hkj. rewrite Hbits by done. by rewrite (proj2 (Z.eqb_neq k j)).
  - intros k Hk Hkj. cbn [slots set_flags set_numslots set_slots]. rewrite Hbits by done. by rewrite (proj2 (Z.eqb_neq k j)).
  - cbn [slots set_flags set_numslots set_slots]. rewrite Hbits by done. by rewrite Z.eqb_refl.
  - intros q _. by rewrite Ho.
  - by intros q [= <-].
Qed.

Lemma clusterDelSlot_owned s p j :
  slots_inv s -> slot_ok j -> owners s !! Z.to_nat j = Some (Some p) ->
  exists n b, heap s !! p = Some n /\ let n' := set_numslots (numslots n - 1) (set_slots b n) in
    let s' := set_owners (<[Z.to_nat j := None]> (owners s)) (set_heap (<[p := n']> (heap s)) s) in
    clusterDelSlot s j = Some (s', C_OK) /\ slots_inv s'.
Proof.
  intros Hi Hj Ho. destruct (inv_dangling _ Hi _ _ Hj Ho) as [n Hn].
  assert (Hset : bit (slots n) j = true) by by apply (inv_bits _ Hi _ _ _ Hn Hj).
  destruct (clusterNodeClearSlotBit_spec s p n j Hi Hn Hj Hset) as (b & Hb & Hbits & Hrun).
  exists n, b. split; [done|]. cbv zeta. unfold clusterDelSlot, owner. unfold slot_ok in Hj. rewrite (proj2 (Z.leb_le 0 j)) by lia.
  rewrite Ho. cbn [mbind option_bind]. rewrite Hrun. cbn [mbind option_bind].
  rewrite set_owner_spec by (done || apply (inv_owners _ Hi)). split; [done|].
  apply (slots_inv_change s p n); try done.
  - split; [done|]. cbn [slots numslots set_numslots set_slots]. rewrite (proj2 (inv_nodes _ Hi _ _ Hn)).
    rewrite (count_bits_set (bit b) (bit (slots n)) j); [lia|done| |done|].
    + rewrite Hbits by done. by rewrite Z.eqb_refl.
    + intros k Hk Hkj. rewrite Hbits by done. by rewrite (proj2 (Z.eqb_neq k j)).
  - intros k Hk Hkj. cbn [slots set_numslots set_slots]. rewrite Hbits by done. by rewrite (proj2 (Z.eqb_neq k j)).
  - cbn [slots set_numslots set_slots]. rewrite Hbits by done. by rewrite Z.eqb_refl.
  - intros q Hq. rewrite Ho. by intros [= ?].
Qed.

(** ** Deleting the slots of a node *)

Lemma owners_insert s (o : option nodeptr) j k h :
  zlen (owners s) = CLUSTER_SLOTS -> slot_ok j -> slot_ok k ->
  owners (set_owners (<[Z.to_nat j := o]> (owners s)) (set_heap h s)) !! Z.to_nat k =
    if k =? j then Some o else owners s !! Z.to_nat k.
Proof.
  intros Hl Hj Hk. unfold slot_ok in *. cbn [owners set_owners]. destruct (Z.eqb_spec k j) as [->|].
  - apply list_lookup_insert_eq. lia.
  - apply list_lookup_insert_ne. lia.
Qed.

Lemma del_node_slots_loop_spec p n : forall s j deleted,
  slots_inv s -> is_Some (heap s !! p) -> 0 <= j -> j + Z.of_nat n = CLUSTER_SLOTS ->
  exists s', del_node_slots_loop n s p j deleted = Some (s', deleted + Z.of_nat n) /\ slots_inv s' /\
    forall k, slot_ok k -> owners s' !! Z.to_nat k =
      if decide (owners s !! Z.to_nat k = Some (Some p)) then (if j <=? k then Some None else Some (Some p))
      else owners s !! Z.to_nat k.
Proof.
  induction n as [|n IH]; intros s j deleted Hi [m Hm] Hj0 Hjn.
  - exists s. cbn [del_node_slots_loop]. split; [f_equal; f_equal; lia|]. split; [done|]. intros k Hk. unfold slot_ok in Hk.
    zfalse (j <=? k). by destruct (decide _).
  - assert (Hj : slot_ok j) by (unfold slot_ok; lia). cbn [del_node_slots_loop]. unfold clusterNodeGetSlotBit, node.
    rewrite Hm. cbn [mbind option_bind]. rewrite bitmapTestBit_spec by (done || apply (inv_nodes _ Hi _ _ Hm)).
    cbn [mbind option_bind].
    destruct (bit (slots m) j) eqn:Hbit.
    + assert (Ho : owners s !! Z.to_nat j = Some (Some p)) by by apply (inv_bits _ Hi _ _ _ Hm Hj).
      destruct (clusterDelSlot_owned s p j Hi Hj Ho) as (m' & b & Hm' & Hrun & Hi').
      rewrite Hrun. cbn [mbind option_bind].
      match type of Hi' with slots_inv ?t => destruct (IH t (j + 1) (deleted + 1) Hi') as (s' & Hs' & Hinv & Hown); [|lia..|] end.
      { cbn [heap set_owners set_heap]. rewrite lookup_insert_eq. by eexists. }
      exists s'. split; [rewrite Hs'; f_equal; f_equal; lia|]. split; [done|]. intros k Hk. rewrite Hown by done.
      rewrite owners_insert by (done || apply (inv_owners _ Hi)). unfold slot_ok in *.
      destruct (Z.eqb_spec k j) as [->|Hkj].
      * rewrite (decide_False (P := Some None = Some (Some p))) by done. rewrite decide_True by done. by ztrue (j <=? j).
      * destruct (decide _); [|done]. destruct (Z.leb_spec (j + 1) k), (Z.leb_spec j k); done || lia.
    + cbn [mbind option_bind]. destruct (IH s (j + 1) (deleted + 1) Hi) as (s' & Hs' & Hinv & Hown); [by eexists|lia..|].
      exists s'. split; [rewrite Hs'; f_equal; f_equal; lia|]. split; [done|]. intros k Hk. rewrite Hown by done.
      destruct (decide (owners s !! Z.to_nat k = Some (Some p))) as [Ho|Ho]; [|done]. unfold slot_ok in Hk.
      destruct (decide (k = j)) as [->|]; [|destruct (Z.leb_spec (j + 1) k), (Z.leb_spec j k); done || lia].
      apply (inv_bits _ Hi _ _ _ Hm Hj) in Ho. congruence.
Qed.

(** C15. clusterDelNodeSlots frees the slots of the node and no other; the number it
    returns is CLUSTER_SLOTS, however many slots the node had. *)
Theorem clusterDelNodeSlots_correct s p :
  slots_inv s -> is_Some (heap s !! p) ->
  exists s', clusterDelNodeSlots s p = Some (s', CLUSTER_SLOTS) /\ slots_inv s' /\
    forall k, slot_ok k -> owners s' !! Z.to_nat k =
      if decide (owners s !! Z.to_nat k = Some (Some p)) then Some None else owners s !! Z.to_nat k.
Proof.
  intros Hi Hp. destruct (del_node_slots_loop_spec p (Z.to_nat CLUSTER_SLOTS) s 0 0 Hi Hp) as (s' & Hrun & Hinv & Hown); [lia|done|].
  exists s'. split; [exact Hrun|]. split; [done|]. intros k Hk. rewrite Hown by done. unfold slot_ok in Hk.
  by ztrue (0 <=? k).
Qed.

(** ** Slot configuration updates *)

(** What an update leaves: the nodes and their epochs, and everything else the
    update reads. *)
Record same_config (s s' : clusterState) : Prop := {
  sc_nodes : nodes s' = nodes s;
  sc_myself : myself s' = myself s;
  sc_importing : importing_slots_from s' = importing_slots_from s;
  sc_epochs : forall p, configEpoch <$> heap s' !! p = configEpoch <$> heap s !! p;
  sc_roles : forall p, (fun n => (name n, slaves n, slaveof n, fail_reports n)) <$> heap s' !! p =
                       (fun n => (name n, slaves n, slaveof n, fail_reports n)) <$> heap s !! p
}.

Lemma same_config_refl s : same_config s s.
Proof. by split. Qed.
Lemma same_config_trans s1 s2 s3 : same_config s1 s2 -> same_config s2 s3 -> same_config s1 s3.
Proof. intros [] []. split; congruence. Qed.

Lemma same_config_upd s p n n' o :
  heap s !! p = Some n -> configEpoch n' = configEpoch n -> name n' = name n -> slaves n' = slaves n ->
  slaveof n' = slaveof n -> fail_reports n' = fail_reports n ->
  same_config s (set_owners o (set_heap (<[p := n']> (heap s)) s)).
Proof.
  intros Hn He Hna Hsl Hso Hfr. split; try done; intros q; cbn [heap set_owners set_heap];
    (destruct (decide (q = p)) as [->|]; [rewrite lookup_insert_eq, Hn; cbn; congruence|by rewrite lookup_insert_ne]).
Qed.

Lemma same_config_is_Some s s' p : same_config s s' -> is_Some (heap s !! p) -> is_Some (heap s' !! p).
Proof.
  intros Hs [n Hn]. assert (H := sc_epochs _ _ Hs p). rewrite Hn in H. destruct (heap s' !! p); [by eexists|discriminate].
Qed.

Lemma same_config_nodes_ok s s' : same_config s s' -> nodes_ok s -> nodes_ok s'.
Proof.
  intros Hs [H1 H2]. split.
  - rewrite (sc_nodes _ _ Hs). eapply Forall_impl; [exact H1|]. intros. by eapply same_config_is_Some.
  - rewrite (sc_myself _ _ Hs). by eapply same_config_is_Some.
Qed.

(** Does an update of [sender] with the slots [bitmap] under [epoch] take slot
    [k] from its owner [o]? *)
Definition takes (s : clusterState) (bitmap : list Z) (epoch k : Z) (o : option nodeptr) : bool :=
  bit bitmap k && bool_decide (importing_slots_from s !! Z.to_nat k = Some None) &&
  match o with
  | None => true
  | Some q => match heap s !! q with Some m => configEpoch m <? epoch | None => false end
  end.

Lemma takes_same s s' bitmap epoch k o : same_config s s' -> takes s' bitmap epoch k o = takes s bitmap epoch k o.
Proof.
  intros Hs. unfold takes. rewrite (sc_importing _ _ Hs). f_equal. destruct o as [q|]; [|done].
  assert (H := sc_epochs _ _ Hs q). destruct (heap s' !! q), (heap s !! q); try discriminate; [|done]. by injection H as ->.
Qed.

Lemma clusterDoBeforeSleep_inv fl s : slots_inv s -> slots_inv (clusterDoBeforeSleep fl s).
Proof. intros []. by split. Qed.
Lemma same_config_todo fl s s' : same_config s s' -> same_config s (clusterDoBeforeSleep fl s').
Proof. intros []. by split. Qed.

(** One slot moved to the sender. *)
Lemma move_slot s sender j o :
  slots_inv s -> nodes_ok s -> is_Some (heap s !! sender) -> slot_ok j ->
  owners s !! Z.to_nat j = Some o -> o <> Some sender ->
  exists s', ('(s, _) ← clusterDelSlot s j; '(s, _) ← clusterAddSlot s sender j; Some s) = Some s' /\
    slots_inv s' /\ same_config s s' /\
    forall k, slot_ok k -> owners s' !! Z.to_nat k = if k =? j then Some (Some sender) else owners s !! Z.to_nat k.
Proof.
  intros Hi Hn [m Hm] Hj Ho Hne.
  assert (Hdel : exists s1, ('(s, _) ← clusterDelSlot s j; Some s) = Some s1 /\ slots_inv s1 /\ same_config s s1 /\
    owners s1 = <[Z.to_nat j := None]> (owners s)).
  { destruct o as [q|].
    - destruct (clusterDelSlot_owned s q j Hi Hj Ho) as (n & b & Hq & Hrun & Hi'). rewrite Hrun. cbn [mbind option_bind].
      eexists. split; [done|]. split; [done|]. split; [|done]. by eapply same_config_upd.
    - exists s. unfold clusterDelSlot, owner. unfold slot_ok in Hj. rewrite (proj2 (Z.leb_le 0 j)) by lia. rewrite Ho.
      split; [done|]. split; [done|]. split; [apply same_config_refl|]. symmetry. by apply list_insert_id. }
  destruct Hdel as (s1 & Hdel & Hi1 & Hs1 & Ho1).
  destruct (clusterDelSlot s j) as [[s1' r]|]; [|discriminate]. cbn [mbind option_bind] in Hdel |- *. injection Hdel as ->.
  destruct (same_config_is_Some s s1 sender Hs1 ltac:(by eexists)) as [m1 Hm1].
  assert (Hlj : (Z.to_nat j < length (owners s))%nat) by (assert (H := inv_owners _ Hi); unfold slot_ok in Hj; lia).
  destruct (clusterAddSlot_free s1 sender m1 j Hi1 (same_config_nodes_ok _ _ Hs1 Hn) Hm1 Hj) as (b & fl & _ & Hrun & Hi2).
  { rewrite Ho1. by apply list_lookup_insert_eq. }
  rewrite Hrun. cbn [mbind option_bind]. eexists. split; [done|]. split; [done|]. split.
  - eapply same_config_trans; [exact Hs1|]. by eapply same_config_upd.
  - intros k Hk. rewrite owners_insert by (done || apply (inv_owners _ Hi1)). destruct (Z.eqb_spec k j); [done|].
    rewrite Ho1. apply list_lookup_insert_ne. unfold slot_ok in *. lia.
Qed.

Section Update.
  Context (countKeysInSlot : Z -> Z) (sender : nodeptr) (epoch : Z) (bitmap : list Z).
  Context (Hbm : bitmap_ok bitmap).

(** The owner of a slot after the update. *)
Definition updated (s : clusterState) (from k : Z) (o : option nodeptr) : option nodeptr :=
  if (from <=? k) && takes s bitmap epoch k o then Some sender else o.

(** A slot of [cm] that is taken makes the sender its new master. *)
Definition loses (s : clusterState) (j : Z) (cm nm : option nodeptr) : Prop :=
  owners s !! Z.to_nat j = Some cm -> cm <> Some sender -> takes s bitmap epoch j cm = true -> nm = Some sender.

(** The loop does one thing per slot: it keeps it or moves it. *)
Lemma update_step s j n cm nm dirty :
  slots_inv s -> nodes_ok s -> is_Some (heap s !! sender) -> slot_ok j ->
  exists s1 nm1 dirty1,
    update_slots_loop countKeysInSlot (S n) s sender epoch bitmap cm nm j dirty =
      update_slots_loop countKeysInSlot n s1 sender epoch bitmap cm nm1 (j + 1) dirty1 /\
    slots_inv s1 /\ same_config s s1 /\ (nm1 = nm \/ nm1 = Some sender) /\ loses s j cm nm1 /\
    (forall k, slot_ok k -> owners s1 !! Z.to_nat k =
      if k =? j then updated s j k <$> owners s !! Z.to_nat k else owners s !! Z.to_nat k).
Proof.
  intros Hi Hn Hs Hj. destruct (owner_spec s j Hi Hj) as (o & Howner & Ho). cbn [update_slots_loop].
  rewrite bitmapTestBit_spec by done. cbn [mbind option_bind]. rewrite Howner. cbn [mbind option_bind].
  assert (Hkeep : takes s bitmap epoch j o = false \/ o = Some sender ->
    exists s1 nm1 dirty1,
      update_slots_loop countKeysInSlot n s sender epoch bitmap cm nm (j + 1) dirty =
        update_slots_loop countKeysInSlot n s1 sender epoch bitmap cm nm1 (j + 1) dirty1 /\
      slots_inv s1 /\ same_config s s1 /\ (nm1 = nm \/ nm1 = Some sender) /\ loses s j cm nm1 /\
      (forall k, slot_ok k -> owners s1 !! Z.to_nat k =
        if k =? j then updated s j k <$> owners s !! Z.to_nat k else owners s !! Z.to_nat k)).
  { intros Hk. exists s, nm, dirty. split; [done|]. split; [done|]. split; [apply same_config_refl|]. split; [by left|].
    split; [intros Hcm; rewrite Ho in Hcm; injection Hcm as <-; by destruct Hk as [->|]|].
    intros k _. destruct (Z.eqb_spec k j) as [->|]; [|done]. rewrite Ho. cbn. f_equal. unfold updated.
    destruct Hk as [->| ->]; [by rewrite andb_false_r|by destruct (_ && _)]. }
  destruct (bit bitmap j) eqn:Hbit; cbn [negb]; [|apply Hkeep; left; unfold takes; by rewrite Hbit].
  destruct (decide (o = Some sender)) as [Eo|Eo]; [apply Hkeep; by right|].
  assert (exists i, importing_slots_from s !! Z.to_nat j = Some i) as [i Himp].
  { apply lookup_lt_is_Some. assert (H := inv_importing _ Hi). unfold slot_ok in Hj. lia. }
  rewrite Himp. cbn [mbind option_bind].
  destruct (decide (i <> None)) as [Ei|Ei].
  { apply Hkeep. left. unfold takes. rewrite Himp, bool_decide_eq_false_2 by congruence. by rewrite andb_false_r. }
  assert (i = None) as -> by (by destruct i; [destruct Ei|]).
  assert (Htakes : (match o with None => Some true | Some q => m ← node s q; Some (configEpoch m <? epoch) end) =
    Some (takes s bitmap epoch j o)).
  { unfold takes. rewrite Hbit, Himp, bool_decide_eq_true_2 by done. cbn [andb]. destruct o as [q|]; [|done].
    destruct (inv_dangling _ Hi _ _ Hj Ho) as [m Hm]. unfold node. by rewrite Hm. }
  rewrite Htakes. cbn [mbind option_bind]. destruct (takes s bitmap epoch j o) eqn:Et; [|apply Hkeep; by left].
  destruct (move_slot s sender j o Hi Hn Hs Hj Ho Eo) as (s1 & Hrun & Hi1 & Hs1 & Hown).
  destruct (clusterDelSlot s j) as [[s1' r]|]; [|discriminate]. cbn [mbind option_bind] in Hrun |- *.
  destruct (clusterAddSlot s1' sender j) as [[s1'' r']|]; [|discriminate]. cbn [mbind option_bind] in Hrun |- *.
  injection Hrun as ->. eexists _, _, _. split; [reflexivity|]. split; [by apply clusterDoBeforeSleep_inv|].
  split; [by apply same_config_todo|]. split; [destruct (decide _); [by right|by left]|].
  split; [intros Hcm; rewrite Ho in Hcm; injection Hcm as ->; by rewrite decide_True|].
  intros k Hk. cbn [owners clusterDoBeforeSleep set_todo]. rewrite Hown by done. destruct (Z.eqb_spec k j) as [->|]; [|done].
  rewrite Ho. cbn. f_equal. unfold updated. by rewrite Et, Z.leb_refl.
Qed.

Lemma update_slots_loop_spec n : forall s cm nm j dirty,
  slots_inv s -> nodes_ok s -> is_Some (heap s !! sender) -> 0 <= j -> j + Z.of_nat n = CLUSTER_SLOTS ->
  exists s' nm' dirty',
    update_slots_loop countKeysInSlot n s sender epoch bitmap cm nm j dirty = Some (s', nm', dirty') /\
    slots_inv s' /\ same_config s s' /\ (nm' = nm \/ nm' = Some sender) /\
    (forall k, slot_ok k -> j <= k -> loses s k cm nm') /\
    (forall k, slot_ok k -> owners s' !! Z.to_nat k = updated s j k <$> owners s !! Z.to_nat k).
Proof.
  induction n as [|n IH]; intros s cm nm j dirty Hi Hn Hs Hj0 Hjn.
  { exists s, nm, dirty. split; [done|]. split; [done|]. split; [apply same_config_refl|]. split; [by left|].
    split; [unfold slot_ok; intros; lia|]. intros k Hk. unfold slot_ok in Hk. unfold updated. zfalse (j <=? k). cbn [andb]. by destruct (owners s !! _). }
  assert (Hj : slot_ok j) by (unfold slot_ok; lia).
  destruct (update_step s j n cm nm dirty Hi Hn Hs Hj) as (s1 & nm1 & dirty1 & -> & Hi1 & Hs1 & Hnm & Hlose & Hown).
  destruct (IH s1 cm nm1 (j + 1) dirty1 Hi1) as (s' & nm' & dirty' & Hrun & Hi' & Hs' & Hnm' & Hlose' & Hown');
    [by eapply same_config_nodes_ok|by eapply same_config_is_Some|lia|lia|].
  exists s', nm', dirty'. split; [done|]. split; [done|]. split; [by eapply same_config_trans|].
  split; [destruct Hnm' as [->|]; [done|by right]|]. split.
  { intros k Hk Hjk Ho Hcm Ht. destruct (decide (k = j)) as [->|Hkj].
    - destruct Hnm' as [->|]; [by apply Hlose|done].
    - apply (Hlose' k Hk); [lia| |done|by rewrite (takes_same _ _ _ _ _ _ Hs1)].
      rewrite Hown by done. by rewrite (proj2 (Z.eqb_neq k j)). }
  intros k Hk. rewrite Hown', Hown by done. destruct (Z.eqb_spec k j) as [->|Hkj].
  - destruct (owners s !! Z.to_nat j) as [o|]; [|done]. cbn. f_equal. unfold updated at 1. by zfalse (j + 1 <=? j).
  - destruct (owners s !! Z.to_nat k) as [o|]; [|done]. cbn. f_equal. unfold updated. rewrite (takes_same _ _ _ _ _ _ Hs1).
    destruct (Z.leb_spec (j + 1) k), (Z.leb_spec j k); done || lia.
Qed.
End Update.

(** Changes of nodes that keep bitmaps and counters keep the invariant. *)
Lemma upd_keeps s p f :
  slots_inv s -> is_Some (heap s !! p) -> (forall n, slots (f n) = slots n) -> (forall n, numslots (f n) = numslots n) ->
  exists s', upd s p f = Some s' /\ slots_inv s' /\ owners s' = owners s /\ myself s' = myself s /\
    (forall q, is_Some (heap s !! q) -> is_Some (heap s' !! q)).
Proof.
  intros Hi [n Hn] Hf1 Hf2. rewrite (upd_spec s p f n Hn). eexists. split; [done|].
  assert (Hlook : forall q m, <[p := f n]> (heap s) !! q = Some m -> exists m0, heap s !! q = Some m0 /\
    slots m = slots m0 /\ numslots m = numslots m0).
  { intros q m. destruct (decide (q = p)) as [->|].
    - rewrite lookup_insert_eq. intros [= <-]. by exists n.
    - rewrite lookup_insert_ne by done. by exists m. }
  split; [|split_and!; [done..|]].
  - split; cbn [heap owners importing_slots_from set_heap].
    + apply (inv_owners _ Hi).
    + apply (inv_importing _ Hi).
    + intros q m (m0 & Hm & Hsl & Hns)%Hlook. unfold node_ok. rewrite Hsl, Hns. by apply (inv_nodes _ Hi _ _ Hm).
    + intros q m k (m0 & Hm & Hsl & Hns)%Hlook Hk. rewrite Hsl. by apply (inv_bits _ Hi).
    + intros k q Hk Hq. apply (inv_dangling _ Hi) in Hq as [m0 Hm]; [|done].
      destruct (decide (q = p)) as [->|]; [rewrite lookup_insert_eq|rewrite lookup_insert_ne by done]; by eexists.
  - intros q [m0 Hm]. cbn [heap set_heap]. destruct (decide (q = p)) as [->|]; [rewrite lookup_insert_eq|rewrite lookup_insert_ne by done]; by eexists.
Qed.

(** States that differ in what the slot invariant does not read. *)
Record slot_equiv (s s' : clusterState) : Prop := {
  se_heap : heap s' = heap s; se_owners : owners s' = owners s; se_myself : myself s' = myself s;
  se_importing : zlen (importing_slots_from s') = zlen (importing_slots_from s)
}.
Lemma slot_equiv_inv s s' : slot_equiv s s' -> slots_inv s -> slots_inv s'.
Proof.
  intros [Hh Ho _ Hm] [H1 H2 H3 H4 H5]. split; rewrite ?Hh, ?Ho, ?Hm; try done;
    intros *; rewrite ?Hh, ?Ho; eauto.
Qed.

Lemma resetManualFailover_equiv s : slot_equiv s (resetManualFailover s).
Proof.
  unfold resetManualFailover, clientsArePaused. destruct (mf_end s =? 0); [done|].
  destruct (clients_paused (pause s)) eqn:E; cbn [andb]; [|done].
  destruct (_ <? _); [done|]. cbn [pause set_pause clients_paused clients_pause_end_time server_mstime andb].
  destruct (_ && _); done.
Qed.

Lemma remove_slave_keeps s m p :
  slots_inv s -> is_Some (heap s !! m) ->
  exists s' r, clusterNodeRemoveSlave s m p = Some (s', r) /\ slots_inv s' /\ owners s' = owners s /\ myself s' = myself s /\
    (forall q, is_Some (heap s !! q) -> is_Some (heap s' !! q)).
Proof.
  intros Hi [n Hn]. unfold clusterNodeRemoveSlave, node. rewrite Hn. cbn [mbind option_bind].
  destruct (remove_first p (slaves n)) as [l|]; [|by exists s, C_ERR].
  destruct (upd_keeps s m (set_slaves l) Hi) as (s1 & -> & Hi1 & Ho1 & Hm1 & Hd1); [by eexists|done..|]. cbn [mbind option_bind].
  destruct (zlen l =? 0); [|by exists s1, C_OK].
  destruct (upd_keeps s1 m (clear_flag CLUSTER_NODE_MIGRATE_TO) Hi1) as (s2 & -> & Hi2 & Ho2 & Hm2 & Hd2); [eauto|done..|].
  cbn [mbind option_bind]. exists s2, C_OK. split_and!; [done|done|congruence|congruence|]. intros q Hq. auto.
Qed.

Lemma add_slave_keeps s m p :
  slots_inv s -> is_Some (heap s !! m) ->
  exists s' r, clusterNodeAddSlave s m p = Some (s', r) /\ slots_inv s' /\ owners s' = owners s /\ myself s' = myself s.
Proof.
  intros Hi [n Hn]. unfold clusterNodeAddSlave, node. rewrite Hn. cbn [mbind option_bind].
  destruct (decide _); [by exists s, C_ERR|].
  destruct (upd_keeps s m (fun m => set_slaves (slaves m ++ [p]) m) Hi) as (s1 & -> & Hi1 & Ho1 & Hm1 & Hd1); [by eexists|done..|].
  cbn [mbind option_bind].
  destruct (upd_keeps s1 m (add_flag CLUSTER_NODE_MIGRATE_TO) Hi1) as (s2 & -> & Hi2 & Ho2 & Hm2 & Hd2); [eauto|done..|].
  cbn [mbind option_bind]. exists s2, C_OK. split_and!; [done|done|congruence..].
Qed.

Lemma clusterSetMaster_keeps s p me :
  slots_inv s -> heap s !! myself s = Some me -> numslots me = 0 -> p <> myself s -> is_Some (heap s !! p) ->
  (forall m, slaveof me = Some m -> is_Some (heap s !! m)) ->
  exists s', clusterSetMaster s p = Some s' /\ slots_inv s' /\ owners s' = owners s.
Proof.
  intros Hi Hme Hz Hp Hps Hm. unfold clusterSetMaster. rewrite decide_False by done.
  change (node s (myself s)) with (heap s !! myself s). rewrite Hme.
  cbn [mbind option_bind]. rewrite Hz. change (negb (0 =? 0)) with false. cbv iota.
  assert (Hrole : exists s1, (if nodeIsMaster me then
         s ← upd s (myself s) (clear_flag (Z.lor CLUSTER_NODE_MASTER CLUSTER_NODE_MIGRATE_TO));
         s ← upd s (myself s) (add_flag CLUSTER_NODE_SLAVE); Some (clusterCloseAllSlots s)
       else match slaveof me with
            | Some m => '(s, _) ← clusterNodeRemoveSlave s m (myself s); Some s
            | None => Some s
            end) = Some s1 /\ slots_inv s1 /\ owners s1 = owners s /\ myself s1 = myself s /\
      (forall q, is_Some (heap s !! q) -> is_Some (heap s1 !! q))).
  { destruct (nodeIsMaster me).
    - destruct (upd_keeps s (myself s) (clear_flag (Z.lor CLUSTER_NODE_MASTER CLUSTER_NODE_MIGRATE_TO)) Hi)
        as (s1 & -> & Hi1 & Ho1 & Hm1 & Hd1); [by eexists|done..|]. cbn [mbind option_bind].
      destruct (upd_keeps s1 (myself s1) (add_flag CLUSTER_NODE_SLAVE) Hi1) as (s2 & -> & Hi2 & Ho2 & Hm2 & Hd2);
        [rewrite Hm1; apply Hd1; by eexists|done..|]. cbn [mbind option_bind].
      exists (clusterCloseAllSlots s2). split_and!; [done| |cbn; congruence|cbn; congruence|intros q Hq; cbn; auto].
      eapply slot_equiv_inv; [|exact Hi2]. split; [done..|].
      rewrite (inv_importing _ Hi2). cbn [importing_slots_from clusterCloseAllSlots]. by rewrite length_replicate.
    - destruct (slaveof me) as [m|] eqn:Em; [|by exists s].
      destruct (remove_slave_keeps s m (myself s) Hi (Hm m eq_refl)) as (s1 & r & -> & Hi1 & Ho1 & Hm1 & Hd1).
      cbn [mbind option_bind]. by exists s1. }
  destruct Hrole as (s1 & -> & Hi1 & Ho1 & Hm1 & Hd1). cbn [mbind option_bind].
  destruct (upd_keeps s1 (myself s1) (set_slaveof (Some p)) Hi1) as (s2 & -> & Hi2 & Ho2 & Hm2 & Hd2);
    [rewrite Hm1; apply Hd1; by eexists|done..|]. cbn [mbind option_bind].
  destruct (add_slave_keeps s2 p (myself s2) Hi2) as (s3 & r & -> & Hi3 & Ho3 & Hm3); [auto|]. cbn [mbind option_bind].
  eexists. split; [done|]. assert (He := resetManualFailover_equiv (emit (ReplicationSetMaster p) s3)).
  split; [|rewrite (se_owners _ _ He); cbn; congruence].
  eapply slot_equiv_inv; [exact He|]. by destruct Hi3.
Qed.

Lemma count_bits_zero f n k : count_bits f n = 0 -> 0 <= k < n -> f k = false.
Proof.
  intros H Hk. apply not_true_is_false. intros Hf. unfold count_bits in H.
  assert (Hin : In k (List.filter f (seqZ 0 n))) by (apply filter_In; split; [apply list_elem_of_In, elem_of_seqZ; lia|done]).
  destruct (List.filter f (seqZ 0 n)); [done|]. simpl in H. lia.
Qed.

Lemma count_bits_false f n : (forall k, 0 <= k < n -> f k = false) -> count_bits f n = 0.
Proof.
  intros H. unfold count_bits. rewrite (filter_ext_seqZ f (fun _ => false)) by (intros; apply H; lia).
  induction (seqZ 0 n); done.
Qed.

(** A node without slots owns none, and one that owns none has none. *)
Lemma numslots_zero s p n :
  slots_inv s -> heap s !! p = Some n ->
  numslots n = 0 <-> forall k, slot_ok k -> owners s !! Z.to_nat k <> Some (Some p).
Proof.
  intros Hi Hn. rewrite (proj2 (inv_nodes _ Hi _ _ Hn)). split.
  - intros Hz k Hk Ho. apply (inv_bits _ Hi _ _ _ Hn Hk) in Ho. rewrite (count_bits_zero _ _ k Hz Hk) in Ho. done.
  - intros Ho. apply count_bits_false. intros k Hk. apply not_true_is_false. rewrite (inv_bits _ Hi _ _ _ Hn Hk). by apply Ho.
Qed.

Lemma emit_dels_keep l : forall s, slots_inv s ->
  slots_inv (foldl (fun s j => emit (DelKeysInSlot j) s) s l) /\ owners (foldl (fun s j => emit (DelKeysInSlot j) s) s l) = owners s.
Proof.
  induction l as [|j l IH]; intros s Hi; [done|]. cbn [foldl]. destruct (IH (emit (DelKeysInSlot j) s)) as [H1 H2]; [by destruct Hi|].
  split; [exact H1|]. by rewrite H2.
Qed.

Section UpdateThm.
  Context (countKeysInSlot : Z -> Z).

(** C2. When this node is a master, or a replica without slots that knows its
    master, an update message rebinds exactly the slots the sender claims that
    are not being imported and are free or owned under a smaller configuration
    epoch; tables and bitmaps stay consistent, also when this node is demoted.
    (A replica that does not know its master may crash: C25.) *)
Theorem clusterUpdateSlotsConfigWith_correct s sender epoch bitmap me :
  slots_inv s -> nodes_ok s -> is_Some (heap s !! sender) -> bitmap_ok bitmap ->
  heap s !! myself s = Some me ->
  nodeIsMaster me = true \/ (numslots me = 0 /\ slaveof me <> None) ->
  (forall m, slaveof me = Some m -> is_Some (heap s !! m)) ->
  exists s', clusterUpdateSlotsConfigWith countKeysInSlot s sender epoch bitmap = Some s' /\ slots_inv s' /\
    forall k, slot_ok k -> owners s' !! Z.to_nat k =
      if decide (sender = myself s) then owners s !! Z.to_nat k
      else updated sender epoch bitmap s 0 k <$> owners s !! Z.to_nat k.
Proof.
  intros Hi Hn Hs Hbm Hme Hrole Hsl. unfold clusterUpdateSlotsConfigWith.
  change (node s (myself s)) with (heap s !! myself s). rewrite Hme. cbn [mbind option_bind].
  set (cm := if nodeIsMaster me then Some (myself s) else slaveof me).
  assert (Hcm : exists c, cm = Some c /\ is_Some (heap s !! c)).
  { unfold cm. destruct (nodeIsMaster me); [exists (myself s); split; [done|by eexists]|].
    destruct Hrole as [?|[_ Hne]]; [done|]. destruct (slaveof me) as [m|]; [|done]. exists m. split; [done|]. by apply Hsl. }
  destruct Hcm as (c & Ecm & Hc). destruct (decide (sender = myself s)) as [E|E]; [by exists s|].
  destruct (update_slots_loop_spec countKeysInSlot sender epoch bitmap Hbm (Z.to_nat CLUSTER_SLOTS) s cm None 0 [] Hi Hn Hs)
    as (s1 & nm & dirty & -> & Hi1 & Hs1 & Hnm & _ & Hown); [lia|done|]. cbn [mbind option_bind].
  destruct (same_config_is_Some s s1 c Hs1 Hc) as [c1 Hc1].
  assert (Hfin : exists s', Some (foldl (fun s j => emit (DelKeysInSlot j) s) s1 dirty) = Some s' /\ slots_inv s' /\
      forall k, slot_ok k -> owners s' !! Z.to_nat k = updated sender epoch bitmap s 0 k <$> owners s !! Z.to_nat k).
  { destruct (emit_dels_keep dirty s1 Hi1) as [H1 H2]. eexists. split; [done|]. split; [done|]. intros k Hk. rewrite H2. by apply Hown. }
  destruct nm as [q|]; [|exact Hfin]. rewrite Ecm. cbn [mbind option_bind]. change (node s1 c) with (heap s1 !! c). rewrite Hc1. cbn [mbind option_bind].
  destruct (Z.eqb_spec (numslots c1) 0) as [Hz|Hz]; [|exact Hfin].
  destruct (same_config_is_Some s s1 (myself s) Hs1 ltac:(by eexists)) as [me1 Hme1].
  assert (Hroles := sc_roles _ _ Hs1 (myself s)). rewrite Hme, Hme1 in Hroles. cbn in Hroles. injection Hroles as _ _ Hslo _.
  assert (Hmz : numslots me1 = 0).
  { apply (numslots_zero s1 (myself s) me1 Hi1 Hme1). intros k Hk Ho. unfold cm in Ecm. destruct (nodeIsMaster me).
    - injection Ecm as <-. rewrite Hme1 in Hc1. injection Hc1 as <-.
      by apply (proj1 (numslots_zero s1 (myself s) me1 Hi1 Hme1) Hz k Hk).
    - destruct Hrole as [?|[Hz0 _]]; [done|]. rewrite Hown in Ho by done.
      destruct (owners s !! Z.to_nat k) as [o|] eqn:Eo; [|done]. cbn in Ho. injection Ho as Ho. unfold updated in Ho.
      destruct (_ && _); [congruence|]. subst o.
      by apply (proj1 (numslots_zero s (myself s) me Hi Hme) Hz0 k Hk). }
  destruct (clusterSetMaster_keeps s1 sender me1 Hi1) as (s2 & Hrun & Hi2 & Ho2).
  - by rewrite (sc_myself _ _ Hs1).
  - done.
  - by rewrite (sc_myself _ _ Hs1).
  - by eapply same_config_is_Some.
  - intros m Em. eapply same_config_is_Some; [done|]. apply Hsl. congruence.
  - rewrite Hrun. cbn [mbind option_bind]. eexists. split; [done|]. split; [by apply clusterDoBeforeSleep_inv|].
    intros k Hk. cbn [owners clusterDoBeforeSleep set_todo]. rewrite Ho2. by apply Hown.
Qed.

(** C25. A replica that does not know its master dereferences NULL when an update
    assigns it a free slot. *)
Theorem clusterUpdateSlotsConfigWith_orphan s sender epoch bitmap me k :
  slots_inv s -> nodes_ok s -> is_Some (heap s !! sender) -> bitmap_ok bitmap -> sender <> myself s ->
  heap s !! myself s = Some me -> nodeIsMaster me = false -> slaveof me = None ->
  slot_ok k -> owners s !! Z.to_nat k = Some None -> takes s bitmap epoch k None = true ->
  clusterUpdateSlotsConfigWith countKeysInSlot s sender epoch bitmap = None.
Proof.
  intros Hi Hn Hs Hbm E Hme Hrole Hsl Hk Hfree Ht. unfold clusterUpdateSlotsConfigWith.
  change (node s (myself s)) with (heap s !! myself s). rewrite Hme. cbn [mbind option_bind].
  rewrite Hrole, Hsl, decide_False by done.
  destruct (update_slots_loop_spec countKeysInSlot sender epoch bitmap Hbm (Z.to_nat CLUSTER_SLOTS) s None None 0 [] Hi Hn Hs)
    as (s1 & nm & dirty & -> & _ & _ & _ & Hlose & _); [lia|done|]. cbn [mbind option_bind].
  unfold slot_ok in Hk. by rewrite (Hlose k Hk ltac:(lia) Hfree) by done.
Qed.
End UpdateThm.

(** ** Votes *)

(** The operations that change epochs or grant votes, as events. *)
Inductive event :=
  | VoteRequest (timeout now1 now2 : Z) (p : nodeptr) (r : request)
  | Header (sender : nodeptr) (cur conf : Z)
  | Bump
  | Collision (sender : nodeptr).

Definition run_event (s : clusterState) (e : event) : option clusterState :=
  match e with
  | VoteRequest timeout now1 now2 p r => clusterSendFailoverAuthIfNeeded timeout now1 now2 s p r
  | Header sender cur conf => process_epochs s sender cur conf
  | Bump => '(s, _) ← clusterBumpConfigEpochWithoutConsensus s; Some s
  | Collision sender => clusterHandleConfigEpochCollision s sender
  end.

Definition is_vote (e : effect) : option nodeptr := match e with SendFailoverAuth p => Some p | _ => None end.

(** A run, with the votes it sends, each with the current epoch its message
    carries. *)
Fixpoint run_events (s : clusterState) (es : list event) : option (clusterState * list (Z * nodeptr)) :=
  match es with
  | [] => Some (s, [])
  | e :: es =>
      s' ← run_event s e;
      let votes := map (pair (currentEpoch s')) (omap is_vote (drop (length (effects s)) (effects s'))) in
      '(s'', votes') ← run_events s' es;
      Some (s'', votes ++ votes')
  end.

Definition event_bound (B : Z) (e : event) : Prop := match e with Header _ cur _ => cur <= B | _ => True end.

Lemma upd_frame s p f s' : upd s p f = Some s' -> exists h, s' = set_heap h s.
Proof. unfold upd. destruct (node s p); [|done]. intros [= <-]. by eexists. Qed.

Lemma emitted s l (s' : clusterState) :
  effects s' = effects s ++ l -> drop (length (effects s)) (effects s') = l.
Proof. intros ->. apply drop_app_length. Qed.

(** What one event can do to epochs and votes. *)
Lemma run_event_spec s e s' B :
  run_event s e = Some s' -> event_bound B e -> currentEpoch s <= B -> 0 <= currentEpoch s -> B + 1 < 2 ^ 64 ->
  lastVoteEpoch s <= currentEpoch s ->
  currentEpoch s <= currentEpoch s' <= B + 1 /\ lastVoteEpoch s' <= currentEpoch s' /\
  let votes := map (pair (currentEpoch s')) (omap is_vote (drop (length (effects s)) (effects s'))) in
  (votes = [] /\ lastVoteEpoch s <= lastVoteEpoch s') \/
  (exists p, votes = [(currentEpoch s', p)] /\ lastVoteEpoch s' = currentEpoch s' /\ lastVoteEpoch s < currentEpoch s').
Proof.
  intros Hrun Hbound HB H0 H64 Hlv. cbv zeta.
  assert (Hnone : forall s1 l, effects s1 = effects s ++ l -> omap is_vote l = [] -> forall e : Z,
    map (pair e) (omap is_vote (drop (length (effects s)) (effects s1))) = []).
  { intros s1 l Hl Hv e0. by rewrite (emitted s l s1 Hl), Hv. }
  assert (Hkeep : currentEpoch s <= currentEpoch s <= B + 1 /\ lastVoteEpoch s <= currentEpoch s /\
    (map (pair (currentEpoch s)) (omap is_vote (drop (length (effects s)) (effects s))) = [] /\ lastVoteEpoch s <= lastVoteEpoch s \/
     exists p, map (pair (currentEpoch s)) (omap is_vote (drop (length (effects s)) (effects s))) = [(currentEpoch s, p)] /\
       lastVoteEpoch s = currentEpoch s /\ lastVoteEpoch s < currentEpoch s)).
  { split; [lia|]. split; [done|]. left. split; [|lia]. by apply (Hnone s []); [rewrite app_nil_r|]. }
  destruct e as [timeout now1 now2 p r|sender cur conf| |sender]; cbn [run_event] in Hrun.
  - unfold clusterSendFailoverAuthIfNeeded in Hrun.
    destruct (node s p) as [n|]; [|done]. destruct (node s (myself s)) as [me|]; [|done]. cbn [mbind option_bind] in Hrun.
    destruct (_ || _); [injection Hrun as <-; exact Hkeep|].
    destruct (req_currentEpoch r <? currentEpoch s); [injection Hrun as <-; exact Hkeep|].
    destruct (Z.eqb_spec (lastVoteEpoch s) (currentEpoch s)); [injection Hrun as <-; exact Hkeep|].
    destruct (nodeIsMaster n); [injection Hrun as <-; exact Hkeep|].
    destruct (slaveof n) as [m|]; [|injection Hrun as <-; exact Hkeep].
    destruct (node s m) as [master|]; [|done]. cbn [mbind option_bind] in Hrun.
    destruct (_ && _); [injection Hrun as <-; exact Hkeep|]. destruct (_ <? _); [injection Hrun as <-; exact Hkeep|].
    destruct (stale_claim _ _ _ _) as [[|]|]; [injection Hrun as <-; exact Hkeep| |done]. cbn [mbind option_bind] in Hrun.
    unfold clusterSendFailoverAuth in Hrun. destruct (node s p) as [n'|]; [|done]. cbn [mbind option_bind] in Hrun.
    apply upd_frame in Hrun as [h ->]. cbn [currentEpoch lastVoteEpoch effects set_heap set_lastVoteEpoch].
    destruct (has_link n'); cbn [currentEpoch effects emit]; (split; [lia|]); (split; [lia|]).
    + right. exists p. split; [|lia]. rewrite (drop_app_length (effects s)). done.
    + left. split; [|lia]. by rewrite drop_all.
  - unfold process_epochs in Hrun. cbn [event_bound] in Hbound. rewrite Z.gtb_ltb in Hrun.
    set (s1 := if currentEpoch s <? cur then set_currentEpoch cur s else s) in *.
    assert (H1 : currentEpoch s <= currentEpoch s1 <= B /\ lastVoteEpoch s1 = lastVoteEpoch s /\ effects s1 = effects s).
    { unfold s1. destruct (Z.ltb_spec (currentEpoch s) cur); cbn; split_and!; done || lia. }
    destruct (node s1 sender) as [n|]; [|done]. cbn [mbind option_bind] in Hrun.
    assert (H2 : currentEpoch s' = currentEpoch s1 /\ lastVoteEpoch s' = lastVoteEpoch s1 /\ effects s' = effects s1).
    { destruct (_ >? _); [|by injection Hrun as <-].
      destruct (upd s1 sender _) as [s2|] eqn:Hu; [|done]. cbn [mbind option_bind] in Hrun. injection Hrun as <-.
      apply upd_frame in Hu as [h ->]. done. }
    destruct H1 as (? & ? & ?), H2 as (? & ? & ?). split; [lia|]. split; [lia|]. left. split; [|lia].
    apply (Hnone s' []); [rewrite app_nil_r; congruence|done].
  - unfold clusterBumpConfigEpochWithoutConsensus in Hrun. destruct (clusterGetMaxEpoch s) as [mx|]; [|done].
    destruct (node s (myself s)) as [me|]; [|done]. cbn [mbind option_bind] in Hrun.
    destruct (_ || _); [|injection Hrun as <-; exact Hkeep].
    destruct (upd _ _ _) as [s2|] eqn:Hu; [|done]. cbn [mbind option_bind] in Hrun. injection Hrun as <-.
    apply upd_frame in Hu as [h ->]. cbn [currentEpoch lastVoteEpoch effects set_heap set_currentEpoch clusterDoBeforeSleep set_todo].
    rewrite u64_small by lia. split; [lia|]. split; [lia|]. left. split; [|lia]. by rewrite drop_all.
  - unfold clusterHandleConfigEpochCollision in Hrun. destruct (node s sender) as [n|]; [|done].
    destruct (node s (myself s)) as [me|]; [|done]. cbn [mbind option_bind] in Hrun.
    destruct (_ || _); [injection Hrun as <-; exact Hkeep|]. destruct (_ <=? _); [injection Hrun as <-; exact Hkeep|].
    destruct (upd _ _ _) as [s2|] eqn:Hu; [|done]. cbn [mbind option_bind] in Hrun. injection Hrun as <-.
    apply upd_frame in Hu as [h ->]. cbn [currentEpoch lastVoteEpoch effects set_heap set_currentEpoch emit].
    rewrite u64_small by lia. split; [lia|]. split; [lia|]. left. split; [|lia].
    by rewrite (drop_app_length (effects s)).
Qed.

Lemma run_events_votes es : forall s s' votes B,
  run_events s es = Some (s', votes) -> Forall (event_bound B) es -> currentEpoch s <= B -> 0 <= currentEpoch s ->
  B + zlen es < 2 ^ 64 -> lastVoteEpoch s <= currentEpoch s ->
  StronglySorted Z.lt votes.*1 /\ Forall (fun v => lastVoteEpoch s < v.1) votes.
Proof.
  induction es as [|e es IH]; intros s s' votes B Hrun Hb HB H0 H64 Hlv; cbn [run_events length] in *.
  { injection Hrun as <- <-. split; constructor. }
  apply Forall_cons_1 in Hb as [Hbe Hb]. destruct (run_event s e) as [s1|] eqn:He; [|done]. cbn [mbind option_bind] in Hrun.
  destruct (run_event_spec s e s1 B He Hbe HB H0 ltac:(lia) Hlv) as (H1 & H2 & Hv). cbv zeta in Hv.
  destruct (run_events s1 es) as [[s2 votes']|] eqn:Hes; [|done]. cbn [mbind option_bind] in Hrun. injection Hrun as <- <-.
  destruct (IH s1 s2 votes' (B + 1) Hes) as [Hsorted Hbig]; [|lia..|].
  { eapply Forall_impl; [exact Hb|]. intros x Hx. destruct x; cbn in *; lia. }
  destruct Hv as [[-> Hle]|(p & -> & Heq & Hlt)].
  - split; [done|]. eapply Forall_impl; [exact Hbig|]. cbn. intros. lia.
  - cbn [app fmap list_fmap fst]. split.
    + constructor; [done|]. rewrite Forall_fmap. eapply Forall_impl; [exact Hbig|]. cbn. intros. lia.
    + constructor; [done|]. eapply Forall_impl; [exact Hbig|]. cbn. intros. lia.
Qed.

(** C1. In every sequence of epoch changes and vote requests, a node votes for
    strictly increasing epochs, so at most once in each. *)
Theorem one_vote_per_epoch es s s' votes B :
  run_events s es = Some (s', votes) -> Forall (event_bound B) es ->
  0 <= currentEpoch s <= B -> B + zlen es < 2 ^ 64 -> lastVoteEpoch s <= currentEpoch s ->
  StronglySorted Z.lt votes.*1 /\ NoDup votes.*1.
Proof.
  intros Hrun Hb [H0 HB] H64 Hlv. destruct (run_events_votes es s s' votes B Hrun Hb HB H0 H64 Hlv) as [Hs _].
  split; [done|]. clear -Hs. induction Hs as [|x l Hs IH Hx]; constructor; [|done].
  intros Hin. rewrite list.Forall_forall in Hx. specialize (Hx x Hin). lia.
Qed.

(** What a request must satisfy: this node serves slots as a master, the
    request is of the present epoch, in which no vote was given, its sender is
    a replica of a master that failed (or the request is forced) and was not
    voted about lately, and no slot it claims is served under a greater
    configuration epoch. *)
Definition vote_conditions (timeout now1 : Z) (s : clusterState) (n me : clusterNode) (r : request) : Prop :=
  nodeIsSlave me = false /\ numslots me <> 0 /\
  currentEpoch s <= req_currentEpoch r /\ lastVoteEpoch s <> currentEpoch s /\
  nodeIsMaster n = false /\
  (exists m master, slaveof n = Some m /\ heap s !! m = Some master /\
    (nodeFailed master = true \/ req_force_ack r = true) /\ timeout * 2 <= now1 - voted_time master) /\
  forall j q o, slot_ok j -> bit (req_myslots r) j = true -> owners s !! Z.to_nat j = Some (Some q) ->
    heap s !! q = Some o -> configEpoch o <= req_configEpoch r.

(** The state after a vote: nothing is scheduled to be saved. *)
Definition voted (now2 : Z) (s s' : clusterState) (p : nodeptr) (n : clusterNode) : Prop :=
  exists m master, slaveof n = Some m /\ heap s !! m = Some master /\
    heap s' = <[m := set_voted_time now2 master]> (heap s) /\
    effects s' = effects s ++ (if has_link n then [SendFailoverAuth p] else []) /\
    lastVoteEpoch s' = currentEpoch s /\ currentEpoch s' = currentEpoch s /\ owners s' = owners s /\
    todo_before_sleep s' = todo_before_sleep s.

Lemma stale_claim_spec s r : slots_inv s -> bitmap_ok (req_myslots r) -> forall n j,
  0 <= j -> j + Z.of_nat n = CLUSTER_SLOTS ->
  exists b, stale_claim n s r j = Some b /\
    (b = false <-> forall k q o, j <= k < CLUSTER_SLOTS -> bit (req_myslots r) k = true ->
       owners s !! Z.to_nat k = Some (Some q) -> heap s !! q = Some o -> configEpoch o <= req_configEpoch r).
Proof.
  intros Hi Hb n. induction n as [|n IH]; intros j H0 Hj; cbn [stale_claim].
  { exists false. split; [done|]. split; [intros _ k; lia|done]. }
  assert (Hs : slot_ok j) by (unfold slot_ok; lia).
  rewrite bitmapTestBit_spec by done. cbn [mbind option_bind].
  destruct (IH (j + 1)) as (b & Hrun & Hspec); [lia..|].
  assert (Hskip : (forall q o, bit (req_myslots r) j = true -> owners s !! Z.to_nat j = Some (Some q) -> heap s !! q = Some o ->
      configEpoch o <= req_configEpoch r) ->
    exists b, stale_claim n s r (j + 1) = Some b /\
    (b = false <-> forall k q o, j <= k < CLUSTER_SLOTS -> bit (req_myslots r) k = true ->
       owners s !! Z.to_nat k = Some (Some q) -> heap s !! q = Some o -> configEpoch o <= req_configEpoch r)).
  { intros Hj'. exists b. split; [done|]. rewrite Hspec. split; intros H k q o Hk Hbit Ho Hq.
    - destruct (decide (k = j)) as [->|]; [eauto|apply (H k q); (lia || done)].
    - apply (H k q); (lia || done). }
  destruct (bit (req_myslots r) j) eqn:Hbit; cbn [negb]; [|by apply Hskip].
  destruct (owner_spec s j Hi Hs) as ([q|] & -> & Ho); cbn [mbind option_bind].
  2: { apply Hskip. intros q o _ Hq. congruence. }
  destruct (inv_dangling _ Hi _ _ Hs Ho) as [m Hm]. unfold node. rewrite Hm. cbn [mbind option_bind].
  destruct (Z.leb_spec (configEpoch m) (req_configEpoch r)) as [Hle|Hgt].
  - apply Hskip. intros q' o _ Hq Hqo. rewrite Ho in Hq. injection Hq as <-. rewrite Hm in Hqo. by injection Hqo as <-.
  - exists true. split; [done|]. split; [done|]. intros H. specialize (H j q m ltac:(lia) Hbit Ho Hm). lia.
Qed.

(** C3. A vote is granted exactly to the requests that satisfy
    [vote_conditions]; every other request leaves the state alone.  The vote is
    sent before it is recorded, and nothing schedules the new lastVoteEpoch to
    be saved. *)
Theorem clusterSendFailoverAuthIfNeeded_correct timeout now1 now2 s p r n me :
  slots_inv s -> bitmap_ok (req_myslots r) -> heap s !! p = Some n -> heap s !! myself s = Some me ->
  (forall m, slaveof n = Some m -> is_Some (heap s !! m)) ->
  exists s', clusterSendFailoverAuthIfNeeded timeout now1 now2 s p r = Some s' /\
    ((vote_conditions timeout now1 s n me r /\ voted now2 s s' p n) \/
     (~ vote_conditions timeout now1 s n me r /\ s' = s)).
Proof.
  intros Hi Hb Hn Hme Hsl. unfold clusterSendFailoverAuthIfNeeded, node. rewrite Hn, Hme. cbn [mbind option_bind].
  assert (Hno : forall o, o = Some s -> ~ vote_conditions timeout now1 s n me r -> exists s', o = Some s' /\
    ((vote_conditions timeout now1 s n me r /\ voted now2 s s' p n) \/
     (~ vote_conditions timeout now1 s n me r /\ s' = s))) by (intros o -> H; exists s; auto).
  destruct (nodeIsSlave me) eqn:E1; [apply Hno; [done|intros (?&_); congruence]|].
  destruct (Z.eqb_spec (numslots me) 0) as [E2|E2]; [apply Hno; [done|by intros (_&?&_)]|]. cbn [orb].
  destruct (Z.ltb_spec (req_currentEpoch r) (currentEpoch s)); [apply Hno; [done|intros (_&_&?&_); lia]|].
  destruct (Z.eqb_spec (lastVoteEpoch s) (currentEpoch s)); [apply Hno; [done|by intros (_&_&_&?&_)]|].
  destruct (nodeIsMaster n) eqn:E3; [apply Hno; [done|intros (_&_&_&_&?&_); congruence]|].
  destruct (slaveof n) as [m|] eqn:Em; [|apply Hno; [done|intros (_&_&_&_&_&(m&?&?&_)&_); congruence]].
  destruct (Hsl m eq_refl) as [master Hm]. rewrite Hm. cbn [mbind option_bind].
  destruct (negb (nodeFailed master) && negb (req_force_ack r)) eqn:E4.
  { apply Hno; [done|]. apply andb_true_iff in E4 as [E4 E5]. rewrite !negb_true_iff in E4, E5.
    intros (_&_&_&_&_&(m'&ms&?&?&[?|?]&_)&_); congruence. }
  assert (Hfail : nodeFailed master = true \/ req_force_ack r = true)
    by (destruct (nodeFailed master), (req_force_ack r); auto).
  destruct (Z.ltb_spec (now1 - voted_time master) (timeout * 2)) as [E6|E6].
  { apply Hno; [done|]. intros (_&_&_&_&_&(m'&ms&?&?&_&?)&_). assert (master = ms) as <- by congruence. lia. }
  destruct (stale_claim_spec s r Hi Hb (Z.to_nat CLUSTER_SLOTS) 0) as ([|] & -> & Hstale); [lia|done|..]; cbn [mbind option_bind].
  { apply Hno; [done|]. intros (_&_&_&_&_&_&H'). enough (true = false) by done. by apply Hstale. }
  assert (Hc : vote_conditions timeout now1 s n me r).
  { split_and!; [done..| |by apply Hstale]. exists m, master. by split_and!. }
  unfold clusterSendFailoverAuth, node. rewrite Hn. cbn [mbind option_bind].
  destruct (has_link n) eqn:El; (eexists; split; [by apply upd_spec|left; split; [done|]]);
    exists m, master; rewrite El; split_and!; try done. by rewrite app_nil_r.
Qed.

(** ** Epoch collisions *)

Lemma name_cmp_opp a b : name_cmp b a = - name_cmp a b.
Proof.
  revert b. induction a as [|x a IH]; intros [|y b]; [done..|]. cbn [name_cmp]. rewrite Z.eqb_sym.
  destruct (x =? y); [apply IH|lia].
Qed.

Lemma name_cmp_eq a b : length a = length b -> name_cmp a b = 0 -> a = b.
Proof.
  revert b. induction a as [|x a IH]; intros [|y b] Hl H; try discriminate; [done|]. cbn [name_cmp] in H.
  destruct (Z.eqb_spec x y) as [->|]; [|lia]. f_equal. apply IH; [by injection Hl|done].
Qed.

(** A master that sees another one under its own epoch moves exactly when its
    name is the smaller one. *)
Lemma collision_spec s other me no :
  heap s !! myself s = Some me -> heap s !! other = Some no -> nodeIsMaster me = true -> nodeIsMaster no = true ->
  configEpoch no = configEpoch me -> 0 <= currentEpoch s < 2 ^ 64 - 1 ->
  exists s' me', clusterHandleConfigEpochCollision s other = Some s' /\ heap s' !! myself s' = Some me' /\
    configEpoch me' = (if name_cmp (name no) (name me) <=? 0 then configEpoch me else currentEpoch s + 1).
Proof.
  intros Hme Hno Hm1 Hm2 He Hc. unfold clusterHandleConfigEpochCollision, node. rewrite Hno, Hme. cbn [mbind option_bind].
  rewrite He, Z.eqb_refl, Hm1, Hm2. cbn [negb orb]. destruct (_ <=? 0); [by exists s, me|].
  rewrite (upd_spec (set_currentEpoch _ s) (myself s) _ me Hme). cbn [mbind option_bind].
  eexists _, _. split; [done|]. cbn [heap myself emit set_heap set_currentEpoch]. rewrite lookup_insert_eq. split; [done|].
  cbn. apply u64_small. lia.
Qed.

(** C6. Two masters that hold the same configuration epoch hold different ones
    after each has handled the other's message. *)
Theorem collision_resolved sa sb ma mb va vb :
  heap sa !! myself sa = Some ma -> heap sa !! myself sb = Some vb ->
  heap sb !! myself sb = Some mb -> heap sb !! myself sa = Some va ->
  name va = name ma -> name vb = name mb -> length (name ma) = length (name mb) -> name ma <> name mb ->
  nodeIsMaster ma = true -> nodeIsMaster mb = true -> nodeIsMaster va = true -> nodeIsMaster vb = true ->
  configEpoch ma = configEpoch mb -> configEpoch va = configEpoch ma -> configEpoch vb = configEpoch mb ->
  0 <= configEpoch ma <= currentEpoch sa -> configEpoch mb <= currentEpoch sb ->
  currentEpoch sa < 2 ^ 64 - 1 -> currentEpoch sb < 2 ^ 64 - 1 ->
  exists sa' sb' ma' mb', clusterHandleConfigEpochCollision sa (myself sb) = Some sa' /\
    clusterHandleConfigEpochCollision sb (myself sa) = Some sb' /\
    heap sa' !! myself sa' = Some ma' /\ heap sb' !! myself sb' = Some mb' /\ configEpoch ma' <> configEpoch mb'.
Proof.
  intros Hma Hvb Hmb Hva Nva Nvb Hlen Hne Mma Mmb Mva Mvb E1 E2 E3 C1 C2 C3 C4.
  destruct (collision_spec sa (myself sb) ma vb Hma Hvb Mma Mvb) as (sa' & ma' & Ha & Ha' & Ea); [congruence|lia|].
  destruct (collision_spec sb (myself sa) mb va Hmb Hva Mmb Mva) as (sb' & mb' & Hb & Hb' & Eb); [congruence|lia|].
  exists sa', sb', ma', mb'. split_and!; [done..|]. rewrite Ea, Eb, Nva, Nvb, (name_cmp_opp (name ma) (name mb)).
  assert (Hcmp : name_cmp (name ma) (name mb) <> 0) by (intros H; by apply Hne, name_cmp_eq).
  destruct (Z.leb_spec (- name_cmp (name ma) (name mb)) 0), (Z.leb_spec (name_cmp (name ma) (name mb)) 0); lia.
Qed.

(** ** Failure detection *)

(** No node keeps two reports of one sender. *)
Definition reports_ok (s : clusterState) : Prop :=
  forall p n, heap s !! p = Some n -> NoDup (fail_reports n).*1.

Section Failure.
  Context (timeout now : Z).

Lemma refresh_report_spec sender l l' :
  refresh_report now sender l = Some l' -> l'.*1 = l.*1 /\ (sender, now) ∈ l'.
Proof.
  revert l'. induction l as [|[n t] l IH]; intros l' H; [done|]. cbn [refresh_report] in H.
  destruct (decide (n = sender)) as [->|]; [injection H as <-; split; [done|left]|].
  destruct (refresh_report now sender l) as [r|]; [|done]. cbn [mbind option_bind] in H. injection H as <-.
  destruct (IH r eq_refl) as [H1 H2]. split; [cbn; by rewrite H1|by right].
Qed.

Lemma refresh_report_none sender l : refresh_report now sender l = None -> sender ∉ l.*1.
Proof.
  induction l as [|[n t] l IH]; intros H; [apply not_elem_of_nil|]. cbn [refresh_report] in H.
  destruct (decide (n = sender)); [done|]. destruct (refresh_report now sender l) as [r|]; [done|].
  cbn. apply not_elem_of_cons. split; [done|]. by apply IH.
Qed.

Lemma insert_reports_ok s p n l :
  reports_ok s -> heap s !! p = Some n -> NoDup l.*1 ->
  reports_ok (set_heap (<[p := set_fail_reports l n]> (heap s)) s).
Proof.
  intros Hr Hn Hl q m. cbn [heap set_heap]. destruct (decide (q = p)) as [->|].
  - rewrite lookup_insert_eq. by intros [= <-].
  - rewrite lookup_insert_ne by done. apply Hr.
Qed.

(** C24. A report of a new sender is added, one of a known sender gets the present
    time; no sender is counted twice. *)
Theorem clusterNodeAddFailureReport_correct s p sender n :
  reports_ok s -> heap s !! p = Some n ->
  exists s' n' r, clusterNodeAddFailureReport now s p sender = Some (s', r) /\ reports_ok s' /\
    heap s' !! p = Some n' /\ (sender, now) ∈ fail_reports n' /\
    r = (if decide (sender ∈ (fail_reports n).*1) then 0 else 1) /\
    (fail_reports n').*1 = (fail_reports n).*1 ++ (if decide (sender ∈ (fail_reports n).*1) then [] else [sender]).
Proof.
  intros Hr Hn. unfold clusterNodeAddFailureReport, node. rewrite Hn. cbn [mbind option_bind].
  destruct (refresh_report now sender (fail_reports n)) as [l|] eqn:E.
  - apply refresh_report_spec in E as [H1 H2]. rewrite (upd_spec s p _ n Hn). cbn [mbind option_bind].
    eexists _, _, _. split; [done|]. cbn [heap set_heap]. rewrite lookup_insert_eq.
    assert (Hin : sender ∈ (fail_reports n).*1) by (rewrite <-H1; by apply (list_elem_of_fmap_2 fst l (sender, now))).
    rewrite !decide_True by done. rewrite app_nil_r. split_and!; [|done..].
    apply (insert_reports_ok s p n); [done|done|]. rewrite H1. by apply (Hr p).
  - apply refresh_report_none in E. rewrite (upd_spec s p _ n Hn). cbn [mbind option_bind].
    eexists _, _, _. split; [done|]. cbn [heap set_heap]. rewrite lookup_insert_eq. rewrite !decide_False by done.
    split_and!; [|done| |done|cbn [fail_reports set_fail_reports]; by rewrite fmap_app].
    + apply (insert_reports_ok s p n); [done|done|]. rewrite fmap_app. apply NoDup_app. split_and!; [by apply (Hr p)| |apply NoDup_singleton].
      intros x Hx ->%list_elem_of_singleton. done.
    + cbn. apply elem_of_app. right. left.
Qed.
End Failure.

(** The verdict, step by step. *)
Section Detection.
  Context (timeout : Z).

Definition recent_reports (count_time : Z) (l : list (nodeptr * Z)) : list (nodeptr * Z) :=
  List.filter (fun r => negb (count_time - r.2 >? timeout * CLUSTER_FAIL_REPORT_VALIDITY_MULT)) l.

Lemma recent_reports_sublist ct l : recent_reports ct l `sublist_of` l.
Proof.
  unfold recent_reports. induction l as [|r l IH]; [constructor|]. cbn [List.filter]. destruct (negb _); by constructor.
Qed.

Lemma recent_reports_fresh ct l v t : (v, t) ∈ recent_reports ct l -> ct - t <= timeout * 2.
Proof.
  unfold recent_reports. rewrite list_elem_of_In, filter_In. cbn [snd]. unfold CLUSTER_FAIL_REPORT_VALIDITY_MULT.
  rewrite negb_true_iff, Z.gtb_ltb, Z.ltb_ge. intros [_ H]. lia.
Qed.

Lemma sublist_fst (l k : list (nodeptr * Z)) : l `sublist_of` k -> NoDup k.*1 -> NoDup l.*1.
Proof. intros H Hk. apply (sublist_NoDup _ _ Hk). by apply (fmap_sublist fst). Qed.

(** The flags PFAIL and FAIL are different bits. *)
Lemma mark_flags n : nodeFailed (add_flag CLUSTER_NODE_FAIL (clear_flag CLUSTER_NODE_PFAIL n)) = true.
Proof.
  unfold nodeFailed, has_flag, add_flag, clear_flag, CLUSTER_NODE_FAIL, CLUSTER_NODE_PFAIL. cbn [flags set_flags].
  apply negb_true_iff, Z.eqb_neq. intros H. apply (f_equal (fun x => Z.testbit x 3)) in H.
  rewrite Z.land_spec, Z.lor_spec, orb_true_r in H. done.
Qed.

(** The verdict: what is left of the reports, and when the node fails. *)
Lemma mark_spec ct fa s p n me :
  heap s !! p = Some n -> heap s !! myself s = Some me -> p <> myself s ->
  exists s' n', markNodeAsFailingIfNeeded timeout ct fa s p = Some s' /\ heap s' = <[p := n']> (heap s) /\
    fail_reports n' = (if nodeTimedOut n && negb (nodeFailed n) then recent_reports ct (fail_reports n) else fail_reports n) /\
    (nodeFailed n = false -> nodeFailed n' = true <-> nodeTimedOut n = true /\
       size s ÷ 2 + 1 <= zlen (fail_reports n') + (if nodeIsMaster me then 1 else 0)).
Proof.
  intros Hn Hme Hp. unfold markNodeAsFailingIfNeeded, node. rewrite Hn. cbn [mbind option_bind].
  destruct (nodeTimedOut n) eqn:Et; cbn [negb andb].
  2: { exists s, n. split_and!; [done|by rewrite insert_id|done|]. intros ->. split; [done|by intros [? _]]. }
  destruct (nodeFailed n) eqn:Hf; cbn [negb].
  { exists s, n. split_and!; [done|by rewrite insert_id|done..]. }
  unfold clusterNodeFailureReportsCount, clusterNodeCleanupFailureReports.
  rewrite (upd_spec s p _ n Hn). cbn [mbind option_bind]. fold (recent_reports ct (fail_reports n)).
  set (n1 := set_fail_reports (recent_reports ct (fail_reports n)) n). set (s1 := set_heap (<[p := n1]> (heap s)) s).
  assert (Hn1 : heap s1 !! p = Some n1) by apply lookup_insert_eq.
  assert (Hme1 : heap s1 !! myself s1 = Some me) by (cbn [s1 heap set_heap myself]; by rewrite lookup_insert_ne).
  unfold node. rewrite Hn1. cbn [mbind option_bind]. rewrite Hme1. cbn [mbind option_bind].
  destruct (Z.ltb_spec (if nodeIsMaster me then zlen (fail_reports n1) + 1 else zlen (fail_reports n1)) (size s ÷ 2 + 1)) as [Hq|Hq].
  { exists s1, n1. split_and!; [done..|]. intros _. change (nodeFailed n1) with (nodeFailed n). rewrite Hf.
    split; [done|]. intros [_ H]. destruct (nodeIsMaster me); lia. }
  unfold s1 at 1. rewrite (upd_upd s p (fun _ => n1) (clear_flag CLUSTER_NODE_PFAIL) n Hn). cbn [mbind option_bind].
  rewrite (upd_upd s p (fun _ => clear_flag CLUSTER_NODE_PFAIL n1) (add_flag CLUSTER_NODE_FAIL) n Hn). cbn [mbind option_bind].
  set (n2 := add_flag _ _).
  rewrite (upd_upd s p (fun _ => n2) (set_fail_time fa) n Hn). cbn [mbind option_bind heap myself set_heap].
  rewrite lookup_insert_ne, Hme by done. cbn [mbind option_bind].
  eexists _, (set_fail_time fa n2). split; [done|]. split_and!.
  - by destruct (nodeIsMaster me).
  - done.
  - intros _. change (nodeFailed (set_fail_time fa n2)) with (nodeFailed n2). unfold n2. rewrite mark_flags.
    split; [|done]. intros _. split; [done|]. cbn [fail_reports set_fail_time add_flag clear_flag set_flags].
    destruct (nodeIsMaster me); lia.
Qed.

Definition reports_of (s : clusterState) (p : nodeptr) : list (nodeptr * Z) :=
  match heap s !! p with Some n => fail_reports n | None => [] end.

(** The flags of a gossip entry call the node failing. *)
Definition claims_failure (fl : Z) : bool := negb (Z.land fl (Z.lor CLUSTER_NODE_FAIL CLUSTER_NODE_PFAIL) =? 0).

(** A report in the history: the node reported, the reporter, the time. *)
Definition report : Type := nodeptr * nodeptr * Z.

(** The messages a node receives, and the history of the failure reports that
    nodes made while they were masters.  All other code may do anything to the
    state, except that it adds no reports (new nodes have none, the reports
    of and about a deleted node go with it). *)
Inductive detection_step : clusterState * list report -> clusterState * list report -> Prop :=
  | step_gossip s h sender snd p n me fl now ct fa s' :
      heap s !! sender = Some snd -> heap s !! p = Some n -> heap s !! myself s = Some me ->
      process_gossip_entry timeout now ct fa s sender p fl = Some s' ->
      detection_step (s, h) (s', if nodeIsMaster snd && claims_failure fl then h ++ [(p, sender, now)] else h)
  | step_other s h s' :
      (forall p, reports_of s' p `sublist_of` reports_of s p) -> detection_step (s, h) (s', h).

Definition detection_inv (sh : clusterState * list report) : Prop :=
  forall p, NoDup (reports_of sh.1 p).*1 /\ forall v t, (v, t) ∈ reports_of sh.1 p -> (p, v, t) ∈ sh.2.

Lemma detection_inv_sublist s s' h h' :
  detection_inv (s, h) -> (forall p, reports_of s' p `sublist_of` reports_of s p) -> h ⊆ h' -> detection_inv (s', h').
Proof.
  intros Hi Hs Hh p. destruct (Hi p) as [H1 H2]. split; [eapply sublist_fst; [apply Hs|exact H1]|].
  intros v t Hv. apply Hh, H2. eapply elem_of_sublist; [exact Hv|apply Hs].
Qed.

Lemma reports_of_insert s p n q :
  reports_of (set_heap (<[p := n]> (heap s)) s) q = if decide (q = p) then fail_reports n else reports_of s q.
Proof.
  unfold reports_of. cbn [heap set_heap]. destruct (decide (q = p)) as [->|]; [by rewrite lookup_insert_eq|].
  by rewrite lookup_insert_ne.
Qed.

Lemma reports_of_node s p n : heap s !! p = Some n -> reports_of s p = fail_reports n.
Proof. intros H. unfold reports_of. by rewrite H. Qed.

Lemma refresh_report_in now sender l l' v t :
  refresh_report now sender l = Some l' -> (v, t) ∈ l' -> (v, t) = (sender, now) \/ (v, t) ∈ l.
Proof.
  revert l'. induction l as [|[n u] l IH]; intros l' H Hin; [done|]. cbn [refresh_report] in H.
  destruct (decide (n = sender)) as [->|].
  { injection H as <-. apply elem_of_cons in Hin as [->|Hin]; [by left|right; by right]. }
  destruct (refresh_report now sender l) as [r|]; [|done]. cbn [mbind option_bind] in H. injection H as <-.
  apply elem_of_cons in Hin as [->|Hin]; [right; left|]. destruct (IH r eq_refl Hin); [by left|right; by right].
Qed.

(** A report is made: the state after it, and the invariant with the report in
    the history. *)
Lemma add_report_inv now s h p sender n :
  detection_inv (s, h) -> heap s !! p = Some n ->
  exists l r, clusterNodeAddFailureReport now s p sender = Some (set_heap (<[p := set_fail_reports l n]> (heap s)) s, r) /\
    detection_inv (set_heap (<[p := set_fail_reports l n]> (heap s)) s, h ++ [(p, sender, now)]).
Proof.
  intros Hi Hn. destruct (Hi p) as [H1 H2]. cbn [fst snd] in H1, H2. rewrite (reports_of_node s p n Hn) in H1, H2.
  assert (Hstep : forall l, NoDup l.*1 -> (forall v t, (v, t) ∈ l -> (v, t) = (sender, now) \/ (v, t) ∈ fail_reports n) ->
    detection_inv (set_heap (<[p := set_fail_reports l n]> (heap s)) s, h ++ [(p, sender, now)])).
  { intros l Hl Hin q. cbn [fst snd]. rewrite reports_of_insert. destruct (decide (q = p)) as [->|].
    - split; [done|]. intros v t Hv. apply elem_of_app. destruct (Hin v t Hv) as [[= -> ->]|Hv']; [right; left|left; by apply H2].
    - destruct (Hi q) as [H3 H4]. split; [done|]. intros v t Hv. apply elem_of_app. left. by apply H4. }
  unfold clusterNodeAddFailureReport, node. rewrite Hn. cbn [mbind option_bind].
  destruct (refresh_report now sender (fail_reports n)) as [l|] eqn:E; rewrite (upd_spec s p _ n Hn); cbn [mbind option_bind].
  - exists l, 0. split; [done|]. apply Hstep; [|by intros; eapply refresh_report_in].
    apply refresh_report_spec in E as [E _]. by rewrite E.
  - eexists _, 1. split; [done|]. apply Hstep.
    + rewrite fmap_app. apply NoDup_app. split_and!; [done| |apply NoDup_singleton].
      intros x Hx ->%list_elem_of_singleton. by apply refresh_report_none in E.
    + intros v t [Hv|Hv%list_elem_of_singleton]%elem_of_app; [by right|by left].
Qed.

Lemma remove_report_sublist sender l l' : remove_report sender l = Some l' -> l' `sublist_of` l.
Proof.
  revert l'. induction l as [|[n t] l IH]; intros l' H; [done|]. cbn [remove_report] in H.
  destruct (decide (n = sender)); [injection H as <-; by apply sublist_cons|].
  destruct (remove_report sender l) as [r|]; [|done]. cbn [mbind option_bind] in H. injection H as <-.
  apply sublist_skip. by apply IH.
Qed.

Lemma del_report_spec now s p sender n :
  heap s !! p = Some n ->
  exists l r, clusterNodeDelFailureReport timeout now s p sender =
      Some (set_heap (<[p := set_fail_reports l n]> (heap s)) s, r) /\ l `sublist_of` fail_reports n.
Proof.
  intros Hn. unfold clusterNodeDelFailureReport, node. rewrite Hn. cbn [mbind option_bind].
  destruct (remove_report sender (fail_reports n)) as [l|] eqn:E.
  - unfold clusterNodeCleanupFailureReports. rewrite (upd_spec s p _ n Hn). cbn [mbind option_bind].
    rewrite (upd_upd s p (set_fail_reports l) _ n Hn). cbn [mbind option_bind]. eexists _, 1. split; [done|].
    etrans; [apply recent_reports_sublist|by eapply remove_report_sublist].
  - exists (fail_reports n), 0. split; [|done]. do 2 f_equal. destruct s. cbn in *. unfold set_heap. cbn. f_equal.
    symmetry. apply insert_id. rewrite Hn. by destruct n.
Qed.

Lemma sublist_insert s p n l :
  heap s !! p = Some n -> l `sublist_of` fail_reports n ->
  forall q, reports_of (set_heap (<[p := set_fail_reports l n]> (heap s)) s) q `sublist_of` reports_of s q.
Proof.
  intros Hn Hl q. rewrite reports_of_insert. destruct (decide (q = p)) as [->|]; [|done]. by rewrite (reports_of_node s p n Hn).
Qed.

Lemma heap_insert_reports s' s p n : heap s' = <[p := n]> (heap s) ->
  forall q, reports_of s' q = if decide (q = p) then fail_reports n else reports_of s q.
Proof.
  intros E q. unfold reports_of. rewrite E. destruct (decide (q = p)) as [->|]; [by rewrite lookup_insert_eq|].
  by rewrite lookup_insert_ne.
Qed.

(** The verdict on a node keeps the invariant. *)
Lemma mark_inv ct fa s h p n me :
  detection_inv (s, h) -> heap s !! p = Some n -> heap s !! myself s = Some me -> p <> myself s ->
  exists s' n', markNodeAsFailingIfNeeded timeout ct fa s p = Some s' /\ heap s' !! p = Some n' /\ detection_inv (s', h) /\
    (nodeFailed n = false ->
     (nodeFailed n' = true <-> nodeTimedOut n = true /\
       size s ÷ 2 + 1 <= zlen (fail_reports n') + (if nodeIsMaster me then 1 else 0)) /\
     (nodeFailed n' = true -> forall v t, (v, t) ∈ fail_reports n' -> ct - t <= timeout * 2)).
Proof.
  intros Hi Hn Hme Hp. destruct (mark_spec ct fa s p n me Hn Hme Hp) as (s' & n' & Hrun & Hh & Hr & Hf).
  exists s', n'. split; [done|]. split; [rewrite Hh; apply lookup_insert_eq|]. split.
  - apply (detection_inv_sublist s s' h h Hi); [|done]. intros q. rewrite (heap_insert_reports s' s p n' Hh q).
    destruct (decide (q = p)) as [->|]; [|done]. rewrite (reports_of_node s p n Hn), Hr.
    destruct (_ && _); [apply recent_reports_sublist|done].
  - intros Hnf. specialize (Hf Hnf). split; [done|]. intros [Ht _]%Hf v t Hv. rewrite Hr, Ht, Hnf in Hv.
    by apply recent_reports_fresh in Hv.
Qed.

(** One gossip entry. *)
Lemma gossip_spec s h sender snd p fl now ct fa n me :
  detection_inv (s, h) -> heap s !! sender = Some snd -> heap s !! p = Some n -> heap s !! myself s = Some me ->
  exists s' n', process_gossip_entry timeout now ct fa s sender p fl = Some s' /\ heap s' !! p = Some n' /\
    detection_inv (s', if nodeIsMaster snd && claims_failure fl then h ++ [(p, sender, now)] else h) /\
    (nodeFailed n = false ->
     (nodeFailed n' = true <-> (nodeIsMaster snd = true /\ claims_failure fl = true /\ p <> myself s) /\ nodeTimedOut n = true /\
       size s ÷ 2 + 1 <= zlen (fail_reports n') + (if nodeIsMaster me then 1 else 0)) /\
     (nodeFailed n' = true -> forall v t, (v, t) ∈ fail_reports n' -> ct - t <= timeout * 2)).
Proof.
  intros Hi Hs Hn Hme. unfold process_gossip_entry. change (node s sender) with (heap s !! sender). rewrite Hs.
  cbn [mbind option_bind]. fold (claims_failure fl).
  assert (Hmore : forall x, detection_inv (s, h) -> detection_inv (s, h ++ x)).
  { intros x H. apply (detection_inv_sublist s s h (h ++ x) H); [done|set_solver]. }
  destruct (nodeIsMaster snd) eqn:Em; cbn [andb].
  2: { exists s, n. split_and!; [done..|]. intros ->. split; [|done]. split; [done|by intros [[? _] _]]. }
  destruct (bool_decide_reflect (p <> myself s)) as [Hp|Hp].
  2: { exists s, n. split; [done|]. split; [done|]. split; [destruct (claims_failure fl); auto|].
       intros ->. split; [|done]. split; [done|by intros [(_ & _ & ?) _]]. }
  destruct (claims_failure fl) eqn:Ef.
  - destruct (add_report_inv now s h p sender n Hi Hn) as (l & r & -> & Hi'). cbn [mbind option_bind].
    set (s1 := set_heap _ s) in *. set (n1 := set_fail_reports l n) in *.
    destruct (mark_inv ct fa s1 _ p n1 me Hi') as (s' & n' & Hrun & Hn' & Hi'' & Hf);
      [apply lookup_insert_eq|by cbn [s1 heap set_heap myself]; rewrite lookup_insert_ne|done|].
    exists s', n'. split_and!; [done..|]. intros Hnf. destruct (Hf Hnf) as [H1 H2]. split; [|done].
    rewrite H1. change (nodeTimedOut n1) with (nodeTimedOut n). change (size s1) with (size s). tauto.
  - destruct (del_report_spec now s p sender n Hn) as (l & r & -> & Hl). cbn [mbind option_bind].
    eexists _, (set_fail_reports l n). split; [done|]. split; [apply lookup_insert_eq|]. split.
    + apply (detection_inv_sublist s _ h h Hi); [|done]. by apply sublist_insert.
    + change (nodeFailed (set_fail_reports l n)) with (nodeFailed n). intros ->. split; [|done].
      split; [done|by intros [(_ & ? & _) _]].
Qed.

Lemma reports_of_init s : (forall p n, heap s !! p = Some n -> fail_reports n = []) -> detection_inv (s, []).
Proof.
  intros H p. cbn [fst]. unfold reports_of. destruct (heap s !! p) as [n|] eqn:E; [rewrite (H p n E)|];
    (split; [constructor|intros v t Hv; by apply elem_of_nil in Hv]).
Qed.

Lemma detection_inv_steps x y : rtc detection_step x y -> detection_inv x -> detection_inv y.
Proof.
  induction 1 as [|x y z Hxy _ IH]; [done|]. intros Hi. apply IH. destruct Hxy as [s h sender snd p n me fl now ct fa s' Hs Hn Hme Hrun|s h s' Hsub].
  - destruct (gossip_spec s h sender snd p fl now ct fa n me Hi Hs Hn Hme) as (s2 & n' & Hrun' & _ & Hi' & _).
    rewrite Hrun in Hrun'. by injection Hrun' as <-.
  - by apply (detection_inv_sublist s s' h h Hi).
Qed.

(** C7. A gossip entry marks a node as failing exactly when its sender is a master
    that calls the node failing, the node is another one and suspected by this
    node, and the reporters kept plus this node, if it is a master, are more
    than half of the cluster size.  The reporters are all different, and each
    reported the node when it was a master, at most twice the node timeout ago. *)
Theorem markNodeAsFailing_quorum s0 s h sender snd p fl now ct fa n me :
  (forall q m, heap s0 !! q = Some m -> fail_reports m = []) -> rtc detection_step (s0, []) (s, h) ->
  heap s !! sender = Some snd -> heap s !! p = Some n -> heap s !! myself s = Some me -> nodeFailed n = false ->
  exists s' n', process_gossip_entry timeout now ct fa s sender p fl = Some s' /\ heap s' !! p = Some n' /\
    (nodeFailed n' = true <->
       (nodeIsMaster snd = true /\ claims_failure fl = true /\ p <> myself s) /\ nodeTimedOut n = true /\
       size s ÷ 2 + 1 <= zlen (fail_reports n') + (if nodeIsMaster me then 1 else 0)) /\
    NoDup (fail_reports n').*1 /\
    (nodeFailed n' = true -> forall v t, (v, t) ∈ fail_reports n' ->
       (p, v, t) ∈ h ++ [(p, sender, now)] /\ ct - t <= timeout * 2).
Proof.
  intros H0 Hsteps Hs Hn Hme Hnf.
  assert (Hi := detection_inv_steps _ _ Hsteps (reports_of_init s0 H0)).
  destruct (gossip_spec s h sender snd p fl now ct fa n me Hi Hs Hn Hme) as (s' & n' & Hrun & Hn' & Hi' & Hf).
  destruct (Hf Hnf) as [Hiff Hfresh]. destruct (Hi' p) as [Hnd Hin]. cbn [fst] in Hnd, Hin.
  rewrite (reports_of_node s' p n' Hn') in Hnd, Hin. exists s', n'. split_and!; [done..|].
  intros Hfail v t Hv. split; [|by apply (Hfresh Hfail v t)]. apply Hiff in Hfail as [(Em & Ef & _) _].
  specialize (Hin v t Hv). by rewrite Em, Ef in Hin.
Qed.
End Detection.

(** ** Instances

    A cluster of two masters, one of them this node, and a replica of the
    other, where no slot is assigned. *)

Definition no_pause : pauseState := mkPause false 0 0.
Definition no_slots : list Z := replicate (Z.to_nat (CLUSTER_SLOTS / 8)) 0.
Definition sample_node (nm : list Z) (fl epoch : Z) (sl : list nodeptr) (sof : option nodeptr) : clusterNode :=
  mkNode nm fl epoch no_slots 0 sl sof 0 0 [] true.
Definition sample_state (me : clusterNode) : clusterState :=
  mkState {[0%nat := me; 1%nat := sample_node [98] CLUSTER_NODE_MASTER 3 [2%nat] None;
            2%nat := sample_node [99] CLUSTER_NODE_SLAVE 3 [] (Some 1%nat)]}
    [0; 1; 2]%nat 0%nat 5 2 2 (replicate (Z.to_nat CLUSTER_SLOTS) None) (replicate (Z.to_nat CLUSTER_SLOTS) None)
    (replicate (Z.to_nat CLUSTER_SLOTS) None) 0 0 None 0 no_pause 0 [].
Definition me_master : clusterNode := sample_node [97] CLUSTER_NODE_MASTER 3 [] None.
Definition me_orphan : clusterNode := sample_node [97] CLUSTER_NODE_SLAVE 3 [] None.
Definition sample : clusterState := sample_state me_master.
(** The bitmap of slot 0. *)
Definition first_slot : list Z := 1 :: replicate (Z.to_nat (CLUSTER_SLOTS / 8 - 1)) 0.

Lemma bit_no_slots j : bit no_slots j = false.
Proof.
  unfold bit, no_slots. destruct (replicate _ 0 !! _) as [x|] eqn:E; [|apply Z.testbit_0_l].
  apply lookup_replicate in E as [-> _]. apply Z.testbit_0_l.
Qed.

Lemma bitmap_ok_zeros : bitmap_ok no_slots /\ bitmap_ok first_slot.
Proof.
  unfold bitmap_ok, no_slots, first_slot. cbn [length]. rewrite !length_replicate.
  split; (split; [done|]); [|apply Forall_cons; split; [unfold byte_ok; lia|]]; apply Forall_replicate; unfold byte_ok; lia.
Qed.

Lemma sample_nodes me p n :
  heap (sample_state me) !! p = Some n -> slots me = no_slots -> numslots me = 0 -> slots n = no_slots /\ numslots n = 0.
Proof.
  unfold sample_state. cbn [heap]. rewrite !lookup_insert_Some, lookup_singleton_Some. intros H Hs Hz.
  destruct H as [[_ <-]|(_ & [[_ <-]|(_ & _ & <-)])]; by rewrite ?Hs, ?Hz.
Qed.

Lemma sample_inv me : slots me = no_slots -> numslots me = 0 -> slots_inv (sample_state me).
Proof.
  intros Hs Hz. assert (Hno : forall j p, owners (sample_state me) !! Z.to_nat j <> Some (Some p)).
  { intros j p H. unfold sample_state in H. cbn [owners] in H. by apply lookup_replicate in H as [? _]. }
  split.
  - unfold sample_state. cbn [owners]. by rewrite length_replicate.
  - unfold sample_state. cbn [importing_slots_from]. by rewrite length_replicate.
  - intros p n Hn. destruct (sample_nodes me p n Hn Hs Hz) as [E1 E2]. unfold node_ok. rewrite E1, E2.
    split; [apply bitmap_ok_zeros|]. rewrite count_bits_false; [done|]. intros. apply bit_no_slots.
  - intros p n j Hn _. destruct (sample_nodes me p n Hn Hs Hz) as [-> _]. rewrite bit_no_slots. split; [done|].
    intros H. by apply Hno in H.
  - intros j p _ H. by apply Hno in H.
Qed.

Lemma sample_nodes_ok me : nodes_ok (sample_state me).
Proof.
  unfold nodes_ok, sample_state. cbn [heap nodes myself]. split; [|by eexists].
  apply (Forall_cons_2 _ 0%nat); [by eexists|]. apply (Forall_cons_2 _ 1%nat); [by eexists|].
  apply (Forall_cons_2 _ 2%nat); [by eexists|constructor].
Qed.

Lemma sample_free me : owners (sample_state me) !! Z.to_nat 0 = Some None.
Proof. unfold sample_state. cbn [owners]. apply lookup_replicate_2. vm_compute. lia. Qed.

(** The same state after node 1 was given slot 0. *)
Lemma clusterDelNodeSlots_correct_witness :
  exists s, clusterAddSlot sample 1%nat 0 = Some (s, C_OK) /\
  exists s', clusterDelNodeSlots s 1%nat = Some (s', CLUSTER_SLOTS) /\ slots_inv s' /\
    forall k, slot_ok k -> owners s' !! Z.to_nat k =
      if decide (owners s !! Z.to_nat k = Some (Some 1%nat)) then Some None else owners s !! Z.to_nat k.
Proof.
  assert (H0 : slot_ok 0) by (unfold slot_ok, CLUSTER_SLOTS; lia).
  destruct (clusterAddSlot_free sample 1%nat (sample_node [98] CLUSTER_NODE_MASTER 3 [2%nat] None) 0
    (sample_inv me_master eq_refl eq_refl) (sample_nodes_ok me_master) eq_refl H0 (sample_free me_master)) as (b & fl & _ & Hadd & Hinv).
  eexists. split; [exact Hadd|]. apply clusterDelNodeSlots_correct; [exact Hinv|].
  cbn [heap set_owners set_heap]. rewrite lookup_insert_eq. by eexists.
Defined.

Lemma clusterUpdateSlotsConfigWith_correct_witness :
  exists s', clusterUpdateSlotsConfigWith (fun _ => 0) sample 1%nat 3 first_slot = Some s' /\ slots_inv s' /\
    forall k, slot_ok k -> owners s' !! Z.to_nat k =
      if decide (1%nat = myself sample) then owners sample !! Z.to_nat k
      else updated 1%nat 3 first_slot sample 0 k <$> owners sample !! Z.to_nat k.
Proof.
  apply (clusterUpdateSlotsConfigWith_correct (fun _ => 0) sample 1%nat 3 first_slot me_master);
    [by apply sample_inv|apply sample_nodes_ok|by eexists|apply bitmap_ok_zeros|done|by left|done].
Defined.

Lemma clusterUpdateSlotsConfigWith_orphan_witness :
  clusterUpdateSlotsConfigWith (fun _ => 0) (sample_state me_orphan) 1%nat 3 first_slot = None.
Proof.
  apply (clusterUpdateSlotsConfigWith_orphan (fun _ => 0) (sample_state me_orphan) 1%nat 3 first_slot me_orphan 0);
    [by apply sample_inv|apply sample_nodes_ok|by eexists|apply bitmap_ok_zeros|done|done|done|done| |apply sample_free|].
  - unfold slot_ok, CLUSTER_SLOTS. lia.
  - unfold takes. change (bit first_slot 0) with true. rewrite andb_true_r. apply bool_decide_eq_true. exact (sample_free me_orphan).
Defined.

(** This node is given slot 0 and then asked for a vote: it grants it. *)
Lemma clusterSendFailoverAuthIfNeeded_correct_witness :
  let r := {| req_currentEpoch := 5; req_configEpoch := 3; req_myslots := first_slot; req_force_ack := true |} in
  let n := sample_node [99] CLUSTER_NODE_SLAVE 3 [] (Some 1%nat) in
  exists s s', clusterAddSlot sample 0%nat 0 = Some (s, C_OK) /\
    clusterSendFailoverAuthIfNeeded 100 1000 1001 s 2%nat r = Some s' /\ voted 1001 s s' 2%nat n.
Proof.
  intros r n. assert (H0 : slot_ok 0) by (unfold slot_ok, CLUSTER_SLOTS; lia).
  destruct (clusterAddSlot_free sample 0%nat me_master 0 (sample_inv me_master eq_refl eq_refl) (sample_nodes_ok me_master)
    eq_refl H0 (sample_free me_master)) as (b & fl & Hfl & Hadd & Hinv). cbv zeta in Hadd, Hinv.
  set (me := set_flags fl (set_numslots (numslots me_master + 1) (set_slots b me_master))) in *.
  set (s := set_owners _ _) in *. exists s.
  assert (Hn : heap s !! 2%nat = Some n) by (cbn [s heap set_owners set_heap]; by rewrite lookup_insert_ne).
  assert (Hme : heap s !! myself s = Some me) by (cbn [s heap myself set_owners set_heap]; apply lookup_insert_eq).
  assert (Hm : heap s !! 1%nat = Some (sample_node [98] CLUSTER_NODE_MASTER 3 [2%nat] None))
    by (cbn [s heap set_owners set_heap]; by rewrite lookup_insert_ne).
  destruct (clusterSendFailoverAuthIfNeeded_correct 100 1000 1001 s 2%nat r n me Hinv (proj2 bitmap_ok_zeros) Hn Hme)
    as (s' & Hrun & [[_ Hv]|[Hc _]]); [intros m [= <-]; exact (ex_intro _ _ Hm)|exists s'; split; [exact Hadd|by split]|].
  exfalso. apply Hc. split_and!; [by destruct Hfl as [->| ->]|done|done|done|done| |].
  - eexists 1%nat, _. split_and!; [done|exact Hm|by right|done].
  - intros j q o _ _ _ Hq. cbn [s heap set_owners set_heap] in Hq. unfold sample, sample_state in Hq. cbn [heap] in Hq.
    rewrite !lookup_insert_Some, lookup_singleton_Some in Hq.
    destruct Hq as [[_ <-]|(_ & [[_ <-]|(_ & [[_ <-]|(_ & _ & <-)])])]; done.
Defined.

(** Node 0 with slots votes in epoch 5, refuses a second request, moves to
    epoch 6 with a header, and votes again. *)
Definition voter : clusterState :=
  sample_state (mkNode [97] CLUSTER_NODE_MASTER 3 no_slots 1 [] None 0 0 [] true).
Definition sample_events : list event :=
  let req e := {| req_currentEpoch := e; req_configEpoch := 3; req_myslots := first_slot; req_force_ack := true |} in
  [VoteRequest 100 1000 1001 2%nat (req 5); VoteRequest 100 1000 1001 2%nat (req 5); Header 1%nat 7 4;
   VoteRequest 100 2000 2001 2%nat (req 7); Bump; Collision 1%nat].

Lemma one_vote_per_epoch_witness :
  exists s' votes, run_events voter sample_events = Some (s', votes) /\ votes.*1 = [5; 7] /\
    StronglySorted Z.lt votes.*1 /\ NoDup votes.*1.
Proof.
  assert (Hv : option_map (fun x => x.2.*1) (run_events voter sample_events) = Some [5; 7]) by by vm_compute.
  destruct (run_events voter sample_events) as [[s' votes]|] eqn:E; [|discriminate].
  exists s', votes. split; [reflexivity|]. split; [injection Hv as Hv; exact Hv|]. apply (one_vote_per_epoch sample_events voter s' votes 10 E).
  - repeat constructor; cbn; lia.
  - cbn. lia.
  - cbn. lia.
  - cbn. lia.
Defined.

(** Node 0 and node 1 both serve under epoch 3: what each knows. *)
Definition state_of (nm other : list Z) : clusterState :=
  mkState {[0%nat := sample_node nm CLUSTER_NODE_MASTER 3 [] None; 1%nat := sample_node other CLUSTER_NODE_MASTER 3 [] None]}
    [0; 1]%nat 0%nat 5 2 2 [] [] [] 0 0 None 0 no_pause 0 [].
Definition state_of' (nm other : list Z) : clusterState :=
  mkState {[0%nat := sample_node other CLUSTER_NODE_MASTER 3 [] None; 1%nat := sample_node nm CLUSTER_NODE_MASTER 3 [] None]}
    [0; 1]%nat 1%nat 5 2 2 [] [] [] 0 0 None 0 no_pause 0 [].

Lemma collision_resolved_witness :
  let sa := state_of [97] [98] in
  let sb := state_of' [98] [97] in
  exists sa' sb' ma' mb', clusterHandleConfigEpochCollision sa (myself sb) = Some sa' /\
    clusterHandleConfigEpochCollision sb (myself sa) = Some sb' /\
    heap sa' !! myself sa' = Some ma' /\ heap sb' !! myself sb' = Some mb' /\ configEpoch ma' <> configEpoch mb'.
Proof.
  intros sa sb.
  apply (collision_resolved sa sb (sample_node [97] CLUSTER_NODE_MASTER 3 [] None) (sample_node [98] CLUSTER_NODE_MASTER 3 [] None)
    (sample_node [97] CLUSTER_NODE_MASTER 3 [] None) (sample_node [98] CLUSTER_NODE_MASTER 3 [] None)); first [done|cbn; lia].
Defined.

(** Node 1 is suspected by this node and by node 2. *)
Definition suspected : clusterNode :=
  mkNode [98] (Z.lor CLUSTER_NODE_MASTER CLUSTER_NODE_PFAIL) 3 [] 0 [] None 0 0 [(2%nat, 950)] true.
Definition failing_state : clusterState :=
  mkState {[0%nat := me_master; 1%nat := suspected; 2%nat := me_master]}
    [0; 1; 2]%nat 0%nat 5 2 3 [] [] [] 0 0 None 0 no_pause 0 [].

Lemma failing_reports_ok : reports_ok failing_state.
Proof.
  intros p n. unfold failing_state. cbn [heap]. rewrite !lookup_insert_Some, lookup_singleton_Some.
  intros [[_ <-]|(_ & [[_ <-]|(_ & _ & <-)])]; [constructor|apply NoDup_singleton|constructor].
Qed.

Lemma clusterNodeAddFailureReport_correct_witness :
  exists s' n' r, clusterNodeAddFailureReport 1000 failing_state 1%nat 0%nat = Some (s', r) /\ reports_ok s' /\
    heap s' !! 1%nat = Some n' /\ (0%nat, 1000) ∈ fail_reports n' /\
    r = (if decide (0%nat ∈ (fail_reports suspected).*1) then 0 else 1) /\
    (fail_reports n').*1 = (fail_reports suspected).*1 ++ (if decide (0%nat ∈ (fail_reports suspected).*1) then [] else [0%nat]).
Proof. apply clusterNodeAddFailureReport_correct; [apply failing_reports_ok|done]. Defined.

(** Node 1 is suspected by this node; node 2, a master, reports it: the report
    makes a majority of three. *)
Definition quiet_state : clusterState := set_heap (<[1%nat := set_fail_reports [] suspected]> (heap failing_state)) failing_state.

Lemma quiet_reports q m : heap quiet_state !! q = Some m -> fail_reports m = [].
Proof.
  unfold quiet_state, failing_state. cbn [heap set_heap]. rewrite !lookup_insert_Some, lookup_singleton_Some.
  intros [[_ <-]|(H & [[_ <-]|(_ & [[? _]|(_ & _ & <-)])])]; done.
Qed.

Lemma markNodeAsFailing_quorum_witness :
  exists s' n', process_gossip_entry 100 1000 1001 1002 quiet_state 2%nat 1%nat CLUSTER_NODE_PFAIL = Some s' /\
    heap s' !! 1%nat = Some n' /\ nodeFailed n' = true /\ fail_reports n' = [(2%nat, 1000)] /\
    (forall v t, (v, t) ∈ fail_reports n' -> (1%nat, v, t) ∈ [] ++ [(1%nat, 2%nat, 1000)] /\ 1001 - t <= 100 * 2).
Proof.
  destruct (markNodeAsFailing_quorum 100 quiet_state quiet_state [] 2%nat me_master 1%nat CLUSTER_NODE_PFAIL 1000 1001 1002
    (set_fail_reports [] suspected) me_master quiet_reports (rtc_refl _ _) eq_refl eq_refl eq_refl eq_refl)
    as (s' & n' & Hrun & Hn' & Hiff & _ & Hv).
  assert (Hr : match process_gossip_entry 100 1000 1001 1002 quiet_state 2%nat 1%nat CLUSTER_NODE_PFAIL with
      Some s1 => fail_reports <$> heap s1 !! 1%nat | None => None end = Some [(2%nat, 1000)]) by by vm_compute.
  rewrite Hrun in Hr. cbv beta iota in Hr.
  apply (eq_trans (eq_sym (f_equal (fmap fail_reports) Hn'))) in Hr. injection Hr as Hr.
  assert (Hf : nodeFailed n' = true).
  { apply Hiff. split_and!; [done..|]. rewrite Hr. vm_compute. discriminate. }
  exists s', n'. split_and!; [done..|]. exact (Hv Hf).
Defined.
